(* ===== verification/_CoqProject ===== *)
-Q . S2P
Prelude.v
JsNum.v
JsNumFacts.v
Bytes.v
JsStr.v
JsValue.v
JsDecimal.v
Utf8.v
Sha256.v
Libs.v
ProxyCodec.v
Consensus.v
Compact.v
ArithUint.v
BlockIndex.v
PowTarget.v
PowTargetFacts.v
LruCache.v
RandomXVms.v
EtchashSize.v
EtchashPrime.v
Keccak.v
Etchash.v
QHash.v
PowAlgo.v
HeaderAccept.v
ProxyRate.v
ProxyCodecFacts.v
ProxyConsensus.v
FoundBlocks.v
ProxyMessages.v
NodeRpc.v
ProxyRpc.v
JsonFacts.v
ProxyDelivery.v
ProxyConfig.v
ProxyServer.v
ProxyServerInv.v
ProxyFrames.v
ProxyServerRuns.v
ProxyConnections.v
ProxySubmits.v
Backup.v
BackupFacts.v
BackupManifest.v
BackupRecovery.v
HashDomainCheck.v
