(* ===== verification/Prelude.v ===== *)
(** * The RCPU operational layer: a verification development

    This library models and verifies the JavaScript programs of the RCPU
    repository, the stratum proxy that stands between miners and an RCPU node
    and the two scripts that go with it, together with the C++ node's proof of
    work: what a header hashes to under each algorithm, the difficulty it must
    meet, and how headers enter the node's index.

    ** The program

    - [contrib/admin/current_proxy.js] is one Node process.  It takes its secrets
      and ports from the environment, asks the node for block templates over
      JSON-RPC, turns each into a job (a 112-byte RandomX header with a target),
      hands jobs to miners over TCP in two dialects (xmrig and stratum), checks
      what miners submit by hashing it, and submits found blocks.  A rate limiter
      bounds the hashing, one function is the only way to write to a socket, and
      a timer refreshes the job and the RandomX machine.
    - [contrib/admin/backup.js] copies the proxy scripts into dated directories,
      keeps the ten newest, lists them and restores single files.
    - [scripts/check_proxy_hashdomain.js] asserts that copies of the proxy's
      header functions produce the node's canonical RandomX input.
    - The node ([src/pow.cpp], [src/primitives/block.h], [src/arith_uint256.cpp],
      [src/serialize.h], [src/rpc/mining.cpp], [src/rpc/request.cpp],
      [src/kernel/chainparams.cpp]) fixes what a header hashes to, when it is a
      block, and what the RPC replies look like.  Its difficulty rules
      ([src/pow.cpp]) set the target of the next block of either algorithm from
      the table of known headers ([src/chain.cpp], [src/node/blockstorage.cpp]),
      with big integers of its own ([src/arith_uint256.h]); it keeps RandomX
      machines in caches that verification threads share.  The second algorithm
      is Etchash ([src/crypto/etchash.cpp] over [src/crypto/keccak.cpp]) or the
      older qhash ([src/crypto/qhash.cpp]), by height and version; headers are
      judged and added to the index in [src/validation.cpp].

    ** How it is modelled

    JavaScript values are translated as they are: strings are lists of UTF-16
    code units, Numbers are IEEE doubles ([spec_float] of the Standard Library
    with the language's conversions), buffers are lists of bytes, BigInts are
    [Z], an exception is [Throw] of its class.  Code the repository does not hold
    (the RandomX bindings and BLAKE2b) is a class of operations with a class of
    laws, [Libs.RandomXLib] and [Libs.RandomXLaws], and a concrete instance shows
    the laws can hold.  What the environment answers (clock, random bytes, the
    outcome, time and order of file-system calls) is a parameter of the section
    that uses it.

    - [Prelude]: completions, the result monad, tactics, shared list facts.
    - [JsNum], [JsNumFacts], [JsDecimal]: Numbers, their integers, decimal text.
    - [Bytes], [JsStr], [JsValue], [Utf8]: bytes and hexadecimal, string methods,
      values with property access, coercions and JSON, UTF-8 and base64.
    - [Sha256], [Libs]: SHA-256 and the interface to RandomX and BLAKE2b.
    - [ProxyCodec]: the pure functions of the proxy (headers, commitments,
      targets, difficulties, jobs, share evaluation).
    - [Consensus], [NodeRpc]: the node's side of the same data.
    - [ArithUint]: [base_uint] as an array of 32-bit limbs, loop by loop; the rest
      of the development computes on the numbers such arrays stand for.
    - [BlockIndex]: the map of [CBlockIndex] entries.  A pointer is a position in
      the order of insertion; [built] is closure under [AddToBlockIndex] and under
      the node's other writes of its best header, which pick some entry.
    - [PowTarget]: ASERT, the difficulty per algorithm, the legacy retarget and
      [PermittedDifficultyTransition]; signed and unsigned integers wrap at their
      width and a failed assertion is [None].
    - [LruCache], [RandomXVms]: the cache of machines, and [GetVM] with
      [CreateFastVM] as threads that interleave between their accesses to the
      caches and the lock; [RandomXVms.reachable] is closure under such steps.
    - [EtchashSize]: [mulmod], [powmod], [IsPrime] and the two size loops.
      [Keccak]: the permutation on lanes and the streaming hasher.  [Etchash]: the
      cache, the dataset items and light verification, where an access out of
      bounds is [None].  [QHash]: the fixed-point circuit, where a result outside
      64 signed bits is [None].
    - [PowAlgo]: the choice of the algorithm, the Etchash and qhash checks with the
      shared cache of tables, [CheckBlockHeader], the proof of work of
      [CheckBlock] and [HasValidProofOfWork].
    - [HeaderAccept]: [ContextualCheckBlockHeader], [AcceptBlockHeader] and
      [ProcessNewBlockHeaders] over the index, the validity flags and the failed
      blocks; [HeaderAccept.reach] is closure under loading the genesis block,
      offering headers, and what the rest of the node does to flags, caches and
      the best header.
    - [ProxyRate]: [rateLimitedSubmit].  [ProxyMessages]: the message builders.
    - [ProxyRpc]: [makeRpcRequest], [getBlockTemplate], [submitBlockToNode].
    - [ProxyConfig]: the environment variables and the refusal to start.
    - [ProxyServer]: the module state as a record and every event handler as a
      function on it; [step] is one event of the event loop, an [await] leaves a
      pending task behind, [reachable] is closure under [step].
    - [Backup]: the script over a finite map of paths, where every call may be
      refused, or interrupted with part of its effect (some bytes written, some
      directories made, some of a tree removed); sorting is stable, as the
      language defines it.  [HashDomainCheck]: the check script.

    ** What is proved

    - Agreement with consensus ([ProxyCodecFacts], [ProxyConsensus]): the header
      of a job is the canonical one, the epoch key is the node's, and the proxy's
      block decision is the node's [CheckProofOfWorkRandomX].  Where the proxy
      differs from the node (compact targets, transaction counts, share targets)
      the theorems say exactly where.
    - The node's arithmetic ([Compact], [ArithUint]): every limb loop computes the
      operation on numbers modulo its width, division is exact, and the compact
      encoding rounds down, is stable and keeps the order.
    - The table of headers ([BlockIndex]): ancestors are found in a bounded number
      of steps, counts, times and work are those of the chain, and adding a header
      never leaves a best header with less work.
    - Difficulty ([PowTargetFacts]): the code is the ASERT formula over unbounded
      integers, with its cubic factor, follows the schedule, gives each algorithm
      its own difficulty from half the target of the anchor block (on every
      network, with or without the cached count), and always returns valid bits;
      what a retarget computes passes the presynchronisation bound.
    - RandomX machines ([LruCache], [RandomXVms]): the cache is a bounded list by
      recency; in every interleaving a machine has its epoch's key, nothing
      published is replaced, and some thread can always go on.
    - Etchash sizes ([EtchashSize], [EtchashPrime]): the modular arithmetic is
      exact up to 2^63, the test accepts every prime there, so the loops end at
      the highest size of an admissible row count.
    - Hashes ([Keccak], [Etchash], [QHash]): however a message is cut, the hasher
      computes the bit-level sponge; the Etchash code computes the published
      Ethash functions and never leaves its arrays; the qhash circuit never
      overflows, because rounding adds a bounded amount to the norm of its state.
    - Header checks ([PowAlgo]): what full verification accepts also passes the
      cheap checks, whatever the cache holds; the pre-check is exact for the
      second algorithm and trusts the commitment of the first.
    - Accepting headers ([HeaderAccept]): every entry of a reachable index stands
      for a header with real work at the difficulty of its algorithm; a header is
      accepted exactly if the rules say so; what breaks a rule of the context is
      rejected before any hash is computed; a batch is taken in order up to the
      first header that is not admissible.
    - From end to end ([FoundBlocks]): while the proxy's machine has the key of the
      epoch the node verifies under, what the proxy calls a block is what the node
      takes into its index, on top of any validated entry.
    - The rate limiter ([ProxyRate]) refines a sliding-window specification as long
      as the clock does not go back, and differs from it when it does.
    - The RPC client ([ProxyRpc]): what goes on the wire, what every reply turns
      into however it is cut between characters, the bytes of a submitted block,
      and the replies it misreads.
    - The server ([ProxyServerInv], [ProxyServerRuns]): an invariant of all
      reachable states (resource caps, the shared secret, the hashing budget,
      message framing, the machine's key), no crash from a peer, insensitivity to
      how input is cut while its lines run through, progress of the periodic
      update, and runs that show the program's own faults (a login that hides an
      epoch change, a failed start that leaves no machine, a line that drops the
      ones after it, logins that wait without limit).  [ProxyFrames]
      is a small calculus for what a handler leaves alone; with it
      [ProxyConnections] shows that the map of miners is the set of open
      connections while client ids are distinct, what happens when they are not,
      and that a null template ends the process.
    - The submit handlers from end to end ([ProxySubmits]): every submit of an
      authorized miner gets exactly one answer, known in closed form, or its
      socket is destroyed, or could no longer be written to.
    - What miners receive ([JsonFacts], [ProxyDelivery]): a value that is printed
      as JSON is parsed back, with any white space between the tokens, so a miner
      that reads the proxy's login replies and job notifications has the node's
      header, target and height and the seed of its epoch; a stratum miner has
      the fields of [mining.notify] only.
    - The backup script ([BackupFacts], [BackupManifest], [BackupRecovery]):
      confinement of backup, cleanup, restore, listing and every command line
      under any failures; and without failures, which backups cleanup keeps, that
      a restore brings back what a backup saved (under a fresh name and a clock
      ahead of the older backups), and that the listing is complete, ordered and
      shows what the manifests state.
    - The check script ([HashDomainCheck]): its assertions hold for every
      template, and where its copies differ from the proxy.

    ** Fuel and bounds

    [ProxyCodec.pad64] runs 64 turns because a turn adds a character and stops at
    64.  [JsNum.dec_digits] has one turn per bit, more than there are decimal
    digits ([JsDecimal.dec_string_value]).  [JsNum.shortest] tries 18 lengths;
    17 significant digits identify a double.  [JsNum.decimal_exponent] has 800
    turns; a double's decimal exponent is within 330 of zero.  [JSON_parse]
    recurses on a bound of the text's length, which [JsonFacts.reads_parse] shows
    to be enough for every text the programs print.  [BlockIndex.walk] has one
    turn per height, which [BlockIndex.get_ancestor] shows to be enough, and
    [PowTarget.count_back] one per entry.  [ArithUint.div_loop] has as many turns
    as bits to shift.  [EtchashSize.mulmod] and [powmod] have 64 turns, one per
    bit; the size loops take their fuel as an argument, and
    [EtchashPrime.size_search_ends] bounds it; [PowAlgo.size_turns] is enough for
    every epoch below [PowAlgo.MAX_EPOCH] ([PowAlgo.epoch_sizes]), which keeps the
    tables below 4 GiB, where the code's 32-bit row offsets are exact.
    [Keccak.write_loop] has one turn per byte, [QHash.keystream_loop] one per
    byte, and [HeaderAccept.mark_failed] one per address, which
    [HeaderAccept.mark_total] shows to be enough.  Everything else is structural.

    ** Not modelled

    Console output (only what formatting a message can throw is kept); the help
    text of the backup script; symbolic links, permissions and other processes in
    its file system; the draining of a socket's queue inside a handler, so that a
    queue in the model is never shorter than the real one; sockets and HTTP below the level of delivered
    chunks, drained bytes and closed connections; the test driver
    [scripts/test_xmrig_proxy_integration.js], which only spawns processes and
    compares output; of the node, the hexadecimal text of big integers, the
    joining of builder threads at shutdown, the loading of the table of headers
    from disk, the validation of whole blocks and transactions, the wallet, the
    network and the storage, its vendored libraries and its graphical interface,
    whose [.ts] files are translation tables; and the Python and shell helpers,
    which print what RPC calls and files contain.  That [IsPrime] rejects every
    composite rests on the published search for its bases and is not proved. *)

From Stdlib Require Import ZArith Lia Bool String Ascii.
From stdpp Require Import base list numbers option.

Open Scope Z_scope.

(** ** JavaScript completions

    A call either returns or throws.  Only the class of the thrown error is
    kept: the program uses [e.message] in log lines and nowhere else. *)

Inductive jserror :=
  | TypeError
  | RangeError
  | SyntaxError
  | RpcError
  | RuntimeError.

Inductive res (A : Type) :=
  | Ok (a : A)
  | Throw (e : jserror).

Arguments Ok {A} a.
Arguments Throw {A} e.

#[export] Instance res_ret : MRet res := fun A a => Ok a.
#[export] Instance res_bind : MBind res := fun A B f r =>
  match r with Ok a => f a | Throw e => Throw e end.

#[export] Instance jserror_eq_dec : EqDecision jserror.
Proof. solve_decision. Defined.

#[export] Instance res_eq_dec {A} `{EqDecision A} : EqDecision (res A).
Proof. solve_decision. Defined.

Definition is_ok {A} (r : res A) : bool := match r with Ok _ => true | Throw _ => false end.

(** ** Automation *)

Create HintDb js discriminated.

(** Split every [match]/[if] scrutinee of the goal, keeping its equation. *)
Ltac case_goal :=
  repeat match goal with
  | |- context [match ?x with _ => _ end] =>
      lazymatch x with context [match _ with _ => _ end] => fail | _ => idtac end;
      let E := fresh "E" in destruct x eqn:E
  end.

(** The same on one hypothesis. *)
Ltac case_hyp H :=
  repeat match type of H with
  | context [match ?x with _ => _ end] =>
      lazymatch x with context [match _ with _ => _ end] => fail | _ => idtac end;
      let E := fresh "E" in destruct x eqn:E; try discriminate H
  end.

(** Turn boolean tests of the code into the propositions they decide. *)
Ltac breflect :=
  repeat match goal with
  | H : (_ && _)%bool = true |- _ => apply andb_true_iff in H; destruct H
  | H : (_ || _)%bool = false |- _ => apply orb_false_iff in H; destruct H
  | H : negb _ = true |- _ => apply negb_true_iff in H
  | H : negb _ = false |- _ => apply negb_false_iff in H
  | H : (_ <=? _) = true |- _ => apply Z.leb_le in H
  | H : (_ <=? _) = false |- _ => apply Z.leb_gt in H
  | H : (_ <? _) = true |- _ => apply Z.ltb_lt in H
  | H : (_ <? _) = false |- _ => apply Z.ltb_ge in H
  | H : (_ =? _) = true |- _ => apply Z.eqb_eq in H
  | H : (_ =? _) = false |- _ => apply Z.eqb_neq in H
  end.

(** Evaluate the integer comparisons of the goal that the context decides. *)
Ltac zbool :=
  repeat match goal with
  | |- context [?a <? ?b] => first [rewrite (proj2 (Z.ltb_lt a b)) by lia | rewrite (proj2 (Z.ltb_ge a b)) by lia]
  | |- context [?a <=? ?b] => first [rewrite (proj2 (Z.leb_le a b)) by lia | rewrite (proj2 (Z.leb_gt a b)) by lia]
  | |- context [?a =? ?b] => first [rewrite (proj2 (Z.eqb_eq a b)) by lia | rewrite (proj2 (Z.eqb_neq a b)) by lia]
  end; cbn [andb orb negb].

(** Inversion of a successful bind. *)
Lemma res_bind_ok {A B} (f : A -> res B) (r : res A) (b : B) :
  (r ≫= f) = Ok b -> exists a, r = Ok a /\ f a = Ok b.
Proof. destruct r; cbn; [eauto | discriminate]. Qed.

Ltac inv_ok :=
  repeat match goal with
  | H : (_ ≫= _) = Ok _ |- _ =>
      apply res_bind_ok in H;
      let a := fresh "a" in let Ha := fresh "Ha" in destruct H as (a & Ha & H)
  | H : Ok _ = Ok _ |- _ => injection H as H; subst
  | H : Throw _ = Ok _ |- _ => discriminate H
  | H : Ok _ = Throw _ |- _ => discriminate H
  | H : mret _ = Ok _ |- _ => injection H as H; subst
  end.

(** ** Lists *)

Section Lists.
Context {A : Type}.
Implicit Types (l k : list A).

Lemma take_app_ge_length l k n : (n <= List.length l)%nat -> take n (l ++ k) = take n l.
Proof. intros H. rewrite take_app_le; auto. Qed.

Lemma Forall_take_drop (P : A -> Prop) l n : Forall P l -> Forall P (take n l) /\ Forall P (drop n l).
Proof. intros H. split; [by apply Forall_take | by apply Forall_drop]. Qed.

End Lists.

(** ** Integers *)

(** Division by a fixed power of 256, the shape every byte codec uses. *)
Lemma div_mod_256 n : n = 256 * (n / 256) + n mod 256.
Proof. apply Z.div_mod. lia. Qed.

Lemma byte_range n : 0 <= n mod 256 < 256.
Proof. apply Z.mod_pos_bound. lia. Qed.

(** ** Loops

    A loop over indices whose body may fail. *)

Fixpoint loop {A} (l : list nat) (f : nat -> A -> option A) (a : A) : option A :=
  match l with [] => Some a | i :: l => a ← f i a; loop l f a end.

Lemma some_bind {A B} (a : A) (f : A -> option B) : (Some a ≫= f) = f a.
Proof. done. Qed.

Lemma loop_nil {A} (f : nat -> A -> option A) a : loop [] f a = Some a.
Proof. done. Qed.

Lemma loop_cons {A} i l (f : nat -> A -> option A) a : loop (i :: l) f a = f i a ≫= loop l f.
Proof. done. Qed.

(** A loop on [abs b] that follows a fold on [b]. *)
Lemma loop_foldl {A B} (abs : B -> A) (P : B -> Prop) (f : nat -> A -> option A) (g : B -> nat -> B) l b :
  (forall i b, i ∈ l -> P b -> f i (abs b) = Some (abs (g b i)) /\ P (g b i)) -> P b ->
  loop l f (abs b) = Some (abs (foldl g b l)) /\ P (foldl g b l).
Proof.
  revert b. induction l as [|i l IH]; intros b Hf Hb; [done|]. cbn [loop foldl].
  destruct (Hf i b (list_elem_of_here _ _) Hb) as [-> Hg]. cbn [mbind option_bind]. apply IH; [|done]. intros j c Hj. apply Hf. by right.
Qed.

Lemma loop_fold {A} (P : A -> Prop) (f : nat -> A -> option A) (g : A -> nat -> A) l a :
  (forall i a, i ∈ l -> P a -> f i a = Some (g a i) /\ P (g a i)) -> P a -> loop l f a = Some (foldl g a l) /\ P (foldl g a l).
Proof. exact (loop_foldl (fun a => a) P f g l a). Qed.

Lemma mapM_some {A B} (f : A -> option B) (g : A -> B) l : (forall x, x ∈ l -> f x = Some (g x)) -> mapM f l = Some (map g l).
Proof.
  induction l as [|x l IH]; intros H; [done|]. cbn. rewrite (H x) by apply list_elem_of_here. cbn. rewrite IH; [done|].
  intros y Hy. apply H. by right.
Qed.

Lemma lookup_some {A} `{Inhabited A} (l : list A) i : (i < List.length l)%nat -> l !! i = Some (l !!! i).
Proof. intros Hi. destruct (lookup_lt_is_Some_2 _ _ Hi) as [x Hx]. by rewrite Hx, (list_lookup_total_correct _ _ _ Hx). Qed.

(** Invariants of a loop that counts up. *)
Lemma loop_inv {A} (P : nat -> A -> Prop) (f : nat -> A -> option A) n s a :
  (forall i a, (s <= i < s + n)%nat -> P i a -> exists a', f i a = Some a' /\ P (S i) a') -> P s a ->
  exists a', loop (seq s n) f a = Some a' /\ P (s + n)%nat a'.
Proof.
  revert s a. induction n as [|n IH]; intros s a Hf Ha; [exists a; by rewrite Nat.add_0_r|]. cbn [seq]. rewrite loop_cons.
  destruct (Hf s a ltac:(lia) Ha) as (a1 & -> & H1). rewrite some_bind. destruct (IH (S s) a1) as (a2 & E & H2); [|done|].
  - intros i b Hi. apply Hf. lia.
  - exists a2. split; [done|]. by rewrite <- Nat.add_succ_comm.
Qed.
