(* ===== verification/JsNum.v ===== *)
(** * JavaScript Numbers

    A Number is an IEEE 754 binary64, here the Standard Library's executable
    [spec_float] at precision 53 and exponent bound 1024.  The file holds what
    the sources use of Number: conversion from integers and decimal literals
    (correctly rounded), [ToString], [ToUint32], [Math.floor], [/], [<], [===]
    and [Math.min]. *)

From Stdlib Require Import ZArith Lia Bool SpecFloat String Ascii.
From stdpp Require Import base list numbers option.
From S2P Require Import Prelude.

Open Scope Z_scope.

Definition num := spec_float.

Definition NaN : num := S754_nan.
Definition zero : num := S754_zero false.

#[export] Instance num_eq_dec : EqDecision num.
Proof. solve_decision. Defined.

(** [𝔽(m * 2^e)]: round to nearest, ties to even. *)
Definition round2 (m e : Z) : num := binary_normalize 53 1024 m e false.

(** The Number of an integer (a literal, or [Number(bigint)]). *)
Definition num_of_Z (n : Z) : num := round2 n 0.

(** The Number nearest to [m * 10^e], for a nonnegative [m].  The two guards on
    [e] return what rounding would: [10^401] is above every finite Number, and
    [m * 10^e < 2^(log2 m + 1 + 3e)] is below half the least one. *)
Definition num_of_dec (m e : Z) : num :=
  if m =? 0 then zero
  else if 400 <? e then S754_infinity false
  else if Z.log2 m + 1 + 3 * e <? -1100 then zero
  else if 0 <=? e then round2 (m * 10 ^ e) 0
  else SFdiv 53 1024 (S754_finite false (Z.to_pos m) 0)
                     (S754_finite false (Z.to_pos (10 ^ (- e))) 0).

Definition num_opp (x : num) : num := SFopp x.
Definition num_div (x y : num) : num := SFdiv 53 1024 x y.
Definition num_lt (x y : num) : bool := SFltb x y.
Definition num_eq (x y : num) : bool := SFeqb x y.

(** [Math.min(x, y)]: NaN if either is NaN, and -0 below +0. *)
Definition math_min (x y : num) : num :=
  match SFcompare x y with
  | None => NaN
  | Some Lt => x
  | Some Gt => y
  | Some Eq => match x, y with
               | S754_zero sx, S754_zero sy => S754_zero (sx || sy)
               | _, _ => x
               end
  end.

(** The integer part, towards zero; [None] for NaN and the infinities. *)
Definition trunc (x : num) : option Z :=
  match x with
  | S754_zero _ => Some 0
  | S754_finite s m e =>
      let a := if 0 <=? e then Z.pos m * 2 ^ e else Z.pos m / 2 ^ (- e) in
      Some (if s then - a else a)
  | _ => None
  end.

(** The value as an integer, when it is one. *)
Definition integral (x : num) : option Z :=
  match x with
  | S754_finite s m e =>
      if 0 <=? e then trunc x
      else if Z.pos m mod 2 ^ (- e) =? 0 then trunc x else None
  | _ => trunc x
  end.

(** [Math.floor]. *)
Definition math_floor (x : num) : num :=
  match x with
  | S754_finite s m e =>
      if 0 <=? e then x
      else
        let q := Z.pos m / 2 ^ (- e) in
        let r := Z.pos m mod 2 ^ (- e) in
        if s then (if r =? 0 then num_of_Z (- q) else num_of_Z (- (q + 1)))
        else num_of_Z q
  | _ => x
  end.

(** [x >>> 0]. *)
Definition to_uint32 (x : num) : Z :=
  match trunc x with Some n => n mod 2 ^ 32 | None => 0 end.

(** ** Number to string *)

Definition digit (d : Z) : Z := d + 48.

(** Decimal digits of a nonnegative integer, most significant first, as code
    units.  [fuel] bounds the number of digits. *)
Fixpoint dec_digits (fuel : nat) (n : Z) (acc : list Z) : list Z :=
  match fuel with
  | O => acc
  | S f => if n <? 10 then digit n :: acc
           else dec_digits f (n / 10) (digit (n mod 10) :: acc)
  end.

(** A number of [b] bits has at most [b] decimal digits. *)
Definition dec_string (n : Z) : list Z :=
  dec_digits (S (Z.to_nat (Z.log2 n))) n [].

(** [Number::toString] asks for the shortest decimal [s * 10^(n-k)] (with [s]
    of [k] digits) that rounds back to [x], and the closest to [x] among those
    of that length.  [m * 2^e] is [x > 0]; [search] tries the lengths in turn. *)
Definition scaled (m e q : Z) : Z * Z :=
  let num := m * (if 0 <=? e then 2 ^ e else 1) * (if 0 <=? q then 10 ^ q else 1) in
  let den := (if 0 <=? e then 1 else 2 ^ (- e)) * (if 0 <=? q then 1 else 10 ^ (- q)) in
  (num, den).

Fixpoint decimal_exponent (fuel : nat) (m e n : Z) : Z :=
  match fuel with
  | O => n
  | S f => let '(a, b) := scaled m e (- n) in
           if b <=? a then decimal_exponent f m e (n + 1)
           else let '(a', b') := scaled m e (1 - n) in
                if a' <? b' then decimal_exponent f m e (n - 1) else n
  end.

Fixpoint shortest (fuel : nat) (x : num) (m e n k : Z) : Z * Z :=
  match fuel with
  | O => (0, k)
  | S f =>
      let '(a, b) := scaled m e (k - n) in
      let lo := a / b in
      let ok s := num_eq (num_of_dec s (n - k)) x in
      let near := 2 * (a mod b) <=? b in
      if near && ok lo then (lo, k)
      else if ok (lo + 1) then (lo + 1, k)
      else if ok lo then (lo, k)
      else shortest f x m e n (k + 1)
  end.

Definition zeros (n : Z) : list Z := replicate (Z.to_nat n) 48.

(** The layout rules of [Number::toString] for digits [ds] ([k] of them) and
    decimal exponent [n]. *)
Definition layout (ds : list Z) (k n : Z) : list Z :=
  if (k <=? n) && (n <=? 21) then ds ++ zeros (n - k)
  else if (0 <? n) && (n <=? 21) then take (Z.to_nat n) ds ++ [46] ++ drop (Z.to_nat n) ds
  else if (-6 <? n) && (n <=? 0) then [48; 46] ++ zeros (- n) ++ ds
  else
    let ex := n - 1 in
    let tail := [101; if ex <? 0 then 45 else 43] ++ dec_string (Z.abs ex) in
    if k =? 1 then ds ++ tail else take 1 ds ++ [46] ++ drop 1 ds ++ tail.

Definition num_to_string (x : num) : list Z :=
  match x with
  | S754_nan => [78; 97; 78]
  | S754_zero _ => [48]
  | S754_infinity s =>
      (if s then [45] else []) ++ [73; 110; 102; 105; 110; 105; 116; 121]
  | S754_finite s m e =>
      let abs := S754_finite false m e in
      let n := decimal_exponent 800 (Z.pos m) e 1 in
      let '(d, k) := shortest 18 abs (Z.pos m) e n 1 in
      (if s then [45] else []) ++ layout (dec_string d) k n
  end.
