(* ===== verification/JsNumFacts.v ===== *)
(** * Integers as JavaScript Numbers

    Integers below [2^53] are exact as Numbers: truncation, comparison and the
    floor of a quotient on Numbers agree with the integer operations.  This is
    what lets the sources compute with timestamps, counts and heights in
    floating point. *)

From Stdlib Require Import ZArith Lia Bool SpecFloat.
From stdpp Require Import base list numbers option.
From S2P Require Import Prelude JsNum.

Open Scope Z_scope.

Lemma digits2_log2 p : Z.pos (digits2_pos p) = Z.log2 (Z.pos p) + 1.
Proof.
  induction p as [p IH|p IH|]; cbn [digits2_pos]; [| |done]; rewrite Pos2Z.inj_succ, IH.
  - change (Z.pos p~1) with (2 * Z.pos p + 1). rewrite Z.log2_succ_double by lia. lia.
  - change (Z.pos p~0) with (2 * Z.pos p). rewrite Z.log2_double by lia. lia.
Qed.

Lemma Zdigits2_log2 m : 0 < m -> Zdigits2 m = Z.log2 m + 1.
Proof. destruct m; try lia. intros _. apply digits2_log2. Qed.

Lemma iter_xO p d : Z.pos (Pos.iter xO p d) = Z.pos p * 2 ^ Z.pos d.
Proof.
  induction d as [|d IH] using Pos.peano_ind; [cbn; lia|].
  rewrite Pos.iter_succ, Pos2Z.inj_xO, IH, Pos2Z.inj_succ, Z.pow_succ_r by lia. lia.
Qed.

(** [shr] by nothing. *)
Lemma shr_fexp_fit m e l :
  0 < m -> Z.log2 m <= 52 -> -1074 <= e -> shr_fexp 53 1024 m e l = (shr_record_of_loc m l, e).
Proof.
  intros Hm Hl He. unfold shr_fexp, fexp, emin. rewrite Zdigits2_log2 by done.
  assert (Z.max (Z.log2 m + 1 + e - 53) (3 - 1024 - 53) - e <= 0) by lia.
  unfold shr. by destruct (_ - e) eqn:E; [| lia |].
Qed.

(** [shr] by one place, for a mantissa of 54 bits. *)
Lemma shr_fexp_one m e l :
  Z.log2 m = 53 -> -1074 <= e ->
  shr_fexp 53 1024 m e l = (shr_1 (shr_record_of_loc m l), e + 1).
Proof.
  intros Hl He. assert (0 < m) by (destruct m; cbn in Hl; lia).
  unfold shr_fexp, fexp, emin. rewrite Zdigits2_log2, Hl by done.
  replace (Z.max (53 + 1 + e - 53) (3 - 1024 - 53) - e) with 1 by lia. done.
Qed.

Lemma round_aux_exact m e :
  0 < m -> Z.log2 m <= 52 -> -1074 <= e <= 971 ->
  binary_round_aux 53 1024 false m e loc_Exact = S754_finite false (Z.to_pos m) e.
Proof.
  intros Hm Hl He. unfold binary_round_aux. rewrite shr_fexp_fit by lia. cbn.
  rewrite shr_fexp_fit by lia. cbn. destruct m; try lia. cbn.
  destruct (Z.leb_spec e (1024 - 53)); [done|lia].
Qed.

(** An integer below [2^53] is exact; its mantissa has 53 bits. *)
Lemma num_of_Z_exact n :
  0 < n < 2 ^ 53 ->
  num_of_Z n = S754_finite false (Z.to_pos (n * 2 ^ (52 - Z.log2 n))) (Z.log2 n - 52).
Proof.
  intros Hn. assert (0 <= Z.log2 n <= 52) as Hl.
  { split; [apply Z.log2_nonneg|]. assert (Z.log2 n < 53); [|lia]. apply Z.log2_lt_pow2; lia. }
  assert (Z.log2 (n * 2 ^ (52 - Z.log2 n)) = 52) as Hm by (rewrite Z.log2_mul_pow2; lia).
  unfold num_of_Z, round2, binary_normalize. destruct n as [|p|p]; try lia.
  unfold binary_round, shl_align, fexp, emin. rewrite digits2_log2.
  replace (Z.max _ _ - 0) with (Z.log2 (Z.pos p) - 52) by lia.
  destruct (Z.log2 (Z.pos p) - 52) as [|d|d] eqn:Ed; [|lia|].
  - rewrite round_aux_exact by lia. replace (52 - _) with 0 by lia. f_equal. by rewrite Z.mul_1_r.
  - replace (Z.max _ _) with (Z.neg d) by lia.
    rewrite round_aux_exact; rewrite ?iter_xO; replace (Z.pos d) with (52 - Z.log2 (Z.pos p)) in * by lia; try lia.
    done.
Qed.

Lemma num_of_Z_0 : num_of_Z 0 = zero.
Proof. done. Qed.

Lemma trunc_num_of_Z n : 0 <= n < 2 ^ 53 -> trunc (num_of_Z n) = Some n.
Proof.
  intros Hn. destruct (Z.eq_dec n 0) as [->|]; [done|].
  rewrite num_of_Z_exact by lia. assert (Z.log2 n < 53) by (apply Z.log2_lt_pow2; lia).
  cbn [trunc]. rewrite Z2Pos.id by (apply Z.mul_pos_pos; [lia|apply Z.pow_pos_nonneg; lia]).
  destruct (Z.leb_spec 0 (Z.log2 n - 52)).
  - replace (52 - Z.log2 n) with 0 by lia. replace (Z.log2 n - 52) with 0 by lia. f_equal. lia.
  - replace (- (Z.log2 n - 52)) with (52 - Z.log2 n) by lia. rewrite Z.div_mul; [done|].
    apply Z.pow_nonzero; lia.
Qed.

Lemma to_uint32_num_of_Z n : 0 <= n < 2 ^ 32 -> to_uint32 (num_of_Z n) = n.
Proof. intros Hn. unfold to_uint32. rewrite trunc_num_of_Z by lia. by apply Z.mod_small. Qed.

Lemma integral_num_of_Z n : 0 <= n < 2 ^ 53 -> integral (num_of_Z n) = Some n.
Proof.
  intros Hn. pose proof (trunc_num_of_Z n Hn) as Ht.
  destruct (Z.eq_dec n 0) as [->|]; [done|]. rewrite num_of_Z_exact in * by lia.
  cbn [integral]. rewrite Ht. case_match; [done|].
  assert (Z.log2 n < 53) by (apply Z.log2_lt_pow2; lia).
  rewrite Z2Pos.id by (apply Z.mul_pos_pos; [lia|apply Z.pow_pos_nonneg; lia]).
  replace (- (Z.log2 n - 52)) with (52 - Z.log2 n) by lia. rewrite Z.mod_mul; [done|].
  apply Z.pow_nonzero; lia.
Qed.

(** Comparison of exact integers. *)
Lemma mantissa_compare a b :
  0 < a < 2 ^ 53 -> 0 < b < 2 ^ 53 -> Z.log2 a = Z.log2 b ->
  Pos.compare_cont Eq (Z.to_pos (a * 2 ^ (52 - Z.log2 a))) (Z.to_pos (b * 2 ^ (52 - Z.log2 b))) = (a ?= b).
Proof.
  intros Ha Hb E. rewrite E. set (k := 2 ^ (52 - Z.log2 b)).
  assert (0 < k) by (apply Z.pow_pos_nonneg; [lia|]; assert (Z.log2 b < 53) by (apply Z.log2_lt_pow2; lia); lia).
  change (Pos.compare (Z.to_pos (a * k)) (Z.to_pos (b * k)) = (a ?= b)).
  rewrite Pos2Z.inj_compare, !Z2Pos.id by lia.
  symmetry. apply Zmult_compare_compat_r. lia.
Qed.

Lemma compare_num_of_Z a b :
  0 <= a < 2 ^ 53 -> 0 <= b < 2 ^ 53 -> SFcompare (num_of_Z a) (num_of_Z b) = Some (a ?= b).
Proof.
  intros Ha Hb. destruct (Z.eq_dec a 0) as [->|]; destruct (Z.eq_dec b 0) as [->|]; [done| | |].
  - rewrite num_of_Z_0, (num_of_Z_exact b) by lia. cbn. by destruct b; try lia.
  - rewrite num_of_Z_0, (num_of_Z_exact a) by lia. cbn. by destruct a; try lia.
  - rewrite !num_of_Z_exact by lia. cbn. f_equal.
    destruct (Z.compare_spec (Z.log2 a - 52) (Z.log2 b - 52)) as [E|E|E].
    + apply mantissa_compare; lia.
    + symmetry. apply Z.compare_lt_iff. destruct (Z.lt_ge_cases a b) as [|H]; [done|].
      apply Z.log2_le_mono in H. lia.
    + symmetry. apply Z.compare_gt_iff. destruct (Z.lt_ge_cases b a) as [|H]; [done|].
      apply Z.log2_le_mono in H. lia.
Qed.

Lemma num_lt_of_Z a b :
  0 <= a < 2 ^ 53 -> 0 <= b < 2 ^ 53 -> num_lt (num_of_Z a) (num_of_Z b) = (a <? b).
Proof. intros. unfold num_lt, SFltb, Z.ltb. rewrite compare_num_of_Z by done. by destruct (a ?= b). Qed.

Lemma num_eq_of_Z a b :
  0 <= a < 2 ^ 53 -> 0 <= b < 2 ^ 53 -> num_eq (num_of_Z a) (num_of_Z b) = (a =? b).
Proof.
  intros. unfold num_eq, SFeqb. rewrite compare_num_of_Z by done.
  destruct (Z.compare_spec a b), (Z.eqb_spec a b); try done; lia.
Qed.

(** ** The floor of a quotient *)

(** The second normalisation of a rounding, of a mantissa that is one too big
    at most. *)
Definition norm2 (m f : Z) : num :=
  let '(r, e') := shr_fexp 53 1024 m f loc_Exact in
  match shr_m r with
  | 0 => S754_zero false
  | Z.pos m => if e' <=? 1024 - 53 then S754_finite false m e' else S754_infinity false
  | Z.neg _ => S754_nan
  end.

Lemma round_aux_norm2 m e l :
  binary_round_aux 53 1024 false m e l =
  let '(r, e') := shr_fexp 53 1024 m e l in
  norm2 (round_nearest_even (shr_m r) (loc_of_shr_record r)) e'.
Proof. unfold binary_round_aux, norm2. by destruct (shr_fexp 53 1024 m e l). Qed.

Lemma norm_again m f :
  0 < m <= 2 ^ 53 -> -1074 <= f <= 960 ->
  exists M E, norm2 m f = S754_finite false M E /\ f <= E <= f + 1 /\ Z.pos M * 2 ^ (E - f) = m.
Proof.
  intros Hm Hf. unfold norm2. destruct (Z.eq_dec m (2 ^ 53)) as [->|Hne].
  - rewrite shr_fexp_one by (done || lia). exists (2 ^ 52)%positive, (f + 1).
    cbn -[Z.add Z.sub Z.leb Z.pow]. rewrite (proj2 (Z.leb_le (f + 1) (1024 - 53))) by lia.
    replace (f + 1 - f) with 1 by lia. split; [done|]. split; [lia|done].
  - assert (Z.log2 m < 53) by (apply Z.log2_lt_pow2; lia).
    rewrite shr_fexp_fit by lia. destruct m as [|m|]; try lia. exists m, f.
    cbn -[Z.add Z.sub Z.leb Z.pow]. rewrite (proj2 (Z.leb_le f (1024 - 53))) by lia.
    split; [done|]. rewrite Z.sub_diag. lia.
Qed.

(** Rounding a 53- or 54-bit mantissa moves it by at most two units in its last
    place, and not at all when it is exact and even. *)
Lemma round_aux_near q e l :
  52 <= Z.log2 q <= 53 -> -1074 <= e <= 900 ->
  exists M E, binary_round_aux 53 1024 false q e l = S754_finite false M E /\
    e <= E <= e + 2 /\ q - 1 <= Z.pos M * 2 ^ (E - e) <= q + 2 /\
    (l = loc_Exact -> Z.even q = true -> Z.pos M * 2 ^ (E - e) = q).
Proof.
  intros Hq He. assert (0 < q) as Hq0 by (destruct q; cbn in Hq; lia).
  pose proof norm_again as Hsnd.
  rewrite round_aux_norm2. destruct (Z.eq_dec (Z.log2 q) 52) as [Hl|Hl].
  - rewrite shr_fexp_fit by lia.
    set (r := round_nearest_even (shr_m (shr_record_of_loc q l)) (loc_of_shr_record (shr_record_of_loc q l))).
    assert (q <= r <= q + 1 /\ (l = loc_Exact -> r = q)) as [Hr Hrx].
    { unfold r. destruct l as [|[]]; cbn; split; try lia; try discriminate; case_match; lia. }
    assert (q < 2 ^ 53) by (apply Z.log2_lt_pow2; lia).
    destruct (Hsnd r e ltac:(lia) ltac:(lia)) as (M & E & HE1 & HE & HM).
    exists M, E. rewrite HM. split; [exact HE1|]. split; [lia|]. split; [lia|]. intros Hx _. auto.
  - assert (Z.log2 q = 53) as Hl' by lia. rewrite shr_fexp_one by lia.
    assert (2 ^ 53 <= q < 2 ^ 54) as Hb.
    { split; [apply Z.log2_le_pow2; lia|apply Z.log2_lt_pow2; lia]. }
    set (r := shr_1 (shr_record_of_loc q l)).
    assert (q - 1 <= 2 * round_nearest_even (shr_m r) (loc_of_shr_record r) <= q + 2 /\
            round_nearest_even (shr_m r) (loc_of_shr_record r) <= 2 ^ 53 /\
            (l = loc_Exact -> Z.even q = true -> 2 * round_nearest_even (shr_m r) (loc_of_shr_record r) = q)) as (Hr & Hr2 & Hr3).
    { unfold r. destruct q as [|[p|p|]|]; try lia; destruct l as [|[]]; cbn -[Z.mul Z.pow];
        repeat case_match; repeat split; try lia; discriminate. }
    destruct (Hsnd (round_nearest_even (shr_m r) (loc_of_shr_record r)) (e + 1) ltac:(lia) ltac:(lia)) as (M & E & HE1 & HE & HM).
    exists M, E. split; [exact HE1|]. split; [lia|].
    replace (E - e) with (E - (e + 1) + 1) by lia. rewrite Z.pow_add_r by lia.
    split; [nia|]. intros Hx Hy. specialize (Hr3 Hx Hy). nia.
Qed.

(** ** Division *)

(** The quotient of an unsigned 32-bit [a] and a small positive [d], scaled to 53
    or 54 binary digits. *)
Section Division.
Variables a d : Z.
Hypothesis a_range : 0 < a < 2 ^ 32.
Hypothesis d_range : 0 < d < 2 ^ 20.

Abbreviation la := (Z.log2 a).
Abbreviation ld := (Z.log2 d).
Abbreviation P := (2 ^ (53 + ld - la)).
Abbreviation q := (a * P / d).
Abbreviation loc := (new_location (d * 2 ^ (52 - ld)) ((a * P) mod d * 2 ^ (52 - ld))).

Lemma log_ranges : 0 <= la <= 31 /\ 0 <= ld <= 19.
Proof.
  pose proof (Z.log2_nonneg a). pose proof (Z.log2_nonneg d).
  assert (la < 32) by (apply Z.log2_lt_pow2; lia). assert (ld < 20) by (apply Z.log2_lt_pow2; lia). lia.
Qed.

Lemma scale_large : 2 ^ 22 <= P.
Proof. pose proof log_ranges. apply Z.pow_le_mono_r; lia. Qed.

(** The quotient and remainder the division computes with. *)
Lemma num_div_core : num_div (num_of_Z a) (num_of_Z d) = binary_round_aux 53 1024 false q (la - ld - 53) loc.
Proof.
  destruct log_ranges as [Hla Hld]. rewrite !num_of_Z_exact by lia. unfold num_div, SFdiv, SFdiv_core_binary.
  rewrite !Z2Pos.id by (apply Z.mul_pos_pos; [lia|apply Z.pow_pos_nonneg; lia]).
  rewrite !Zdigits2_log2 by (apply Z.mul_pos_pos; [lia|apply Z.pow_pos_nonneg; lia]).
  rewrite !Z.log2_mul_pow2 by lia. unfold fexp, emin.
  replace (Z.max _ _ `min` _) with (la - ld - 53) by lia.
  replace (la - 52 - (ld - 52) - (la - ld - 53)) with 53 by lia. cbn [xorb].
  rewrite Z.shiftl_mul_pow2 by lia.
  assert (a * 2 ^ (52 - la) * 2 ^ 53 = a * P * 2 ^ (52 - ld)) as ->.
  { rewrite <- !Z.mul_assoc, <- !Z.pow_add_r by lia. do 2 f_equal. lia. }
  assert (0 < 2 ^ (52 - ld)) by (apply Z.pow_pos_nonneg; lia).
  pose proof (Z.div_mul_cancel_r (a * P) d (2 ^ (52 - ld)) ltac:(lia) ltac:(lia)) as Eq.
  pose proof (Zmult_mod_distr_r (a * P) d (2 ^ (52 - ld))) as Er.
  unfold Z.div, Z.modulo in Eq, Er |- *. destruct (Z.div_eucl (a * P * _) _) as [x y].
  by rewrite Eq, Er.
Qed.

Lemma quotient_digits : 52 <= Z.log2 q <= 53.
Proof.
  destruct log_ranges as [Hla Hld].
  pose proof (Z.log2_spec a ltac:(lia)) as Sa. pose proof (Z.log2_spec d ltac:(lia)) as Sd.
  rewrite !Z.pow_succ_r in Sa, Sd by lia.
  assert (2 ^ la * P = 2 ^ 53 * 2 ^ ld) as E1 by (rewrite <- !Z.pow_add_r by lia; f_equal; lia).
  assert (0 < 2 ^ ld) by (apply Z.pow_pos_nonneg; lia).
  assert (2 ^ 52 <= q < 2 ^ 54) as [H1 H2].
  { split.
    - apply Z.div_le_lower_bound; [lia|]. change (2 ^ 53) with (2 * 2 ^ 52) in E1. nia.
    - apply Z.div_lt_upper_bound; [lia|]. change (2 ^ 54) with (2 * 2 ^ 53). nia. }
  split; [apply Z.log2_le_pow2; lia|]. assert (Z.log2 q < 54); [|lia]. apply Z.log2_lt_pow2; lia.
Qed.

Lemma quotient_split : q = a / d * P + a mod d * P / d.
Proof.
  rewrite (Z.div_mod a d) at 1 by lia. replace ((d * (a / d) + a mod d) * P) with (a / d * P * d + a mod d * P) by ring.
  by rewrite Z.div_add_l by lia.
Qed.

(** A whole quotient is exact and even. *)
Lemma quotient_exact : a mod d = 0 -> loc = loc_Exact /\ Z.even q = true.
Proof.
  intros Ej. destruct log_ranges as [Hla Hld]. split.
  - replace ((a * P) mod d) with 0.
    + unfold new_location, new_location_even, new_location_odd. cbn. by case_match.
    + rewrite Z.mul_mod, Ej, Z.mul_0_l, Z.mod_0_l; lia.
  - rewrite quotient_split, Ej, Z.mul_0_l, Z.div_0_l, Z.add_0_r by lia.
    rewrite Z.even_mul, Z.even_pow by lia. apply orb_true_r.
Qed.

(** Any other one is far from the whole numbers on both sides. *)
Lemma quotient_apart : a mod d <> 0 -> 4 <= a mod d * P / d <= P - 4.
Proof.
  intros Ej. pose proof (Z.mod_pos_bound a d ltac:(lia)) as Hj. pose proof scale_large.
  split; [apply Z.div_le_lower_bound; [lia|]; nia|].
  assert (a mod d * P / d < P - 3); [|lia]. apply Z.div_lt_upper_bound; [lia|]. nia.
Qed.

Lemma floor_div_positive : math_floor (num_div (num_of_Z a) (num_of_Z d)) = num_of_Z (a / d).
Proof.
  destruct log_ranges as [Hla Hld]. pose proof scale_large as HP. pose proof quotient_split as Eq. rewrite num_div_core.
  destruct (round_aux_near q (la - ld - 53) loc quotient_digits ltac:(lia)) as (M & E & -> & HE & HX & Hex).
  assert (E < 0) by lia. cbn [math_floor]. destruct (Z.leb_spec 0 E); [lia|]. f_equal.
  set (X := Z.pos M * 2 ^ (E - (la - ld - 53))) in *.
  assert (Z.pos M / 2 ^ (- E) = X / P) as ->.
  { unfold X. replace (53 + ld - la) with (- E + (E - (la - ld - 53))) by lia.
    rewrite Z.pow_add_r by lia. rewrite Z.div_mul_cancel_r; [done| |]; apply Z.pow_nonzero; lia. }
  symmetry. apply Z.div_unique with (r := X - a / d * P); [left|ring].
  destruct (Z.eq_dec (a mod d) 0) as [Ej|Ej].
  - destruct (quotient_exact Ej) as [H1 H2]. rewrite (Hex H1 H2), Eq, Ej, Z.mul_0_l, Z.div_0_l by lia. lia.
  - pose proof (quotient_apart Ej). lia.
Qed.
End Division.

(** [Math.floor(a / d)] on Numbers is the integer quotient, for an unsigned
    32-bit [a] and a small positive [d]. *)
Lemma floor_div_num_of_Z a d :
  0 <= a < 2 ^ 32 -> 0 < d < 2 ^ 20 -> math_floor (num_div (num_of_Z a) (num_of_Z d)) = num_of_Z (a / d).
Proof.
  intros Ha Hd. destruct (Z.eq_dec a 0) as [->|]; [by rewrite (num_of_Z_exact d) by lia|].
  apply floor_div_positive; lia.
Qed.

(** ** Large integers *)

Lemma shr_m_shr_1 r : 0 <= shr_m r -> shr_m (shr_1 r) = shr_m r / 2.
Proof.
  intros Hr. rewrite <- Z.div2_div. destruct r as [m b c]. cbn [shr_m] in *.
  by destruct m as [|[p|p|]|].
Qed.

Lemma shr_m_iter p r :
  0 <= shr_m r -> shr_m (SpecFloat.iter_pos shr_1 p r) = shr_m r / 2 ^ Z.pos p /\ 0 <= shr_m (SpecFloat.iter_pos shr_1 p r).
Proof.
  assert (forall x k, 0 <= x -> 0 <= x / 2 ^ Z.pos k) as Hp.
  { intros x k Hx. apply Z.div_pos; [done|]. by apply Z.pow_pos_nonneg. }
  revert r; induction p as [p IH|p IH|]; intros r Hr; cbn [SpecFloat.iter_pos].
  - assert (shr_m (shr_1 r) = shr_m r / 2) as E1 by by apply shr_m_shr_1.
    assert (0 <= shr_m r / 2) by (apply Z.div_pos; lia).
    destruct (IH (shr_1 r) ltac:(lia)) as [E2 H2]. destruct (IH _ H2) as [E3 H3].
    split; [|done]. rewrite E3, E2, E1, !Z.div_div by (try apply Z.pow_pos_nonneg; lia).
    f_equal. rewrite <- (Z.pow_1_r 2) at 1. rewrite <- !Z.pow_add_r by lia. f_equal. lia.
  - destruct (IH r Hr) as [E2 H2]. destruct (IH _ H2) as [E3 H3].
    split; [|done]. rewrite E3, E2, Z.div_div by (try apply Z.pow_pos_nonneg; lia).
    f_equal. rewrite <- Z.pow_add_r by lia. f_equal. lia.
  - rewrite shr_m_shr_1 by done. split; [done|]. apply Z.div_pos; lia.
Qed.

(** An integer of 54 to 900 bits becomes a finite Number of positive exponent. *)
Lemma num_of_Z_large n :
  2 ^ 53 <= n < 2 ^ 900 -> exists M E, num_of_Z n = S754_finite false M E /\ 0 < E.
Proof.
  intros Hn. assert (53 <= Z.log2 n) by (apply Z.log2_le_pow2; lia).
  assert (Z.log2 n < 900) by (apply Z.log2_lt_pow2; lia).
  unfold num_of_Z, round2, binary_normalize. destruct n as [|p|p]; try lia.
  unfold binary_round, shl_align, fexp, emin. rewrite digits2_log2.
  set (l := Z.log2 (Z.pos p)) in *.
  replace (Z.max _ _ - 0) with (l - 52) by lia. destruct (l - 52) as [|k|] eqn:Ek; try lia.
  rewrite round_aux_norm2. unfold shr_fexp, fexp, emin. rewrite Zdigits2_log2 by lia. fold l.
  replace (Z.max (l + 1 + 0 - 53) (3 - 1024 - 53) - 0) with (Z.pos k) by lia.
  cbn [shr shr_record_of_loc]. set (r := SpecFloat.iter_pos shr_1 k _).
  destruct (shr_m_iter k {| shr_m := Z.pos p; shr_r := false; shr_s := false |} ltac:(cbn; lia)) as [Em _].
  fold r in Em. cbn [shr_m] in Em.
  assert (2 ^ 52 <= shr_m r < 2 ^ 53) as Hr.
  { rewrite Em, <- Ek. pose proof (Z.log2_spec (Z.pos p) ltac:(lia)) as [S1 S2]. fold l in S1, S2.
    assert (0 < 2 ^ (l - 52)) by (apply Z.pow_pos_nonneg; lia).
    split; [apply Z.div_le_lower_bound|apply Z.div_lt_upper_bound]; try lia.
    - rewrite <- Z.pow_add_r by lia. by replace (l - 52 + 52) with l by lia.
    - rewrite <- Z.pow_add_r by lia. by replace (l - 52 + 53) with (Z.succ l) by lia. }
  assert (0 < round_nearest_even (shr_m r) (loc_of_shr_record r) <= 2 ^ 53) as Hx.
  { destruct (loc_of_shr_record r) as [|[]]; cbn; try lia. case_match; lia. }
  destruct (norm_again _ (0 + Z.pos k) Hx ltac:(lia)) as (M & E & -> & HE & _).
  exists M, E. split; [done|lia].
Qed.

(** [Math.min(1, n)] for a positive integer [n]. *)
Lemma math_min_one n : 1 <= n < 2 ^ 900 -> math_min (num_of_Z 1) (num_of_Z n) = num_of_Z 1.
Proof.
  intros Hn. unfold math_min. destruct (Z.lt_ge_cases n (2 ^ 53)).
  - rewrite compare_num_of_Z by lia. destruct (Z.compare_spec 1 n); try lia; done.
  - destruct (num_of_Z_large n) as (M & E & -> & HE); [lia|].
    change (num_of_Z 1) with (S754_finite false 4503599627370496 (-52)). cbn [SFcompare].
    destruct (Z.compare_spec (-52) E); try lia. done.
Qed.
