(* ===== verification/Bytes.v ===== *)
(** * Bytes, endianness and hexadecimal

    Bytes are integers in [0, 256).  The file gives fixed-width big- and
    little-endian encodings with their round trips, the lower-case hexadecimal
    text of a byte string ([Buffer#toString('hex')]) and Node's decoder
    ([Buffer.from(s, 'hex')], which stops at the first pair that is not two
    hexadecimal digits). *)

From Stdlib Require Import ZArith Lia Bool.
From stdpp Require Import base list numbers option.
From S2P Require Import Prelude.

Open Scope Z_scope.

Definition is_byte (b : Z) : Prop := 0 <= b < 256.
Abbreviation bytes := (list Z).

(** ** Fixed-width encodings *)

Fixpoint le_bytes (n : nat) (v : Z) : bytes :=
  match n with
  | O => []
  | S k => v mod 256 :: le_bytes k (v / 256)
  end.

Fixpoint le_value (bs : bytes) : Z :=
  match bs with
  | [] => 0
  | b :: r => b + 256 * le_value r
  end.

Definition be_bytes (n : nat) (v : Z) : bytes := rev (le_bytes n v).
Definition be_value (bs : bytes) : Z := le_value (rev bs).

Lemma length_le_bytes n v : length (le_bytes n v) = n.
Proof. revert v; induction n; intros; cbn; auto. Qed.

Lemma length_be_bytes n v : length (be_bytes n v) = n.
Proof. unfold be_bytes. by rewrite length_rev, length_le_bytes. Qed.

Lemma le_bytes_byte n v : Forall is_byte (le_bytes n v).
Proof.
  revert v; induction n as [|n IH]; intros v; cbn; constructor; [apply byte_range | apply IH].
Qed.

Lemma Forall_rev_iff {A} (P : A -> Prop) l : Forall P (rev l) <-> Forall P l.
Proof. split; intros H; [rewrite <- (rev_involutive l)|]; by apply List.Forall_rev. Qed.

Lemma be_bytes_byte n v : Forall is_byte (be_bytes n v).
Proof. apply Forall_rev_iff, le_bytes_byte. Qed.

Lemma le_value_bytes n v : le_value (le_bytes n v) = v mod 256 ^ Z.of_nat n.
Proof.
  revert v; induction n as [|n IH]; intros v; cbn [le_bytes le_value].
  - by rewrite Z.mod_1_r.
  - rewrite IH, Nat2Z.inj_succ, Z.pow_succ_r by lia.
    rewrite Z.rem_mul_r by (try apply Z.pow_nonzero; lia). lia.
Qed.

Lemma le_value_range bs : Forall is_byte bs -> 0 <= le_value bs < 256 ^ Z.of_nat (length bs).
Proof.
  induction 1 as [|b bs Hb _ IH]; cbn [le_value length]; [cbn; lia|].
  rewrite Nat2Z.inj_succ, Z.pow_succ_r by lia. unfold is_byte in Hb. lia.
Qed.

Lemma le_bytes_value bs : Forall is_byte bs -> le_bytes (length bs) (le_value bs) = bs.
Proof.
  induction 1 as [|b bs Hb _ IH]; cbn [le_value le_bytes length]; [done|].
  unfold is_byte in Hb. f_equal.
  - rewrite (Z.mul_comm 256), Z_mod_plus_full, Z.mod_small; lia.
  - rewrite (Z.mul_comm 256), Z.div_add, Z.div_small, Z.add_0_l by lia. exact IH.
Qed.

Lemma le_value_app a b : le_value (a ++ b) = le_value a + 256 ^ Z.of_nat (length a) * le_value b.
Proof.
  induction a as [|x a IH]; cbn [app le_value length]; [cbn; lia|].
  rewrite IH, Nat2Z.inj_succ, Z.pow_succ_r by lia. lia.
Qed.

Lemma be_value_bytes n v : 0 <= v < 256 ^ Z.of_nat n -> be_value (be_bytes n v) = v.
Proof.
  intros H. unfold be_value, be_bytes. rewrite rev_involutive, le_value_bytes. by apply Z.mod_small.
Qed.

Lemma be_bytes_value bs : Forall is_byte bs -> be_bytes (length bs) (be_value bs) = bs.
Proof.
  intros H. unfold be_value, be_bytes.
  rewrite <- (length_rev bs), le_bytes_value by (by apply Forall_rev_iff). apply rev_involutive.
Qed.

Lemma be_value_range bs : Forall is_byte bs -> 0 <= be_value bs < 256 ^ Z.of_nat (length bs).
Proof.
  intros H. unfold be_value. rewrite <- (length_rev bs). by apply le_value_range, Forall_rev_iff.
Qed.

Lemma be_value_app a b : be_value (a ++ b) = be_value a * 256 ^ Z.of_nat (length b) + be_value b.
Proof. unfold be_value. rewrite rev_app_distr, le_value_app, length_rev. lia. Qed.

Lemma be_value_single b : be_value [b] = b.
Proof. unfold be_value. cbn. lia. Qed.

Lemma be_value_repeat_ff n : be_value (replicate n 255) = 256 ^ Z.of_nat n - 1.
Proof.
  induction n as [|n IH]; [done|].
  change (replicate (S n) 255) with ([255] ++ replicate n 255).
  rewrite be_value_app, IH, length_replicate, be_value_single, Nat2Z.inj_succ, Z.pow_succ_r; lia.
Qed.

(** ** Hexadecimal digits, as code units *)

Definition is_hex (c : Z) : bool :=
  ((48 <=? c) && (c <=? 57)) || ((97 <=? c) && (c <=? 102)) || ((65 <=? c) && (c <=? 70)).

Definition hex_val (c : Z) : Z :=
  if c <=? 57 then c - 48 else if c <=? 70 then c - 55 else c - 87.

Definition hex_digit (v : Z) : Z := if v <? 10 then v + 48 else v + 87.

Definition lower1 (c : Z) : Z := if (65 <=? c) && (c <=? 90) then c + 32 else c.

Lemma hex_val_range c : is_hex c = true -> 0 <= hex_val c < 16.
Proof. unfold is_hex, hex_val. intros H. repeat case_match; lia. Qed.

Lemma is_hex_digit v : 0 <= v < 16 -> is_hex (hex_digit v) = true.
Proof. unfold is_hex, hex_digit. intros H. case_match; lia. Qed.

Lemma hex_val_digit v : 0 <= v < 16 -> hex_val (hex_digit v) = v.
Proof. unfold hex_val, hex_digit. intros H. repeat case_match; lia. Qed.

Lemma hex_digit_val c : is_hex c = true -> hex_digit (hex_val c) = lower1 c.
Proof. unfold is_hex, hex_val, hex_digit, lower1. intros H. repeat case_match; lia. Qed.

Lemma hex_val_lower c : is_hex c = true -> hex_val (lower1 c) = hex_val c.
Proof. unfold is_hex, hex_val, lower1. intros H. repeat case_match; lia. Qed.

Lemma is_hex_lower c : is_hex c = true -> is_hex (lower1 c) = true.
Proof. unfold is_hex, lower1. intros H. case_match; lia. Qed.

#[export] Hint Resolve hex_val_range is_hex_digit is_hex_lower be_bytes_byte le_bytes_byte : js.

(** ** Hexadecimal text of bytes *)

Fixpoint to_hex (bs : bytes) : list Z :=
  match bs with
  | [] => []
  | b :: r => hex_digit (b / 16) :: hex_digit (b mod 16) :: to_hex r
  end.

Fixpoint from_hex (s : list Z) : bytes :=
  match s with
  | a :: b :: r =>
      if is_hex a && is_hex b then 16 * hex_val a + hex_val b :: from_hex r else []
  | _ => []
  end.

Fixpoint hex_value_acc (s : list Z) (acc : Z) : Z :=
  match s with
  | [] => acc
  | c :: r => hex_value_acc r (16 * acc + hex_val c)
  end.

Definition hex_value (s : list Z) : Z := hex_value_acc s 0.

(** Induction two elements at a time, the shape of [from_hex]. *)
Lemma pair_ind {A} (P : list A -> Prop) :
  P [] -> (forall a, P [a]) -> (forall a b l, P l -> P (a :: b :: l)) -> forall l, P l.
Proof.
  intros H0 H1 H2. refine (fix go l := _). destruct l as [|a [|b l]]; [exact H0 | apply H1 | apply H2, go].
Qed.

Lemma to_hex_app a b : to_hex (a ++ b) = to_hex a ++ to_hex b.
Proof. induction a; cbn; congruence. Qed.

Lemma length_to_hex bs : length (to_hex bs) = (2 * length bs)%nat.
Proof. induction bs; cbn [to_hex length]; lia. Qed.

Lemma nibbles b : is_byte b -> 0 <= b / 16 < 16 /\ 0 <= b mod 16 < 16.
Proof. unfold is_byte. intros. split; [|apply Z.mod_pos_bound; lia]. split; [apply Z.div_pos|apply Z.div_lt_upper_bound]; lia. Qed.

Lemma to_hex_is_hex bs : Forall is_byte bs -> Forall (fun c => is_hex c = true) (to_hex bs).
Proof.
  induction 1 as [|b bs Hb _ IH]; cbn; [constructor|].
  destruct (nibbles b Hb). repeat constructor; auto with js.
Qed.

Lemma from_to_hex bs : Forall is_byte bs -> from_hex (to_hex bs) = bs.
Proof.
  induction 1 as [|b bs Hb _ IH]; cbn; [done|]. destruct (nibbles b Hb).
  rewrite !is_hex_digit, !hex_val_digit, IH by lia. cbn. f_equal. pose proof (Z.div_mod b 16). lia.
Qed.

Lemma from_hex_byte s : Forall is_byte (from_hex s).
Proof.
  induction s as [| |a b l IH] using pair_ind; cbn; try constructor.
  destruct (is_hex a) eqn:Ha, (is_hex b) eqn:Hb; cbn; constructor; auto.
  pose proof (hex_val_range a Ha). pose proof (hex_val_range b Hb). unfold is_byte. lia.
Qed.

Lemma length_from_hex s :
  Forall (fun c => is_hex c = true) s -> length (from_hex s) = (length s / 2)%nat.
Proof.
  induction s as [| |a b l IH] using pair_ind; intros H; try done.
  inversion_clear H as [|? ? Ha H']; inversion_clear H' as [|? ? Hb Hl].
  cbn [from_hex]. rewrite Ha, Hb. cbn [andb length]. rewrite IH by done.
  replace (S (S (length l))) with (1 * 2 + length l)%nat by lia.
  rewrite Nat.div_add_l by lia. lia.
Qed.

Lemma to_from_hex s :
  Forall (fun c => is_hex c = true) s -> Nat.Even (length s) -> to_hex (from_hex s) = map lower1 s.
Proof.
  induction s as [|a|a b l IH] using pair_ind; intros H He; try done.
  { destruct He as [k Hk]. cbn in Hk. lia. }
  inversion_clear H as [|? ? Ha H']; inversion_clear H' as [|? ? Hb Hl].
  cbn [from_hex]. rewrite Ha, Hb. cbn [andb to_hex map].
  pose proof (hex_val_range a Ha). pose proof (hex_val_range b Hb).
  rewrite IH; [|done|destruct He as [k Hk]; exists (k - 1)%nat; cbn in Hk; lia].
  rewrite (Z.mul_comm 16), Z.div_add_l, (Z.div_small (hex_val b)), Z.add_0_r by lia.
  rewrite Z.add_comm, Z_mod_plus_full, Z.mod_small by lia. by rewrite !hex_digit_val.
Qed.

Lemma hex_value_acc_shift s acc :
  hex_value_acc s acc = acc * 16 ^ Z.of_nat (length s) + hex_value s.
Proof.
  unfold hex_value. revert acc; induction s as [|c s IH]; intros acc; cbn [hex_value_acc length]; [cbn; lia|].
  rewrite IH, (IH (16 * 0 + hex_val c)), Nat2Z.inj_succ, Z.pow_succ_r by lia. lia.
Qed.

Lemma hex_value_cons c s : hex_value (c :: s) = hex_val c * 16 ^ Z.of_nat (length s) + hex_value s.
Proof. unfold hex_value at 1. cbn [hex_value_acc]. rewrite hex_value_acc_shift. lia. Qed.

Lemma hex_value_app a b : hex_value (a ++ b) = hex_value a * 16 ^ Z.of_nat (length b) + hex_value b.
Proof.
  induction a as [|c a IH]; cbn [app]; [done|].
  rewrite !hex_value_cons, IH, length_app, Nat2Z.inj_add, Z.pow_add_r by lia. lia.
Qed.

Lemma hex_value_range s :
  Forall (fun c => is_hex c = true) s -> 0 <= hex_value s < 16 ^ Z.of_nat (length s).
Proof.
  induction 1 as [|c s Hc _ IH]; [cbn; lia|]. pose proof (hex_val_range c Hc).
  rewrite hex_value_cons. cbn [length]. rewrite Nat2Z.inj_succ, Z.pow_succ_r by lia. nia.
Qed.

Lemma hex_value_to_hex bs : Forall is_byte bs -> hex_value (to_hex bs) = be_value bs.
Proof.
  induction 1 as [|b bs Hb _ IH]; [done|]. cbn [to_hex].
  destruct (nibbles b Hb). change (b :: bs) with ([b] ++ bs).
  rewrite be_value_app, be_value_single, <- IH, !hex_value_cons, !hex_val_digit by lia.
  cbn [length]. rewrite length_to_hex, Nat2Z.inj_succ, Nat2Z.inj_mul, Z.pow_succ_r, Z.pow_mul_r by lia.
  change (16 ^ Z.of_nat 2) with 256. pose proof (Z.div_mod b 16). nia.
Qed.

Lemma hex_value_lower s :
  Forall (fun c => is_hex c = true) s -> hex_value (map lower1 s) = hex_value s.
Proof.
  induction 1 as [|c s Hc _ IH]; [done|]. cbn [map].
  by rewrite !hex_value_cons, IH, length_map, hex_val_lower.
Qed.

(** The bytes of an even run of digits and its value agree. *)
Lemma be_value_from_hex s :
  Forall (fun c => is_hex c = true) s -> Nat.Even (length s) -> be_value (from_hex s) = hex_value s.
Proof.
  intros H He. rewrite <- hex_value_to_hex by apply from_hex_byte.
  rewrite to_from_hex by done. by apply hex_value_lower.
Qed.
