(* ===== verification/JsStr.v ===== *)
(** * JavaScript strings

    A string is its list of UTF-16 code units.  The file holds the string
    operations the sources use: [substring], [split('\n')], [trim],
    [match(/.{2}/g)], [padStart], [repeat], [toLowerCase] (applied to
    hexadecimal text only, so the ASCII case map), [parseInt(s, 16)],
    [Number#toString(16)], [BigInt('0x' + s)], and the UTF-8 view of strings
    ([Buffer#toString('utf8')] and [Buffer.byteLength]). *)

From Stdlib Require Import ZArith Lia Bool String Ascii.
From stdpp Require Import base list numbers option.
From S2P Require Import Prelude Bytes.

Open Scope Z_scope.

Abbreviation jstr := (list Z).

(** String literals of the sources. *)
Fixpoint js (s : string) : jstr :=
  match s with
  | EmptyString => []
  | String c r => Z.of_nat (nat_of_ascii c) :: js r
  end.

Definition str_eqb (a b : jstr) : bool := bool_decide (a = b).

Definition substring (s : jstr) (a b : nat) : jstr := take (b - a) (drop a s).
Definition toLowerCase (s : jstr) : jstr := map lower1 s.
Definition repeat_str (s : jstr) (n : nat) : jstr := mjoin (replicate n s).

Definition padStart (s : jstr) (n : nat) (c : Z) : jstr := replicate (n - length s) c ++ s.

(** [s.startsWith(p)]. *)
Definition starts_with (p s : jstr) : bool := str_eqb (take (length p) s) p.

(** ** White space, lines *)

Definition is_ws (c : Z) : bool :=
  ((9 <=? c) && (c <=? 13)) || (c =? 32) || (c =? 160) || (c =? 5760) ||
  ((8192 <=? c) && (c <=? 8202)) || (c =? 8232) || (c =? 8233) || (c =? 8239) ||
  (c =? 8287) || (c =? 12288) || (c =? 65279).

Fixpoint trim_start (s : jstr) : jstr :=
  match s with
  | c :: r => if is_ws c then trim_start r else s
  | [] => []
  end.

Definition trim_end (s : jstr) : jstr := rev (trim_start (rev s)).
Definition trim (s : jstr) : jstr := trim_end (trim_start s).

(** [s.split('\n')] as the complete lines and the text after the last newline. *)
Fixpoint split_nl (s : jstr) : list jstr * jstr :=
  match s with
  | [] => ([], [])
  | c :: r =>
      let '(ls, l) := split_nl r in
      if c =? 10 then ([] :: ls, l)
      else match ls with
           | [] => ([], c :: l)
           | h :: t => ((c :: h) :: t, l)
           end
  end.

(** ** [s.match(/.{2}/g)] and the byte reversal built on it *)

(** What [.] matches: anything but a line terminator. *)
Definition dot (c : Z) : bool := negb ((c =? 10) || (c =? 13) || (c =? 8232) || (c =? 8233)).

Fixpoint match_pairs (s : jstr) : list jstr :=
  match s with
  | a :: (b :: r) as t => if dot a && dot b then [a; b] :: match_pairs r else match_pairs t
  | _ => []
  end.

(** [null] when nothing matches. *)
Definition match_dot2 (s : jstr) : option (list jstr) :=
  match match_pairs s with [] => None | l => Some l end.

(** ** Integers in base 16 *)

(** Exactly [n] digits of [v], most significant first. *)
Fixpoint hex_fixed (n : nat) (v : Z) : jstr :=
  match n with
  | O => []
  | S k => hex_fixed k (v / 16) ++ [hex_digit (v mod 16)]
  end.

(** [v.toString(16)] for a nonnegative integer or BigInt. *)
Definition toString16 (v : Z) : jstr := hex_fixed (S (Z.to_nat (Z.log2 v / 4))) v.

Fixpoint hex_prefix (s : jstr) : jstr :=
  match s with
  | c :: r => if is_hex c then c :: hex_prefix r else []
  | [] => []
  end.

(** [parseInt(s, 16)]; [None] is NaN.  Leading white space, a sign and an
    [0x] prefix are skipped, then the longest run of digits is read. *)
Definition parseInt16 (s : jstr) : option Z :=
  let s1 := trim_start s in
  let '(neg, s2) := match s1 with
                    | 45 :: r => (true, r)
                    | 43 :: r => (false, r)
                    | _ => (false, s1)
                    end in
  let s3 := match s2 with
            | 48 :: x :: r => if (x =? 120) || (x =? 88) then r else s2
            | _ => s2
            end in
  match hex_prefix s3 with
  | [] => None
  | ds => Some (if neg then - hex_value ds else hex_value ds)
  end.

(** [BigInt('0x' + s)]: trailing white space is allowed, anything else that is
    not a digit is a SyntaxError, and so is an empty run of digits. *)
Definition bigint_0x (s : jstr) : res Z :=
  let t := trim_end s in
  match t with
  | [] => Throw SyntaxError
  | _ => if forallb is_hex t then Ok (hex_value t) else Throw SyntaxError
  end.

(** ** UTF-8 *)

Definition utf16 (cp : Z) : jstr :=
  if cp <? 65536 then [cp]
  else [55296 + (cp - 65536) / 1024; 56320 + (cp - 65536) mod 1024].

Definition cont (b : Z) : bool := (128 <=? b) && (b <=? 191).

(** The bounds of the second byte after a three- or four-byte lead. *)
Definition second_ok (b0 b1 : Z) : bool :=
  if b0 =? 224 then (160 <=? b1) && (b1 <=? 191)
  else if b0 =? 237 then (128 <=? b1) && (b1 <=? 159)
  else if b0 =? 240 then (144 <=? b1) && (b1 <=? 191)
  else if b0 =? 244 then (128 <=? b1) && (b1 <=? 143)
  else cont b1.

(** [buf.toString('utf8')]: each maximal ill-formed part becomes U+FFFD. *)
Fixpoint utf8_decode (bs : bytes) : jstr :=
  match bs with
  | [] => []
  | b0 :: r =>
      if b0 <? 128 then b0 :: utf8_decode r
      else if (194 <=? b0) && (b0 <=? 223) then
        match r with
        | b1 :: r1 => if cont b1 then utf16 ((b0 - 192) * 64 + (b1 - 128)) ++ utf8_decode r1
                      else 65533 :: utf8_decode r
        | [] => [65533]
        end
      else if (224 <=? b0) && (b0 <=? 239) then
        match r with
        | b1 :: r1 =>
            if second_ok b0 b1 then
              match r1 with
              | b2 :: r2 =>
                  if cont b2
                  then utf16 ((b0 - 224) * 4096 + (b1 - 128) * 64 + (b2 - 128)) ++ utf8_decode r2
                  else 65533 :: utf8_decode r1
              | [] => [65533]
              end
            else 65533 :: utf8_decode r
        | [] => [65533]
        end
      else if (240 <=? b0) && (b0 <=? 244) then
        match r with
        | b1 :: r1 =>
            if second_ok b0 b1 then
              match r1 with
              | b2 :: r2 =>
                  if cont b2 then
                    match r2 with
                    | b3 :: r3 =>
                        if cont b3
                        then utf16 ((b0 - 240) * 262144 + (b1 - 128) * 4096 + (b2 - 128) * 64 + (b3 - 128))
                               ++ utf8_decode r3
                        else 65533 :: utf8_decode r2
                    | [] => [65533]
                    end
                  else 65533 :: utf8_decode r1
              | [] => [65533]
              end
            else 65533 :: utf8_decode r
        | [] => [65533]
        end
      else 65533 :: utf8_decode r
  end.

Definition high_surrogate (c : Z) : bool := (55296 <=? c) && (c <=? 56319).
Definition low_surrogate (c : Z) : bool := (56320 <=? c) && (c <=? 57343).

(** [Buffer.byteLength(s)]: the UTF-8 length, a lone surrogate counting three. *)
Fixpoint byteLength (s : jstr) : Z :=
  match s with
  | [] => 0
  | c :: r =>
      if c <? 128 then 1 + byteLength r
      else if c <? 2048 then 2 + byteLength r
      else if high_surrogate c then
        match r with
        | d :: r' => if low_surrogate d then 4 + byteLength r' else 3 + byteLength r
        | [] => 3
        end
      else 3 + byteLength r
  end.

(** ** Facts *)

Lemma str_eqb_spec a b : str_eqb a b = true <-> a = b.
Proof. unfold str_eqb. apply bool_decide_eq_true. Qed.

Lemma str_eqb_refl a : str_eqb a a = true.
Proof. by apply str_eqb_spec. Qed.

Lemma length_substring s a b : (b <= length s)%nat -> length (substring s a b) = (b - a)%nat.
Proof. intros H. unfold substring. rewrite length_take, length_drop. lia. Qed.

Lemma substring_app_l s t a b : (b <= length s)%nat -> substring (s ++ t) a b = substring s a b.
Proof.
  intros H. unfold substring. destruct (decide (a <= b)%nat).
  - rewrite drop_app_le, take_app_le by (rewrite ?length_drop; lia). done.
  - by replace (b - a)%nat with 0%nat by lia.
Qed.

Lemma substring_app_r s t a b :
  (length s <= a)%nat -> substring (s ++ t) a b = substring t (a - length s) (b - length s).
Proof.
  intros H. unfold substring. rewrite drop_app_ge by lia. f_equal. lia.
Qed.

Lemma substring_all s n : length s = n -> substring s 0 n = s.
Proof. intros <-. unfold substring. rewrite drop_0, Nat.sub_0_r. apply take_ge. lia. Qed.

(** *** Lines *)

Definition no_nl (s : jstr) : Prop := Forall (fun c => c <> 10) s.

Lemma split_nl_no_nl s : Forall no_nl (fst (split_nl s)) /\ no_nl (snd (split_nl s)).
Proof.
  induction s as [|c s [IH1 IH2]]; cbn; [split; constructor|].
  destruct (split_nl s) as [ls l]; cbn in *. destruct (Z.eqb_spec c 10) as [->|Hc]; cbn.
  - split; [constructor; [constructor|done]|done].
  - destruct ls as [|h t]; cbn; [split; [constructor|by constructor]|].
    inversion_clear IH1. split; [constructor; [by constructor|done]|done].
Qed.

(** Splitting loses nothing: the lines with their newlines, then the rest. *)
Lemma split_nl_join s :
  mjoin (map (fun l => l ++ [10]) (fst (split_nl s))) ++ snd (split_nl s) = s.
Proof.
  induction s as [|c s IH]; [done|]. cbn. destruct (split_nl s) as [ls l]; cbn in *.
  destruct (Z.eqb_spec c 10) as [->|Hc]; cbn; [by rewrite <- IH|].
  destruct ls as [|h t]; cbn in *; by rewrite <- IH.
Qed.

Lemma split_nl_rest_length s : (length (snd (split_nl s)) <= length s)%nat.
Proof. rewrite <- (split_nl_join s) at 2. rewrite length_app. lia. Qed.

Lemma split_nl_app a b :
  split_nl (a ++ b) =
    (fst (split_nl a) ++ fst (split_nl (snd (split_nl a) ++ b)), snd (split_nl (snd (split_nl a) ++ b))).
Proof.
  induction a as [|c a IH]; cbn; [by destruct (split_nl b)|].
  rewrite IH. destruct (split_nl a) as [ls l]; cbn.
  destruct (Z.eqb_spec c 10) as [->|Hc]; cbn; [done|].
  destruct ls as [|h t]; cbn; [|done].
  destruct (Z.eqb_spec c 10) as [?|_]; [done|]. by destruct (split_nl (l ++ b)) as [[|] ?].
Qed.

(** *** Hexadecimal *)

Abbreviation hex_str := (Forall (fun c => is_hex c = true)).

Lemma hex_dot c : is_hex c = true -> dot c = true.
Proof. unfold is_hex, dot. intros H. lia. Qed.

Lemma hex_not_ws c : is_hex c = true -> is_ws c = false.
Proof. unfold is_hex, is_ws. intros H. lia. Qed.

Lemma match_pairs_to_hex bs :
  Forall is_byte bs -> match_pairs (to_hex bs) = map (fun b => to_hex [b]) bs.
Proof.
  induction 1 as [|b bs Hb Hbs IH]; [done|]. cbn [to_hex match_pairs map].
  destruct (nibbles b Hb). rewrite !hex_dot by auto with js. cbn. by rewrite IH.
Qed.

Lemma mjoin_app_r {A} (a b : list (list A)) : mjoin (a ++ b) = mjoin a ++ mjoin b.
Proof. induction a as [|x a IH]; cbn; [done|]. rewrite <- app_assoc. f_equal. exact IH. Qed.

Lemma mjoin_hex_pairs bs : mjoin (map (fun b => to_hex [b]) bs) = to_hex bs.
Proof. induction bs as [|b bs IH]; [done|]. cbn. by f_equal; f_equal. Qed.

Lemma length_hex_fixed n v : length (hex_fixed n v) = n.
Proof. revert v; induction n; intros; cbn; [done|]. rewrite length_app, IHn. cbn. lia. Qed.

Lemma hex_fixed_hex n v : hex_str (hex_fixed n v).
Proof.
  revert v; induction n as [|n IH]; intros v; cbn; [constructor|].
  apply Forall_app; split; [apply IH|]. repeat constructor. apply is_hex_digit, Z.mod_pos_bound. lia.
Qed.

Lemma hex_fixed_zero n : hex_fixed n 0 = replicate n 48.
Proof.
  induction n as [|n IH]; [done|]. cbn [hex_fixed]. change (0 / 16) with 0. rewrite IH.
  by rewrite <- replicate_S_end.
Qed.

Lemma hex_fixed_pad n k v :
  0 <= v < 16 ^ Z.of_nat k -> hex_fixed (n + k) v = replicate n 48 ++ hex_fixed k v.
Proof.
  revert v; induction k as [|k IH]; intros v Hv.
  - replace v with 0 by (cbn in Hv; lia). rewrite Nat.add_0_r, hex_fixed_zero. cbn. by rewrite app_nil_r.
  - rewrite Nat.add_succ_r. cbn [hex_fixed]. rewrite IH; [by rewrite app_assoc|].
    rewrite Nat2Z.inj_succ, Z.pow_succ_r in Hv by lia.
    split; [apply Z.div_pos; lia|apply Z.div_lt_upper_bound; lia].
Qed.

(** [v.toString(16).padStart(n, '0')] is the fixed-width text. *)
Lemma toString16_range v : 0 <= v -> 0 <= v < 16 ^ Z.of_nat (length (toString16 v)).
Proof.
  intros Hv. unfold toString16. rewrite length_hex_fixed. split; [done|].
  destruct (Z.eq_dec v 0) as [->|]; [cbn; lia|].
  pose proof (Z.log2_nonneg v) as Hl. pose proof (Z.log2_spec v ltac:(lia)) as [_ Hs].
  pose proof (Z.div_pos (Z.log2 v) 4 Hl ltac:(lia)).
  rewrite Nat2Z.inj_succ, Z2Nat.id by done.
  change 16 with (2 ^ 4). rewrite <- Z.pow_mul_r by lia.
  eapply Z.lt_le_trans; [exact Hs|]. apply Z.pow_le_mono_r; [lia|].
  pose proof (Z.div_mod (Z.log2 v) 4). pose proof (Z.mod_pos_bound (Z.log2 v) 4). lia.
Qed.

Lemma padStart_toString16 n v :
  (0 < n)%nat -> 0 <= v < 16 ^ Z.of_nat n -> padStart (toString16 v) n 48 = hex_fixed n v.
Proof.
  intros Hn0 Hv. unfold padStart.
  assert (Hn : (length (toString16 v) <= n)%nat).
  { unfold toString16. rewrite length_hex_fixed.
    destruct (Z.eq_dec v 0) as [->|]; [exact Hn0|].
    assert (0 <= Z.log2 v / 4 < Z.of_nat n); [|lia].
    split; [apply Z.div_pos; [apply Z.log2_nonneg|lia]|].
    apply Z.div_lt_upper_bound; [lia|]. apply Z.log2_lt_pow2; [lia|].
    rewrite Z.pow_mul_r by lia. apply Hv. }
  pose proof (toString16_range v ltac:(lia)) as Hr.
  unfold toString16 in *. rewrite length_hex_fixed in *. rewrite <- hex_fixed_pad by done. f_equal. lia.
Qed.

Lemma byte_nibbles v : v mod 256 / 16 = (v / 16) mod 16 /\ (v mod 256) mod 16 = v mod 16.
Proof.
  change 256 with (16 * 16). rewrite Z.rem_mul_r, (Z.mul_comm 16 (_ mod _)) by lia.
  pose proof (Z.mod_pos_bound v 16 ltac:(lia)).
  rewrite Z.div_add, Z.div_small, Z_mod_plus_full, Z.mod_mod by lia. lia.
Qed.

Lemma hex_fixed_be_bytes n v : hex_fixed (2 * n) v = to_hex (be_bytes n v).
Proof.
  revert v; induction n as [|n IH]; intros v; [done|].
  replace (2 * S n)%nat with (S (S (2 * n))) by lia. cbn [hex_fixed].
  unfold be_bytes in *. cbn [le_bytes rev]. rewrite to_hex_app, <- IH, <- app_assoc.
  destruct (byte_nibbles v) as [H1 H2]. cbn [to_hex app]. rewrite H1, H2, Z.div_div by lia. done.
Qed.

Lemma trim_end_id s c : is_ws c = false -> trim_end (s ++ [c]) = s ++ [c].
Proof.
  intros H. unfold trim_end. rewrite rev_app_distr. cbn. rewrite H. cbn. by rewrite rev_involutive.
Qed.

Lemma trim_end_hex s : hex_str s -> trim_end s = s.
Proof.
  intros H. destruct s as [|c s _] using rev_ind; [done|].
  apply Forall_app in H as [_ H]. apply trim_end_id, hex_not_ws. by inversion H.
Qed.

Lemma bigint_0x_hex s : hex_str s -> s <> [] -> bigint_0x s = Ok (hex_value s).
Proof.
  intros H Hn. unfold bigint_0x. rewrite trim_end_hex by done. destruct s as [|c s]; [done|].
  assert (forallb is_hex (c :: s) = true) as -> by (apply forallb_forall; by apply List.Forall_forall).
  done.
Qed.

Lemma hex_prefix_all s : hex_str s -> hex_prefix s = s.
Proof. induction 1 as [|c s Hc _ IH]; cbn; [done|]. by rewrite Hc, IH. Qed.

Lemma parseInt16_hex s : hex_str s -> s <> [] -> parseInt16 s = Some (hex_value s).
Proof.
  intros H Hn. unfold parseInt16. destruct s as [|c s]; [done|].
  pose proof H as H'. inversion H' as [|? ? Hc Hs]; subst.
  cbn [trim_start]. rewrite (hex_not_ws c Hc).
  assert (c <> 45 /\ c <> 43) as [H1 H2] by (split; intros ->; done).
  assert (forall b, (match c :: s with 45 :: r => (true, r) | 43 :: r => (false, r) | _ => (b, c :: s) end)
                    = (b, c :: s)) as -> by (intros; repeat case_match; congruence).
  assert ((match c :: s with 48 :: x :: r => if (x =? 120) || (x =? 88) then r else c :: s | _ => c :: s end)
          = c :: s) as ->.
  { destruct s as [|x s]; [repeat case_match; congruence|].
    inversion Hs as [|? ? Hx _]; subst. assert ((x =? 120) || (x =? 88) = false) as ->.
    { unfold is_hex in Hx. lia. } repeat case_match; congruence. }
  by rewrite hex_prefix_all.
Qed.

(** *** UTF-8 *)

Abbreviation ascii_str := (Forall (fun c => 0 <= c < 128)).

Lemma utf8_decode_ascii_app a b : ascii_str a -> utf8_decode (a ++ b) = a ++ utf8_decode b.
Proof.
  induction 1 as [|c a Hc _ IH]; cbn [app utf8_decode]; [done|].
  destruct (Z.ltb_spec c 128); [|lia]. by rewrite IH.
Qed.

Lemma byteLength_nonneg s : 0 <= byteLength s.
Proof.
  assert (forall n s, (length s <= n)%nat -> 0 <= byteLength s) as H; [|by eapply H].
  clear s. induction n as [|n IH]; intros [|c s] Hn; cbn in *; try lia.
  pose proof (IH s ltac:(lia)). repeat case_match; try lia; cbn in *; subst; pose proof (IH l ltac:(cbn in *; lia)); lia.
Qed.
