(* ===== verification/JsValue.v ===== *)
(** * JavaScript values and JSON

    The values that reach the program from the network are the ones
    [JSON.parse] produces; [undefined] arises from reading absent properties.
    The file gives property access, truthiness, the coercions [ToString] and
    [ToNumber], and [JSON.parse]/[JSON.stringify].  Property reads in the
    sources name no property of a built-in prototype except [length], so a
    read of an absent name is [undefined]. *)

From Stdlib Require Import ZArith Lia Bool SpecFloat String Ascii.
From stdpp Require Import base list numbers option.
From S2P Require Import Prelude JsNum Bytes JsStr.

Open Scope Z_scope.

Unset Elimination Schemes.

Inductive val :=
  | VUndef
  | VNull
  | VBool (b : bool)
  | VNum (n : num)
  | VStr (s : jstr)
  | VArr (l : list val)
  | VObj (fs : list (jstr * val)).

Set Elimination Schemes.

(** Induction through arrays and objects. *)
Definition val_ind (P : val -> Prop)
    (Hu : P VUndef) (Hn : P VNull) (Hb : forall b, P (VBool b)) (Hm : forall n, P (VNum n))
    (Hs : forall s, P (VStr s)) (Ha : forall l, Forall P l -> P (VArr l))
    (Ho : forall fs, Forall (fun kv => P (snd kv)) fs -> P (VObj fs)) : forall v, P v :=
  fix go v :=
    match v with
    | VUndef => Hu | VNull => Hn | VBool b => Hb b | VNum n => Hm n | VStr s => Hs s
    | VArr l => Ha l ((fix gl l : Forall P l :=
        match l with
        | [] => List.Forall_nil P
        | x :: r => @List.Forall_cons _ P x r (go x) (gl r)
        end) l)
    | VObj fs => Ho fs ((fix gf fs : Forall (fun kv => P (snd kv)) fs :=
        match fs with
        | [] => List.Forall_nil _
        | kv :: r => @List.Forall_cons _ (fun kv => P (snd kv)) kv r (go (snd kv)) (gf r)
        end) fs)
    end.

(** ** Property access *)

Fixpoint assoc (k : jstr) (fs : list (jstr * val)) : val :=
  match fs with
  | [] => VUndef
  | (k', v) :: r => if str_eqb k k' then v else assoc k r
  end.

Fixpoint has_own (k : jstr) (fs : list (jstr * val)) : bool :=
  match fs with
  | [] => false
  | (k', _) :: r => str_eqb k k' || has_own k r
  end.

(** [v.k] for a name [k] that is neither an index nor [length]. *)
Definition get (v : val) (k : jstr) : res val :=
  match v with
  | VUndef | VNull => Throw TypeError
  | VObj fs => Ok (assoc k fs)
  | _ => Ok VUndef
  end.

Definition dec_nat (n : nat) : jstr := dec_string (Z.of_nat n).

(** [v[n]]. *)
Definition get_idx (v : val) (n : nat) : res val :=
  match v with
  | VUndef | VNull => Throw TypeError
  | VArr l => Ok (default VUndef (l !! n))
  | VStr s => Ok (match s !! n with Some c => VStr [c] | None => VUndef end)
  | VObj fs => Ok (assoc (dec_nat n) fs)
  | _ => Ok VUndef
  end.

(** [v.length]. *)
Definition get_length (v : val) : res val :=
  match v with
  | VUndef | VNull => Throw TypeError
  | VArr l => Ok (VNum (num_of_Z (Z.of_nat (length l))))
  | VStr s => Ok (VNum (num_of_Z (Z.of_nat (length s))))
  | VObj fs => Ok (assoc (js "length") fs)
  | _ => Ok VUndef
  end.

Definition truthy (v : val) : bool :=
  match v with
  | VUndef | VNull => false
  | VBool b => b
  | VNum (S754_zero _) | VNum S754_nan => false
  | VStr [] => false
  | _ => true
  end.

(** [a || b]. *)
Definition or_else (a b : val) : val := if truthy a then a else b.

(** [v === 'literal']. *)
Definition is_str (v : val) (s : jstr) : bool :=
  match v with VStr t => str_eqb t s | _ => false end.

Definition is_undef (v : val) : bool := match v with VUndef => true | _ => false end.

(** ** Coercions *)

Fixpoint to_string (v : val) : res jstr :=
  match v with
  | VUndef => Ok (js "undefined")
  | VNull => Ok (js "null")
  | VBool b => Ok (if b then js "true" else js "false")
  | VNum n => Ok (num_to_string n)
  | VStr s => Ok s
  | VArr l =>
      (fix join (l : list val) : res jstr :=
         match l with
         | [] => Ok []
         | x :: r =>
             t ← (match x with VUndef | VNull => Ok [] | _ => to_string x end);
             u ← join r;
             Ok (match r with [] => t | _ => t ++ [44] ++ u end)
         end) l
  | VObj fs =>
      (* an own [toString] from JSON is not callable, and [valueOf] gives the object back *)
      if has_own (js "toString") fs then Throw TypeError else Ok (js "[object Object]")
  end.

Definition is_digit (c : Z) : bool := (48 <=? c) && (c <=? 57).

Fixpoint span_digits (s : jstr) : jstr * jstr :=
  match s with
  | c :: r => if is_digit c then let '(d, t) := span_digits r in (c :: d, t) else ([], s)
  | [] => ([], [])
  end.

Fixpoint dec_value (s : jstr) (acc : Z) : Z :=
  match s with
  | [] => acc
  | c :: r => dec_value r (10 * acc + (c - 48))
  end.

(** An optional exponent part; [None] when an [e] is not followed by digits. *)
Definition exponent_part (s : jstr) : option (Z * jstr) :=
  match s with
  | c :: r =>
      if (c =? 101) || (c =? 69) then
        let '(sg, r') := match r with 45 :: t => (true, t) | 43 :: t => (false, t) | _ => (false, r) end in
        match span_digits r' with
        | ([], _) => None
        | (ds, t) => Some ((if sg then - dec_value ds 0 else dec_value ds 0), t)
        end
      else Some (0, s)
  | [] => Some (0, [])
  end.

(** Digits in base 2, 8 or 16 after a prefix such as [0x]. *)
Definition radix_digits (base : Z) (s : jstr) : num :=
  match s with
  | [] => NaN
  | _ => if forallb (fun c => is_hex c && (hex_val c <? base)) s
         then num_of_Z (fold_left (fun a c => base * a + hex_val c) s 0) else NaN
  end.

Definition unsigned_decimal (s : jstr) : num :=
  if str_eqb s (js "Infinity") then S754_infinity false else
  let '(ip, r) := span_digits s in
  let '(fp, r') := match r with 46 :: t => span_digits t | _ => ([], r) end in
  match ip ++ fp with
  | [] => NaN
  | ds => match exponent_part r' with
          | Some (e, []) => num_of_dec (dec_value ds 0) (e - Z.of_nat (length fp))
          | _ => NaN
          end
  end.

(** [StringToNumber]. *)
Definition string_to_number (s : jstr) : num :=
  let t := trim s in
  match t with
  | [] => zero
  | 48 :: x :: r =>
      if (x =? 120) || (x =? 88) then radix_digits 16 r
      else if (x =? 111) || (x =? 79) then radix_digits 8 r
      else if (x =? 98) || (x =? 66) then radix_digits 2 r
      else unsigned_decimal t
  | 45 :: r => num_opp (unsigned_decimal r)
  | 43 :: r => unsigned_decimal r
  | _ => unsigned_decimal t
  end.

Definition to_number (v : val) : res num :=
  match v with
  | VUndef => Ok NaN
  | VNull => Ok zero
  | VBool b => Ok (num_of_Z (if b then 1 else 0))
  | VNum n => Ok n
  | VStr s => Ok (string_to_number s)
  | _ => s ← to_string v; Ok (string_to_number s)
  end.

(** ** JSON.stringify *)

Definition u_escape (c : Z) : jstr := [92; 117] ++ hex_fixed 4 c.

Definition quote_unit (c : Z) : jstr :=
  if c =? 8 then [92; 98]
  else if c =? 9 then [92; 116]
  else if c =? 10 then [92; 110]
  else if c =? 12 then [92; 102]
  else if c =? 13 then [92; 114]
  else if c =? 34 then [92; 34]
  else if c =? 92 then [92; 92]
  else if c <? 32 then u_escape c
  else [c].

(** Lone surrogates are escaped, surrogate pairs are copied. *)
Fixpoint quote_body (s : jstr) : jstr :=
  match s with
  | [] => []
  | c :: r =>
      if high_surrogate c then
        match r with
        | d :: r' => if low_surrogate d then c :: d :: quote_body r' else u_escape c ++ quote_body r
        | [] => u_escape c
        end
      else if low_surrogate c then u_escape c ++ quote_body r
      else quote_unit c ++ quote_body r
  end.

Definition quote (s : jstr) : jstr := [34] ++ quote_body s ++ [34].

Fixpoint sep_by (sep : jstr) (l : list jstr) : jstr :=
  match l with
  | [] => []
  | [x] => x
  | x :: r => x ++ sep ++ sep_by sep r
  end.

(** The text of a value; [None] for [undefined], which an array shows as
    [null] and an object leaves out. *)
Fixpoint stringify (v : val) : option jstr :=
  match v with
  | VUndef => None
  | VNull => Some (js "null")
  | VBool b => Some (if b then js "true" else js "false")
  | VNum n => Some (match n with
                    | S754_nan | S754_infinity _ => js "null"
                    | _ => num_to_string n
                    end)
  | VStr s => Some (quote s)
  | VArr l =>
      Some ([91] ++ sep_by [44] (map (fun x => default (js "null") (stringify x)) l) ++ [93])
  | VObj fs =>
      Some ([123] ++ sep_by [44] ((fix go (fs : list (jstr * val)) : list jstr :=
        match fs with
        | [] => []
        | (k, x) :: r => match stringify x with
                         | Some t => (quote k ++ [58] ++ t) :: go r
                         | None => go r
                         end
        end) fs) ++ [125])
  end.

(** ** JSON.parse *)

Definition json_ws (c : Z) : bool := (c =? 9) || (c =? 10) || (c =? 13) || (c =? 32).

Fixpoint skip_ws (s : jstr) : jstr :=
  match s with
  | c :: r => if json_ws c then skip_ws r else s
  | [] => []
  end.

Definition unescape (c : Z) : option Z :=
  if c =? 34 then Some 34 else if c =? 92 then Some 92 else if c =? 47 then Some 47
  else if c =? 98 then Some 8 else if c =? 102 then Some 12 else if c =? 110 then Some 10
  else if c =? 114 then Some 13 else if c =? 116 then Some 9 else None.

(** The body of a string literal after its opening quote. *)
Fixpoint json_string (s : jstr) : option (jstr * jstr) :=
  match s with
  | [] => None
  | c :: r =>
      if c =? 34 then Some ([], r)
      else if c <? 32 then None
      else if c =? 92 then
        match r with
        | 117 :: a :: b :: d :: e :: t =>
            if forallb is_hex [a; b; d; e]
            then '(u, q) ← json_string t; Some (hex_value [a; b; d; e] :: u, q)
            else None
        | x :: t => y ← unescape x; '(u, q) ← json_string t; Some (y :: u, q)
        | [] => None
        end
      else '(u, q) ← json_string r; Some (c :: u, q)
  end.

Definition json_number (s : jstr) : option (val * jstr) :=
  let '(neg, s1) := match s with 45 :: r => (true, r) | _ => (false, s) end in
  match span_digits s1 with
  | ([], _) => None
  | (ip, r) =>
      if (1 <? Z.of_nat (length ip)) && (default 0 (ip !! 0%nat) =? 48) then None else
      '(fp, r') ← (match r with
                   | 46 :: t => match span_digits t with ([], _) => None | p => Some p end
                   | _ => Some ([], r)
                   end);
      '(e, r'') ← exponent_part r';
      let x := num_of_dec (dec_value (ip ++ fp) 0) (e - Z.of_nat (length fp)) in
      Some (VNum (if neg then num_opp x else x), r'')
  end.

(** Array-index keys come first, in ascending order; other keys keep the order
    of insertion; a repeated key keeps its place and takes the last value. *)
Definition array_index (k : jstr) : option Z :=
  match k with
  | [] => None
  | c :: r => if forallb is_digit k && negb ((c =? 48) && negb (bool_decide (r = []))) then
                let n := dec_value k 0 in if n <? 4294967295 then Some n else None
              else None
  end.

Fixpoint obj_insert (k : jstr) (v : val) (fs : list (jstr * val)) : list (jstr * val) :=
  match fs with
  | [] => [(k, v)]
  | (k', v') :: r =>
      match array_index k, array_index k' with
      | Some n, Some n' => if n <? n' then (k, v) :: fs else (k', v') :: obj_insert k v r
      | Some _, None => (k, v) :: fs
      | None, _ => (k', v') :: obj_insert k v r
      end
  end.

Fixpoint obj_replace (k : jstr) (v : val) (fs : list (jstr * val)) : list (jstr * val) :=
  match fs with
  | [] => []
  | (k', v') :: r => if str_eqb k k' then (k', v) :: r else (k', v') :: obj_replace k v r
  end.

Definition obj_set (k : jstr) (v : val) (fs : list (jstr * val)) : list (jstr * val) :=
  if has_own k fs then obj_replace k v fs else obj_insert k v fs.

Definition expect (c : Z) (s : jstr) : option jstr :=
  match skip_ws s with d :: r => if d =? c then Some r else None | [] => None end.

Definition keyword (w : jstr) (v : val) (s : jstr) : option (val * jstr) :=
  if starts_with w s then Some (v, drop (length w) s) else None.

(** [fuel] bounds the calls: each consumes a character or is followed by one
    that does, so twice the length is enough. *)
Fixpoint json_value (fuel : nat) (s : jstr) : option (val * jstr) :=
  match fuel with
  | O => None
  | S f =>
      match skip_ws s with
      | [] => None
      | c :: r =>
          if c =? 123 then
            match skip_ws r with
            | 125 :: t => Some (VObj [], t)
            | _ => '(fs, t) ← json_members f [] r; Some (VObj fs, t)
            end
          else if c =? 91 then
            match skip_ws r with
            | 93 :: t => Some (VArr [], t)
            | _ => '(l, t) ← json_elements f r; Some (VArr l, t)
            end
          else if c =? 34 then '(x, t) ← json_string r; Some (VStr x, t)
          else if c =? 116 then keyword (js "true") (VBool true) (c :: r)
          else if c =? 102 then keyword (js "false") (VBool false) (c :: r)
          else if c =? 110 then keyword (js "null") VNull (c :: r)
          else json_number (c :: r)
      end
  end
with json_elements (fuel : nat) (s : jstr) : option (list val * jstr) :=
  match fuel with
  | O => None
  | S f =>
      '(x, r) ← json_value f s;
      match skip_ws r with
      | 44 :: t => '(l, q) ← json_elements f t; Some (x :: l, q)
      | 93 :: t => Some ([x], t)
      | _ => None
      end
  end
with json_members (fuel : nat) (acc : list (jstr * val)) (s : jstr)
    : option (list (jstr * val) * jstr) :=
  match fuel with
  | O => None
  | S f =>
      q ← expect 34 s;
      '(k, r) ← json_string q;
      r' ← expect 58 r;
      '(x, t) ← json_value f r';
      match skip_ws t with
      | 44 :: u => json_members f (obj_set k x acc) u
      | 125 :: u => Some (obj_set k x acc, u)
      | _ => None
      end
  end.

Definition JSON_parse (s : jstr) : res val :=
  match json_value (2 * length s + 2) s with
  | Some (v, r) => match skip_ws r with [] => Ok v | _ => Throw SyntaxError end
  | None => Throw SyntaxError
  end.
