(* ===== verification/JsDecimal.v ===== *)
(** * Decimal text of integers

    [dec_string] is the decimal text of a nonnegative integer: its digits, its
    value and its length.  On integers below [10^15] the shortest-digits search
    of [Number::toString] gives exactly that text. *)

From Stdlib Require Import ZArith Lia Bool SpecFloat.
From stdpp Require Import base list numbers option.
From S2P Require Import Prelude JsNum JsNumFacts JsStr JsValue.

Open Scope Z_scope.

(** ** Digits and value *)

Lemma dec_digits_value fuel n acc :
  0 <= n < 10 ^ Z.of_nat fuel -> dec_value (dec_digits fuel n acc) 0 = dec_value acc n.
Proof.
  revert n acc; induction fuel as [|f IH]; intros n acc Hn; cbn [dec_digits].
  { replace n with 0 by (cbn in Hn; lia). done. }
  rewrite Nat2Z.inj_succ, Z.pow_succ_r in Hn by lia. pose proof (Z.div_mod n 10 ltac:(lia)) as Hd.
  pose proof (Z.mod_pos_bound n 10 ltac:(lia)) as Hm.
  destruct (Z.ltb_spec n 10); [cbn [dec_value]; f_equal; unfold digit; lia|].
  rewrite IH by (split; [apply Z.div_pos|apply Z.div_lt_upper_bound]; lia). cbn [dec_value]. f_equal. unfold digit. lia.
Qed.

Lemma log2_fuel n : 0 <= n -> 0 <= n < 10 ^ Z.of_nat (S (Z.to_nat (Z.log2 n))).
Proof.
  intros Hn. split; [done|]. destruct (Z.eq_dec n 0) as [->|]; [done|].
  pose proof (Z.log2_spec n ltac:(lia)) as [_ H]. pose proof (Z.log2_nonneg n).
  rewrite Nat2Z.inj_succ, Z2Nat.id by done. eapply Z.lt_le_trans; [apply H|]. apply Z.pow_le_mono_l. lia.
Qed.

Lemma dec_string_value n : 0 <= n -> dec_value (dec_string n) 0 = n.
Proof. intros Hn. unfold dec_string. rewrite dec_digits_value; [done|]. by apply log2_fuel. Qed.

Lemma dec_digits_digits fuel n acc :
  0 <= n -> Forall (fun c => is_digit c = true) acc -> Forall (fun c => is_digit c = true) (dec_digits fuel n acc).
Proof.
  revert n acc; induction fuel as [|f IH]; intros n acc Hn Ha; cbn [dec_digits]; [done|].
  pose proof (Z.mod_pos_bound n 10 ltac:(lia)). destruct (Z.ltb_spec n 10).
  - constructor; [unfold is_digit, digit; zbool; lia|done].
  - apply IH; [apply Z.div_pos; lia|]. constructor; [unfold is_digit, digit; zbool; lia|done].
Qed.

Lemma dec_string_digits n : 0 <= n -> Forall (fun c => is_digit c = true) (dec_string n).
Proof. intros Hn. by apply dec_digits_digits. Qed.

(** ** One digit at a time *)

Lemma dec_digits_acc fuel n acc : dec_digits fuel n acc = dec_digits fuel n [] ++ acc.
Proof.
  revert n acc; induction fuel as [|f IH]; intros n acc; cbn [dec_digits]; [done|].
  destruct (n <? 10); [done|]. rewrite IH, (IH _ [_]), <- app_assoc. done.
Qed.

Lemma dec_digits_fuel f g n acc :
  0 <= n -> n < 10 ^ Z.of_nat f -> n < 10 ^ Z.of_nat g -> (0 < f)%nat -> (0 < g)%nat ->
  dec_digits f n acc = dec_digits g n acc.
Proof.
  revert g n acc; induction f as [|f IH]; intros [|g] n acc Hn Hf Hg Pf Pg; try lia. cbn [dec_digits].
  destruct (Z.ltb_spec n 10); [done|]. rewrite Nat2Z.inj_succ, Z.pow_succ_r in Hf, Hg by lia.
  assert (1 <= n / 10) by (apply Z.div_le_lower_bound; lia).
  apply IH; try (apply Z.div_lt_upper_bound; lia); try lia.
  - destruct f; [cbn in Hf; lia|lia].
  - destruct g; [cbn in Hg; lia|lia].
Qed.

Lemma dec_string_small n : 0 <= n < 10 -> dec_string n = [digit n].
Proof. intros Hn. unfold dec_string. cbn [dec_digits]. by rewrite (proj2 (Z.ltb_lt n 10)) by lia. Qed.

Lemma dec_string_step n : 10 <= n -> dec_string n = dec_string (n / 10) ++ [digit (n mod 10)].
Proof.
  intros Hn. unfold dec_string at 1. cbn [dec_digits]. rewrite (proj2 (Z.ltb_ge n 10)) by lia. rewrite dec_digits_acc. f_equal.
  pose proof (log2_fuel n ltac:(lia)) as [_ H]. rewrite Nat2Z.inj_succ, Z.pow_succ_r in H by lia.
  assert (1 <= n / 10) by (apply Z.div_le_lower_bound; lia).
  assert (0 < Z.log2 n) by (apply Z.log2_pos; lia).
  apply dec_digits_fuel; try lia; [apply Z.div_lt_upper_bound; lia|]. apply log2_fuel. lia.
Qed.

Lemma dec_string_ne n : 0 <= n -> dec_string n <> [].
Proof.
  intros Hn. destruct (Z.lt_ge_cases n 10); [by rewrite dec_string_small|]. rewrite dec_string_step by done.
  by destruct (dec_string _).
Qed.

Lemma dec_string_length k n :
  10 ^ Z.of_nat k <= n < 10 ^ Z.of_nat (S k) -> length (dec_string n) = S k.
Proof.
  revert n; induction k as [|k IH]; intros n Hn; [rewrite dec_string_small by (cbn in Hn; lia); done|].
  rewrite !Nat2Z.inj_succ, !Z.pow_succ_r in Hn by lia. assert (0 < 10 ^ Z.of_nat k) by (apply Z.pow_pos_nonneg; lia).
  rewrite dec_string_step, length_app, IH by first [lia | rewrite Nat2Z.inj_succ, Z.pow_succ_r by lia;
    split; [apply Z.div_le_lower_bound|apply Z.div_lt_upper_bound]; lia].
  cbn. lia.
Qed.

Lemma dec_string_shift n j : 0 < n -> dec_string (n * 10 ^ Z.of_nat j) = dec_string n ++ replicate j 48.
Proof.
  intros Hn. induction j as [|j IH]; [by rewrite Z.mul_1_r, app_nil_r|].
  assert (0 < 10 ^ Z.of_nat j) by (apply Z.pow_pos_nonneg; lia).
  rewrite Nat2Z.inj_succ, Z.pow_succ_r by lia. replace (n * (10 * 10 ^ Z.of_nat j)) with (n * 10 ^ Z.of_nat j * 10) by lia.
  rewrite dec_string_step by nia. rewrite Z.div_mul, Z.mod_mul, IH, <- app_assoc by lia. by rewrite <- replicate_cons_app.
Qed.

(** ** [Number::toString] on integers *)

Section Integer.
Variable n : Z.
Variable digits : nat.
Hypothesis n_digits : 10 ^ Z.of_nat digits <= n < 10 ^ Z.of_nat (S digits).
Hypothesis small : (digits < 15)%nat.

Abbreviation mant := (n * 2 ^ (52 - Z.log2 n)).
Abbreviation expo := (Z.log2 n - 52).

Lemma int_pos : 0 < n.
Proof. assert (0 < 10 ^ Z.of_nat digits) by (apply Z.pow_pos_nonneg; lia). lia. Qed.

Lemma pow10_le i j : (i <= j)%nat -> 10 ^ Z.of_nat i <= 10 ^ Z.of_nat j.
Proof. intros. apply Z.pow_le_mono_r; lia. Qed.

Lemma int_bound : n < 10 ^ 15.
Proof. pose proof (pow10_le (S digits) 15 ltac:(lia)). cbn [Z.of_nat Pos.of_succ_nat Pos.succ] in *. lia. Qed.

Lemma log2_bound : 0 <= Z.log2 n <= 52.
Proof.
  pose proof int_pos. pose proof int_bound. split; [apply Z.log2_nonneg|]. assert (Z.log2 n < 53); [|lia].
  apply Z.log2_lt_pow2; [done|]. assert (10 ^ 15 < 2 ^ 53) by done. lia.
Qed.

(** Scaling down by a power of ten. *)
Lemma scaled_down j :
  scaled mant expo (- Z.of_nat j) = (n * 2 ^ (52 - Z.log2 n), 10 ^ Z.of_nat j * 2 ^ (52 - Z.log2 n)).
Proof.
  pose proof log2_bound. unfold scaled. rewrite Z.opp_involutive.
  destruct (Z.leb_spec 0 expo).
  - replace (Z.log2 n) with 52 by lia. destruct j as [|j]; [by rewrite !Z.mul_1_r|].
    rewrite (proj2 (Z.leb_gt 0 _)) by lia. f_equal; cbn; lia.
  - replace (- (Z.log2 n - 52)) with (52 - Z.log2 n) by lia.
    destruct j as [|j]; [change (Z.of_nat 0) with 0; change (0 <=? - 0) with true; cbv iota; change (10 ^ (- 0)) with 1; change (10 ^ 0) with 1; f_equal; lia|].
    rewrite (proj2 (Z.leb_gt 0 _)) by lia. f_equal; lia.
Qed.

Lemma exponent_up fuel j :
  (j <= digits)%nat -> (digits - j < fuel)%nat ->
  decimal_exponent fuel mant expo (Z.of_nat (S j)) = Z.of_nat (S digits).
Proof.
  assert (0 < 2 ^ (52 - Z.log2 n)) as Hc by (pose proof log2_bound; apply Z.pow_pos_nonneg; lia).
  revert j; induction fuel as [|f IH]; intros j Hj Hf; [lia|]. cbn [decimal_exponent]. rewrite scaled_down.
  destruct (decide (j = digits)) as [->|Hne].
  - rewrite (proj2 (Z.leb_gt _ _)) by (apply Z.mul_lt_mono_pos_r; lia).
    replace (1 - Z.of_nat (S digits)) with (- Z.of_nat digits) by lia. rewrite scaled_down.
    rewrite (proj2 (Z.ltb_ge _ _)) by (apply Z.mul_le_mono_pos_r; lia). done.
  - rewrite (proj2 (Z.leb_le _ _)).
    + replace (Z.of_nat (S j) + 1) with (Z.of_nat (S (S j))) by lia. apply IH; lia.
    + apply Z.mul_le_mono_pos_r; [done|]. pose proof (pow10_le (S j) digits ltac:(lia)). lia.
Qed.

Lemma dec_exact s j : 0 <= s -> s * 10 ^ Z.of_nat j <= 10 ^ 15 -> (j <= 15)%nat ->
  num_eq (num_of_dec s (Z.of_nat j)) (num_of_Z n) = (s * 10 ^ Z.of_nat j =? n).
Proof.
  intros Hs Hb Hj. pose proof int_pos. pose proof int_bound. assert (10 ^ 15 < 2 ^ 53) by done.
  unfold num_of_dec. destruct (Z.eqb_spec s 0) as [->|]; [change zero with (num_of_Z 0); apply num_eq_of_Z; lia|].
  pose proof (Z.log2_nonneg s). rewrite (proj2 (Z.ltb_ge 400 _)), (proj2 (Z.ltb_ge _ _)), (proj2 (Z.leb_le 0 _)) by lia.
  change (round2 (s * 10 ^ Z.of_nat j) 0) with (num_of_Z (s * 10 ^ Z.of_nat j)). apply num_eq_of_Z; [|lia].
  assert (0 < 10 ^ Z.of_nat j) by (apply Z.pow_pos_nonneg; lia). nia.
Qed.

Lemma shortest_int fuel j :
  (j <= digits)%nat -> (j < fuel)%nat ->
  exists d i, shortest fuel (num_of_Z n) mant expo (Z.of_nat (S digits)) (Z.of_nat (S digits - j)) =
    (d, Z.of_nat (S digits - i)) /\ (i <= digits)%nat /\ d * 10 ^ Z.of_nat i = n.
Proof.
  assert (0 < 2 ^ (52 - Z.log2 n)) as Hc by (pose proof log2_bound; apply Z.pow_pos_nonneg; lia).
  pose proof int_pos. pose proof int_bound.
  revert j; induction fuel as [|f IH]; intros j Hj Hf; [lia|]. cbn [shortest].
  assert (0 < 10 ^ Z.of_nat j) as Hp by (apply Z.pow_pos_nonneg; lia).
  replace (Z.of_nat (S digits - j) - Z.of_nat (S digits)) with (- Z.of_nat j) by lia.
  replace (Z.of_nat (S digits) - Z.of_nat (S digits - j)) with (Z.of_nat j) by lia.
  rewrite scaled_down. cbv beta. rewrite Z.div_mul_cancel_r, Z.mul_mod_distr_r by lia.
  pose proof (Z.div_mod n (10 ^ Z.of_nat j) ltac:(lia)) as Hd. pose proof (Z.mod_pos_bound n _ Hp) as Hm.
  set (lo := n / 10 ^ Z.of_nat j) in *. assert (0 <= lo) by (apply Z.div_pos; lia).
  assert (lo < 10 ^ Z.of_nat (S digits - j)) as Hlo.
  { apply Z.div_lt_upper_bound; [done|]. rewrite <- Z.pow_add_r by lia.
    replace (Z.of_nat j + Z.of_nat (S digits - j)) with (Z.of_nat (S digits)) by lia. lia. }
  assert ((lo + 1) * 10 ^ Z.of_nat j <= 10 ^ 15) as Hup.
  { apply Z.le_trans with (10 ^ Z.of_nat (S digits - j) * 10 ^ Z.of_nat j); [apply Z.mul_le_mono_nonneg_r; lia|].
    rewrite <- Z.pow_add_r by lia. apply Z.pow_le_mono_r; lia. }
  rewrite !dec_exact by lia. rewrite (proj2 (Z.eqb_neq ((lo + 1) * _) n)) by lia.
  destruct (Z.eqb_spec (lo * 10 ^ Z.of_nat j) n) as [E|E].
  - replace (n mod 10 ^ Z.of_nat j) with 0 by lia. rewrite Z.mul_0_l, Z.mul_0_r, (proj2 (Z.leb_le 0 _)) by nia.
    exists lo, j. split; [done|]. split; [done|]. exact E.
  - rewrite andb_false_r. destruct j as [|j]; [cbn [Z.of_nat] in *; rewrite Z.pow_0_r in *; lia|].
    replace (Z.of_nat (S digits - S j) + 1) with (Z.of_nat (S digits - j)) by lia. apply IH; lia.
Qed.

Lemma num_to_string_digits : num_to_string (num_of_Z n) = dec_string n.
Proof.
  pose proof int_pos. pose proof int_bound. assert (10 ^ 15 < 2 ^ 53) by done.
  destruct (shortest_int 18 digits ltac:(lia) ltac:(lia)) as (d & i & E & Hi & Ed).
  rewrite num_of_Z_exact in * by lia. unfold num_to_string.
  assert (0 < mant) by (pose proof log2_bound; apply Z.mul_pos_pos; [lia|apply Z.pow_pos_nonneg; lia]).
  pose proof (exponent_up 800 0 ltac:(lia) ltac:(lia)) as Ex. change (Z.of_nat 1) with 1 in Ex.
  cbv zeta. rewrite Z2Pos.id, Ex by done.
  replace (S digits - digits)%nat with 1%nat in E by lia. change (Z.of_nat 1) with 1 in E. rewrite E.
  unfold layout. cbn [app].
  rewrite (proj2 (Z.leb_le (Z.of_nat (S digits - i)) (Z.of_nat (S digits)))), (proj2 (Z.leb_le _ 21)) by lia. cbn [andb].
  assert (0 < 10 ^ Z.of_nat i) by (apply Z.pow_pos_nonneg; lia).
  rewrite <- Ed, dec_string_shift by nia. f_equal. unfold zeros. f_equal. lia.
Qed.
End Integer.

Lemma digits_exist n : 0 < n < 10 ^ 15 -> exists k, (k < 15)%nat /\ 10 ^ Z.of_nat k <= n < 10 ^ Z.of_nat (S k).
Proof.
  intros Hn. assert (forall j, n < 10 ^ Z.of_nat j -> exists k, (k < j)%nat /\ 10 ^ Z.of_nat k <= n < 10 ^ Z.of_nat (S k)) as H.
  { induction j as [|j IH]; intros Hj; [cbn in Hj; lia|]. destruct (Z.lt_ge_cases n (10 ^ Z.of_nat j)) as [Hl|Hl].
    - destruct (IH Hl) as (k & Hk & H). exists k. split; [lia|done].
    - exists j. split; [lia|done]. }
  apply (H 15%nat). cbn [Z.of_nat Pos.of_succ_nat Pos.succ]. lia.
Qed.

Lemma num_to_string_int n : 0 <= n < 10 ^ 15 -> num_to_string (num_of_Z n) = dec_string n.
Proof.
  intros Hn. destruct (Z.eq_dec n 0) as [->|]; [done|].
  destruct (digits_exist n ltac:(lia)) as (k & Hk & H). by apply (num_to_string_digits n k).
Qed.
