(* ===== verification/Utf8.v ===== *)
(** * UTF-8 on the wire

    Sockets and HTTP requests carry the UTF-8 encoding of JavaScript strings.
    The file gives the encoder, shows that [Buffer.byteLength] counts its bytes
    and that decoding inverts it on strings without lone surrogates, and gives
    the Base64 of the HTTP authorization header. *)

From Stdlib Require Import ZArith Lia Bool.
From stdpp Require Import base list numbers option.
From S2P Require Import Prelude Bytes JsStr.

Open Scope Z_scope.

(** The bytes of one code point. *)
Definition utf8_cp (c : Z) : bytes :=
  if c <? 128 then [c]
  else if c <? 2048 then [192 + c / 64; 128 + c mod 64]
  else if c <? 65536 then [224 + c / 4096; 128 + c / 64 mod 64; 128 + c mod 64]
  else [240 + c / 262144; 128 + c / 4096 mod 64; 128 + c / 64 mod 64; 128 + c mod 64].

Definition pair_cp (h l : Z) : Z := 65536 + (h - 55296) * 1024 + (l - 56320).

(** [Buffer.from(s)]: a lone surrogate is written as U+FFFD. *)
Fixpoint utf8_encode (s : jstr) : bytes :=
  match s with
  | [] => []
  | c :: r =>
      if high_surrogate c then
        match r with
        | d :: r' => if low_surrogate d then utf8_cp (pair_cp c d) ++ utf8_encode r'
                     else utf8_cp 65533 ++ utf8_encode r
        | [] => utf8_cp 65533
        end
      else if low_surrogate c then utf8_cp 65533 ++ utf8_encode r
      else utf8_cp c ++ utf8_encode r
  end.

(** Strings of UTF-16 code units, and those among them without lone surrogates. *)
Abbreviation utf16_str := (Forall (fun c => 0 <= c < 65536)).

Lemma utf16_check s : forallb (fun c => (0 <=? c) && (c <? 65536)) s = true -> utf16_str s.
Proof. rewrite forallb_forall, List.Forall_forall. intros H c Hc. apply H in Hc. breflect. lia. Qed.

Fixpoint well_formed (s : jstr) : bool :=
  match s with
  | [] => true
  | c :: r =>
      if high_surrogate c then
        match r with d :: r' => low_surrogate d && well_formed r' | [] => false end
      else negb (low_surrogate c) && well_formed r
  end.

(** Induction on all shorter strings. *)
Lemma shorter_ind (P : jstr -> Prop) :
  (forall s, (forall t, (length t < length s)%nat -> P t) -> P s) -> forall s, P s.
Proof.
  intros H s. assert (forall n s, (length s <= n)%nat -> P s) as Hn; [|by eapply Hn].
  clear s. induction n as [|n IH]; intros s Hl; apply H; intros t Ht; [lia|]. apply IH. lia.
Qed.

Lemma utf8_cp_length c :
  Z.of_nat (length (utf8_cp c)) =
  if c <? 128 then 1 else if c <? 2048 then 2 else if c <? 65536 then 3 else 4.
Proof. unfold utf8_cp. repeat case_match; done. Qed.

Lemma pair_cp_range h l :
  high_surrogate h = true -> low_surrogate l = true -> 65536 <= pair_cp h l < 1114112.
Proof. unfold high_surrogate, low_surrogate, pair_cp. intros. breflect. lia. Qed.

Lemma high_big c : high_surrogate c = true -> (c <? 128) = false /\ (c <? 2048) = false /\ (c <? 65536) = true.
Proof. unfold high_surrogate. intros. breflect. rewrite !Z.ltb_ge, Z.ltb_lt. lia. Qed.

Lemma low_big c : low_surrogate c = true -> (c <? 128) = false /\ (c <? 2048) = false /\ (c <? 65536) = true.
Proof. unfold low_surrogate. intros. breflect. rewrite !Z.ltb_ge, Z.ltb_lt. lia. Qed.

Lemma byteLength_encode s : utf16_str s -> byteLength s = Z.of_nat (length (utf8_encode s)).
Proof.
  induction s as [[|c r] IH] using shorter_ind; intros Hs; [done|].
  inversion Hs as [|? ? Hc Hr]; subst. cbn [byteLength utf8_encode].
  assert (byteLength r = Z.of_nat (length (utf8_encode r))) as IHr by (apply IH; [cbn; lia|done]).
  destruct (high_surrogate c) eqn:Eh; [|destruct (low_surrogate c) eqn:El].
  - destruct (high_big c Eh) as (-> & -> & _). destruct r as [|d r']; [done|].
    inversion Hr as [|? ? Hd Hr']; subst. destruct (low_surrogate d) eqn:Ed; rewrite length_app, Nat2Z.inj_add, utf8_cp_length.
    + pose proof (pair_cp_range c d Eh Ed). rewrite !(proj2 (Z.ltb_ge _ _)) by lia.
      rewrite <- IH; [done|cbn; lia|done].
    + by rewrite <- IHr.
  - destruct (low_big c El) as (-> & -> & _). by rewrite length_app, Nat2Z.inj_add, utf8_cp_length, <- IHr.
  - rewrite length_app, Nat2Z.inj_add, utf8_cp_length, <- IHr. rewrite (proj2 (Z.ltb_lt c 65536)) by lia.
    by repeat case_match.
Qed.

(** ** Decoding inverts encoding *)

Lemma div_mod_64 n : n = 64 * (n / 64) + n mod 64 /\ 0 <= n mod 64 < 64.
Proof. split; [apply Z.div_mod; lia|apply Z.mod_pos_bound; lia]. Qed.

Lemma div_64_64 n : n / 4096 = n / 64 / 64.
Proof. by rewrite Z.div_div by lia. Qed.

Lemma div_64_64_64 n : n / 262144 = n / 64 / 64 / 64.
Proof. by rewrite !Z.div_div by lia. Qed.

Lemma cont_128 x : 0 <= x < 64 -> cont (128 + x) = true.
Proof. intros. unfold cont. apply andb_true_iff. rewrite !Z.leb_le. lia. Qed.

Lemma utf16_small c : 0 <= c < 65536 -> utf16 c = [c].
Proof. intros. unfold utf16. by zbool. Qed.

Lemma second_ok_3 y2 x1 c x0 :
  c = 64 * (64 * y2 + x1) + x0 -> 0 <= x0 < 64 -> 0 <= x1 < 64 -> 2048 <= c < 65536 ->
  high_surrogate c = false -> low_surrogate c = false -> second_ok (224 + y2) (128 + x1) = true.
Proof.
  unfold high_surrogate, low_surrogate, second_ok, cont. intros.
  destruct (Z.eqb_spec (224 + y2) 224), (Z.eqb_spec (224 + y2) 237),
    (Z.eqb_spec (224 + y2) 240), (Z.eqb_spec (224 + y2) 244); lia.
Qed.

Lemma second_ok_4 y3 x2 x1 c x0 :
  c = 64 * (64 * (64 * y3 + x2) + x1) + x0 -> 0 <= x0 < 64 -> 0 <= x1 < 64 -> 0 <= x2 < 64 ->
  65536 <= c < 1114112 -> second_ok (240 + y3) (128 + x2) = true.
Proof.
  unfold second_ok, cont. intros.
  destruct (Z.eqb_spec (240 + y3) 224), (Z.eqb_spec (240 + y3) 237),
    (Z.eqb_spec (240 + y3) 240), (Z.eqb_spec (240 + y3) 244); lia.
Qed.

Lemma utf8_decode_cp c r :
  0 <= c < 1114112 -> high_surrogate c = false -> low_surrogate c = false ->
  utf8_decode (utf8_cp c ++ r) = utf16 c ++ utf8_decode r.
Proof.
  intros Hc Hh Hl. unfold utf8_cp. rewrite div_64_64_64, div_64_64.
  pose proof (div_mod_64 c) as [E0 R0]. pose proof (div_mod_64 (c / 64)) as [E1 R1].
  pose proof (div_mod_64 (c / 64 / 64)) as [E2 R2].
  set (x0 := c mod 64) in *. set (x1 := (c / 64) mod 64) in *. set (x2 := (c / 64 / 64) mod 64) in *.
  set (y1 := c / 64) in *. set (y2 := y1 / 64) in *. set (y3 := y2 / 64) in *.
  destruct (Z.ltb_spec c 128); [|destruct (Z.ltb_spec c 2048); [|destruct (Z.ltb_spec c 65536)]]; cbn [app utf8_decode].
  - rewrite utf16_small by lia. by zbool.
  - zbool. rewrite cont_128 by lia. do 2 f_equal. lia.
  - zbool. rewrite (second_ok_3 y2 x1 c x0), cont_128 by (done || lia). do 2 f_equal. lia.
  - zbool. rewrite (second_ok_4 y3 x2 x1 c x0), !cont_128 by (done || lia). do 2 f_equal. lia.
Qed.

Lemma utf16_pair h l : high_surrogate h = true -> low_surrogate l = true -> utf16 (pair_cp h l) = [h; l].
Proof.
  intros Hh Hl. pose proof (pair_cp_range h l Hh Hl). unfold utf16. zbool.
  unfold high_surrogate, low_surrogate in *. breflect.
  replace (pair_cp h l - 65536) with ((h - 55296) * 1024 + (l - 56320)) by (unfold pair_cp; lia).
  rewrite Z.div_add_l, Z.div_small by lia.
  rewrite (Z.add_comm ((h - 55296) * 1024)), Z.mod_add, Z.mod_small by lia.
  f_equal; [lia|f_equal; lia].
Qed.

Lemma pair_not_surrogate h l :
  high_surrogate h = true -> low_surrogate l = true ->
  high_surrogate (pair_cp h l) = false /\ low_surrogate (pair_cp h l) = false.
Proof. intros Hh Hl. pose proof (pair_cp_range h l Hh Hl). unfold high_surrogate, low_surrogate. lia. Qed.

Lemma utf8_decode_encode s : utf16_str s -> well_formed s = true -> utf8_decode (utf8_encode s) = s.
Proof.
  induction s as [[|c r] IH] using shorter_ind; intros Hs Hw; [done|].
  inversion Hs as [|? ? Hc Hr]; subst. cbn [well_formed utf8_encode] in *.
  destruct (high_surrogate c) eqn:Eh; [|destruct (low_surrogate c) eqn:El; [done|]].
  - destruct r as [|d r']; [done|]. inversion Hr as [|? ? Hd Hr']; subst. breflect.
    match goal with H : low_surrogate d = true |- _ => rewrite H; rename H into Ed end.
    destruct (pair_not_surrogate c d Eh Ed). rewrite utf8_decode_cp by (done || pose proof (pair_cp_range c d Eh Ed); lia).
    rewrite utf16_pair, IH by (done || cbn; lia). done.
  - rewrite utf8_decode_cp by (done || lia). rewrite utf16_small by lia.
    rewrite IH by (done || cbn; lia). done.
Qed.

Lemma utf8_cp_byte c : 0 <= c < 1114112 -> Forall is_byte (utf8_cp c).
Proof.
  intros Hc. unfold utf8_cp. rewrite div_64_64_64, div_64_64.
  pose proof (div_mod_64 c) as [E0 R0]. pose proof (div_mod_64 (c / 64)) as [E1 R1].
  pose proof (div_mod_64 (c / 64 / 64)) as [E2 R2].
  repeat case_match; breflect; repeat constructor; lia.
Qed.

Lemma utf8_encode_byte s : utf16_str s -> Forall is_byte (utf8_encode s).
Proof.
  induction s as [[|c r] IH] using shorter_ind; intros Hs; [constructor|].
  inversion Hs as [|? ? Hc Hr]; subst. cbn [utf8_encode].
  assert (Forall is_byte (utf8_encode r)) by (apply IH; [cbn; lia|done]).
  assert (Forall is_byte (utf8_cp 65533)) by (by apply utf8_cp_byte).
  destruct (high_surrogate c) eqn:Eh; [|destruct (low_surrogate c)].
  - destruct r as [|d r']; [done|]. destruct (low_surrogate d) eqn:Ed; apply Forall_app; split; try done.
    + apply utf8_cp_byte. pose proof (pair_cp_range c d Eh Ed). lia.
    + inversion Hr; subst. apply IH; [cbn; lia|done].
  - by apply Forall_app.
  - apply Forall_app; split; [|done]. apply utf8_cp_byte. lia.
Qed.

(** ** Base64 *)

Definition b64_char (v : Z) : Z :=
  if v <? 26 then v + 65 else if v <? 52 then v + 71 else if v <? 62 then v - 4
  else if v =? 62 then 43 else 47.

(** [buf.toString('base64')]. *)
Fixpoint base64 (bs : bytes) : jstr :=
  match bs with
  | a :: b :: c :: r =>
      [b64_char (a / 4); b64_char (a mod 4 * 16 + b / 16);
       b64_char (b mod 16 * 4 + c / 64); b64_char (c mod 64)] ++ base64 r
  | [a; b] => [b64_char (a / 4); b64_char (a mod 4 * 16 + b / 16); b64_char (b mod 16 * 4); 61]
  | [a] => [b64_char (a / 4); b64_char (a mod 4 * 16); 61; 61]
  | [] => []
  end.

Definition b64_val (c : Z) : Z :=
  if c =? 43 then 62 else if c =? 47 then 63 else if c <=? 57 then c + 4
  else if c <=? 90 then c - 65 else c - 71.

(** Decoding of padded Base64, as the receiver of the header does. *)
Fixpoint base64_decode (s : jstr) : bytes :=
  match s with
  | a :: b :: c :: d :: r =>
      let a := b64_val a in let b := b64_val b in
      if c =? 61 then [a * 4 + b / 16]
      else let c := b64_val c in
           if d =? 61 then [a * 4 + b / 16; b mod 16 * 16 + c / 4]
           else [a * 4 + b / 16; b mod 16 * 16 + c / 4; c mod 4 * 64 + b64_val d] ++ base64_decode r
  | _ => []
  end.

Lemma b64_val_char v : 0 <= v < 64 -> b64_val (b64_char v) = v /\ (b64_char v =? 61) = false.
Proof.
  intros Hv. unfold b64_char. destruct (Z.ltb_spec v 26); [|destruct (Z.ltb_spec v 52); [|destruct (Z.ltb_spec v 62);
    [|destruct (Z.eqb_spec v 62)]]]; unfold b64_val; zbool; split; try done; lia.
Qed.

Lemma sextet_1 a : is_byte a -> 0 <= a / 4 < 64 /\ 0 <= a mod 4 < 4 /\ a = a / 4 * 4 + a mod 4.
Proof.
  unfold is_byte. intros. pose proof (Z.div_mod a 4 ltac:(lia)). pose proof (Z.mod_pos_bound a 4 ltac:(lia)). lia.
Qed.

Lemma sextet_2 a : is_byte a -> 0 <= a / 16 < 16 /\ 0 <= a mod 16 < 16 /\ a = a / 16 * 16 + a mod 16.
Proof.
  unfold is_byte. intros. pose proof (Z.div_mod a 16 ltac:(lia)). pose proof (Z.mod_pos_bound a 16 ltac:(lia)). lia.
Qed.

Lemma sextet_3 a : is_byte a -> 0 <= a / 64 < 4 /\ 0 <= a mod 64 < 64 /\ a = a / 64 * 64 + a mod 64.
Proof.
  unfold is_byte. intros. pose proof (Z.div_mod a 64 ltac:(lia)). pose proof (Z.mod_pos_bound a 64 ltac:(lia)). lia.
Qed.

(** A sextet made of a high part and a low part comes apart again. *)
Lemma split_sextet h l k : 0 <= h -> 0 <= l < k -> (h * k + l) / k = h /\ (h * k + l) mod k = l.
Proof.
  intros. rewrite Z.div_add_l, Z.div_small by lia. rewrite (Z.add_comm (h * k)), Z.mod_add, Z.mod_small by lia. lia.
Qed.

Lemma base64_roundtrip bs : Forall is_byte bs -> base64_decode (base64 bs) = bs.
Proof.
  induction bs as [bs IH] using shorter_ind. intros Hb.
  destruct bs as [|a [|b [|c r]]]; [done|..]; inversion_clear Hb as [|? ? Ha Hb1].
  - destruct (sextet_1 a Ha) as (A1 & A2 & EA). cbn [base64 base64_decode Z.eqb Pos.eqb].
    destruct (b64_val_char (a / 4) A1) as [-> _], (b64_val_char (a mod 4 * 16) ltac:(lia)) as [-> _].
    rewrite Z.div_mul by lia. by rewrite <- EA.
  - inversion_clear Hb1 as [|? ? Hb2 _].
    destruct (sextet_1 a Ha) as (A1 & A2 & EA), (sextet_2 b Hb2) as (B1 & B2 & EB). cbn [base64 base64_decode].
    destruct (b64_val_char (a / 4) A1) as [-> _], (b64_val_char (a mod 4 * 16 + b / 16) ltac:(lia)) as [-> _],
      (b64_val_char (b mod 16 * 4) ltac:(lia)) as [-> ->]. cbn [Z.eqb Pos.eqb].
    destruct (split_sextet (a mod 4) (b / 16) 16) as [-> ->]; [lia..|].
    rewrite Z.div_mul by lia. by rewrite <- EA, <- EB.
  - inversion_clear Hb1 as [|? ? Hb2 Hb3]. inversion_clear Hb3 as [|? ? Hc Hr].
    destruct (sextet_1 a Ha) as (A1 & A2 & EA), (sextet_2 b Hb2) as (B1 & B2 & EB), (sextet_3 c Hc) as (C1 & C2 & EC).
    cbn [base64 base64_decode app].
    destruct (b64_val_char (a / 4) A1) as [-> _], (b64_val_char (a mod 4 * 16 + b / 16) ltac:(lia)) as [-> _],
      (b64_val_char (b mod 16 * 4 + c / 64) ltac:(lia)) as [-> ->], (b64_val_char (c mod 64) C2) as [-> ->].
    destruct (split_sextet (a mod 4) (b / 16) 16) as [-> ->]; [lia..|].
    destruct (split_sextet (b mod 16) (c / 64) 4) as [-> ->]; [lia..|].
    rewrite IH, <- EA, <- EB, <- EC by (done || cbn; lia). done.
Qed.
