(* ===== verification/Sha256.v ===== *)
(** * SHA-256

    The hash behind [crypto.createHash('sha256')] and [CSHA256], as FIPS 180-4
    states it, on bytes.  Executable, with the standard's test vectors. *)

From Stdlib Require Import ZArith Lia String.
From stdpp Require Import base list numbers.
From S2P Require Import Prelude Bytes JsStr.

Open Scope Z_scope.

Definition w32 (x : Z) : Z := x mod 2 ^ 32.
Definition rotr (x n : Z) : Z := w32 (Z.lor (Z.shiftr x n) (Z.shiftl x (32 - n))).

Definition Ch (x y z : Z) : Z := Z.lxor (Z.land x y) (Z.land (Z.lxor x (2 ^ 32 - 1)) z).
Definition Maj (x y z : Z) : Z := Z.lxor (Z.lxor (Z.land x y) (Z.land x z)) (Z.land y z).
Definition Sigma0 (x : Z) : Z := Z.lxor (Z.lxor (rotr x 2) (rotr x 13)) (rotr x 22).
Definition Sigma1 (x : Z) : Z := Z.lxor (Z.lxor (rotr x 6) (rotr x 11)) (rotr x 25).
Definition sigma0 (x : Z) : Z := Z.lxor (Z.lxor (rotr x 7) (rotr x 18)) (Z.shiftr x 3).
Definition sigma1 (x : Z) : Z := Z.lxor (Z.lxor (rotr x 17) (rotr x 19)) (Z.shiftr x 10).

(** The constants are the leading fractional bits of roots of the first primes:
    [root k x b r] finds the largest [r + y] with [y < 2^b] and [(r + y)^k <= x]. *)
Fixpoint root (k x : Z) (b : nat) (r : Z) : Z :=
  match b with
  | O => r
  | S b' => let r' := r + 2 ^ Z.of_nat b' in root k x b' (if r' ^ k <=? x then r' else r)
  end.

Definition prime_list (n : nat) : list Z :=
  take n (List.filter (fun p => forallb (fun d => negb (p mod Z.of_nat d =? 0)) (seq 2 (Z.to_nat p - 2)))
    (map Z.of_nat (seq 2 310))).

Definition fraction32 (k p : Z) : Z := root k (p * 2 ^ (32 * k)) 40 0 mod 2 ^ 32.

(** Cube roots of the first 64 primes. *)
Definition K256 : list Z := Eval vm_compute in map (fraction32 3) (prime_list 64).

Record hstate := HState { hA : Z; hB : Z; hC : Z; hD : Z; hE : Z; hF : Z; hG : Z; hH : Z }.

(** Square roots of the first eight. *)
Definition H256 : hstate := Eval vm_compute in
  match map (fraction32 2) (prime_list 8) with
  | [a; b; c; d; e; f; g; h] => HState a b c d e f g h
  | _ => HState 0 0 0 0 0 0 0 0
  end.

(** The message schedule, latest word first. *)
Fixpoint schedule (n : nat) (w : list Z) : list Z :=
  match n with
  | O => w
  | S k =>
      let at_ i := nth i w 0 in
      schedule k (w32 (sigma1 (at_ 1%nat) + at_ 6%nat + sigma0 (at_ 14%nat) + at_ 15%nat) :: w)
  end.

Fixpoint words (n : nat) (bs : bytes) : list Z :=
  match n with
  | O => []
  | S k => be_value (take 4 bs) :: words k (drop 4 bs)
  end.

Definition round256 (h : hstate) (kw : Z * Z) : hstate :=
  let t1 := hH h + Sigma1 (hE h) + Ch (hE h) (hF h) (hG h) + fst kw + snd kw in
  let t2 := Sigma0 (hA h) + Maj (hA h) (hB h) (hC h) in
  HState (w32 (t1 + t2)) (hA h) (hB h) (hC h) (w32 (hD h + t1)) (hE h) (hF h) (hG h).

Definition compress (h : hstate) (block : bytes) : hstate :=
  let w := rev (schedule 48 (rev (words 16 block))) in
  let r := fold_left round256 (combine K256 w) h in
  HState (w32 (hA h + hA r)) (w32 (hB h + hB r)) (w32 (hC h + hC r)) (w32 (hD h + hD r))
         (w32 (hE h + hE r)) (w32 (hF h + hF r)) (w32 (hG h + hG r)) (w32 (hH h + hH r)).

Definition pad256 (m : bytes) : bytes :=
  let n := Z.of_nat (length m) in
  m ++ [128] ++ replicate (Z.to_nat ((55 - n) mod 64)) 0 ++ be_bytes 8 (8 * n).

Fixpoint blocks256 (n : nat) (h : hstate) (bs : bytes) : hstate :=
  match n with
  | O => h
  | S k => blocks256 k (compress h (take 64 bs)) (drop 64 bs)
  end.

Definition digest_bytes (h : hstate) : bytes :=
  be_bytes 4 (hA h) ++ be_bytes 4 (hB h) ++ be_bytes 4 (hC h) ++ be_bytes 4 (hD h) ++
  be_bytes 4 (hE h) ++ be_bytes 4 (hF h) ++ be_bytes 4 (hG h) ++ be_bytes 4 (hH h).

Definition sha256 (m : bytes) : bytes :=
  let p := pad256 m in digest_bytes (blocks256 (length p / 64) H256 p).

Definition sha256d (m : bytes) : bytes := sha256 (sha256 m).

Lemma length_sha256 m : length (sha256 m) = 32%nat.
Proof. unfold sha256, digest_bytes. by rewrite !length_app, !length_be_bytes. Qed.

Lemma sha256_byte m : Forall is_byte (sha256 m).
Proof. unfold sha256, digest_bytes. rewrite !Forall_app. repeat split; auto with js. Qed.

Example sha256_abc :
  to_hex (sha256 (js "abc")) = js "ba7816bf8f01cfea414140de5dae2223b00361a396177a9cb410ff61f20015ad".
Proof. vm_compute. reflexivity. Qed.

Example sha256_two_blocks :
  to_hex (sha256 (js "abcdbcdecdefdefgefghfghighijhijkijkljklmklmnlmnomnopnopq")) =
  js "248d6a61d20638b8e5c026930c3e6039a33ce45964ff2167f6ecedd419db06c1".
Proof. vm_compute. reflexivity. Qed.
