(* ===== verification/Libs.v ===== *)
(** * Third-party code the sources call

    [randomx.js] and [blake2b] (npm packages) and the RandomX C library are not
    part of the repository.  They are parameters: a class of operations, and a
    class of the laws their documentation gives.  [toy_randomx] is a concrete
    instance of both, built on SHA-256, used to evaluate the model. *)

From Stdlib Require Import ZArith Lia.
From stdpp Require Import base list numbers.
From S2P Require Import Prelude Bytes JsStr Sha256.

Open Scope Z_scope.

(** What the proxy calls.  [None] is a thrown exception. *)
Class RandomXLib := {
  rx_cache : Type;
  rx_vm : Type;
  randomx_init_cache : bytes -> option rx_cache;
  randomx_create_vm : rx_cache -> option rx_vm;
  calculate_hex_hash : rx_vm -> bytes -> option jstr;
  blake2b256 : bytes -> bytes;
}.

(** What the node calls: the RandomX hash of an input under a key, and the
    commitment of an input and its hash. *)
Class RandomXRef := {
  rx_hash : bytes -> bytes -> bytes;
  rx_commitment : bytes -> bytes -> bytes;
}.

(** Documented behaviour: a VM made from the cache of a key hashes under that
    key and prints 64 hexadecimal digits; the commitment is BLAKE2b-256 of the
    input followed by the hash; both results are 32 bytes. *)
Class RandomXLaws (L : RandomXLib) (R : RandomXRef) : Prop := {
  rx_hash_bytes : forall k m, length (rx_hash k m) = 32%nat /\ Forall is_byte (rx_hash k m);
  blake2b_bytes : forall m, length (blake2b256 m) = 32%nat /\ Forall is_byte (blake2b256 m);
  vm_hashes : forall k c v m,
    randomx_init_cache k = Some c -> randomx_create_vm c = Some v ->
    calculate_hex_hash v m = Some (to_hex (rx_hash k m));
  commitment_is_blake2b : forall m h, rx_commitment m h = blake2b256 (m ++ h);
}.

#[export] Instance toy_randomx : RandomXLib := {|
  rx_cache := bytes;
  rx_vm := bytes;
  randomx_init_cache k := Some k;
  randomx_create_vm c := Some c;
  calculate_hex_hash v m := Some (to_hex (sha256 (v ++ m)));
  blake2b256 := sha256;
|}.

#[export] Instance toy_reference : RandomXRef := {|
  rx_hash k m := sha256 (k ++ m);
  rx_commitment m h := sha256 (m ++ h);
|}.

#[export] Instance toy_laws : RandomXLaws toy_randomx toy_reference.
Proof.
  split.
  - intros k m. exact (conj (length_sha256 (k ++ m)) (sha256_byte (k ++ m))).
  - intros m. exact (conj (length_sha256 m) (sha256_byte m)).
  - intros k c v m [= <-] [= <-]. done.
  - done.
Qed.
