(* ===== verification/ProxyCodec.v ===== *)
(** * Stratum proxy: headers, targets and jobs

    The pure part of [contrib/admin/current_proxy.js]: the 112-byte RandomX
    input, hashes and commitments, targets and difficulties, job construction
    and the transaction count of a serialized block. *)

From Stdlib Require Import ZArith Lia Bool String.
From stdpp Require Import base list numbers option.
From S2P Require Import Prelude JsNum Bytes JsStr JsValue Sha256 Libs.

Open Scope Z_scope.

Definition MIN_SHARE_DIFFICULTY : num := num_of_Z 1.

(** [/^[0-9a-fA-F]{n}$/.test(s)]. *)
Definition re_hex (n : nat) (s : jstr) : bool := (length s =? n)%nat && forallb is_hex s.

(** [reverseHex]: anything but a string has no [match] method, and a string
    with no two adjacent matchable units makes [match] return [null]. *)
Definition reverseHex (v : val) : res jstr :=
  match v with
  | VStr s => match match_dot2 s with
              | Some ps => Ok (mjoin (rev ps))
              | None => Throw TypeError
              end
  | _ => Throw TypeError
  end.

(** [Buffer#writeUInt32BE] of an integer, with Node's range checks. *)
Definition writeUInt32BE (buf : bytes) (v : Z) (off : nat) : res bytes :=
  if (v <? 0) || (4294967295 <? v) then Throw RangeError
  else if (length buf <? off + 4)%nat then Throw RangeError
  else Ok (take off buf ++ be_bytes 4 v ++ drop (off + 4) buf).

(** [Buffer#writeUInt32BE] of a Number: NaN passes the range check and is
    written as zero, a fraction is truncated. *)
Definition writeUInt32BE_num (buf : bytes) (x : num) (off : nat) : res bytes :=
  if num_lt x zero || num_lt (num_of_Z 4294967295) x then Throw RangeError
  else writeUInt32BE buf (to_uint32 x) off.

Definition u32ToLEHex (value : val) : res jstr :=
  x ← to_number value;
  b ← writeUInt32BE (replicate 4 0) (to_uint32 x) 0;
  reverseHex (VStr (to_hex b)).

Definition getEpochFromTime (timestamp : val) : res num :=
  x ← to_number timestamp;
  Ok (math_floor (num_div x (num_of_Z (7 * 24 * 60 * 60)))).

Definition getEpochSeedHash (epoch : num) : jstr :=
  let seedString := js "RCPU/RandomX/Epoch/" ++ num_to_string epoch in
  let h1 := sha256 seedString in
  let h2 := sha256 h1 in
  to_hex h2.

(** ** Targets and difficulties *)

(** [BigInt('0x' + v)]. *)
Definition bigint_of (v : val) : res Z := s ← to_string v; bigint_0x s.

Definition maxTarget : Z := hex_value (repeat_str (js "ff") 32).

Definition compareHashToTarget (hash target : val) : res bool :=
  h ← bigint_of hash;
  t ← bigint_of target;
  Ok (h <=? t).

Definition targetToDifficulty (target : val) : res num :=
  t ← bigint_of target;
  if t =? 0 then Throw RangeError else Ok (num_of_Z (Z.quot maxTarget t)).

(** [while (targetHex.length < 64) targetHex = '0' + targetHex]; each turn adds
    a character, so 64 turns are enough. *)
Fixpoint pad64 (fuel : nat) (s : jstr) : jstr :=
  match fuel with
  | O => s
  | S f => if (length s <? 64)%nat then pad64 f (48 :: s) else s
  end.

Definition bigint_toString16 (v : Z) : jstr := if v <? 0 then 45 :: toString16 (- v) else toString16 v.

Definition calculateTargetFromDifficulty (difficulty : num) : res jstr :=
  match integral difficulty with
  | None => Throw RangeError
  | Some d => if d =? 0 then Throw RangeError
              else Ok (pad64 64 (bigint_toString16 (Z.quot maxTarget d)))
  end.

Definition bitsToTarget (bits : jstr) : res jstr :=
  let exponent := parseInt16 (substring bits 0 2) in
  let mantissa := parseInt16 (drop 2 bits) in
  let target := replicate 32 0 in
  t ← (match exponent with
       | Some e =>
           let shift := (e - 3) * 8 in
           if (0 <=? shift) && (shift <? 256)
           then writeUInt32BE target (default 0 mantissa) (Z.to_nat (Z.shiftr shift 3))
           else Ok target
       | None => Ok target
       end);
  Ok (to_hex t).

(** ** Jobs *)

Record job := Job {
  job_id : jstr;
  blob : jstr;
  target : val;
  share_target : jstr;
  height : val;
  seed_hash : jstr;
  epoch : num;
  prevhash : val;
  nbits : val;
  curtime : val;
  networkDifficulty : num;
  shareDifficulty : num;
  template : val;
}.

Definition zero32 : jstr := repeat_str (js "00") 32.

(** The header blob of a template (lines 225-238). *)
Definition job_blob (tpl : val) : res jstr :=
  let version := js "00000020" in
  ph ← get tpl (js "previousblockhash");
  prev ← reverseHex ph;
  m ← get tpl (js "merkleroot");
  merkleRoot ← (if truthy m then reverseHex m else Ok zero32);
  ct ← get tpl (js "curtime");
  ntimeLE ← u32ToLEHex (or_else ct (VNum zero));
  bits ← get tpl (js "bits");
  nb ← reverseHex bits;
  Ok (version ++ prev ++ merkleRoot ++ ntimeLE ++ nb ++ js "00000000" ++ zero32).

(** [createRandomXJob]; the counter advances even when the rest throws. *)
Definition createRandomXJob (jobCounter : Z) (tpl : val) : Z * res job :=
  let jobCounter := jobCounter + 1 in
  (jobCounter,
   b ← job_blob tpl;
   ph ← get tpl (js "previousblockhash");
   ct ← get tpl (js "curtime");
   bits ← get tpl (js "bits");
   ep ← getEpochFromTime ct;
   let seedHash := getEpochSeedHash ep in
   tg ← get tpl (js "target");
   target ← (if truthy tg then Ok tg
             else bs ← to_string bits; t ← bitsToTarget bs; Ok (VStr t));
   nd ← targetToDifficulty target;
   let sd := math_min MIN_SHARE_DIFFICULTY nd in
   shareTarget ← calculateTargetFromDifficulty sd;
   ht ← get tpl (js "height");
   Ok {| job_id := dec_string jobCounter; blob := b; target := target;
         share_target := shareTarget; height := or_else ht (VNum zero);
         seed_hash := seedHash; epoch := ep; prevhash := ph; nbits := bits; curtime := ct;
         networkDifficulty := nd; shareDifficulty := sd; template := tpl |}).

(** [buildHeader112(job, nonceHex, ntimeHex)]; [None] is the [null] result.
    The tests coerce their argument to a string, [toLowerCase] does not. *)
Definition buildHeader112 (jb : jstr) (nonceHex ntimeHex : val) : res (option jstr) :=
  ns ← to_string nonceHex;
  if negb (re_hex 8 ns) then Ok None else
  ts ← to_string ntimeHex;
  if negb (re_hex 8 ts) then Ok None else
  ntimeLE ← u32ToLEHex (VNum (match parseInt16 ts with Some n => num_of_Z n | None => NaN end));
  let prefix := substring jb 0 136 in
  let nb := substring jb 144 152 in
  match nonceHex with
  | VStr s => Ok (Some (prefix ++ ntimeLE ++ nb ++ toLowerCase s ++ zero32))
  | _ => Throw TypeError
  end.

(** [compactSize(count)]. *)
Definition compactSize (count : Z) : jstr :=
  if count <? 253 then padStart (toString16 count) 2 48
  else if count <=? 65535 then js "fd" ++ padStart (toString16 count) 4 48
  else js "fe" ++ padStart (toString16 count) 8 48.

Section Hashing.
Context {L : RandomXLib}.

(** [hashRandomX(blob112)]: every failure is caught and gives [null]. *)
Definition hashRandomX (vm : option rx_vm) (blob112 : jstr) : option jstr :=
  match vm with
  | None => None
  | Some v =>
      let inputBuffer := from_hex blob112 in
      if negb (length inputBuffer =? 112)%nat then None
      else match calculate_hex_hash v inputBuffer with
           | None => None
           | Some resultLE => match reverseHex (VStr resultLE) with
                              | Ok resultBE => Some resultBE
                              | Throw _ => None
                              end
           end
  end.

Definition calculateCommitment (rxHashBE header112 : jstr) : res (option jstr) :=
  if negb (re_hex 224 header112) then Ok None else
  let input := from_hex header112 in
  hashLE ← reverseHex (VStr rxHashBE);
  let hashIn := from_hex hashLE in
  let output := blake2b256 (input ++ hashIn) in
  resultBE ← reverseHex (VStr (to_hex output));
  Ok (Some resultBE).

(** What a well-formed submit evaluates to (lines 637-648 and 746-756). *)
Inductive share_eval :=
  | HashFailed
  | Evaluated (rxHash : jstr) (isValidShare isBlock : bool).

Definition evaluate_share (vm : option rx_vm) (jb : job) (header112 : jstr) : res share_eval :=
  match hashRandomX vm header112 with
  | None | Some [] => Ok HashFailed
  | Some rxHash =>
      commitment ← calculateCommitment rxHash header112;
      let commitment := match commitment with Some c => VStr c | None => VNull end in
      isValidShare ← compareHashToTarget (VStr rxHash) (VStr (share_target jb));
      isBlock ← compareHashToTarget commitment (target jb);
      Ok (Evaluated rxHash isValidShare isBlock)
  end.

End Hashing.
