(* ===== verification/Consensus.v ===== *)
(** * The node's RandomX proof of work

    The consensus code the proxy has to agree with, from [src/pow.cpp],
    [src/arith_uint256.cpp], [src/serialize.h] and the template of
    [src/rpc/mining.cpp]: the header, its canonical 112-byte serialization,
    compact targets, epochs and seeds, the verification itself and
    [WriteCompactSize].  A [uint256] is its 32 bytes in memory order; an
    [arith_uint256] is an integer below [2^256]. *)

From Stdlib Require Import ZArith Lia Bool String.
From stdpp Require Import base list numbers option.
From S2P Require Import Prelude JsNum Bytes JsStr JsValue Sha256 Libs.

Open Scope Z_scope.

(** ** Headers *)

Record CBlockHeader := Header {
  nVersion : Z;
  hashPrevBlock : bytes;
  hashMerkleRoot : bytes;
  nTime : Z;
  nBits : Z;
  nNonce : Z;
  h_hashRandomX : bytes;
}.

Definition null256 : bytes := replicate 32 0.
Definition IsNull (h : bytes) : bool := bool_decide (h = null256).

Definition is_u32 (n : Z) : Prop := 0 <= n < 2 ^ 32.
Definition is_u256 (h : bytes) : Prop := length h = 32%nat /\ Forall is_byte h.

Definition header_ok (h : CBlockHeader) : Prop :=
  - 2 ^ 31 <= nVersion h < 2 ^ 31 /\ is_u256 (hashPrevBlock h) /\ is_u256 (hashMerkleRoot h) /\
  is_u32 (nTime h) /\ is_u32 (nBits h) /\ is_u32 (nNonce h) /\ is_u256 (h_hashRandomX h).

(** [ser_writedata32] of the four-byte fields. *)
Definition ser32 (n : Z) : bytes := le_bytes 4 n.

Definition SerializeRandomXHeader (h : CBlockHeader) : bytes :=
  ser32 (nVersion h) ++ hashPrevBlock h ++ hashMerkleRoot h ++ ser32 (nTime h) ++
  ser32 (nBits h) ++ ser32 (nNonce h) ++ null256.

(** The header as it goes on the wire on a RandomX chain. *)
Definition SerializeHeader (h : CBlockHeader) : bytes :=
  ser32 (nVersion h) ++ hashPrevBlock h ++ hashMerkleRoot h ++ ser32 (nTime h) ++
  ser32 (nBits h) ++ ser32 (nNonce h) ++ h_hashRandomX h.

(** ** Compact targets *)

Definition wrap256 (n : Z) : Z := n mod 2 ^ 256.

Record compact := Compact { c_target : Z; c_negative : bool; c_overflow : bool }.

Definition SetCompact (nCompact : Z) : compact :=
  let nSize := Z.shiftr nCompact 24 in
  let nWord := Z.land nCompact 0x007fffff in
  let '(w, t) :=
    if nSize <=? 3 then let w := Z.shiftr nWord (8 * (3 - nSize)) in (w, w)
    else (nWord, wrap256 (Z.shiftl nWord (8 * (nSize - 3)))) in
  {| c_target := t;
     c_negative := negb (w =? 0) && negb (Z.land nCompact 0x00800000 =? 0);
     c_overflow := negb (w =? 0) && ((34 <? nSize) || ((255 <? w) && (33 <? nSize)) ||
                                     ((65535 <? w) && (32 <? nSize))) |}.

Definition bits_of (n : Z) : Z := if n =? 0 then 0 else Z.log2 n + 1.

Definition GetCompact (t : Z) : Z :=
  let nSize := (bits_of t + 7) / 8 in
  let nCompact := if nSize <=? 3 then (t mod 2 ^ 64 * 2 ^ (8 * (3 - nSize))) mod 2 ^ 32
                  else Z.shiftr t (8 * (nSize - 3)) mod 2 ^ 32 in
  let '(nCompact, nSize) :=
    if negb (Z.land nCompact 0x00800000 =? 0) then (Z.shiftr nCompact 8, nSize + 1)
    else (nCompact, nSize) in
  Z.lor nCompact (Z.shiftl nSize 24).

(** [UintToArith256]: the little-endian value of the bytes. *)
Definition UintToArith256 (h : bytes) : Z := le_value h.

(** [uint256::GetHex]: most significant byte first. *)
Definition GetHex (h : bytes) : jstr := to_hex (rev h).
Definition arith_GetHex (n : Z) : jstr := GetHex (le_bytes 32 n).

(** ** Epochs *)

Definition GetEpoch (nTimestamp nDuration : Z) : Z :=
  if nDuration =? 0 then 0 else nTimestamp / nDuration.

Definition GetSeedHash (nEpoch : Z) : bytes :=
  let s := js "RCPU/RandomX/Epoch/" ++ dec_string nEpoch in
  let h1 := sha256 s in
  let h2 := sha256 h1 in
  h2.

(** ** Verification *)

Record ASERTAnchor := MkAnchor { a_nHeight : Z; a_nBits : Z; a_nPrevBlockTime : Z }.

(** The proof-of-work fields of [Consensus::Params]. *)
Record Params := MkParams {
  powLimit : Z;
  fPowAllowMinDifficultyBlocks : bool;
  fPowNoRetargeting : bool;
  nPowTargetSpacing : Z;
  nPowTargetTimespan : Z;
  fPowRandomX : bool;
  nRandomXEpochDuration : Z;
  nDualAlgoActivationHeight : Z;
  nDualAlgoTargetSpacing : Z;
  fDualAlgoEtchash : bool;
  nEtchashEpochLength : Z;
  nEtchashBigEndianHeight : Z;
  nASERTActivationHeight : Z;
  nASERTHalfLife : Z;
  asertAnchorParams : option ASERTAnchor;
}.

(** [CRcpuMainParams]. *)
Definition rcpu_main : Params :=
  {| powLimit := 0x00003ffffc000000000000000000000000000000000000000000000000000000;
     fPowAllowMinDifficultyBlocks := false;
     fPowNoRetargeting := false;
     nPowTargetSpacing := 5 * 60;
     nPowTargetTimespan := 14 * 24 * 60 * 60;
     fPowRandomX := true;
     nRandomXEpochDuration := 7 * 24 * 60 * 60;
     nDualAlgoActivationHeight := 21000;
     nDualAlgoTargetSpacing := 10 * 60;
     fDualAlgoEtchash := true;
     nEtchashEpochLength := 6000;
     nEtchashBigEndianHeight := 21000;
     nASERTActivationHeight := 0;
     nASERTHalfLife := 2 * 24 * 60 * 60;
     asertAnchorParams := Some {| a_nHeight := 0; a_nBits := 0x1e3ffffc; a_nPrevBlockTime := 1788566400 |} |}.

Inductive POWVerifyMode := POW_VERIFY_FULL | POW_VERIFY_COMMITMENT_ONLY | POW_VERIFY_MINING.

#[export] Instance mode_eq_dec : EqDecision POWVerifyMode.
Proof. solve_decision. Defined.

Definition MAX_FUTURE_BLOCK_TIME : Z := 2 * 60 * 60.

Definition target_in_range (nb : Z) (params : Params) : bool :=
  let c := SetCompact nb in
  negb (c_negative c || (c_target c =? 0) || c_overflow c || (powLimit params <? c_target c)).

(** [CheckProofOfWork], the legacy sha256d rule. *)
Definition CheckProofOfWork (hash : bytes) (nb : Z) (params : Params) : bool :=
  target_in_range nb params && (UintToArith256 hash <=? c_target (SetCompact nb)).

Definition GetHash (h : CBlockHeader) : bytes := sha256d (SerializeHeader h).

Section Verify.
Context {R : RandomXRef}.

(** [GetRandomXCommitment(block, inHash)]. *)
Definition GetRandomXCommitment (block : CBlockHeader) (inHash : option bytes) : bytes :=
  let rx := default (h_hashRandomX block) inHash in
  rx_commitment (SerializeRandomXHeader block) rx.

(** The epoch the verification hashes under. *)
Definition verify_epoch (block : CBlockHeader) (params : Params) (prevBlockTime : Z) : Z :=
  let nEpochTime := if prevBlockTime =? 0 then nTime block
                    else Z.min (nTime block) ((prevBlockTime + MAX_FUTURE_BLOCK_TIME) mod 2 ^ 32) in
  GetEpoch nEpochTime (nRandomXEpochDuration params).

(** [CheckProofOfWorkRandomX].  [out] says whether the caller passed an output
    pointer; the result is the verdict and what was written through it.
    [have_vm] is whether [GetVM] could allocate the machine of an epoch. *)
Definition CheckProofOfWorkRandomX (have_vm : Z -> bool) (block : CBlockHeader) (params : Params)
    (mode : POWVerifyMode) (out : bool) (prevBlockTime : Z) : res (bool * option bytes) :=
  let ret (b : bool) (h : option bytes) : res (bool * option bytes) := Ok (b, if out then h else None) in
  if negb (fPowRandomX params) then ret (CheckProofOfWork (GetHash block) (nBits block) params) None
  else if IsNull (hashPrevBlock block) then ret true (Some (h_hashRandomX block))
  else if negb (target_in_range (nBits block) params) then ret false None
  else if negb out && bool_decide (mode = POW_VERIFY_MINING) then Throw RuntimeError
  else
    let bnTarget := c_target (SetCompact (nBits block)) in
    (* cheaper commitment verification first *)
    if negb (bool_decide (mode = POW_VERIFY_MINING)) &&
       (IsNull (h_hashRandomX block) ||
        (bnTarget <? UintToArith256 (GetRandomXCommitment block None)))
    then ret false None
    else match mode with
    | POW_VERIFY_COMMITMENT_ONLY => ret true (Some (h_hashRandomX block))
    | _ =>
        let nEpoch := verify_epoch block params prevBlockTime in
        if negb (have_vm nEpoch) then ret false None
        else
          let rx := rx_hash (GetSeedHash nEpoch) (SerializeRandomXHeader block) in
          match mode with
          | POW_VERIFY_MINING =>
              if bnTarget <? UintToArith256 (GetRandomXCommitment block (Some rx))
              then ret false (Some rx) else ret true (Some rx)
          | _ =>
              if negb (bool_decide (rx = h_hashRandomX block)) then ret false None
              else ret true (Some (h_hashRandomX block))
          end
    end.

End Verify.

(** ** CompactSize *)

Definition WriteCompactSize (nSize : Z) : bytes :=
  if nSize <? 253 then le_bytes 1 nSize
  else if nSize <=? 65535 then 253 :: le_bytes 2 nSize
  else if nSize <=? 4294967295 then 254 :: le_bytes 4 nSize
  else 255 :: le_bytes 8 nSize.

(** [ReadCompactSize] with its range check: canonical encodings only, and at
    most [MAX_SIZE]; [None] is the thrown [ios_base::failure]. *)
Definition MAX_SIZE : Z := 0x02000000.

Definition ReadCompactSize (s : bytes) : option (Z * bytes) :=
  match s with
  | [] => None
  | c :: r =>
      '(n, t) ← (if c <? 253 then Some (c, r)
                 else let w := if c =? 253 then 2%nat else if c =? 254 then 4%nat else 8%nat in
                      let least := if c =? 253 then 253 else if c =? 254 then 0x10000 else 0x100000000 in
                      if (length r <? w)%nat then None
                      else let n := le_value (take w r) in
                           if n <? least then None else Some (n, drop w r));
      if MAX_SIZE <? n then None else Some (n, t)
  end.
