(* ===== verification/Compact.v ===== *)
(** * Compact targets

    Facts about [SetCompact] and [GetCompact] of [src/arith_uint256.cpp]: encoding
    a target keeps its 15 to 23 leading bits, so decoding gives the largest
    representable number that is not above it; encoding that number again gives
    the same bits. *)

From Stdlib Require Import ZArith Lia Bool.
From stdpp Require Import base list numbers option.
From S2P Require Import Prelude Bytes Sha256 Libs Consensus.

Open Scope Z_scope.

(** ** Sizes in bytes *)

Lemma pow_256 n : 0 <= n -> 256 ^ n = 2 ^ (8 * n).
Proof. intros Hn. by rewrite Z.pow_mul_r by lia. Qed.

Lemma pow_256_pos n : 0 < 256 ^ n \/ n < 0.
Proof. destruct (Z.lt_ge_cases n 0); [by right|left; apply Z.pow_pos_nonneg; lia]. Qed.

Definition byte_size (t : Z) : Z := (bits_of t + 7) / 8.

Lemma byte_size_spec t : 0 < t -> 1 <= byte_size t /\ 256 ^ (byte_size t - 1) <= t < 256 ^ byte_size t.
Proof.
  intros Ht. unfold byte_size, bits_of. rewrite (proj2 (Z.eqb_neq t 0)) by lia.
  pose proof (Z.log2_spec t Ht) as [H1 H2]. pose proof (Z.log2_nonneg t) as Hl. set (l := Z.log2 t) in *.
  pose proof (Z.div_mod (l + 1 + 7) 8 ltac:(lia)) as Hd. pose proof (Z.mod_pos_bound (l + 1 + 7) 8 ltac:(lia)) as Hm.
  set (n := (l + 1 + 7) / 8) in *. assert (1 <= n) by lia. split; [done|]. rewrite !pow_256 by lia. split.
  - apply Z.le_trans with (2 ^ l); [|done]. apply Z.pow_le_mono_r; lia.
  - apply Z.lt_le_trans with (2 ^ Z.succ l); [done|]. apply Z.pow_le_mono_r; lia.
Qed.

Lemma byte_size_unique t n : 1 <= n -> 256 ^ (n - 1) <= t < 256 ^ n -> byte_size t = n.
Proof.
  intros Hn [H1 H2]. assert (0 < t) as Ht by (destruct (pow_256_pos (n - 1)); lia).
  destruct (byte_size_spec t Ht) as (Hk & H3 & H4). set (k := byte_size t) in *.
  destruct (Z.lt_trichotomy k n) as [Hlt|[->|Hgt]]; [|done|]; exfalso.
  - assert (256 ^ k <= 256 ^ (n - 1)) by (apply Z.pow_le_mono_r; lia). lia.
  - assert (256 ^ n <= 256 ^ (k - 1)) by (apply Z.pow_le_mono_r; lia). lia.
Qed.

(** ** Fields of the 32 bits *)

Lemma land_sign m : 0 <= m < 2 ^ 24 -> (Z.land m 0x00800000 =? 0) = (m <? 2 ^ 23).
Proof.
  intros Hm. assert (Z.land m 0x00800000 = m / 2 ^ 23 * 2 ^ 23) as ->.
  { rewrite <- Z.shiftr_div_pow2, <- Z.shiftl_mul_pow2 by lia. apply Z.bits_inj'. intros i Hi.
    rewrite Z.land_spec, Z.shiftl_spec by lia. change 0x00800000 with (2 ^ 23). rewrite Z.pow2_bits_eqb by lia.
    destruct (Z.eqb_spec 23 i) as [<-|Hne]; [by rewrite Z.shiftr_spec, andb_true_r by lia|]. rewrite andb_false_r.
    destruct (Z.lt_ge_cases i 23); [by rewrite Z.testbit_neg_r by lia|]. rewrite Z.shiftr_spec by lia.
    symmetry. destruct (Z.eq_dec m 0) as [->|]; [by rewrite Z.bits_0|]. apply Z.bits_above_log2; [lia|].
    assert (Z.log2 m < 24) by (apply Z.log2_lt_pow2; lia). lia. }
  destruct (Z.ltb_spec m (2 ^ 23)) as [H|H]; [by rewrite Z.div_small by lia|].
  assert (1 <= m / 2 ^ 23) by (apply Z.div_le_lower_bound; lia). apply Z.eqb_neq. lia.
Qed.

Lemma land_disjoint m n k : 0 <= k -> 0 <= m < 2 ^ k -> Z.land m (Z.shiftl n k) = 0.
Proof.
  intros Hk Hm. apply Z.bits_inj'. intros i Hi. rewrite Z.land_spec, Z.bits_0. apply andb_false_iff.
  destruct (Z.lt_ge_cases i k); [right; by apply Z.shiftl_spec_low|left].
  destruct (Z.eq_dec m 0) as [->|]; [by rewrite Z.bits_0|]. apply Z.bits_above_log2; [lia|].
  assert (Z.log2 m < k) by (apply Z.log2_lt_pow2; lia). lia.
Qed.

Lemma lor_shift m n k : 0 <= k -> 0 <= m < 2 ^ k -> Z.lor m (Z.shiftl n k) = m + n * 2 ^ k.
Proof. intros Hk Hm. rewrite <- Z.add_nocarry_lor by (by apply land_disjoint). by rewrite Z.shiftl_mul_pow2. Qed.

(** ** Encoding *)

(** The fields of the encoding of a target: its size and its leading bits. *)
Definition encodes (t n m : Z) : Prop :=
  1 <= n <= 33 /\ 2 ^ 15 <= m < 2 ^ 23 /\ (n = 33 -> m < 2 ^ 16) /\
  m = if n <=? 3 then t * 256 ^ (3 - n) else t / 256 ^ (n - 3).

(** The leading three bytes of a number. *)
Lemma leading t n : 1 <= n -> 256 ^ (n - 1) <= t < 256 ^ n ->
  2 ^ 16 <= (if n <=? 3 then t * 256 ^ (3 - n) else t / 256 ^ (n - 3)) < 2 ^ 24.
Proof.
  intros Hn [H1 H2]. destruct (Z.leb_spec n 3) as [H3|H3].
  - assert (256 ^ (n - 1) * 256 ^ (3 - n) = 2 ^ 16) as E1
      by (rewrite <- Z.pow_add_r by lia; by replace (n - 1 + (3 - n)) with 2 by lia).
    assert (256 ^ n * 256 ^ (3 - n) = 2 ^ 24) as E2
      by (rewrite <- Z.pow_add_r by lia; by replace (n + (3 - n)) with 3 by lia).
    assert (0 < 256 ^ (3 - n)) by (apply Z.pow_pos_nonneg; lia). nia.
  - assert (0 < 256 ^ (n - 3)) by (apply Z.pow_pos_nonneg; lia). split.
    + apply Z.div_le_lower_bound; [lia|]. replace (n - 1) with (n - 3 + 2) in H1 by lia. rewrite Z.pow_add_r in H1 by lia. lia.
    + apply Z.div_lt_upper_bound; [lia|]. replace n with (n - 3 + 3) in H2 by lia. rewrite Z.pow_add_r in H2 by lia. lia.
Qed.

Lemma GetCompact_leading t :
  0 < t < 2 ^ 256 ->
  let n := byte_size t in
  let m := if n <=? 3 then t * 256 ^ (3 - n) else t / 256 ^ (n - 3) in
  GetCompact t = if m <? 2 ^ 23 then m + n * 2 ^ 24 else m / 256 + (n + 1) * 2 ^ 24.
Proof.
  intros Ht n m. destruct (byte_size_spec t ltac:(lia)) as [Hn Hb]. fold n in Hn, Hb.
  pose proof (leading t n Hn Hb) as Hm. fold m in Hm.
  unfold GetCompact. fold (byte_size t). fold n.
  assert ((if n <=? 3 then (t mod 2 ^ 64 * 2 ^ (8 * (3 - n))) mod 2 ^ 32 else Z.shiftr t (8 * (n - 3)) mod 2 ^ 32) = m) as ->.
  { unfold m in *. destruct (Z.leb_spec n 3).
    - rewrite <- pow_256 by lia. assert (256 ^ n <= 256 ^ 3) by (apply Z.pow_le_mono_r; lia).
      rewrite (Z.mod_small t) by lia. apply Z.mod_small. lia.
    - rewrite Z.shiftr_div_pow2, <- pow_256 by lia. apply Z.mod_small. lia. }
  rewrite land_sign by lia. destruct (Z.ltb_spec m (2 ^ 23)); cbn [negb].
  - apply lor_shift; lia.
  - rewrite Z.shiftr_div_pow2 by lia. apply lor_shift; [lia|]. split; [apply Z.div_pos; lia|].
    apply Z.div_lt_upper_bound; lia.
Qed.

Lemma byte_size_u256 t : 0 < t < 2 ^ 256 -> byte_size t <= 32.
Proof.
  intros Ht. destruct (byte_size_spec t ltac:(lia)) as [Hn [Hb _]].
  destruct (Z.le_gt_cases (byte_size t) 32); [done|].
  assert (256 ^ 32 <= 256 ^ (byte_size t - 1)) by (apply Z.pow_le_mono_r; lia). change (256 ^ 32) with (2 ^ 256) in *. lia.
Qed.

Lemma GetCompact_encodes t : 0 < t < 2 ^ 256 -> exists n m, GetCompact t = m + n * 2 ^ 24 /\ encodes t n m.
Proof.
  intros Ht. rewrite GetCompact_leading by done. pose proof (byte_size_u256 t Ht).
  destruct (byte_size_spec t ltac:(lia)) as [Hn Hb]. pose proof (leading t _ Hn Hb) as Hm.
  set (n := byte_size t) in *. cbn zeta. set (m := if n <=? 3 then _ else _) in *.
  destruct (Z.ltb_spec m (2 ^ 23)) as [H23|H23].
  - exists n, m. split; [done|]. repeat split; lia.
  - exists (n + 1), (m / 256). split; [done|].
    assert (2 ^ 15 <= m / 256 < 2 ^ 16) by (split; [apply Z.div_le_lower_bound|apply Z.div_lt_upper_bound]; lia).
    split; [lia|]. split; [lia|]. split; [lia|]. unfold m. destruct (Z.leb_spec (n + 1) 3); destruct (Z.leb_spec n 3); try lia.
    + replace (3 - n) with (3 - (n + 1) + 1) by lia. rewrite Z.pow_add_r by lia. change (256 ^ 1) with 256.
      rewrite Z.mul_assoc. apply Z.div_mul. lia.
    + replace (3 - n) with 0 by lia. replace (n + 1 - 3) with 1 by lia. by rewrite Z.mul_1_r.
    + rewrite Z.div_div by (try lia; apply Z.pow_pos_nonneg; lia). f_equal.
      replace (n + 1 - 3) with (n - 3 + 1) by lia. by rewrite Z.pow_add_r by lia.
Qed.

(** ** Decoding *)

Lemma SetCompact_small n m :
  0 <= m < 2 ^ 23 -> 0 <= n <= 33 -> (n = 33 -> m < 2 ^ 16) ->
  SetCompact (m + n * 2 ^ 24) =
    {| c_target := if n <=? 3 then m / 256 ^ (3 - n) else m * 256 ^ (n - 3); c_negative := false; c_overflow := false |}.
Proof.
  intros Hm Hn H33. unfold SetCompact.
  assert (Z.shiftr (m + n * 2 ^ 24) 24 = n) as ->
    by (rewrite Z.shiftr_div_pow2, Z.div_add, Z.div_small by lia; done).
  assert (Z.land (m + n * 2 ^ 24) 0x007fffff = m) as ->.
  { change 0x007fffff with (Z.ones 23). rewrite Z.land_ones by lia. replace (n * 2 ^ 24) with (n * 2 * 2 ^ 23) by lia.
    rewrite Z.mod_add by lia. by apply Z.mod_small. }
  assert (Z.land (m + n * 2 ^ 24) 0x00800000 =? 0 = true) as ->.
  { rewrite <- (lor_shift _ _ 24) by lia. rewrite Z.land_lor_distr_l. apply Z.eqb_eq.
    rewrite (proj1 (Z.eqb_eq _ _) (eq_trans (land_sign m ltac:(lia)) (proj2 (Z.ltb_lt _ _) (proj2 Hm)))).
    by rewrite Z.land_comm, land_disjoint by lia. }
  cbn [negb]. destruct (Z.leb_spec n 3) as [H3|H3].
  - rewrite Z.shiftr_div_pow2, <- pow_256 by lia. rewrite !andb_false_r. zbool. by rewrite !andb_false_r.
  - rewrite Z.shiftl_mul_pow2, <- pow_256 by lia. rewrite andb_false_r. zbool. rewrite andb_false_r. cbn [orb].
    assert ((65535 <? m) && (32 <? n) = false) as -> by lia. rewrite andb_false_r. f_equal. apply Z.mod_small.
    assert (0 < 256 ^ (n - 3)) by (apply Z.pow_pos_nonneg; lia). split; [nia|]. destruct (Z.eq_dec n 33) as [->|].
    + specialize (H33 eq_refl). change (2 ^ 256) with (2 ^ 16 * 256 ^ 30). change (33 - 3) with 30. nia.
    + assert (256 ^ (n - 3) <= 256 ^ 29) by (apply Z.pow_le_mono_r; lia). change (2 ^ 256) with (2 ^ 24 * 256 ^ 29). nia.
Qed.

(** The number an encoding stands for: the target without its low bytes. *)
Lemma encodes_floor t n m :
  0 < t -> encodes t n m ->
  (if n <=? 3 then m / 256 ^ (3 - n) else m * 256 ^ (n - 3)) = t / 256 ^ Z.max 0 (n - 3) * 256 ^ Z.max 0 (n - 3).
Proof.
  intros Ht (Hn & Hm & _ & H). destruct (Z.leb_spec n 3) as [H3|H3].
  - rewrite H, Z.div_mul by (pose proof (pow_256_pos (3 - n)); lia). replace (Z.max 0 (n - 3)) with 0 by lia.
    change (256 ^ 0) with 1. rewrite Z.div_1_r. lia.
  - rewrite H. by replace (Z.max 0 (n - 3)) with (n - 3) by lia.
Qed.

(** Decoding what was encoded: valid, not above the target, and nonzero. *)
Lemma compact_floor t :
  0 < t < 2 ^ 256 ->
  exists n m, GetCompact t = m + n * 2 ^ 24 /\ encodes t n m /\
    SetCompact (GetCompact t) =
      {| c_target := t / 256 ^ Z.max 0 (n - 3) * 256 ^ Z.max 0 (n - 3); c_negative := false; c_overflow := false |}.
Proof.
  intros Ht. destruct (GetCompact_encodes t Ht) as (n & m & E & He). exists n, m. split; [done|]. split; [done|].
  rewrite E, SetCompact_small; [by rewrite (encodes_floor t) by (done || lia)|..]; unfold encodes in He; lia.
Qed.

Lemma GetCompact_u32 t : 0 < t < 2 ^ 256 -> is_u32 (GetCompact t).
Proof. intros Ht. destruct (GetCompact_encodes t Ht) as (n & m & -> & Hn & Hm & _). unfold is_u32. lia. Qed.

(** Encoding drops less than one part in 2^15. *)
Lemma compact_precision t :
  0 < t < 2 ^ 256 ->
  let c := SetCompact (GetCompact t) in
  c_negative c = false /\ c_overflow c = false /\ 0 < c_target c <= t /\ (t - c_target c) * 2 ^ 15 < c_target c.
Proof.
  intros Ht. destruct (compact_floor t Ht) as (n & m & _ & (Hn & Hm & _ & He) & ->). cbn [c_negative c_overflow c_target].
  split; [done|]. split; [done|]. set (k := Z.max 0 (n - 3)).
  assert (0 < 256 ^ k) as Hk by (apply Z.pow_pos_nonneg; lia).
  pose proof (Z.div_mod t (256 ^ k) ltac:(lia)) as Hd. pose proof (Z.mod_pos_bound t (256 ^ k) Hk).
  destruct (Z.leb_spec n 3) as [H3|H3].
  - replace k with 0 in * by lia. change (256 ^ 0) with 1 in *. rewrite Z.div_1_r in *. lia.
  - replace (n - 3) with k in He by lia. rewrite <- He in *. nia.
Qed.

(** The size and the leading bits are determined by the number. *)
Lemma encodes_bounds t n m : encodes t n m -> 2 ^ 15 * 256 ^ n <= t * 2 ^ 24 < 2 ^ 15 * 256 ^ (n + 1).
Proof.
  intros (Hn & Hm & _ & H). rewrite Z.pow_add_r by lia. change (256 ^ 1) with 256. destruct (Z.leb_spec n 3) as [H3|H3].
  - assert (256 ^ n * 256 ^ (3 - n) = 2 ^ 24) as E by (rewrite <- Z.pow_add_r by lia; by replace (n + (3 - n)) with 3 by lia).
    assert (0 < 256 ^ n) by (apply Z.pow_pos_nonneg; lia). nia.
  - assert (256 ^ n = 256 ^ (n - 3) * 2 ^ 24) as -> by (change (2 ^ 24) with (256 ^ 3); rewrite <- Z.pow_add_r by lia; f_equal; lia).
    assert (0 < 256 ^ (n - 3)) as Hp by (apply Z.pow_pos_nonneg; lia).
    pose proof (Z.div_mod t (256 ^ (n - 3)) ltac:(lia)). pose proof (Z.mod_pos_bound t (256 ^ (n - 3)) Hp). rewrite <- H in *. nia.
Qed.

Lemma encodes_unique t n m n' m' : encodes t n m -> encodes t n' m' -> n = n' /\ m = m'.
Proof.
  intros E E'. pose proof (encodes_bounds _ _ _ E) as B. pose proof (encodes_bounds _ _ _ E') as B'.
  destruct E as (Hn & _ & _ & ->), E' as (Hn' & _ & _ & ->).
  assert (forall a b, 1 <= a < b -> 256 ^ (a + 1) <= 256 ^ b) as Hmono by (intros; apply Z.pow_le_mono_r; lia).
  destruct (Z.lt_trichotomy n n') as [L|[->|L]]; [|done|].
  - pose proof (Hmono n n'). lia.
  - pose proof (Hmono n' n). lia.
Qed.

(** Encoding the decoded number gives the same bits. *)
Lemma compact_stable t : 0 < t < 2 ^ 256 -> GetCompact (c_target (SetCompact (GetCompact t))) = GetCompact t.
Proof.
  intros Ht. destruct (compact_precision t Ht) as (_ & _ & Hc & _).
  destruct (compact_floor t Ht) as (n & m & E & He & Es). rewrite Es in *. cbn [c_target] in *.
  set (k := Z.max 0 (n - 3)) in *. set (t' := t / 256 ^ k * 256 ^ k) in *.
  destruct (GetCompact_encodes t' ltac:(lia)) as (n' & m' & -> & He'). rewrite E.
  enough (encodes t' n m) as H by (by destruct (encodes_unique _ _ _ _ _ He' H) as [-> ->]).
  destruct He as (Hn & Hm & H33 & H). split; [done|]. split; [done|]. split; [done|]. rewrite H. unfold t'.
  destruct (Z.leb_spec n 3) as [H3|H3].
  - replace k with 0 by lia. change (256 ^ 0) with 1. rewrite Z.div_1_r. lia.
  - replace (n - 3) with k by lia. symmetry. apply Z.div_mul. pose proof (pow_256_pos k). lia.
Qed.

(** A larger target decodes to a number that is not smaller. *)
Lemma compact_mono s t :
  0 < s <= t -> t < 2 ^ 256 -> c_target (SetCompact (GetCompact s)) <= c_target (SetCompact (GetCompact t)).
Proof.
  intros Hs Ht. destruct (compact_precision s ltac:(lia)) as (_ & _ & Hcs & _).
  destruct (compact_floor s ltac:(lia)) as (n & m & _ & He & Es), (compact_floor t ltac:(lia)) as (n' & m' & _ & He' & Et).
  pose proof (encodes_floor t n' m' ltac:(lia) He') as Hf.
  rewrite Es in *. rewrite Et. cbn [c_target] in *. pose proof (encodes_bounds _ _ _ He) as B. pose proof (encodes_bounds _ _ _ He') as B'.
  destruct He as (Hn & _), He' as (Hn' & Hm' & _ & H').
  assert (forall a b, 1 <= a < b -> 256 ^ (a + 1) <= 256 ^ b) as Hmono by (intros; apply Z.pow_le_mono_r; lia).
  destruct (Z.lt_trichotomy n n') as [L|[->|L]].
  - specialize (Hmono n n' ltac:(lia)). rewrite <- Hf. destruct (Z.leb_spec n' 3) as [H3|H3].
    + rewrite H', Z.div_mul by (pose proof (pow_256_pos (3 - n')); lia). lia.
    + assert (256 ^ n' = 256 ^ (n' - 3) * 2 ^ 24) by (change (2 ^ 24) with (256 ^ 3); rewrite <- Z.pow_add_r by lia; f_equal; lia).
      assert (0 < 256 ^ (n' - 3)) by (apply Z.pow_pos_nonneg; lia). nia.
  - assert (0 < 256 ^ Z.max 0 (n' - 3)) by (apply Z.pow_pos_nonneg; lia).
    apply Z.mul_le_mono_nonneg_r; [lia|]. apply Z.div_le_mono; lia.
  - specialize (Hmono n' n ltac:(lia)). lia.
Qed.

(** Every decoded number is far enough below 2^256 for its successor to exist. *)
Lemma SetCompact_below n : 0 <= n -> 0 <= c_target (SetCompact n) < 2 ^ 256 - 1.
Proof.
  intros Hn. unfold SetCompact. assert (0 <= Z.shiftr n 24) as Hs by (by apply Z.shiftr_nonneg).
  assert (0 <= Z.land n 8388607 < 2 ^ 23) as Hw.
  { change 8388607 with (Z.ones 23). rewrite Z.land_ones by lia. apply Z.mod_pos_bound. lia. }
  destruct (Z.leb_spec (Z.shiftr n 24) 3) as [E|E]; cbn [c_target].
  - rewrite Z.shiftr_div_pow2 by lia. assert (0 < 2 ^ (8 * (3 - Z.shiftr n 24))) by (apply Z.pow_pos_nonneg; lia).
    split; [apply Z.div_pos; lia|]. apply Z.div_lt_upper_bound; [lia|]. nia.
  - rewrite Z.shiftl_mul_pow2 by lia. unfold wrap256. set (w := Z.land n 8388607) in *. set (k := 8 * (Z.shiftr n 24 - 3)).
    pose proof (Z.mod_pos_bound (w * 2 ^ k) (2 ^ 256) ltac:(lia)) as Hb. split; [lia|].
    enough ((w * 2 ^ k) mod 2 ^ 256 <> 2 ^ 256 - 1) by lia. intros Hx.
    assert ((w * 2 ^ k) mod 2 ^ 256 mod 2 = (2 ^ 256 - 1) mod 2) as Hy by (by rewrite Hx).
    rewrite Z.mod_mod_divide in Hy by (by exists (2 ^ 255)). replace k with (k - 1 + 1) in Hy by lia.
    rewrite Z.pow_add_r, Z.mul_assoc in Hy by lia. change (2 ^ 1) with 2 in Hy. rewrite Z.mod_mul in Hy by lia. discriminate.
Qed.
