(* ===== verification/ArithUint.v ===== *)
(** * Big integers of the node

    [base_uint<BITS>] of [src/arith_uint256.h] and [src/arith_uint256.cpp]: an
    unsigned number as an array [pn] of 32-bit limbs, least significant first.
    Each operation is the code's loop over the limbs; the results show that it
    computes the operation of its name on the numbers the limbs stand for, modulo
    2^BITS, which is how the other files of the development model
    [arith_uint256] and [arith_uint512]. *)

From Stdlib Require Import ZArith Lia Bool.
From stdpp Require Import base list numbers option.
From S2P Require Import Prelude Bytes Sha256 Libs Consensus Compact.

Open Scope Z_scope.

(** ** Words and loops *)

Definition word (n : Z) : Z := n mod 2 ^ 32.
Definition dword (n : Z) : Z := n mod 2 ^ 64.
Definition low (n : Z) : Z := Z.land n 0xffffffff.
Definition is_word (n : Z) : Prop := 0 <= n < 2 ^ 32.

Abbreviation limbs := (list Z).

(** [for (int i = 0; i < n; i++)]. *)
Fixpoint for_ {A} (n : nat) (f : nat -> A -> A) (s : A) : A :=
  match n with O => s | S n' => f n' (for_ n' f s) end.

(** [pn[i] |= x]. *)
Definition or_at (i : nat) (x : Z) (l : limbs) : limbs := alter (fun y => Z.lor y x) i l.

(** ** Operations *)

Definition bu_zero (w : nat) : limbs := replicate w 0.

Definition of_u64 (w : nat) (b : Z) : limbs := word b :: word (Z.shiftr b 32) :: replicate (w - 2) 0.

(** [from]: the low limbs of another width. *)
Definition bu_from (w : nat) (b : limbs) : limbs := take w b ++ replicate (w - length b) 0.

Definition GetLow64 (pn : limbs) : Z := Z.lor (nth 0 pn 0) (dword (Z.shiftl (nth 1 pn 0) 32)).

Definition bu_not (pn : limbs) : limbs := (fun x => Z.lxor x 0xffffffff) <$> pn.

Fixpoint bu_inc (pn : limbs) : limbs :=
  match pn with
  | [] => []
  | x :: r => let x := word (x + 1) in if x =? 0 then x :: bu_inc r else x :: r
  end.

Definition bu_neg (pn : limbs) : limbs := bu_inc (bu_not pn).

Fixpoint add_from (carry : Z) (pn b : limbs) : limbs :=
  match pn, b with
  | x :: pn, y :: b => let n := dword (carry + x + y) in low n :: add_from (Z.shiftr n 32) pn b
  | _, _ => []
  end.

Definition bu_add (a b : limbs) : limbs := add_from 0 a b.
Definition bu_sub (a b : limbs) : limbs := bu_add a (bu_neg b).

Fixpoint mul32_from (carry : Z) (pn : limbs) (b32 : Z) : limbs :=
  match pn with
  | [] => []
  | x :: r => let n := dword (carry + b32 * x) in low n :: mul32_from (Z.shiftr n 32) r b32
  end.

Definition bu_mul32 (pn : limbs) (b32 : Z) : limbs := mul32_from 0 pn b32.

(** The inner loop of [operator*=]: one limb times [b], added to the tail [a]. *)
Fixpoint mul_row (carry : Z) (a : limbs) (x : Z) (b : limbs) : limbs :=
  match a, b with
  | c :: a, y :: b => let n := dword (carry + c + x * y) in low n :: mul_row (Z.shiftr n 32) a x b
  | a, _ => a
  end.

Definition bu_mul (pn b : limbs) : limbs :=
  for_ (length pn) (fun j a => take j a ++ mul_row 0 (drop j a) (nth j pn 0) b) (bu_zero (length pn)).

Definition bu_shl (a : limbs) (shift : Z) : limbs :=
  let w := length a in
  let k := Z.to_nat (shift / 32) in
  let shift := shift mod 32 in
  for_ w (fun i pn =>
    let pn := if (i + k + 1 <? w)%nat && negb (shift =? 0) then or_at (i + k + 1) (Z.shiftr (nth i a 0) (32 - shift)) pn else pn in
    if (i + k <? w)%nat then or_at (i + k) (word (Z.shiftl (nth i a 0) shift)) pn else pn) (bu_zero w).

Definition bu_shr (a : limbs) (shift : Z) : limbs :=
  let w := length a in
  let k := Z.to_nat (shift / 32) in
  let shift := shift mod 32 in
  for_ w (fun i pn =>
    let pn := if (k + 1 <=? i)%nat && negb (shift =? 0) then or_at (i - k - 1) (word (Z.shiftl (nth i a 0) (32 - shift))) pn else pn in
    if (k <=? i)%nat then or_at (i - k) (Z.shiftr (nth i a 0) shift) pn else pn) (bu_zero w).

(** [CompareTo], from the most significant limb down. *)
Fixpoint compare_down (a b : limbs) : Z :=
  match a, b with
  | x :: a, y :: b => if x <? y then -1 else if y <? x then 1 else compare_down a b
  | _, _ => 0
  end.

Definition CompareTo (a b : limbs) : Z := compare_down (rev a) (rev b).

Definition EqualTo (pn : limbs) (b : Z) : bool :=
  forallb (fun x => x =? 0) (drop 2 pn) && (nth 1 pn 0 =? Z.shiftr b 32) && (nth 0 pn 0 =? Z.land b 0xffffffff).

(** [bits]: the highest set bit of a limb, then of the array. *)
Fixpoint top_bit (nbits : nat) (x : Z) : Z :=
  match nbits with
  | O => 1
  | S n => if negb (Z.land x (Z.shiftl 1 (Z.of_nat nbits)) =? 0) then Z.of_nat nbits + 1 else top_bit n x
  end.

Fixpoint bits_down (pn : limbs) : Z :=
  match pn with
  | [] => 0
  | x :: r => if negb (x =? 0) then 32 * Z.of_nat (length r) + top_bit 31 x else bits_down r
  end.

Definition bu_bits (pn : limbs) : Z := bits_down (rev pn).

(** The loop of [operator/=]: [n] is [shift + 1]. *)
Fixpoint div_loop (n : nat) (num dv quotient : limbs) : limbs * limbs :=
  match n with
  | O => (quotient, num)
  | S shift =>
      let '(num, quotient) :=
        if 0 <=? CompareTo num dv
        then (bu_sub num dv, or_at (shift / 32) (Z.shiftl 1 (Z.land (Z.of_nat shift) 31)) quotient)
        else (num, quotient) in
      div_loop shift num (bu_shr dv 1) quotient
  end.

(** [operator/=]: [None] is the exception for a zero divisor. *)
Definition bu_div (a b : limbs) : option limbs :=
  let num_bits := bu_bits a in
  let div_bits := bu_bits b in
  if div_bits =? 0 then None
  else if num_bits <? div_bits then Some (bu_zero (length a))
  else
    let shift := num_bits - div_bits in
    Some (fst (div_loop (Z.to_nat (shift + 1)) a (bu_shl b shift) (bu_zero (length a)))).

(** ** The number limbs stand for *)

Fixpoint value (l : limbs) : Z := match l with [] => 0 | x :: r => x + 2 ^ 32 * value r end.

(** The modulus of a width. *)
Definition modulus (w : nat) : Z := 2 ^ (32 * Z.of_nat w).

Definition wide (w : nat) (l : limbs) : Prop := length l = w /\ Forall is_word l.

Lemma modulus_S w : modulus (S w) = 2 ^ 32 * modulus w.
Proof. unfold modulus. rewrite <- Z.pow_add_r by lia. f_equal. lia. Qed.

Lemma modulus_pos w : 0 < modulus w.
Proof. apply Z.pow_pos_nonneg; lia. Qed.

Lemma word_range n : is_word (word n).
Proof. unfold is_word, word. apply Z.mod_pos_bound. lia. Qed.

Lemma low_word n : low n = word n.
Proof. unfold low, word. change 0xffffffff with (Z.ones 32). apply Z.land_ones. lia. Qed.

Lemma wide_cons w x l : wide (S w) (x :: l) <-> is_word x /\ wide w l.
Proof. unfold wide. rewrite List.Forall_cons_iff. cbn [length]. intuition lia. Qed.

Lemma wide_nil l : wide 0 l -> l = [].
Proof. intros [H _]. by apply nil_length_inv. Qed.

Lemma wide_S w l : wide (S w) l -> exists x r, l = x :: r /\ is_word x /\ wide w r.
Proof. intros H. destruct l as [|x r]; [by destruct H|]. apply wide_cons in H. eauto. Qed.

Lemma value_range w l : wide w l -> 0 <= value l < modulus w.
Proof.
  revert l. induction w as [|w IH]; intros l H; [by rewrite (wide_nil l H)|].
  destruct (wide_S w l H) as (x & r & -> & Hx & Hr). specialize (IH r Hr). rewrite modulus_S. cbn [value]. unfold is_word in Hx. nia.
Qed.

Lemma value_app l r : value (l ++ r) = value l + modulus (length l) * value r.
Proof.
  induction l as [|x l IH]; cbn [app value length]; [unfold modulus; cbn; lia|]. rewrite IH, modulus_S. lia.
Qed.

Lemma value_zero w : value (bu_zero w) = 0.
Proof. unfold bu_zero. induction w; cbn [replicate value]; lia. Qed.

Lemma wide_zero w : wide w (bu_zero w).
Proof. split; [apply length_replicate|]. apply Forall_replicate. unfold is_word. lia. Qed.

Lemma nth_zero w j : nth j (bu_zero w) 0 = 0.
Proof. unfold bu_zero. revert j. induction w as [|w IH]; intros [|j]; cbn [replicate nth]; auto. Qed.

(** One step of a carry loop. *)
Lemma carry_step n : 0 <= n < 2 ^ 64 -> low (dword n) + 2 ^ 32 * Z.shiftr (dword n) 32 = n /\ is_word (low (dword n)) /\ is_word (Z.shiftr (dword n) 32).
Proof.
  intros Hn. unfold dword. rewrite Z.mod_small by done. rewrite low_word, Z.shiftr_div_pow2 by lia. unfold word.
  pose proof (Z.div_mod n (2 ^ 32) ltac:(lia)). split; [lia|]. split; [apply word_range|]. split; [apply Z.div_pos; lia|apply Z.div_lt_upper_bound; lia].
Qed.

(** ** Addition and negation *)

Lemma add_from_ok w carry a b :
  wide w a -> wide w b -> 0 <= carry <= 1 ->
  wide w (add_from carry a b) /\ exists c, 0 <= c /\ value (add_from carry a b) + modulus w * c = value a + value b + carry.
Proof.
  revert carry a b. induction w as [|w IH]; intros carry a b Ha Hb Hc.
  - rewrite (wide_nil a Ha), (wide_nil b Hb). cbn. split; [done|]. exists carry. unfold modulus. cbn. lia.
  - destruct (wide_S w a Ha) as (x & a' & -> & Hx & Ha'), (wide_S w b Hb) as (y & b' & -> & Hy & Hb'). cbn [add_from value].
    unfold is_word in Hx, Hy. destruct (carry_step (carry + x + y) ltac:(lia)) as (E & Hl & Hs).
    set (n := dword (carry + x + y)) in *.
    assert (0 <= Z.shiftr n 32 <= 1) as Hs' by (unfold is_word in *; lia).
    destruct (IH (Z.shiftr n 32) a' b' Ha' Hb' Hs') as (Hw & c & Hc' & Ev). rewrite wide_cons. split; [done|]. exists c.
    rewrite modulus_S. split; [done|]. lia.
Qed.

Lemma mod_unique v m c t : 0 <= v < m -> v + m * c = t -> v = t mod m.
Proof. intros Hv <-. rewrite Z.mul_comm, Z.mod_add by lia. symmetry. by apply Z.mod_small. Qed.

Lemma bu_add_ok w a b : wide w a -> wide w b -> wide w (bu_add a b) /\ value (bu_add a b) = (value a + value b) mod modulus w.
Proof.
  intros Ha Hb. destruct (add_from_ok w 0 a b Ha Hb ltac:(lia)) as (Hw & c & _ & Ev). split; [done|].
  apply (mod_unique _ _ c); [by apply value_range|]. fold (bu_add a b) in Ev. lia.
Qed.

(** Bits of a word above 31 are clear. *)
Lemma word_high x i : is_word x -> 32 <= i -> Z.testbit x i = false.
Proof.
  intros [Hx Hx'] Hi. destruct (Z.eq_dec x 0) as [->|]; [apply Z.bits_0|]. apply Z.bits_above_log2; [lia|].
  assert (Z.log2 x < 32) by (apply Z.log2_lt_pow2; lia). lia.
Qed.

Lemma lxor_ones x : is_word x -> Z.lxor x 0xffffffff = 2 ^ 32 - 1 - x.
Proof.
  intros Hx. change (2 ^ 32 - 1) with (Z.ones 32). change 0xffffffff with (Z.ones 32).
  assert (forall i, 0 <= i -> Z.testbit (Z.ones 32) i = (i <? 32)) as Ho by (intros i Hi; by apply Z.testbit_ones_nonneg).
  rewrite Z.sub_nocarry_ldiff; apply Z.bits_inj'; intros i Hi; rewrite ?Z.lxor_spec, ?Z.ldiff_spec, ?Z.bits_0, Ho by done;
    destruct (Z.ltb_spec i 32); cbn [negb]; rewrite ?(word_high x i) by (done || lia); destruct (Z.testbit x i); done.
Qed.

Lemma bu_not_ok w a : wide w a -> wide w (bu_not a) /\ value (bu_not a) = modulus w - 1 - value a.
Proof.
  revert a. induction w as [|w IH]; intros a Ha; [by rewrite (wide_nil a Ha)|].
  destruct (wide_S w a Ha) as (x & r & -> & Hx & Hr). destruct (IH r Hr) as [Hw Ev].
  change (bu_not (x :: r)) with (Z.lxor x 0xffffffff :: bu_not r). rewrite lxor_ones by done. unfold is_word in Hx.
  rewrite wide_cons. split; [split; [unfold is_word; lia|done]|]. cbn [value]. rewrite Ev, modulus_S. lia.
Qed.

Lemma bu_inc_ok w a : wide w a -> wide w (bu_inc a) /\ exists c, value (bu_inc a) + modulus w * c = value a + 1.
Proof.
  revert a. induction w as [|w IH]; intros a Ha.
  - rewrite (wide_nil a Ha). split; [done|]. exists 1. done.
  - destruct (wide_S w a Ha) as (x & r & -> & Hx & Hr). cbn [bu_inc]. unfold word. unfold is_word in Hx.
    destruct (Z.eq_dec x (2 ^ 32 - 1)) as [->|Hne].
    + change ((2 ^ 32 - 1 + 1) mod 2 ^ 32) with 0. cbn [Z.eqb]. destruct (IH r Hr) as (Hw & c & Ev).
      rewrite wide_cons. split; [split; [unfold is_word; lia|done]|]. exists c. cbn [value]. rewrite modulus_S. lia.
    + rewrite Z.mod_small by lia. rewrite (proj2 (Z.eqb_neq (x + 1) 0)) by lia. rewrite wide_cons.
      split; [split; [unfold is_word; lia|done]|]. exists 0. cbn [value]. lia.
Qed.

Lemma bu_neg_ok w a : wide w a -> wide w (bu_neg a) /\ value (bu_neg a) = (- value a) mod modulus w.
Proof.
  intros Ha. destruct (bu_not_ok w a Ha) as [Hn En]. destruct (bu_inc_ok w (bu_not a) Hn) as (Hw & c & Ev). split; [done|].
  apply (mod_unique _ _ (c - 1)); [by apply value_range|]. unfold bu_neg. lia.
Qed.

Lemma bu_sub_ok w a b : wide w a -> wide w b -> wide w (bu_sub a b) /\ value (bu_sub a b) = (value a - value b) mod modulus w.
Proof.
  intros Ha Hb. destruct (bu_neg_ok w b Hb) as [Hn En]. destruct (bu_add_ok w a (bu_neg b) Ha Hn) as [Hw Ev]. split; [done|].
  unfold bu_sub. rewrite Ev, En. pose proof (modulus_pos w). by rewrite Zplus_mod_idemp_r.
Qed.

(** ** Multiplication *)

Lemma word_mul x y c d : is_word x -> is_word y -> is_word c -> is_word d -> 0 <= c + d + x * y < 2 ^ 64.
Proof. unfold is_word. intros. assert (x * y <= (2 ^ 32 - 1) * (2 ^ 32 - 1)) by (apply Z.mul_le_mono_nonneg; lia). nia. Qed.

Lemma mul32_from_ok w carry a b :
  wide w a -> is_word b -> is_word carry ->
  wide w (mul32_from carry a b) /\ exists c, value (mul32_from carry a b) + modulus w * c = value a * b + carry.
Proof.
  revert carry a. induction w as [|w IH]; intros carry a Ha Hb Hc.
  - rewrite (wide_nil a Ha). split; [done|]. exists carry. unfold modulus. cbn. lia.
  - destruct (wide_S w a Ha) as (x & r & -> & Hx & Hr). cbn [mul32_from value].
    destruct (carry_step (carry + b * x)) as (E & Hl & Hs); [pose proof (word_mul b x carry 0 Hb Hx Hc); unfold is_word in *; lia|].
    set (n := dword (carry + b * x)) in *. destruct (IH (Z.shiftr n 32) r Hr Hb Hs) as (Hw & c & Ev).
    rewrite wide_cons. split; [done|]. exists c. cbn [value]. rewrite modulus_S. lia.
Qed.

Lemma bu_mul32_ok w a b : wide w a -> is_word b -> wide w (bu_mul32 a b) /\ value (bu_mul32 a b) = (value a * b) mod modulus w.
Proof.
  intros Ha Hb. destruct (mul32_from_ok w 0 a b Ha Hb) as (Hw & c & Ev); [unfold is_word; lia|]. split; [done|].
  apply (mod_unique _ _ c); [by apply value_range|]. fold (bu_mul32 a b) in Ev. lia.
Qed.

Lemma mul_row_ok w carry a x b :
  wide w a -> is_word x -> Forall is_word b -> (w <= length b)%nat -> is_word carry ->
  wide w (mul_row carry a x b) /\ exists c, value (mul_row carry a x b) + modulus w * c = value a + x * value b + carry.
Proof.
  revert carry a b. induction w as [|w IH]; intros carry a b Ha Hx Hb Hl Hc.
  - rewrite (wide_nil a Ha). split; [done|]. exists (x * value b + carry). unfold modulus. cbn [mul_row value]. cbn. lia.
  - destruct (wide_S w a Ha) as (y & r & -> & Hy & Hr). destruct b as [|z b]; [cbn in Hl; lia|].
    apply List.Forall_cons_iff in Hb as [Hz Hb]. cbn [mul_row value]. cbn [length] in Hl.
    destruct (carry_step (carry + y + x * z)) as (E & Hlo & Hs); [by apply word_mul|]. set (n := dword (carry + y + x * z)) in *.
    destruct (IH (Z.shiftr n 32) r b Hr Hx Hb ltac:(lia) Hs) as (Hw & c & Ev).
    rewrite wide_cons. split; [done|]. exists c. cbn [value]. rewrite modulus_S. lia.
Qed.

Lemma modulus_add a b : modulus (a + b) = modulus a * modulus b.
Proof. unfold modulus. rewrite <- Z.pow_add_r by lia. f_equal. lia. Qed.

Lemma wide_take_drop w j l : wide w l -> (j <= w)%nat ->
  wide j (take j l) /\ wide (w - j) (drop j l) /\ value l = value (take j l) + modulus j * value (drop j l).
Proof.
  intros [Hl Hf] Hj. split; [split; [rewrite length_take; lia|by apply Forall_take]|].
  split; [split; [rewrite length_drop; lia|by apply Forall_drop]|].
  rewrite <- (take_drop j l) at 1. rewrite value_app, length_take. by replace (j `min` length l)%nat with j by lia.
Qed.

Lemma wide_app v w l r : wide v l -> wide w r -> wide (v + w) (l ++ r).
Proof. intros [Hl Hf] [Hl' Hf']. split; [rewrite length_app; lia|by apply Forall_app_2]. Qed.

Lemma wide_nth w l i : wide w l -> is_word (nth i l 0).
Proof.
  intros [_ Hf]. destruct (le_lt_dec (length l) i); [rewrite nth_overflow by done; unfold is_word; lia|].
  rewrite List.Forall_forall in Hf. by apply Hf, nth_In.
Qed.

Lemma value_take_S l j : (j < length l)%nat -> value (take (S j) l) = value (take j l) + modulus j * nth j l 0.
Proof.
  revert l. induction j as [|j IH]; intros [|x l] Hj; cbn [length] in Hj; try lia; rewrite firstn_cons; cbn [value nth].
  - rewrite !take_0. change (modulus 0) with 1. cbn [value]. lia.
  - rewrite firstn_cons. cbn [value]. rewrite IH, modulus_S by lia. lia.
Qed.

Lemma bu_mul_ok w a b : wide w a -> wide w b -> wide w (bu_mul a b) /\ value (bu_mul a b) = (value a * value b) mod modulus w.
Proof.
  intros Ha Hb. assert (forall j, (j <= w)%nat ->
    let acc := for_ j (fun j acc => take j acc ++ mul_row 0 (drop j acc) (nth j a 0) b) (bu_zero (length a)) in
    wide w acc /\ exists c, value acc + modulus w * c = value (take j a) * value b) as H.
  { induction j as [|j IH]; intros Hj; cbn [for_].
    - destruct Ha as [-> _]. split; [apply wide_zero|]. exists 0. rewrite value_zero, take_0. cbn [value]. lia.
    - destruct (IH ltac:(lia)) as (Hacc & c & Ev). cbn zeta in *. set (acc := for_ j _ _) in *.
      destruct (wide_take_drop w j acc Hacc ltac:(lia)) as (H1 & H2 & H3).
      destruct (mul_row_ok (w - j) 0 (drop j acc) (nth j a 0) b H2 (wide_nth w a j Ha)) as (H4 & c' & H5);
        [apply Hb|destruct Hb; lia|unfold is_word; lia|].
      split; [replace w with (j + (w - j))%nat by lia; by apply wide_app|]. exists (c + c').
      rewrite value_app, value_take_S by (destruct Ha; lia). destruct H1 as [Hl _]. rewrite Hl.
      assert (modulus w = modulus j * modulus (w - j)) as E by (rewrite <- modulus_add; f_equal; lia). rewrite E in *. nia. }
  destruct (H w ltac:(lia)) as (Hw & c & Ev). cbn zeta in *. assert (length a = w) as Hl by apply Ha.
  unfold bu_mul. rewrite Hl in *. split; [done|]. apply (mod_unique _ _ c); [by apply value_range|].
  by rewrite Ev, take_ge by lia.
Qed.

(** ** Bits *)

Lemma lor_word x y : is_word x -> is_word y -> is_word (Z.lor x y).
Proof.
  intros Hx Hy. split; [apply Z.lor_nonneg; unfold is_word in *; lia|]. destruct (Z.eq_dec (Z.lor x y) 0) as [->|Hne]; [lia|].
  assert (0 <= Z.lor x y) by (apply Z.lor_nonneg; unfold is_word in *; lia). apply Z.log2_lt_pow2; [lia|].
  rewrite Z.log2_lor by (unfold is_word in *; lia).
  assert (forall z, is_word z -> Z.log2 z < 32) as Hz; [|pose proof (Hz x Hx); pose proof (Hz y Hy); lia].
  intros z [Hz Hz']. destruct (Z.eq_dec z 0) as [->|]; [cbn; lia|]. apply Z.log2_lt_pow2; lia.
Qed.

Lemma or_at_wide w i x l : wide w l -> is_word x -> wide w (or_at i x l).
Proof.
  intros [Hl Hf] Hx. unfold or_at. split; [by rewrite length_alter|]. apply Forall_alter; [done|].
  intros y _ Hy. by apply lor_word.
Qed.

Lemma or_at_nth w i x l j : wide w l -> (i < w)%nat -> nth j (or_at i x l) 0 = if (j =? i)%nat then Z.lor (nth i l 0) x else nth j l 0.
Proof.
  intros [Hl _] Hi. rewrite !nth_lookup. unfold or_at. destruct (Nat.eqb_spec j i) as [->|Hne].
  - rewrite list_lookup_alter_eq. destruct (lookup_lt_is_Some_2 l i ltac:(lia)) as [y Hy]. by rewrite Hy.
  - by rewrite list_lookup_alter_ne.
Qed.

Lemma value_testbit w l j c : wide w l -> 0 <= c < 32 -> Z.testbit (value l) (32 * Z.of_nat j + c) = Z.testbit (nth j l 0) c.
Proof.
  revert l j. induction w as [|w IH]; intros l j Hl Hc.
  - rewrite (wide_nil l Hl). cbn [value]. rewrite Z.bits_0. destruct j; cbn [nth]; by rewrite Z.bits_0.
  - destruct (wide_S w l Hl) as (x & r & -> & Hx & Hr). cbn [value].
    assert (x + 2 ^ 32 * value r = Z.lor x (Z.shiftl (value r) 32)) as ->.
    { rewrite <- Z.add_nocarry_lor by (apply land_disjoint; [lia|apply Hx]). rewrite Z.shiftl_mul_pow2; lia. }
    rewrite Z.lor_spec, Z.shiftl_spec by lia. destruct j as [|j]; cbn [nth].
    + rewrite (Z.testbit_neg_r (value r)), orb_false_r by lia. by rewrite Z.mul_0_r.
    + rewrite (word_high x) by (done || lia). cbn [orb]. rewrite <- (IH r j Hr Hc). f_equal. lia.
Qed.

(** A position in an array of bits. *)
Lemma position i : 0 <= i -> exists j c, 0 <= c < 32 /\ i = 32 * Z.of_nat j + c.
Proof.
  intros Hi. exists (Z.to_nat (i / 32)), (i mod 32). pose proof (Z.mod_pos_bound i 32 ltac:(lia)). split; [done|].
  pose proof (Z.div_mod i 32 ltac:(lia)). pose proof (Z.div_pos i 32 Hi ltac:(lia)). lia.
Qed.

Lemma nth_beyond w l j : wide w l -> (w <= j)%nat -> nth j l 0 = 0.
Proof. intros [Hl _] Hj. apply nth_overflow. lia. Qed.

Lemma word_testbit n c : 0 <= c < 32 -> Z.testbit (word n) c = Z.testbit n c.
Proof. intros Hc. unfold word. apply Z.mod_pow2_bits_low. lia. Qed.

(** The bits of a width's remainder. *)
Lemma mod_modulus_testbit n w j c : 0 <= c < 32 ->
  Z.testbit (n mod modulus w) (32 * Z.of_nat j + c) = (j <? w)%nat && Z.testbit n (32 * Z.of_nat j + c).
Proof.
  intros Hc. unfold modulus. destruct (Nat.ltb_spec j w).
  - rewrite Z.mod_pow2_bits_low by lia. done.
  - rewrite Z.mod_pow2_bits_high by lia. done.
Qed.

(** Two numbers with the same bits, limb by limb. *)
Lemma limb_bits_inj w l n :
  wide w l -> 0 <= n ->
  (forall j c, 0 <= c < 32 -> Z.testbit (nth j l 0) c = (j <? w)%nat && Z.testbit n (32 * Z.of_nat j + c)) ->
  value l = n mod modulus w.
Proof.
  intros Hl Hn H. apply Z.bits_inj'. intros i Hi. destruct (position i Hi) as (j & c & Hc & ->).
  rewrite (value_testbit w l j c Hl Hc), mod_modulus_testbit by done. by apply H.
Qed.

(** ** Shifts *)

Section Shift.
Context (w : nat) (a : limbs) (k : nat) (s : Z).
Hypothesis a_wide : wide w a.
Hypothesis s_range : 0 <= s < 32.

Definition shl_step (i : nat) (pn : limbs) : limbs :=
  let pn := if (i + k + 1 <? w)%nat && negb (s =? 0) then or_at (i + k + 1) (Z.shiftr (nth i a 0) (32 - s)) pn else pn in
  if (i + k <? w)%nat then or_at (i + k) (word (Z.shiftl (nth i a 0) s)) pn else pn.

Lemma shiftr_word x n : is_word x -> 0 <= n -> is_word (Z.shiftr x n).
Proof.
  intros [Hx Hx'] Hn. unfold is_word. rewrite Z.shiftr_div_pow2 by done. assert (0 < 2 ^ n) by (apply Z.pow_pos_nonneg; lia).
  split; [by apply Z.div_pos|]. apply Z.div_lt_upper_bound; nia.
Qed.

Lemma nth_or_if (t : bool) i x l j c :
  wide w l -> is_word x -> (t = true -> (i < w)%nat) ->
  wide w (if t then or_at i x l else l) /\
  Z.testbit (nth j (if t then or_at i x l else l) 0) c = Z.testbit (nth j l 0) c || (t && (j =? i)%nat && Z.testbit x c).
Proof.
  intros Hl Hx Ht. destruct t; [|by rewrite orb_false_r]. split; [by apply or_at_wide|].
  rewrite (or_at_nth w) by auto. destruct (Nat.eqb_spec j i) as [->|]; cbn [andb]; [by rewrite Z.lor_spec|by rewrite orb_false_r].
Qed.

Ltac nat_bools := repeat match goal with
  | |- context [(?x <? ?y)%nat] => destruct (Nat.ltb_spec x y)
  | |- context [(?x <=? ?y)%nat] => destruct (Nat.leb_spec x y)
  end; try lia.

Ltac bit_atoms := repeat match goal with
  | |- context [Z.testbit ?x ?y] => destruct (Z.testbit x y)
  end; cbn [andb orb negb]; rewrite ?andb_false_r, ?andb_true_r, ?orb_false_r, ?orb_true_r; done.

Lemma shl_loop n :
  wide w (for_ n shl_step (bu_zero w)) /\
  forall j c, 0 <= c < 32 -> Z.testbit (nth j (for_ n shl_step (bu_zero w)) 0) c =
    (j <? w)%nat && (((k <=? j)%nat && (j <? n + k)%nat && Z.testbit (nth (j - k) a 0) (c - s)) ||
                     ((k + 1 <=? j)%nat && (j <? n + k + 1)%nat && negb (s =? 0) && Z.testbit (nth (j - k - 1) a 0) (c + 32 - s))).
Proof.
  induction n as [|n [Hw IH]]; cbn [for_].
  - split; [apply wide_zero|]. intros j c Hc. rewrite nth_zero, Z.bits_0. nat_bools; done.
  - set (pn := for_ n shl_step (bu_zero w)) in *. unfold shl_step.
    set (t1 := (n + k + 1 <? w)%nat && negb (s =? 0)). set (X := Z.shiftr (nth n a 0) (32 - s)). set (Y := word (Z.shiftl (nth n a 0) s)).
    assert (is_word X) as HX by (apply shiftr_word; [by apply (wide_nth w)|lia]). assert (is_word Y) as HY by apply word_range.
    assert (t1 = true -> (n + k + 1 < w)%nat) as H1 by (intros E; apply andb_true_iff in E as [E _]; by apply Nat.ltb_lt).
    assert ((n + k <? w)%nat = true -> (n + k < w)%nat) as H2 by apply Nat.ltb_lt.
    pose proof (fun j c => nth_or_if t1 (n + k + 1) X pn j c Hw HX H1) as HA. cbn zeta.
    set (pn1 := if t1 then or_at (n + k + 1) X pn else pn) in *. assert (wide w pn1) as Hw1 by apply (HA 0%nat 0).
    pose proof (fun j c => nth_or_if (n + k <? w)%nat (n + k) Y pn1 j c Hw1 HY H2) as HB. split; [apply (HB 0%nat 0)|].
    intros j c Hc. rewrite (proj2 (HB j c)), (proj2 (HA j c)), IH by done. unfold t1, X, Y. rewrite word_testbit, Z.shiftl_spec, Z.shiftr_spec by lia.
    replace (32 - s + c) with (c + 32 - s) by lia. replace (c + (32 - s)) with (c + 32 - s) by lia.
    destruct (Nat.eqb_spec j (n + k)) as [->|N1]; [|destruct (Nat.eqb_spec j (n + k + 1)) as [->|N2]].
    + replace (n + k - k)%nat with n by lia. rewrite (proj2 (Nat.eqb_neq (n + k) (n + k + 1))) by lia. nat_bools; bit_atoms.
    + replace (n + k + 1 - k - 1)%nat with n by lia. nat_bools; bit_atoms.
    + nat_bools; bit_atoms.
Qed.

Definition shr_step (i : nat) (pn : limbs) : limbs :=
  let pn := if (k + 1 <=? i)%nat && negb (s =? 0) then or_at (i - k - 1) (word (Z.shiftl (nth i a 0) (32 - s))) pn else pn in
  if (k <=? i)%nat then or_at (i - k) (Z.shiftr (nth i a 0) s) pn else pn.

Lemma shr_loop n : (n <= w)%nat ->
  wide w (for_ n shr_step (bu_zero w)) /\
  forall j c, 0 <= c < 32 -> Z.testbit (nth j (for_ n shr_step (bu_zero w)) 0) c =
    ((j + k <? n)%nat && Z.testbit (nth (j + k) a 0) (c + s)) ||
    ((j + k + 1 <? n)%nat && negb (s =? 0) && Z.testbit (nth (j + k + 1) a 0) (c + s - 32)).
Proof.
  induction n as [|n IH]; intros Hn; cbn [for_].
  - split; [apply wide_zero|]. intros j c Hc. rewrite nth_zero, Z.bits_0. nat_bools; done.
  - destruct (IH ltac:(lia)) as [Hw IH']. clear IH. set (pn := for_ n shr_step (bu_zero w)) in *. unfold shr_step.
    set (t1 := (k + 1 <=? n)%nat && negb (s =? 0)). set (X := word (Z.shiftl (nth n a 0) (32 - s))). set (Y := Z.shiftr (nth n a 0) s).
    assert (is_word Y) as HY by (apply shiftr_word; [by apply (wide_nth w)|lia]). assert (is_word X) as HX by apply word_range.
    assert (t1 = true -> (n - k - 1 < w)%nat) as H1 by lia. assert ((k <=? n)%nat = true -> (n - k < w)%nat) as H2 by lia.
    pose proof (fun j c => nth_or_if t1 (n - k - 1) X pn j c Hw HX H1) as HA. cbn zeta.
    set (pn1 := if t1 then or_at (n - k - 1) X pn else pn) in *. assert (wide w pn1) as Hw1 by apply (HA 0%nat 0).
    pose proof (fun j c => nth_or_if (k <=? n)%nat (n - k) Y pn1 j c Hw1 HY H2) as HB. split; [apply (HB 0%nat 0)|].
    intros j c Hc. rewrite (proj2 (HB j c)), (proj2 (HA j c)), IH' by done. unfold t1, X, Y.
    rewrite word_testbit, Z.shiftl_spec, Z.shiftr_spec by lia. replace (c - (32 - s)) with (c + s - 32) by lia.
    destruct (Nat.eq_dec (j + k)%nat n) as [<-|N1]; [|destruct (Nat.eq_dec (j + k + 1)%nat n) as [<-|N2]].
    + rewrite (proj2 (Nat.eqb_eq j (j + k - k)%nat)) by lia. nat_bools; rewrite ?(proj2 (Nat.eqb_neq j (j + k - k - 1)%nat)) by lia; bit_atoms.
    + rewrite (proj2 (Nat.eqb_eq j (j + k + 1 - k - 1)%nat)), (proj2 (Nat.eqb_neq j (j + k + 1 - k)%nat)) by lia. nat_bools; bit_atoms.
    + nat_bools; rewrite ?(proj2 (Nat.eqb_neq j (n - k)%nat)), ?(proj2 (Nat.eqb_neq j (n - k - 1)%nat)) by lia; bit_atoms.
Qed.
End Shift.

(** The shift as whole limbs and bits. *)
Lemma shift_parts shift : 0 <= shift -> shift = 32 * Z.of_nat (Z.to_nat (shift / 32)) + shift mod 32 /\ 0 <= shift mod 32 < 32.
Proof.
  intros Hs. pose proof (Z.div_pos shift 32 Hs ltac:(lia)). pose proof (Z.div_mod shift 32 ltac:(lia)).
  pose proof (Z.mod_pos_bound shift 32 ltac:(lia)). lia.
Qed.

Lemma bu_shl_ok w a shift : wide w a -> 0 <= shift -> wide w (bu_shl a shift) /\ value (bu_shl a shift) = (value a * 2 ^ shift) mod modulus w.
Proof.
  intros Ha Hs. destruct (shift_parts shift Hs) as [Ek Hr]. unfold bu_shl. replace (length a) with w by (symmetry; apply Ha).
  set (k := Z.to_nat (shift / 32)) in *. set (s := shift mod 32) in *. fold (shl_step w a k s).
  destruct (shl_loop w a k s Ha Hr w) as [Hw H]. split; [done|]. pose proof (value_range w a Ha) as Hv.
  rewrite <- Z.shiftl_mul_pow2 by done. apply limb_bits_inj; [done|apply Z.shiftl_nonneg; lia|]. intros j c Hc. rewrite H by done. f_equal.
  rewrite Z.shiftl_spec by lia. destruct (Z.lt_ge_cases (32 * Z.of_nat j + c) shift) as [Hlt|Hge].
  - rewrite (Z.testbit_neg_r (value a)) by lia. destruct (Nat.leb_spec (k + 1) j); [lia|]. cbn [andb]. rewrite orb_false_r.
    destruct (Nat.leb_spec k j); [|done]. rewrite (Z.testbit_neg_r (nth (j - k) a 0)) by lia. apply andb_false_r.
  - destruct (Z.lt_ge_cases c s) as [Hcs|Hcs].
    + replace (32 * Z.of_nat j + c - shift) with (32 * Z.of_nat (j - k - 1) + (c + 32 - s)) by lia. rewrite (value_testbit w) by (done || lia).
      rewrite (Z.testbit_neg_r (nth (j - k) a 0)), andb_false_r by lia. rewrite (proj2 (Nat.leb_le _ _)), (proj2 (Z.eqb_neq s 0)) by lia.
      destruct (Nat.ltb_spec j (w + k + 1)); [done|]. by rewrite (nth_beyond w a), Z.bits_0 by (done || lia).
    + replace (32 * Z.of_nat j + c - shift) with (32 * Z.of_nat (j - k) + (c - s)) by lia. rewrite (value_testbit w) by (done || lia).
      rewrite (word_high (nth (j - k - 1) a 0)), andb_false_r, orb_false_r by (by apply (wide_nth w) || lia).
      rewrite (proj2 (Nat.leb_le _ _)) by lia. destruct (Nat.ltb_spec j (w + k)); [done|]. by rewrite (nth_beyond w a), Z.bits_0 by (done || lia).
Qed.

Lemma bu_shr_ok w a shift : wide w a -> 0 <= shift -> wide w (bu_shr a shift) /\ value (bu_shr a shift) = value a / 2 ^ shift.
Proof.
  intros Ha Hs. destruct (shift_parts shift Hs) as [Ek Hr]. unfold bu_shr. replace (length a) with w by (symmetry; apply Ha).
  set (k := Z.to_nat (shift / 32)) in *. set (s := shift mod 32) in *. fold (shr_step a k s).
  destruct (shr_loop w a k s Ha Hr w ltac:(lia)) as [Hw H]. split; [done|]. pose proof (value_range w a Ha) as Hv.
  rewrite <- Z.shiftr_div_pow2 by done. apply Z.bits_inj'. intros i Hi. destruct (position i Hi) as (j & c & Hc & ->).
  rewrite (value_testbit w) by done. rewrite H by done. rewrite Z.shiftr_spec by lia. destruct (Z.lt_ge_cases (c + s) 32) as [Hcs|Hcs].
  - replace (32 * Z.of_nat j + c + shift) with (32 * Z.of_nat (j + k) + (c + s)) by lia. rewrite (value_testbit w) by (done || lia).
    rewrite (Z.testbit_neg_r (nth (j + k + 1) a 0)), andb_false_r, orb_false_r by lia.
    destruct (Nat.ltb_spec (j + k) w); [done|]. by rewrite (nth_beyond w a), Z.bits_0 by (done || lia).
  - replace (32 * Z.of_nat j + c + shift) with (32 * Z.of_nat (j + k + 1) + (c + s - 32)) by lia. rewrite (value_testbit w) by (done || lia).
    rewrite (word_high (nth (j + k) a 0)), andb_false_r by (by apply (wide_nth w) || lia). rewrite (proj2 (Z.eqb_neq s 0)) by lia.
    destruct (Nat.ltb_spec (j + k + 1) w); [done|]. by rewrite (nth_beyond w a), Z.bits_0 by (done || lia).
Qed.

(** ** Comparison *)

(** The most significant limb. *)
Lemma wide_top w l : wide (S w) l -> exists r x, l = r ++ [x] /\ wide w r /\ is_word x /\ value l = value r + modulus w * x.
Proof.
  intros Hl. destruct (wide_take_drop (S w) w l Hl ltac:(lia)) as (H1 & H2 & H3).
  replace (S w - w)%nat with 1%nat in H2 by lia. destruct (wide_S 0 _ H2) as (x & r & E & Hx & Hr). rewrite (wide_nil r Hr) in E.
  exists (take w l), x. rewrite E in H3. cbn [value] in H3. rewrite <- E, take_drop. do 3 (split; [done|]). lia.
Qed.

Definition sign_of (c : comparison) : Z := match c with Lt => -1 | Eq => 0 | Gt => 1 end.

Lemma CompareTo_ok w a b : wide w a -> wide w b -> CompareTo a b = sign_of (value a ?= value b).
Proof.
  revert a b. induction w as [|w IH]; intros a b Ha Hb; [by rewrite (wide_nil a Ha), (wide_nil b Hb)|].
  destruct (wide_top w a Ha) as (ra & x & -> & Hra & Hx & ->), (wide_top w b Hb) as (rb & y & -> & Hrb & Hy & ->).
  unfold CompareTo. rewrite !rev_app_distr. cbn [rev app compare_down]. fold (CompareTo ra rb). rewrite (IH ra rb Hra Hrb).
  pose proof (value_range w ra Hra). pose proof (value_range w rb Hrb). pose proof (modulus_pos w).
  destruct (Z.ltb_spec x y); [|destruct (Z.ltb_spec y x)].
  - assert (value ra + modulus w * x < value rb + modulus w * y) as H' by nia. by rewrite (proj2 (Z.compare_lt_iff _ _) H').
  - assert (value rb + modulus w * y < value ra + modulus w * x) as H' by nia. by rewrite (proj2 (Z.compare_gt_iff _ _) H').
  - replace y with x by lia. f_equal. symmetry.
    destruct (Z.compare_spec (value ra) (value rb)); [apply Z.compare_eq_iff|apply Z.compare_lt_iff|apply Z.compare_gt_iff]; lia.
Qed.

Lemma EqualTo_ok w a b : wide w a -> (2 <= w)%nat -> 0 <= b < 2 ^ 64 -> EqualTo a b = (value a =? b).
Proof.
  intros Ha Hw Hb. destruct w as [|[|w]]; try lia. destruct (wide_S _ _ Ha) as (x & r & -> & Hx & Hr), (wide_S _ _ Hr) as (y & l & -> & Hy & Hl).
  unfold EqualTo. change (drop 2 (x :: y :: l)) with l. cbn [nth value]. fold (low b). rewrite low_word, Z.shiftr_div_pow2 by lia. unfold word, is_word in *.
  assert (forallb (fun x => x =? 0) l = (value l =? 0)) as ->.
  { clear -Hl. revert l Hl. induction w as [|w IH]; intros l Hl; [by rewrite (wide_nil l Hl)|].
    destruct (wide_S w l Hl) as (z & m & -> & Hz & Hm). cbn [forallb value]. rewrite (IH m Hm). pose proof (value_range w m Hm). unfold is_word in Hz. lia. }
  pose proof (value_range w l Hl). pose proof (Z.div_mod b (2 ^ 32) ltac:(lia)). pose proof (Z.mod_pos_bound b (2 ^ 32) ltac:(lia)).
  assert (0 <= b / 2 ^ 32 < 2 ^ 32) by (split; [apply Z.div_pos|apply Z.div_lt_upper_bound]; lia).
  set (q := b / 2 ^ 32) in *. set (r := b mod 2 ^ 32) in *. clearbody q r. lia.
Qed.

(** ** Size *)

Lemma land_bit x n : 0 <= n -> (Z.land x (Z.shiftl 1 n) =? 0) = negb (Z.testbit x n).
Proof.
  intros Hn. destruct (Z.testbit x n) eqn:E; cbn [negb].
  - apply Z.eqb_neq. intros H. assert (Z.testbit (Z.land x (Z.shiftl 1 n)) n = false) as H' by (by rewrite H, Z.bits_0).
    rewrite Z.land_spec, E, Z.shiftl_spec, Z.sub_diag in H' by done. done.
  - apply Z.eqb_eq. apply Z.bits_inj'. intros i Hi. rewrite Z.land_spec, Z.bits_0, Z.shiftl_spec by done.
    destruct (Z.eq_dec i n) as [->|]; [by rewrite E|]. destruct (Z.lt_ge_cases i n); [rewrite (Z.testbit_neg_r 1) by lia; apply andb_false_r|].
    rewrite (Z.bits_above_log2 1), andb_false_r by (cbn; lia). done.
Qed.

Lemma top_bit_ok n x : 0 < x < 2 ^ (Z.of_nat n + 1) -> top_bit n x = Z.log2 x + 1.
Proof.
  induction n as [|n IH]; intros Hx; cbn [top_bit].
  - change (2 ^ (Z.of_nat 0 + 1)) with 2 in Hx. by replace x with 1 by lia.
  - rewrite land_bit, negb_involutive by lia. set (k := Z.of_nat (S n)) in *. destruct (Z.testbit x k) eqn:E.
    + f_equal. symmetry. apply Z.log2_unique; [lia|]. split; [|unfold Z.succ; lia].
      destruct (Z.le_gt_cases (2 ^ k) x) as [|Hlt]; [done|]. rewrite Z.bits_above_log2 in E; [done|lia|]. apply Z.log2_lt_pow2; lia.
    + apply IH. split; [lia|]. replace (Z.of_nat n + 1) with k by lia. destruct (Z.lt_ge_cases x (2 ^ k)) as [|Hge]; [done|].
      exfalso. assert (Z.log2 x = k) as Hl by (apply Z.log2_unique; lia). rewrite <- Hl, Z.bit_log2 in E by lia. done.
Qed.

Lemma bu_bits_ok w l : wide w l -> bu_bits l = bits_of (value l).
Proof.
  revert l. induction w as [|w IH]; intros l Hl; [by rewrite (wide_nil l Hl)|].
  destruct (wide_top w l Hl) as (r & x & -> & Hr & Hx & ->). unfold bu_bits. rewrite rev_app_distr. cbn [rev app bits_down].
  pose proof (value_range w r Hr). pose proof (modulus_pos w). unfold is_word in Hx. destruct (Z.eqb_spec x 0) as [->|Hne]; cbn [negb].
  - rewrite Z.mul_0_r, Z.add_0_r. by apply IH.
  - rewrite length_rev, (proj1 Hr), top_bit_ok by (cbn; lia). unfold bits_of. rewrite (proj2 (Z.eqb_neq _ 0)) by nia.
    rewrite Z.add_assoc. f_equal. symmetry. apply Z.log2_unique; [pose proof (Z.log2_nonneg x); lia|].
    destruct (Z.log2_spec x ltac:(lia)) as [H1 H2]. pose proof (Z.log2_nonneg x).
    rewrite <- Z.add_succ_r, !Z.pow_add_r by lia. fold (modulus w). nia.
Qed.

(** ** Conversions *)

Lemma of_u64_ok w b : (2 <= w)%nat -> 0 <= b < 2 ^ 64 -> wide w (of_u64 w b) /\ value (of_u64 w b) = b.
Proof.
  intros Hw Hb. unfold of_u64. fold (bu_zero (w - 2)). cbn [value]. rewrite value_zero, Z.shiftr_div_pow2 by lia.
  destruct w as [|[|w]]; try lia. rewrite !wide_cons. replace (S (S w) - 2)%nat with w by lia.
  split; [split; [apply word_range|split; [apply word_range|apply wide_zero]]|].
  assert (0 <= b / 2 ^ 32 < 2 ^ 32) by (split; [apply Z.div_pos|apply Z.div_lt_upper_bound]; lia).
  unfold word. rewrite (Z.mod_small (b / 2 ^ 32)) by done. pose proof (Z.div_mod b (2 ^ 32) ltac:(lia)). lia.
Qed.

Lemma bu_from_ok v w b : wide v b -> wide w (bu_from w b) /\ value (bu_from w b) = value b mod modulus w.
Proof.
  intros Hb. unfold bu_from. replace (length b) with v by (symmetry; apply Hb). destruct (le_lt_dec w v) as [Hle|Hlt].
  - replace (w - v)%nat with 0%nat by lia. rewrite app_nil_r. destruct (wide_take_drop v w b Hb Hle) as (H1 & _ & H3). split; [done|].
    apply (mod_unique _ _ (value (drop w b))); [by apply value_range|]. lia.
  - rewrite take_ge by (destruct Hb; lia). fold (bu_zero (w - v)). split.
    + replace w with (v + (w - v))%nat at 1 by lia. apply wide_app; [done|apply wide_zero].
    + rewrite value_app, value_zero, Z.mul_0_r, Z.add_0_r. symmetry. apply Z.mod_small. pose proof (value_range v b Hb).
      assert (modulus v <= modulus w) by (apply Z.pow_le_mono_r; lia). lia.
Qed.

Lemma GetLow64_ok w l : wide w l -> (2 <= w)%nat -> GetLow64 l = value l mod 2 ^ 64.
Proof.
  intros Hl Hw. destruct w as [|[|w]]; try lia. destruct (wide_S _ _ Hl) as (x & r & -> & Hx & Hr), (wide_S _ _ Hr) as (y & m & -> & Hy & Hm).
  unfold GetLow64. cbn [nth value]. unfold dword, is_word in *. rewrite Z.mod_small by (rewrite Z.shiftl_mul_pow2; lia).
  rewrite <- Z.add_nocarry_lor by (apply land_disjoint; lia). rewrite Z.shiftl_mul_pow2 by lia.
  apply (mod_unique _ _ (value m)); lia.
Qed.

(** ** Division *)

Lemma or_bit_value w l s : wide w l -> (s < 32 * w)%nat ->
  wide w (or_at (s / 32) (Z.shiftl 1 (Z.land (Z.of_nat s) 31)) l) /\
  value (or_at (s / 32) (Z.shiftl 1 (Z.land (Z.of_nat s) 31)) l) = Z.lor (value l) (2 ^ Z.of_nat s).
Proof.
  intros Hl Hs. change 31 with (Z.ones 5). rewrite Z.land_ones by lia. change (2 ^ 5) with 32.
  pose proof (Z.mod_pos_bound (Z.of_nat s) 32 ltac:(lia)) as Hm. set (c := Z.of_nat s mod 32) in *.
  assert (Z.of_nat s = 32 * Z.of_nat (s / 32) + c) as Es by (rewrite Nat2Z.inj_div; apply Z.div_mod; lia). set (i := (s / 32)%nat) in *.
  rewrite Z.shiftl_1_l. assert (is_word (2 ^ c)) as Hw by (split; [apply Z.pow_nonneg; lia|apply Z.pow_lt_mono_r; lia]).
  pose proof (or_at_wide w i (2 ^ c) l Hl Hw) as Ho. split; [done|]. apply Z.bits_inj'. intros t Ht.
  destruct (position t Ht) as (j & d & Hd & ->). rewrite Z.lor_spec, !(value_testbit w) by done. rewrite (or_at_nth w) by (done || lia).
  rewrite Es, Z.pow2_bits_eqb by lia. destruct (Nat.eqb_spec j i) as [->|Hne].
  - rewrite Z.lor_spec, Z.pow2_bits_eqb by lia. f_equal. destruct (Z.eqb_spec c d); symmetry; [apply Z.eqb_eq|apply Z.eqb_neq]; lia.
  - rewrite (proj2 (Z.eqb_neq _ _)), orb_false_r by lia. done.
Qed.

Lemma div_loop_ok w D n num dv q k :
  wide w num -> wide w dv -> wide w q -> 0 < D ->
  ((0 < n)%nat -> value dv = D * 2 ^ Z.of_nat (n - 1)) -> value num < D * 2 ^ Z.of_nat n -> value q = k * 2 ^ Z.of_nat n -> (n <= 32 * w)%nat ->
  let '(q', num') := div_loop n num dv q in
  wide w q' /\ value q' * D + value num' = value q * D + value num /\ 0 <= value num' < D.
Proof.
  revert num dv q k. induction n as [|s IH]; intros num dv q k Hnum Hdv Hq HD Hd Hlt Hk Hn; cbn [div_loop].
  - pose proof (value_range w num Hnum). change (2 ^ Z.of_nat 0) with 1 in Hlt. split; [done|lia].
  - specialize (Hd ltac:(lia)). replace (S s - 1)%nat with s in Hd by lia.
    assert (2 ^ Z.of_nat (S s) = 2 * 2 ^ Z.of_nat s) as E by (rewrite Nat2Z.inj_succ; apply Z.pow_succ_r; lia). rewrite E in Hlt, Hk.
    assert (0 < 2 ^ Z.of_nat s) as Hp by (apply Z.pow_pos_nonneg; lia).
    destruct (bu_shr_ok w dv 1 Hdv ltac:(lia)) as [Hw1 Hv1].
    assert ((0 < s)%nat -> value (bu_shr dv 1) = D * 2 ^ Z.of_nat (s - 1)) as Hd1.
    { intros Hs. rewrite Hv1, Hd. replace (Z.of_nat s) with (Z.of_nat (s - 1) + 1) by lia. rewrite Z.pow_add_r, Z.mul_assoc by lia.
      apply Z.div_mul. lia. }
    pose proof (value_range w num Hnum) as Rn. pose proof (value_range w dv Hdv) as Rd.
    rewrite (CompareTo_ok w num dv Hnum Hdv). destruct (Z.lt_ge_cases (value num) (value dv)) as [Hc|Hc].
    + rewrite (proj2 (Z.compare_lt_iff _ _) Hc). cbn [sign_of Z.leb Z.compare].
      apply (IH num (bu_shr dv 1) q (2 * k)); try done; lia.
    + assert (0 <=? sign_of (value num ?= value dv) = true) as -> by (destruct (Z.compare_spec (value num) (value dv)); [done|lia|done]).
      destruct (bu_sub_ok w num dv Hnum Hdv) as [Hw2 Hv2]. rewrite Z.mod_small in Hv2 by lia.
      destruct (or_bit_value w q s Hq ltac:(lia)) as [Hw3 Hv3].
      assert (Z.lor (value q) (2 ^ Z.of_nat s) = value q + 2 ^ Z.of_nat s) as Ho.
      { symmetry. apply Z.add_nocarry_lor. rewrite Hk, <- E, <- Z.shiftl_mul_pow2, Z.land_comm by lia. apply land_disjoint; lia. }
      specialize (IH (bu_sub num dv) (bu_shr dv 1) _ (2 * k + 1) Hw2 Hw1 Hw3 HD Hd1).
      destruct (div_loop s _ _ _) as [q' num']. destruct IH as (H1 & H2 & H3); [nia|nia|lia|]. split; [done|]. split; [nia|done].
Qed.

Lemma bu_div_ok w a b : wide w a -> wide w b ->
  match bu_div a b with
  | None => value b = 0
  | Some q => value b <> 0 /\ wide w q /\ value q = value a / value b
  end.
Proof.
  intros Ha Hb. unfold bu_div. rewrite (bu_bits_ok w a Ha), (bu_bits_ok w b Hb). replace (length a) with w by (symmetry; apply Ha).
  pose proof (value_range w a Ha) as Ra. pose proof (value_range w b Hb) as Rb. unfold bits_of.
  destruct (Z.eqb_spec (value b) 0) as [|Hb0]; [done|]. pose proof (Z.log2_nonneg (value b)).
  rewrite (proj2 (Z.eqb_neq (Z.log2 (value b) + 1) 0)) by lia. destruct (Z.log2_spec (value b) ltac:(lia)) as [B1 B2].
  destruct (Z.eqb_spec (value a) 0) as [Ha0|Ha0].
  { rewrite (proj2 (Z.ltb_lt 0 _)) by lia. split; [done|]. split; [apply wide_zero|]. by rewrite value_zero, Ha0, Z.div_0_l. }
  destruct (Z.log2_spec (value a) ltac:(lia)) as [A1 A2]. pose proof (Z.log2_nonneg (value a)).
  destruct (Z.ltb_spec (Z.log2 (value a) + 1) (Z.log2 (value b) + 1)) as [Hlt|Hge].
  { split; [done|]. split; [apply wide_zero|]. rewrite value_zero. symmetry. apply Z.div_small. split; [lia|].
    assert (2 ^ Z.succ (Z.log2 (value a)) <= 2 ^ Z.log2 (value b)) by (apply Z.pow_le_mono_r; lia). lia. }
  set (sh := Z.log2 (value a) + 1 - (Z.log2 (value b) + 1)) in *. assert (0 <= sh) as Hsh by lia.
  destruct (bu_shl_ok w b sh Hb Hsh) as [Hw Hv].
  assert (2 ^ Z.succ (Z.log2 (value a)) = 2 ^ Z.succ (Z.log2 (value b)) * 2 ^ sh) as E by (rewrite <- Z.pow_add_r by lia; f_equal; lia).
  assert (2 ^ Z.log2 (value a) = 2 ^ Z.log2 (value b) * 2 ^ sh) as E' by (rewrite <- Z.pow_add_r by lia; f_equal; lia).
  assert (Z.succ (Z.log2 (value a)) <= 32 * Z.of_nat w) as Hbits by (apply Z.le_succ_l, Z.log2_lt_pow2; [lia|apply Ra]).
  assert (modulus w = 2 ^ (32 * Z.of_nat w)) as Em by done.
  assert (2 ^ Z.succ (Z.log2 (value a)) <= modulus w) as Hmod by (rewrite Em; apply Z.pow_le_mono_r; lia).
  assert (0 < 2 ^ sh) as Hps by (apply Z.pow_pos_nonneg; lia). rewrite Z.mod_small in Hv by nia.
  pose proof (div_loop_ok w (value b) (Z.to_nat (sh + 1)) a (bu_shl b sh) (bu_zero w) 0 Ha Hw (wide_zero w) ltac:(lia)) as Hl.
  replace (Z.of_nat (Z.to_nat (sh + 1) - 1)) with sh in Hl by lia. replace (Z.of_nat (Z.to_nat (sh + 1))) with (Z.succ sh) in Hl by lia.
  rewrite Z.pow_succ_r in Hl by lia. rewrite value_zero in Hl.
  pose proof (Z.mul_le_mono_nonneg_r _ _ (2 ^ sh) ltac:(lia) B1) as Hm. rewrite Z.pow_succ_r in A2 by lia.
  specialize (Hl (fun _ => Hv) ltac:(lia) ltac:(lia) ltac:(lia)).
  destruct (div_loop _ _ _ _) as [q r]. destruct Hl as (H1 & H2 & H3). cbn [fst].
  split; [exact Hb0|]. split; [exact H1|]. apply (Z.div_unique_pos _ _ _ (value r)); [exact H3|]. lia.
Qed.

(** ** Compact encoding on limbs *)

(** [SetCompact] and [GetCompact] as the code has them, on eight limbs. *)
Definition SetCompact_limbs (nCompact : Z) : limbs :=
  let nSize := Z.shiftr nCompact 24 in
  let nWord := Z.land nCompact 0x007fffff in
  if nSize <=? 3 then of_u64 8 (Z.shiftr nWord (8 * (3 - nSize)))
  else bu_shl (of_u64 8 nWord) (8 * (nSize - 3)).

Definition GetCompact_limbs (pn : limbs) : Z :=
  let nSize := (bu_bits pn + 7) / 8 in
  let nCompact := if nSize <=? 3 then word (dword (Z.shiftl (GetLow64 pn) (8 * (3 - nSize))))
                  else word (GetLow64 (bu_shr pn (8 * (nSize - 3)))) in
  let '(nCompact, nSize) :=
    if negb (Z.land nCompact 0x00800000 =? 0) then (Z.shiftr nCompact 8, nSize + 1)
    else (nCompact, nSize) in
  Z.lor nCompact (Z.shiftl nSize 24).

Lemma SetCompact_limbs_ok n : is_word n -> wide 8 (SetCompact_limbs n) /\ value (SetCompact_limbs n) = c_target (SetCompact n).
Proof.
  intros Hn. unfold SetCompact_limbs, SetCompact. unfold is_word in Hn.
  assert (0 <= Z.land n 0x007fffff < 2 ^ 23) as Hw.
  { change 0x007fffff with (Z.ones 23). rewrite Z.land_ones by lia. apply Z.mod_pos_bound. lia. }
  assert (0 <= Z.shiftr n 24) by (apply Z.shiftr_nonneg; lia). destruct (Z.leb_spec (Z.shiftr n 24) 3); cbn [c_target].
  - apply of_u64_ok; [lia|]. rewrite Z.shiftr_div_pow2 by lia. assert (0 < 2 ^ (8 * (3 - Z.shiftr n 24))) by (apply Z.pow_pos_nonneg; lia).
    split; [apply Z.div_pos; lia|]. apply Z.div_lt_upper_bound; nia.
  - destruct (of_u64_ok 8 (Z.land n 0x007fffff) ltac:(lia) ltac:(lia)) as [H1 H2].
    destruct (bu_shl_ok 8 _ (8 * (Z.shiftr n 24 - 3)) H1 ltac:(lia)) as [H3 ->]. split; [done|]. rewrite H2.
    rewrite Z.shiftl_mul_pow2 by lia. done.
Qed.

Lemma GetCompact_limbs_ok pn : wide 8 pn -> GetCompact_limbs pn = GetCompact (value pn).
Proof.
  intros Hp. unfold GetCompact_limbs, GetCompact. rewrite (bu_bits_ok 8 pn Hp). pose proof (value_range 8 pn Hp).
  set (n := (bits_of (value pn) + 7) / 8). destruct (Z.leb_spec n 3) as [Hle|Hgt].
  - rewrite (GetLow64_ok 8 pn Hp) by lia. unfold word, dword. rewrite Z.shiftl_mul_pow2 by lia.
    rewrite (Z.mod_mod_divide _ (2 ^ 64) (2 ^ 32)) by (by exists (2 ^ 32)). done.
  - destruct (bu_shr_ok 8 pn (8 * (n - 3)) Hp ltac:(lia)) as [H1 H2]. rewrite (GetLow64_ok 8 _ H1) by lia. rewrite H2.
    unfold word. rewrite (Z.mod_mod_divide _ (2 ^ 64) (2 ^ 32)) by (by exists (2 ^ 32)).
    by rewrite (Z.shiftr_div_pow2 (value pn)) by lia.
Qed.

(** [GetBlockProof] of the target: [~t / (t + 1) + 1]. *)
Definition block_proof_limbs (bnTarget : limbs) : option limbs :=
  q ← bu_div (bu_not bnTarget) (bu_add bnTarget (of_u64 8 1)); Some (bu_add q (of_u64 8 1)).

Lemma block_proof_limbs_ok t : wide 8 t ->
  match block_proof_limbs t with
  | None => value t = 2 ^ 256 - 1
  | Some q => value q = wrap256 ((2 ^ 256 - 1 - value t) / wrap256 (value t + 1) + 1)
  end.
Proof.
  intros Ht. unfold block_proof_limbs. destruct (of_u64_ok 8 1 ltac:(lia) ltac:(lia)) as [H1 V1].
  destruct (bu_not_ok 8 t Ht) as [Hn Vn], (bu_add_ok 8 t _ Ht H1) as [Ha Va]. rewrite V1 in Va.
  change (modulus 8) with (2 ^ 256) in *. pose proof (bu_div_ok 8 _ _ Hn Ha) as Hd. destruct (bu_div _ _) as [q|]; cbn [mbind option_bind].
  - destruct Hd as (_ & Hq & Vq). destruct (bu_add_ok 8 q _ Hq H1) as [_ ->]. rewrite V1, Vq, Vn, Va. done.
  - rewrite Va in Hd. pose proof (value_range 8 t Ht). change (modulus 8) with (2 ^ 256) in *.
    destruct (Z.eq_dec (value t) (2 ^ 256 - 1)); [done|]. rewrite Z.mod_small in Hd by lia. lia.
Qed.

(** ** Main results *)

(** C13. The node's big integers.  For every width of at least two limbs, the limb
    loops of [base_uint] compute, on the numbers their arguments stand for, the
    sum, difference, negation, product, product with a 32-bit word and left
    shift modulo 2^BITS, the exact right shift, the order, and the position of
    the highest bit; division ends with the exact quotient, and throws for a zero
    divisor and only then; conversion to another width keeps the value modulo the
    new one.  Every result is again an array of 32-bit limbs of the same width. *)
Theorem base_uint_refines w a b x shift :
  (2 <= w)%nat -> wide w a -> wide w b -> is_word x -> 0 <= shift ->
  let ret l n := wide w l /\ value l = n mod modulus w in
  ret (bu_add a b) (value a + value b) /\ ret (bu_sub a b) (value a - value b) /\ ret (bu_neg a) (- value a) /\
  ret (bu_mul a b) (value a * value b) /\ ret (bu_mul32 a x) (value a * x) /\
  ret (bu_shl a shift) (value a * 2 ^ shift) /\
  (wide w (bu_shr a shift) /\ value (bu_shr a shift) = value a / 2 ^ shift) /\
  CompareTo a b = sign_of (value a ?= value b) /\
  bu_bits a = bits_of (value a) /\
  match bu_div a b with
  | None => value b = 0
  | Some q => value b <> 0 /\ wide w q /\ value q = value a / value b
  end /\
  (forall v, wide v (bu_from v a) /\ value (bu_from v a) = value a mod modulus v).
Proof.
  intros Hw Ha Hb Hx Hs. cbn zeta.
  split; [by apply bu_add_ok|]. split; [by apply bu_sub_ok|]. split; [by apply bu_neg_ok|]. split; [by apply bu_mul_ok|].
  split; [by apply bu_mul32_ok|]. split; [by apply bu_shl_ok|]. split; [by apply bu_shr_ok|]. split; [by apply (CompareTo_ok w)|].
  split; [by apply (bu_bits_ok w)|]. split; [by apply bu_div_ok|]. intros v. by apply (bu_from_ok w).
Qed.

(** Targets and work on limbs.  On 256 bits, the limb code of [SetCompact],
    [GetCompact] and the work formula gives, for all 32-bit encodings and all
    targets, the numbers the rest of the development computes with; the work
    formula divides by zero for the target 2^256 - 1 only, which no encoding
    gives. *)
Theorem compact_limbs :
  (forall n, is_word n -> value (SetCompact_limbs n) = c_target (SetCompact n) /\
     exists q, block_proof_limbs (SetCompact_limbs n) = Some q /\
       value q = wrap256 ((2 ^ 256 - 1 - c_target (SetCompact n)) / wrap256 (c_target (SetCompact n) + 1) + 1)) /\
  (forall pn, wide 8 pn -> GetCompact_limbs pn = GetCompact (value pn)).
Proof.
  split; [|apply GetCompact_limbs_ok]. intros n Hn. destruct (SetCompact_limbs_ok n Hn) as [Hw Ev]. split; [done|].
  pose proof (block_proof_limbs_ok _ Hw) as H. rewrite Ev in H. pose proof (SetCompact_below n ltac:(apply Hn)).
  destruct (block_proof_limbs _) as [q|]; [eauto|lia].
Qed.

Lemma base_uint_refines_witness : value (bu_mul [0xffffffff; 1] [3; 0]) = (0x1ffffffff * 3) mod 2 ^ 64.
Proof.
  assert (wide 2 [0xffffffff; 1] /\ wide 2 [3; 0]) as [Ha Hb] by (split; (split; [done|]); repeat constructor; unfold is_word; lia).
  exact (proj2 (proj1 (proj2 (proj2 (proj2 (base_uint_refines 2 [0xffffffff; 1] [3; 0] 0 0 (le_n 2) Ha Hb
    ltac:(unfold is_word; lia) ltac:(lia))))))).
Defined.
