(* ===== verification/BlockIndex.v ===== *)
(** * The node's block index

    The tree of block headers of [src/chain.h], [src/chain.cpp] and
    [BlockManager::AddToBlockIndex]: entries linked by [pprev], skip pointers,
    cumulative work, latest time and the count of second-algorithm blocks.  An
    entry's address is its position in the table; entries never move.  The file
    shows that every table built by [AddToBlockIndex] is well formed, that the
    walk over skip pointers ends at the ancestor the [pprev] links lead to, and
    that the cumulative fields are what a walk of the whole chain computes. *)

From Stdlib Require Import ZArith Lia Bool.
From stdpp Require Import base list numbers option.
From S2P Require Import Prelude Bytes Sha256 Libs Consensus Compact.

Open Scope Z_scope.

(** ** Entries *)

Record CBlockIndex := MkIndex {
  pprev : option nat;
  pskip : option nat;
  nHeight : Z;
  i_nVersion : Z;
  i_nTime : Z;
  i_nBits : Z;
  nTimeMax : Z;
  nChainWork : Z;
  nSecondAlgoCount : Z;
}.

(** [m_block_index]: hashes and entries, in the order they were added. *)
Abbreviation block_map := (list (bytes * CBlockIndex)).

Definition index (m : block_map) (p : nat) : option CBlockIndex := snd <$> m !! p.

Fixpoint find_hash (h : bytes) (m : block_map) : option nat :=
  match m with
  | [] => None
  | (k, _) :: r => if bool_decide (k = h) then Some 0%nat else S <$> find_hash h r
  end.

(** ** Skip pointers *)

Definition InvertLowestOne (n : Z) : Z := Z.land n (n - 1).

Definition GetSkipHeight (height : Z) : Z :=
  if height <? 2 then 0
  else if negb (Z.land height 1 =? 0) then InvertLowestOne (InvertLowestOne (height - 1)) + 1
  else InvertLowestOne height.

(** The loop of [GetAncestor]; [None] is a failed assertion or no fuel. *)
Fixpoint walk (fuel : nat) (m : block_map) (pindexWalk : nat) (heightWalk height : Z) : option nat :=
  if heightWalk <=? height then Some pindexWalk else
  match fuel with
  | O => None
  | S f =>
      b ← index m pindexWalk;
      let heightSkip := GetSkipHeight heightWalk in
      let heightSkipPrev := GetSkipHeight (heightWalk - 1) in
      let follow := (heightSkip =? height) ||
        ((height <? heightSkip) && negb ((heightSkipPrev <? heightSkip - 2) && (height <=? heightSkipPrev))) in
      match pskip b with
      | Some q => if follow then walk f m q heightSkip height
                  else r ← pprev b; walk f m r (heightWalk - 1) height
      | None => r ← pprev b; walk f m r (heightWalk - 1) height
      end
  end.

(** [GetAncestor]: the inner [None] is the null pointer. *)
Definition GetAncestor (m : block_map) (p : nat) (height : Z) : option (option nat) :=
  b ← index m p;
  if (nHeight b <? height) || (height <? 0) then Some None
  else q ← walk (Z.to_nat (nHeight b - height)) m p (nHeight b) height; Some (Some q).

(** ** Cumulative fields *)

Definition BLOCK_VERSION_QHASH : Z := 0x40000000.

Definition second_algo (version : Z) : bool := negb (Z.land version BLOCK_VERSION_QHASH =? 0).

(** [ComputeSecondAlgoCount]; [prev] is the parent's count, 0 without a parent. *)
Definition ComputeSecondAlgoCount (height version : Z) (prev : Z) (act : Z) : Z :=
  if height <? act then 0
  else if prev <? 0 then -1
  else prev + (if second_algo version then 1 else 0).

Definition GetBlockProof (bits : Z) : Z :=
  let c := SetCompact bits in
  if c_negative c || c_overflow c || (c_target c =? 0) then 0
  else wrap256 ((2 ^ 256 - 1 - c_target c) / wrap256 (c_target c + 1) + 1).

(** [BlockManager::AddToBlockIndex]: the new table, the entry's address and the
    best header.  The code looks the parent up after inserting the entry; the two
    orders differ only for a header that contains its own hash. *)
Definition AddToBlockIndex (act : Z) (m : block_map) (block : CBlockHeader) (best_header : option nat)
    : option (block_map * nat * option nat) :=
  match find_hash (GetHash block) m with
  | Some p => Some (m, p, best_header)
  | None =>
      let new := length m in
      let prev := find_hash (hashPrevBlock block) m in
      let pb := r ← prev; index m r in
      let height := match pb with Some b => nHeight b + 1 | None => 0 end in
      skip ← (match prev with Some r => GetAncestor m r (GetSkipHeight height) | None => Some None end);
      let work := wrap256 ((match pb with Some b => nChainWork b | None => 0 end) + GetBlockProof (nBits block)) in
      let e := {| pprev := prev; pskip := skip; nHeight := height;
                  i_nVersion := nVersion block; i_nTime := nTime block; i_nBits := nBits block;
                  nTimeMax := match pb with Some b => Z.max (nTimeMax b) (nTime block) | None => nTime block end;
                  nChainWork := work;
                  nSecondAlgoCount := ComputeSecondAlgoCount height (nVersion block)
                    (match pb with Some b => nSecondAlgoCount b | None => 0 end) act |} in
      let best := match best_header with
                  | None => Some new
                  | Some h => match index m h with
                              | Some b => if nChainWork b <? work then Some new else Some h
                              | None => Some h
                              end
                  end in
      Some (m ++ [(GetHash block, e)], new, best)
  end.

(** The tables and best headers the node can have.  Besides [AddToBlockIndex], the
    node sets its best header to the tip of the active chain when an invalid block
    is on the way to it ([InvalidChainFound]) or when there is none (the message
    thread), and at start to an entry of the loaded index ([LoadBlockIndex]): some
    entry of the table, or none. *)
Inductive built (act : Z) : block_map -> option nat -> Prop :=
  | built_nil : built act [] None
  | built_add m block best m' p best' :
      built act m best -> header_ok block -> AddToBlockIndex act m block best = Some (m', p, best') -> built act m' best'
  | built_reset m best best' :
      built act m best -> (forall h, best' = Some h -> is_Some (index m h)) -> built act m best'.

(** ** The chain of an entry *)

(** The addresses from an entry to its root along [pprev]. *)
Fixpoint path (fuel : nat) (m : block_map) (p : nat) : list nat :=
  match fuel with
  | O => []
  | S f => match index m p with
           | None => []
           | Some b => p :: match pprev b with Some r => path f m r | None => [] end
           end
  end.

Definition chain (m : block_map) (p : nat) : list nat := path (S p) m p.

(** Its entries. *)
Definition entries_of (m : block_map) (p : nat) : list CBlockIndex := omap (index m) (chain m p).

(** What the fields of an entry must be, given the table. *)
Definition entry_ok (act : Z) (m : block_map) (p : nat) (b : CBlockIndex) : Prop :=
  match pprev b with
  | None => nHeight b = 0 /\ pskip b = None /\ nTimeMax b = i_nTime b /\
            nChainWork b = wrap256 (GetBlockProof (i_nBits b)) /\
            nSecondAlgoCount b = ComputeSecondAlgoCount 0 (i_nVersion b) 0 act
  | Some r => (r < p)%nat /\ exists br, index m r = Some br /\ nHeight b = nHeight br + 1 /\
            pskip b = chain m r !! Z.to_nat (nHeight br - GetSkipHeight (nHeight b)) /\
            nTimeMax b = Z.max (nTimeMax br) (i_nTime b) /\
            nChainWork b = wrap256 (nChainWork br + GetBlockProof (i_nBits b)) /\
            nSecondAlgoCount b = ComputeSecondAlgoCount (nHeight b) (i_nVersion b) (nSecondAlgoCount br) act
  end.

Definition wf (act : Z) (m : block_map) : Prop := forall p b, index m p = Some b -> entry_ok act m p b.

(** ** Skip heights *)

Lemma land_le a b : 0 <= a -> 0 <= b -> Z.land a b <= a.
Proof.
  intros Ha Hb. rewrite <- (Z2N.id a Ha), <- (Z2N.id b Hb), <- N2Z.inj_land. apply N2Z.inj_le, N.land_le_l.
Qed.

Lemma invert_le n : 0 <= n -> 0 <= InvertLowestOne n <= n.
Proof.
  intros Hn. unfold InvertLowestOne. split; [apply Z.land_nonneg; lia|].
  destruct (Z.eq_dec n 0) as [->|]; [done|]. apply land_le; lia.
Qed.

Lemma invert_lt n : 0 < n -> InvertLowestOne n < n.
Proof.
  intros Hn. unfold InvertLowestOne. rewrite Z.land_comm. enough (Z.land (n - 1) n <= n - 1) by lia. apply land_le; lia.
Qed.

Lemma skip_range h : 0 < h -> 0 <= GetSkipHeight h < h.
Proof.
  intros Hh. unfold GetSkipHeight. destruct (Z.ltb_spec h 2); [lia|]. destruct (negb _).
  - pose proof (invert_le (h - 1) ltac:(lia)) as H1. pose proof (invert_lt (h - 1) ltac:(lia)).
    pose proof (invert_le (InvertLowestOne (h - 1)) ltac:(lia)). lia.
  - pose proof (invert_le h ltac:(lia)). pose proof (invert_lt h ltac:(lia)). lia.
Qed.

(** ** Well-formed tables *)

Section Wf.
Context (act : Z) (m : block_map).
Hypothesis m_wf : wf act m.

Lemma path_enough p f g : (p < f)%nat -> (p < g)%nat -> path f m p = path g m p.
Proof.
  revert p g. induction f as [|f IH]; intros p [|g] Hf Hg; try lia. cbn [path].
  destruct (index m p) as [b|] eqn:E; [|done]. f_equal. pose proof (m_wf p b E) as H. unfold entry_ok in H.
  destruct (pprev b) as [r|]; [|done]. destruct H as [Hr _]. apply IH; lia.
Qed.

Lemma chain_step p b : index m p = Some b ->
  chain m p = p :: match pprev b with Some r => chain m r | None => [] end.
Proof.
  intros E. unfold chain. change (path (S p) m p) with
    (match index m p with None => [] | Some b => p :: match pprev b with Some r => path p m r | None => [] end end).
  rewrite E. f_equal. pose proof (m_wf p b E) as H. unfold entry_ok in H.
  destruct (pprev b) as [r|]; [|done]. destruct H as [Hr _]. apply path_enough; lia.
Qed.

(** The parent of an entry. *)
Lemma parent_ok p b r : index m p = Some b -> pprev b = Some r ->
  (r < p)%nat /\ exists br, index m r = Some br /\ nHeight b = nHeight br + 1 /\
    pskip b = chain m r !! Z.to_nat (nHeight br - GetSkipHeight (nHeight b)).
Proof.
  intros E Er. pose proof (m_wf p b E) as H. unfold entry_ok in H. rewrite Er in H.
  destruct H as (Hr & br & Ebr & Hh & Hs & _). eauto 6.
Qed.

(** Induction along [pprev]. *)
Lemma chain_ind (P : nat -> CBlockIndex -> Prop) :
  (forall p b, index m p = Some b -> pprev b = None -> nHeight b = 0 -> P p b) ->
  (forall p b r br, index m p = Some b -> pprev b = Some r -> index m r = Some br -> nHeight b = nHeight br + 1 -> P r br -> P p b) ->
  forall p b, index m p = Some b -> P p b.
Proof.
  intros H0 H1 p. induction p as [p IH] using lt_wf_ind. intros b E. destruct (pprev b) as [r|] eqn:Er.
  - destruct (parent_ok p b r E Er) as (Hr & br & Ebr & Hh & _). eapply H1; eauto.
  - pose proof (m_wf p b E) as H. unfold entry_ok in H. rewrite Er in H. apply H0; [done..|]. apply H.
Qed.

Lemma height_nonneg p b : index m p = Some b -> 0 <= nHeight b.
Proof. apply (chain_ind (fun _ b => 0 <= nHeight b)); intros; lia. Qed.

Lemma chain_length p b : index m p = Some b -> Z.of_nat (length (chain m p)) = nHeight b + 1.
Proof.
  apply (chain_ind (fun p b => Z.of_nat (length (chain m p)) = nHeight b + 1)).
  - intros q c E Er Hh. rewrite (chain_step q c E), Er, Hh. done.
  - intros q c r br E Er Ebr Hh IH. rewrite (chain_step q c E), Er. cbn [length]. lia.
Qed.

(** The chain of a member is the rest of the chain. *)
Lemma chain_suffix p b : index m p = Some b ->
  forall i q, chain m p !! i = Some q ->
    chain m q = drop i (chain m p) /\ exists c, index m q = Some c /\ nHeight c = nHeight b - Z.of_nat i.
Proof.
  apply (chain_ind (fun p b => forall i q, chain m p !! i = Some q ->
    chain m q = drop i (chain m p) /\ exists c, index m q = Some c /\ nHeight c = nHeight b - Z.of_nat i)).
  - intros q c E Er Hh [|i] q'; rewrite (chain_step q c E), Er; [|done]. intros [= <-]. split; [by rewrite (chain_step q c E), Er|].
    exists c. split; [done|lia].
  - intros q c r br E Er Ebr Hh IH [|i] q'; rewrite (chain_step q c E), Er; cbn [lookup list_lookup drop].
    + intros [= <-]. split; [by rewrite (chain_step q c E), Er|]. exists c. split; [done|lia].
    + intros Hi. destruct (IH i q' Hi) as (H1 & c' & H2 & H3). split; [done|]. exists c'. split; [done|lia].
Qed.

Lemma chain_lookup p b i : index m p = Some b -> 0 <= i <= nHeight b -> is_Some (chain m p !! Z.to_nat i).
Proof. intros E Hi. apply lookup_lt_is_Some. pose proof (chain_length p b E). lia. Qed.

(** The loop ends, at the member of the chain with the height asked for. *)
Lemma walk_ok fuel p b height :
  index m p = Some b -> 0 <= height <= nHeight b -> (Z.to_nat (nHeight b - height) <= fuel)%nat ->
  walk fuel m p (nHeight b) height = chain m p !! Z.to_nat (nHeight b - height).
Proof.
  revert p b. induction fuel as [|f IH]; intros p b E Hh Hf; cbn [walk]; destruct (Z.leb_spec (nHeight b) height) as [Hle|Hgt]; try lia.
  1,2: replace (nHeight b - height) with 0 by lia; by rewrite (chain_step p b E).
  rewrite E. cbn [mbind option_bind]. destruct (pprev b) as [r|] eqn:Er.
  2: { pose proof (m_wf p b E) as H. unfold entry_ok in H. rewrite Er in H. lia. }
  destruct (parent_ok p b r E Er) as (Hr & br & Ebr & Hhb & Hs).
  assert (walk f m r (nHeight b - 1) height = chain m p !! Z.to_nat (nHeight b - height)) as Hprev.
  { replace (nHeight b - 1) with (nHeight br) by lia. rewrite (IH r br Ebr) by lia.
    rewrite (chain_step p b E), Er. replace (Z.to_nat (nHeight b - height)) with (S (Z.to_nat (nHeight br - height))) by lia. done. }
  destruct (pskip b) as [q|] eqn:Eq; [|done]. cbn [mbind option_bind].
  pose proof (skip_range (nHeight b) ltac:(lia)) as Hsk. symmetry in Hs.
  destruct (_ || _) eqn:Ef; [|done].
  assert (height <= GetSkipHeight (nHeight b)).
  { apply orb_true_iff in Ef as [Ef|Ef]; [lia|]. apply andb_true_iff in Ef as [Ef _]. lia. }
  destruct (chain_suffix r br Ebr _ q Hs) as (Hc & c & Ec & Hhc).
  replace (GetSkipHeight (nHeight b)) with (nHeight c) in * by lia.
  rewrite (IH q c Ec) by lia. rewrite Hc, lookup_drop, (chain_step p b E), Er.
  replace (Z.to_nat (nHeight b - height)) with (S (Z.to_nat (nHeight br - nHeight c) + Z.to_nat (nHeight c - height))) by lia. done.
Qed.

Lemma GetAncestor_ok p b height :
  index m p = Some b ->
  GetAncestor m p height =
    Some (if (height <? 0) || (nHeight b <? height) then None else chain m p !! Z.to_nat (nHeight b - height)).
Proof.
  intros E. unfold GetAncestor. rewrite E. cbn [mbind option_bind]. rewrite orb_comm.
  destruct (Z.ltb_spec height 0); [done|]. destruct (Z.ltb_spec (nHeight b) height); [done|]. cbn [orb].
  rewrite (walk_ok _ p b) by (done || lia). by destruct (chain_lookup p b (nHeight b - height) E ltac:(lia)) as [q ->].
Qed.
End Wf.

(** ** Adding an entry *)

Lemma index_old m e p : (p < length m)%nat -> index (m ++ [e]) p = index m p.
Proof. intros H. unfold index. by rewrite lookup_app_l. Qed.

Lemma index_new m e : index (m ++ [e]) (length m) = Some (snd e).
Proof. unfold index. by rewrite lookup_app_r, Nat.sub_diag by lia. Qed.

Lemma index_lt m p b : index m p = Some b -> (p < length m)%nat.
Proof. unfold index. intros H. destruct (m !! p) eqn:E; [|done]. by apply lookup_lt_Some in E. Qed.

Lemma chain_old act m e p : wf act m -> (p < length m)%nat -> chain (m ++ [e]) p = chain m p.
Proof.
  intros Hm. unfold chain. generalize (S p) as f. intros f. revert p. induction f as [|f IH]; intros p Hp; [done|].
  cbn [path]. rewrite index_old by done. destruct (index m p) as [b|] eqn:E; [|done]. f_equal.
  destruct (pprev b) as [r|] eqn:Er; [|done]. destruct (parent_ok act m Hm p b r E Er) as [Hr _]. apply IH. lia.
Qed.

Lemma entry_ok_old act m e p b : wf act m -> index m p = Some b -> entry_ok act m p b -> entry_ok act (m ++ [e]) p b.
Proof.
  intros Hm E. unfold entry_ok. destruct (pprev b) as [r|]; [|done]. intros (Hr & br & Ebr & H). split; [done|].
  pose proof (index_lt _ _ _ E). exists br. rewrite index_old, (chain_old act) by (done || lia). done.
Qed.

Lemma wf_snoc act m h b : wf act m -> entry_ok act (m ++ [(h, b)]) (length m) b -> wf act (m ++ [(h, b)]).
Proof.
  intros Hm Hb p c E. destruct (decide (p = length m)) as [->|Hp].
  - rewrite index_new in E. by injection E as <-.
  - assert (p < length m)%nat as Hlt by (pose proof (index_lt _ _ _ E) as H; rewrite length_app in H; cbn in H; lia).
    rewrite index_old in E by done. by apply entry_ok_old; [done..|apply Hm].
Qed.

Lemma find_hash_index h m p : find_hash h m = Some p -> is_Some (index m p).
Proof.
  revert p. induction m as [|[k b] m IH]; intros p; cbn [find_hash]; [done|]. case_bool_decide; [by intros [= <-]; eexists|].
  destruct (find_hash h m) as [q|]; [|done]. intros [= <-]. by apply IH.
Qed.

(** Adding a header never fails and keeps the table well formed. *)
Lemma add_wf act m block best :
  wf act m -> exists m' p best', AddToBlockIndex act m block best = Some (m', p, best') /\ wf act m'.
Proof.
  intros Hm. unfold AddToBlockIndex. destruct (find_hash (GetHash block) m) as [p|]; [by eauto|].
  destruct (find_hash (hashPrevBlock block) m) as [r|] eqn:Er; cbn [mbind option_bind].
  - destruct (find_hash_index _ _ _ Er) as [br Ebr]. rewrite Ebr. pose proof (height_nonneg act m Hm r br Ebr) as Hh.
    pose proof (skip_range (nHeight br + 1) ltac:(lia)) as Hs. pose proof (index_lt _ _ _ Ebr) as Hlt.
    rewrite (GetAncestor_ok act m Hm r br _ Ebr). cbn [mbind option_bind]. zbool.
    do 3 eexists. split; [reflexivity|]. apply wf_snoc; [done|]. unfold entry_ok. cbn [pprev].
    split; [done|]. exists br. rewrite index_old, (chain_old act) by done. done.
  - do 3 eexists. split; [reflexivity|]. apply wf_snoc; [done|]. done.
Qed.

Lemma built_wf act m best : built act m best -> wf act m.
Proof.
  induction 1 as [|m block best m' p best' _ IH _ E|]; [done| |done].
  destruct (add_wf act m block best IH) as (m1 & p1 & b1 & E1 & Hw). rewrite E1 in E. by injection E as <- _ _.
Qed.

(** ** What the cumulative fields say *)

(** The second-algorithm blocks from the activation height on. *)
Definition counted (act : Z) (b : CBlockIndex) : bool := (act <=? nHeight b) && second_algo (i_nVersion b).

Definition second_count (act : Z) (m : block_map) (p : nat) : Z :=
  Z.of_nat (length (List.filter (counted act) (entries_of m p))).

Section Fields.
Context (act : Z) (m : block_map).
Hypothesis m_wf : wf act m.

Lemma entries_step p b : index m p = Some b ->
  entries_of m p = b :: match pprev b with Some r => entries_of m r | None => [] end.
Proof.
  intros E. unfold entries_of. rewrite (chain_step act m m_wf p b E). cbn [omap list_omap]. rewrite E. by destruct (pprev b).
Qed.

Lemma entries_below p b : index m p = Some b -> Forall (fun c => nHeight c <= nHeight b) (entries_of m p).
Proof.
  apply (chain_ind act m m_wf (fun p b => Forall (fun c => nHeight c <= nHeight b) (entries_of m p))).
  - intros q c E Er Hh. rewrite (entries_step q c E), Er. by repeat constructor.
  - intros q c r br E Er Ebr Hh IH. rewrite (entries_step q c E), Er. constructor; [done|].
    revert IH. apply List.Forall_impl. lia.
Qed.

Lemma second_before p b : index m p = Some b -> nHeight b < act -> second_count act m p = 0.
Proof.
  intros E Hb. unfold second_count. pose proof (entries_below p b E) as H. induction H as [|c l Hc _ IH]; [done|].
  cbn [List.filter]. unfold counted at 1. rewrite (proj2 (Z.leb_gt act _)) by lia. done.
Qed.

Lemma second_count_ok p b : index m p = Some b -> nSecondAlgoCount b = second_count act m p.
Proof.
  intros E. revert p b E. apply (chain_ind act m m_wf (fun p b => nSecondAlgoCount b = second_count act m p)).
  - intros q c E Er Hh. pose proof (m_wf q c E) as H. unfold entry_ok in H. rewrite Er in H. destruct H as (_ & _ & _ & _ & ->).
    unfold second_count, ComputeSecondAlgoCount. rewrite (entries_step q c E), Er. cbn [List.filter]. unfold counted. rewrite Hh.
    destruct (Z.ltb_spec 0 act); [by rewrite (proj2 (Z.leb_gt act 0)) by lia|]. rewrite (proj2 (Z.leb_le act 0)) by lia.
    by destruct (second_algo _).
  - intros q c r br E Er Ebr Hh IH. pose proof (m_wf q c E) as H. unfold entry_ok in H. rewrite Er in H.
    destruct H as (_ & br' & Ebr' & _ & _ & _ & _ & ->). rewrite Ebr in Ebr'. injection Ebr' as <-. rewrite IH.
    unfold ComputeSecondAlgoCount. destruct (Z.ltb_spec (nHeight c) act) as [Hlt|Hge]; [by rewrite (second_before q c)|].
    unfold second_count. rewrite (entries_step q c E), Er. cbn [List.filter].
    change (counted act c) with ((act <=? nHeight c) && second_algo (i_nVersion c)). rewrite (proj2 (Z.leb_le act _)) by lia.
    rewrite (proj2 (Z.ltb_ge _ 0)) by lia. destruct (second_algo _); cbn [andb length]; lia.
Qed.

Definition times (l : list CBlockIndex) : Z := foldr (fun b t => Z.max t (i_nTime b)) 0 l.
Definition work (l : list CBlockIndex) : Z := foldr (fun b w => w + GetBlockProof (i_nBits b)) 0 l.

Lemma time_max_ok p b : Forall (fun c => 0 <= i_nTime (snd c)) m -> index m p = Some b -> nTimeMax b = times (entries_of m p).
Proof.
  intros Ht. assert (forall p b, index m p = Some b -> 0 <= i_nTime b) as Hnn.
  { intros q c E. unfold index in E. destruct (m !! q) as [x|] eqn:Ex; [|done]. injection E as <-. by apply (Forall_lookup_1 _ _ _ _ Ht Ex). }
  revert p b. apply (chain_ind act m m_wf (fun p b => nTimeMax b = times (entries_of m p))).
  - intros q c E Er Hh. pose proof (m_wf q c E) as H. unfold entry_ok in H. rewrite Er in H. destruct H as (_ & _ & -> & _).
    rewrite (entries_step q c E), Er. cbn. pose proof (Hnn q c E). lia.
  - intros q c r br E Er Ebr Hh IH. pose proof (m_wf q c E) as H. unfold entry_ok in H. rewrite Er in H.
    destruct H as (_ & br' & Ebr' & _ & _ & -> & _). rewrite Ebr in Ebr'. injection Ebr' as <-.
    rewrite (entries_step q c E), Er, IH. done.
Qed.

Lemma chain_work_ok p b : index m p = Some b -> nChainWork b = wrap256 (work (entries_of m p)).
Proof.
  revert p b. apply (chain_ind act m m_wf (fun p b => nChainWork b = wrap256 (work (entries_of m p)))).
  - intros q c E Er Hh. pose proof (m_wf q c E) as H. unfold entry_ok in H. rewrite Er in H. destruct H as (_ & _ & _ & -> & _).
    by rewrite (entries_step q c E), Er.
  - intros q c r br E Er Ebr Hh IH. pose proof (m_wf q c E) as H. unfold entry_ok in H. rewrite Er in H.
    destruct H as (_ & br' & Ebr' & _ & _ & _ & -> & _). rewrite Ebr in Ebr'. injection Ebr' as <-.
    rewrite (entries_step q c E), Er, IH. cbn [work foldr]. unfold wrap256. by rewrite Zplus_mod_idemp_l.
Qed.
End Fields.

(** ** The best header and the entries of a table the node built *)

Lemma add_cases act m block best m' p best' :
  AddToBlockIndex act m block best = Some (m', p, best') ->
  (is_Some (find_hash (GetHash block) m) /\ m' = m /\ best' = best) \/
  exists e, m' = m ++ [(GetHash block, e)] /\ p = length m /\ i_nTime e = nTime block /\ i_nBits e = nBits block /\
    best' = match best with
            | None => Some (length m)
            | Some h => match index m h with
                        | Some b => if nChainWork b <? nChainWork e then Some (length m) else Some h
                        | None => Some h
                        end
            end.
Proof.
  unfold AddToBlockIndex. destruct (find_hash (GetHash block) m); [intros [= <- _ <-]; left; by eauto|].
  destruct (match find_hash (hashPrevBlock block) m with Some _ => _ | None => _ end) as [s|]; [|done]. cbn [mbind option_bind].
  intros E. injection E as <- <- <-. right. eexists. split; [reflexivity|]. split; [done|]. split; [done|]. split; done.
Qed.

Lemma index_snoc m e p b : index (m ++ [e]) p = Some b -> index m p = Some b \/ b = snd e.
Proof.
  intros E. destruct (decide (p = length m)) as [->|Hp].
  - rewrite index_new in E. injection E as <-. by right.
  - pose proof (index_lt _ _ _ E) as H. rewrite length_app in H. cbn [length] in H. rewrite index_old in E by lia. by left.
Qed.

Lemma built_fields act m best : built act m best -> forall p b, index m p = Some b -> is_u32 (i_nTime b) /\ is_u32 (i_nBits b).
Proof.
  induction 1 as [|m block best m' p best' _ IH Hok E|]; [done| |done].
  destruct (add_cases _ _ _ _ _ _ _ E) as [(_ & -> & _)|(e & -> & _ & Ht & Hb & _)]; [done|].
  intros q c Ec. destruct (index_snoc _ _ _ _ Ec) as [Hc| ->]; [by eapply IH|]. cbn [snd]. rewrite Ht, Hb.
  destruct Hok as (_ & _ & _ & H1 & H2 & _). done.
Qed.

(** The best header is an entry. *)
Lemma built_best act m best : built act m best -> forall h, best = Some h -> is_Some (index m h).
Proof.
  induction 1 as [|m block best m' p best' _ IH _ E|]; [done| |done].
  destruct (add_cases _ _ _ _ _ _ _ E) as [(_ & -> & ->)|(e & -> & _ & _ & _ & ->)]; [done|]. destruct best as [h|].
  - destruct (IH h eq_refl) as [bh Eh]. rewrite Eh. destruct (_ <? _); intros ? [= <-]; [by rewrite index_new|].
    by rewrite index_old by (by apply index_lt in Eh).
  - intros ? [= <-]. by rewrite index_new.
Qed.

(** No entry has more work than the best header. *)
Definition heaviest (m : block_map) (best : option nat) : Prop :=
  match best with
  | None => m = []
  | Some h => exists bh, index m h = Some bh /\ forall p b, index m p = Some b -> nChainWork b <= nChainWork bh
  end.

Lemma add_heaviest act m block best m' p best' :
  AddToBlockIndex act m block best = Some (m', p, best') -> heaviest m best -> heaviest m' best'.
Proof.
  intros E IH. destruct (add_cases _ _ _ _ _ _ _ E) as [(_ & -> & ->)|(e & -> & _ & _ & _ & ->)]; [done|]. destruct best as [h|].
  - destruct IH as (bh & Eh & Hmax). rewrite Eh. destruct (Z.ltb_spec (nChainWork bh) (nChainWork e)) as [Hlt|Hge].
    + exists e. split; [apply index_new|]. intros q c Ec. destruct (index_snoc _ _ _ _ Ec) as [Hc| ->]; [|done].
      pose proof (Hmax q c Hc). lia.
    + exists bh. split; [by rewrite index_old by (by apply index_lt in Eh)|]. intros q c Ec.
      destruct (index_snoc _ _ _ _ Ec) as [Hc| ->]; [by eapply Hmax|done].
  - cbn in IH. subst m. exists e. split; [done|]. intros q c Ec. destruct (index_snoc [] _ _ _ Ec) as [Hc| ->]; done.
Qed.

(** A new entry replaces the best header only if it has more work. *)
Lemma add_best act m block best m' p best' :
  built act m best -> find_hash (GetHash block) m = None -> AddToBlockIndex act m block best = Some (m', p, best') ->
  exists h bh, best' = Some h /\ index m' h = Some bh /\
    forall q c, best = Some q \/ q = p -> index m' q = Some c -> nChainWork c <= nChainWork bh.
Proof.
  intros Hm Hn E. pose proof (built_best _ _ _ Hm) as Hb.
  destruct (add_cases _ _ _ _ _ _ _ E) as [([x H] & _)|(e & -> & -> & _ & _ & ->)]; [congruence|]. destruct best as [h|].
  - destruct (Hb h eq_refl) as [bh Eh]. rewrite Eh. pose proof (index_lt _ _ _ Eh) as Hlt.
    destruct (Z.ltb_spec (nChainWork bh) (nChainWork e)).
    + exists (length m), e. split; [done|]. split; [apply index_new|]. intros q c [[= <-]| ->].
      * rewrite index_old, Eh by done. intros [= <-]. lia.
      * rewrite index_new. intros [= <-]. done.
    + exists h, bh. split; [done|]. split; [by rewrite index_old|]. intros q c [[= <-]| ->].
      * rewrite index_old, Eh by done. intros [= <-]. done.
      * rewrite index_new. intros [= <-]. done.
  - exists (length m), e. split; [done|]. split; [apply index_new|]. intros q c [?| ->]; [done|]. rewrite index_new. by intros [= <-].
Qed.

(** The work of a block is 2^256 / (target + 1), computed in 256 bits. *)
Lemma GetBlockProof_exact bits :
  0 <= bits ->
  let c := SetCompact bits in
  c_negative c = false -> c_overflow c = false -> c_target c <> 0 -> GetBlockProof bits = 2 ^ 256 / (c_target c + 1).
Proof.
  intros Hb c Hn Ho Hz. unfold GetBlockProof. fold c. rewrite Hn, Ho, (proj2 (Z.eqb_neq _ 0) Hz). cbn [orb].
  pose proof (SetCompact_below bits Hb) as Hr. fold c in Hr. set (t := c_target c) in *. unfold wrap256.
  rewrite (Z.mod_small (t + 1)) by lia. replace (2 ^ 256 - 1 - t) with (2 ^ 256 + -1 * (t + 1)) by lia.
  rewrite Z.div_add by lia. replace (2 ^ 256 / (t + 1) + -1 + 1) with (2 ^ 256 / (t + 1)) by lia.
  apply Z.mod_small. split; [apply Z.div_pos; lia|]. apply Z.div_lt_upper_bound; [lia|]. nia.
Qed.

(** ** Main results *)

(** C17. Ancestors.  In every table the node builds, [GetAncestor] returns: the
    walk over skip pointers and parents takes at most one step per height and
    ends, for a height between 0 and the entry's own, at the member of the
    entry's [pprev] chain with that height; outside that range it gives the null
    pointer.  The loop's bound is not part of the result: more steps change
    nothing. *)
Theorem get_ancestor act m best p b height fuel :
  built act m best -> index m p = Some b ->
  GetAncestor m p height =
    Some (if (height <? 0) || (nHeight b <? height) then None else chain m p !! Z.to_nat (nHeight b - height)) /\
  (0 <= height <= nHeight b -> (Z.to_nat (nHeight b - height) <= fuel)%nat ->
     exists q c, walk fuel m p (nHeight b) height = Some q /\ index m q = Some c /\ nHeight c = height /\
                 chain m q `suffix_of` chain m p).
Proof.
  intros Hm E. apply built_wf in Hm. split; [by apply (GetAncestor_ok act)|]. intros Hh Hf.
  rewrite (walk_ok act m Hm fuel p b height E Hh Hf). destruct (chain_lookup act m Hm p b (nHeight b - height) E ltac:(lia)) as [q Eq].
  destruct (chain_suffix act m Hm p b E _ q Eq) as (Hc & c & Ec & Hhc). exists q, c. split; [done|]. split; [done|]. split; [lia|].
  rewrite Hc. eexists. symmetry. apply take_drop.
Qed.

(** C25. Cumulative fields.  In every table the node builds, each entry's
    second-algorithm count is the number of such blocks on its chain from the
    activation height on, its latest time is the maximum over the chain, its
    chain work is the sum of 2^256 / (target + 1) over the chain modulo 2^256.
    The best header is an entry of the table.  Adding a new header leaves a best
    header with no less work than the one before and the new entry, and if no
    entry had more work than the best header before, none does afterwards; the
    rest of the node can move the best header back to the active tip. *)
Theorem cumulative_fields act m best p b :
  built act m best -> index m p = Some b ->
  nSecondAlgoCount b = second_count act m p /\
  nTimeMax b = times (entries_of m p) /\
  nChainWork b = wrap256 (work (entries_of m p)) /\
  (forall h, best = Some h -> is_Some (index m h)) /\
  (forall block m' q best', AddToBlockIndex act m block best = Some (m', q, best') ->
     (heaviest m best -> heaviest m' best') /\
     (find_hash (GetHash block) m = None ->
      exists h bh, best' = Some h /\ index m' h = Some bh /\
        forall r c, best = Some r \/ r = q -> index m' r = Some c -> nChainWork c <= nChainWork bh)).
Proof.
  intros Hm E. pose proof (built_wf _ _ _ Hm) as Hw. split; [by apply second_count_ok|]. split; [|split_and!; [by apply (chain_work_ok act)|by apply (built_best act)|]].
  - apply (time_max_ok act); [done| |done]. apply Forall_lookup. intros i x Ex.
    destruct (built_fields _ _ _ Hm i (snd x)) as [Ht _]; [unfold index; by rewrite Ex|]. apply Ht.
  - intros block m' q best' Ea. split; [by eapply add_heaviest|]. intros Hn. by eapply add_best.
Qed.

(** ** Concrete tables *)

Definition ex_genesis : CBlockHeader := Header 1 null256 null256 1 (GetCompact (powLimit rcpu_main)) 0 null256.
Definition ex_child : CBlockHeader := Header 0x60000000 (GetHash ex_genesis) null256 9 (GetCompact (powLimit rcpu_main)) 0 null256.

Definition ex_work : Z := Eval vm_compute in GetBlockProof (nBits ex_genesis).

Definition ex_root : CBlockIndex := MkIndex None None 0 1 1 (nBits ex_genesis) 1 ex_work 0.
Definition ex_tip : CBlockIndex := MkIndex (Some 0%nat) (Some 0%nat) 1 0x60000000 9 (nBits ex_genesis) 9 (2 * ex_work) 1.
Definition ex_table : block_map := [(GetHash ex_genesis, ex_root); (GetHash ex_child, ex_tip)].

Lemma ex_hashes_differ : bool_decide (GetHash ex_genesis = GetHash ex_child) = false.
Proof. vm_compute. reflexivity. Qed.

Lemma ex_add_genesis : AddToBlockIndex 1 [] ex_genesis None = Some ([(GetHash ex_genesis, ex_root)], 0%nat, Some 0%nat).
Proof. unfold AddToBlockIndex. cbn [find_hash mbind option_bind]. done. Qed.

Lemma ex_add_child :
  AddToBlockIndex 1 [(GetHash ex_genesis, ex_root)] ex_child (Some 0%nat) = Some (ex_table, 1%nat, Some 1%nat).
Proof.
  unfold AddToBlockIndex. cbn [find_hash]. rewrite ex_hashes_differ. change (hashPrevBlock ex_child) with (GetHash ex_genesis).
  rewrite bool_decide_true by done. done.
Qed.

Lemma ex_headers_ok : header_ok ex_genesis /\ header_ok ex_child.
Proof.
  assert (is_u256 null256) as H0 by (split; [done|]; unfold null256; apply Forall_replicate; unfold is_byte; lia).
  assert (is_u32 (GetCompact (powLimit rcpu_main))) as H1 by (apply GetCompact_u32; by vm_compute).
  assert (is_u256 (GetHash ex_genesis)) as H2 by (split; [apply length_sha256|apply sha256_byte]).
  assert (forall n, (0 <=? n) && (n <? 2 ^ 32) = true -> is_u32 n) as H3 by (intros; unfold is_u32; lia).
  split; (split; [cbn [nVersion ex_genesis ex_child]; lia|]).
  - exact (conj H0 (conj H0 (conj (H3 1 eq_refl) (conj H1 (conj (H3 0 eq_refl) H0))))).
  - exact (conj H2 (conj H0 (conj (H3 9 eq_refl) (conj H1 (conj (H3 0 eq_refl) H0))))).
Qed.

Lemma ex_built : built 1 ex_table (Some 1%nat).
Proof.
  destruct ex_headers_ok as [H0 H1]. eapply built_add; [|exact H1|exact ex_add_child].
  eapply built_add; [apply built_nil|exact H0|exact ex_add_genesis].
Qed.

Lemma get_ancestor_witness : GetAncestor ex_table 1 0 = Some (Some 0%nat) /\ GetAncestor ex_table 1 2 = Some None.
Proof.
  split.
  - exact (proj1 (get_ancestor 1 ex_table (Some 1%nat) 1 ex_tip 0 0 ex_built eq_refl)).
  - exact (proj1 (get_ancestor 1 ex_table (Some 1%nat) 1 ex_tip 2 0 ex_built eq_refl)).
Defined.

Lemma cumulative_fields_witness : second_count 1 ex_table 1 = 1 /\ work (entries_of ex_table 1) mod 2 ^ 256 = 2 * ex_work.
Proof.
  destruct (cumulative_fields 1 ex_table (Some 1%nat) 1 ex_tip ex_built eq_refl) as (H1 & _ & H2 & _).
  split; [exact (eq_sym H1)|exact (eq_sym H2)].
Defined.
