(* ===== verification/PowTarget.v ===== *)
(** * The difficulty rules of the node

    The next required target in [src/pow.cpp]: the ASERT schedule, its two
    instances after the dual-algorithm activation, the legacy retargeting, and
    the plausibility check of header presynchronisation.  [int64_t] arithmetic
    wraps in two's complement (the results show it never has to), 512-bit and
    256-bit numbers wrap at their width, a failed [assert] is [None].  Heights
    are C [int]s; results that need it assume them below 2^31 - 1. *)

From Stdlib Require Import ZArith Lia Bool.
From stdpp Require Import base list numbers option.
From S2P Require Import Prelude Bytes Sha256 Libs Consensus Compact BlockIndex.

Open Scope Z_scope.

(** ** Integers *)

Definition int64_max : Z := 2 ^ 63 - 1.
Definition int64_min : Z := - 2 ^ 63.
Definition i64 (n : Z) : Z := (n + 2 ^ 63) mod 2 ^ 64 - 2 ^ 63.
Definition u32 (n : Z) : Z := n mod 2 ^ 32.
Definition u64 (n : Z) : Z := n mod 2 ^ 64.
Definition wrap512 (n : Z) : Z := n mod 2 ^ 512.

(** ** ASERT *)

(** The cubic approximation of 2^(frac / 65536), scaled by 65536. *)
Definition asert_factor (frac : Z) : Z :=
  u32 (65536 + Z.shiftr (u64 (195766423245049 * frac + 971821376 * frac * frac +
                              5127 * frac * frac * frac + 2 ^ 47)) 48).

(** The distance from the schedule: [inl true] when the subtraction overflows
    upwards, [inl false] when the ideal time or the difference is too low. *)
Definition asert_delta (nPowTargetSpacing nTimeDiff nHeightDiff : Z) : bool + Z :=
  let spacing := nPowTargetSpacing in
  let h1 := i64 (nHeightDiff + 1) in
  if (0 <? spacing) && (0 <? h1) && (Z.quot int64_max h1 <? spacing) then inl false
  else
    let ideal := i64 (spacing * h1) in
    if (0 <=? nTimeDiff) && (int64_max + (if ideal <? 0 then ideal else 0) <? nTimeDiff) then inl true
    else if (nTimeDiff <? 0) && (0 <? ideal) && (nTimeDiff <? int64_min + ideal) then inl false
    else inr (i64 (nTimeDiff - ideal)).

(** The scaled target, in 512 bits. *)
Definition asert_scale (refTarget powLimit exponent : Z) : option Z :=
  let shifts := Z.shiftr exponent 16 in
  let frac := exponent mod 2 ^ 16 in
  if negb (exponent =? shifts * 65536 + frac) then None else
  let nextTarget512 := wrap512 (refTarget * asert_factor frac) in
  let shifts := shifts - 16 in
  Some (if 512 <? shifts then powLimit
        else if shifts <? -512 then 1
        else if shifts <=? 0 then Z.shiftr nextTarget512 (- shifts)
        else let shifted := wrap512 (Z.shiftl nextTarget512 shifts) in
             if negb (Z.shiftr shifted shifts =? nextTarget512) then powLimit else shifted).

Definition CalculateASERT (refTarget nPowTargetSpacing nTimeDiff nHeightDiff powLimit nHalfLife : Z) : option Z :=
  if negb ((0 <? refTarget) && (refTarget <=? powLimit)) then None else
  if nHeightDiff <? 0 then None else
  let max_mul := Z.quot int64_max 65536 in
  nextTarget512 ← (match asert_delta nPowTargetSpacing nTimeDiff nHeightDiff with
    | inl true => Some powLimit
    | inl false => Some 1
    | inr time_delta =>
        if max_mul <? time_delta then Some powLimit
        else if time_delta <? - max_mul then Some 1
        else if nHalfLife =? 0 then None
        else asert_scale refTarget powLimit (Z.quot (i64 (time_delta * 65536)) nHalfLife)
    end);
  let nextTarget512 := if powLimit <? nextTarget512 then powLimit else nextTarget512 in
  let nextTarget := wrap256 nextTarget512 in
  Some (if nextTarget =? 0 then 1 else if powLimit <? nextTarget then powLimit else nextTarget).

(** [GetNextASERTWorkRequired] with explicit anchor parameters. *)
Definition GetNextASERTWorkRequired (m : block_map) (pindexPrev : nat) (pblock : option CBlockHeader) (params : Params)
    (anchorParams : ASERTAnchor) : option Z :=
  prev ← index m pindexPrev;
  if nHeight prev <? a_nHeight anchorParams then None else
  late ← (if fPowAllowMinDifficultyBlocks params
          then b ← pblock; Some (i64 (i_nTime prev + 2 * nPowTargetSpacing params) <? nTime b)
          else Some false);
  if late : bool then Some (GetCompact (powLimit params)) else
  let refBlockTarget := c_target (SetCompact (a_nBits anchorParams)) in
  let nTimeDiff := i64 (i_nTime prev - a_nPrevBlockTime anchorParams) in
  let nHeightDiff := nHeight prev - a_nHeight anchorParams in
  nextTarget ← CalculateASERT refBlockTarget (nPowTargetSpacing params) nTimeDiff nHeightDiff
    (powLimit params) (nASERTHalfLife params);
  Some (GetCompact nextTarget).

(** The overload with an anchor block, for a chain without anchor parameters. *)
Definition GetNextASERTWorkRequired_block (m : block_map) (pindexPrev : nat) (pblock : option CBlockHeader) (params : Params)
    (pindexAnchorBlock : option nat) : option Z :=
  match asertAnchorParams params with
  | Some a => GetNextASERTWorkRequired m pindexPrev pblock params a
  | None =>
      q ← pindexAnchorBlock;
      anchor ← index m q;
      anchorTime ← (match pprev anchor with Some r => i_nTime <$> index m r | None => Some (i_nTime anchor) end);
      GetNextASERTWorkRequired m pindexPrev pblock params (MkAnchor (nHeight anchor) (i_nBits anchor) anchorTime)
  end.

(** ** Two algorithms *)

(** The walk that counts second-algorithm blocks from [act] on. *)
Fixpoint count_back (fuel : nat) (m : block_map) (p : option nat) (act nQhashCount : Z) : option Z :=
  match p with
  | None => Some nQhashCount
  | Some q =>
      match fuel with
      | O => None
      | S f =>
          b ← index m q;
          if nHeight b <? act then Some nQhashCount
          else count_back f m (pprev b) act (if second_algo (i_nVersion b) then nQhashCount + 1 else nQhashCount)
      end
  end.

(** The anchor target: twice the difficulty of the last block before activation. *)
Definition dual_anchor_target (nBits powLimit : Z) : Z :=
  let refTarget := Z.shiftr (c_target (SetCompact nBits)) 1 in
  let refTarget := if refTarget =? 0 then 1 else refTarget in
  if powLimit <? refTarget then powLimit else refTarget.

Definition GetDualAlgoWorkRequired (m : block_map) (pindexLast : nat) (pblock : option CBlockHeader) (params : Params)
    (fQhash : bool) : option Z :=
  last ← index m pindexLast;
  let nActHeight := nDualAlgoActivationHeight params in
  if nActHeight <=? 0 then None else
  anc ← GetAncestor m pindexLast (nActHeight - 1);
  match anc with
  | None => Some (GetCompact (powLimit params))
  | Some q =>
      anchor ← index m q;
      let refTarget := dual_anchor_target (i_nBits anchor) (powLimit params) in
      if fPowNoRetargeting params then Some (GetCompact refTarget) else
      if fPowAllowMinDifficultyBlocks params &&
         match pblock with Some b => i64 (i_nTime last + 2 * nPowTargetSpacing params) <? nTime b | None => false end
      then Some (GetCompact (powLimit params)) else
      nQhashCount ← (if nSecondAlgoCount last <? 0 then count_back (S pindexLast) m (Some pindexLast) nActHeight 0
                     else Some (nSecondAlgoCount last));
      let nTotal := nHeight last - (nActHeight - 1) in
      let nHeightDiff := if fQhash then nQhashCount else i64 (nTotal - nQhashCount) in
      let nTimeDiff := i64 (i_nTime last - i_nTime anchor) in
      nextTarget ← CalculateASERT refTarget (nDualAlgoTargetSpacing params) nTimeDiff nHeightDiff
        (powLimit params) (nASERTHalfLife params);
      Some (GetCompact nextTarget)
  end.

(** ** Legacy retargeting *)

Definition DifficultyAdjustmentInterval (params : Params) : Z :=
  Z.quot (nPowTargetTimespan params) (nPowTargetSpacing params).

(** [base_uint::operator*=(uint32_t)] converts its argument; the division
    converts to [uint64_t] and throws on zero. *)
Definition mul512 (a b : Z) : Z := wrap512 (a * u32 b).
Definition div_u (a b : Z) : option Z := if u64 b =? 0 then None else Some (a / u64 b).

Definition CalculateNextWorkRequired (last : CBlockIndex) (nFirstBlockTime : Z) (params : Params) : option Z :=
  if fPowNoRetargeting params then Some (i_nBits last) else
  let span := nPowTargetTimespan params in
  let nActualTimespan := i64 (i_nTime last - nFirstBlockTime) in
  let nActualTimespan := if nActualTimespan <? Z.quot span 4 then Z.quot span 4 else nActualTimespan in
  let nActualTimespan := if i64 (span * 4) <? nActualTimespan then i64 (span * 4) else nActualTimespan in
  let bnPowLimit := powLimit params in
  let bnNew := c_target (SetCompact (i_nBits last)) in
  bnNew512 ← div_u (mul512 bnNew nActualTimespan) span;
  let bnNew := if bnPowLimit <? bnNew512 then bnPowLimit else wrap256 bnNew512 in
  Some (GetCompact bnNew).

(** The last block that was not mined under the minimum-difficulty rule. *)
Fixpoint last_regular (fuel : nat) (m : block_map) (q : nat) (interval nProofOfWorkLimit : Z) : option Z :=
  b ← index m q;
  match pprev b with
  | Some r =>
      if negb (Z.rem (nHeight b) interval =? 0) && (i_nBits b =? nProofOfWorkLimit) then
        match fuel with O => None | S f => last_regular f m r interval nProofOfWorkLimit end
      else Some (i_nBits b)
  | None => Some (i_nBits b)
  end.

Definition GetNextWorkRequired (g_isRandomX : bool) (m : block_map) (pindexLast : nat) (pblock : option CBlockHeader)
    (params : Params) : option Z :=
  last ← index m pindexLast;
  if nDualAlgoActivationHeight params <=? nHeight last + 1 then
    let fQhash := match pblock with Some b => second_algo (nVersion b) | None => false end in
    GetDualAlgoWorkRequired m pindexLast pblock params fQhash
  else
  let nProofOfWorkLimit := GetCompact (powLimit params) in
  let legacy :=
    let interval := DifficultyAdjustmentInterval params in
    if interval =? 0 then None
    else if negb (Z.rem (nHeight last + 1) interval =? 0) then
      if fPowAllowMinDifficultyBlocks params then
        b ← pblock;
        if i64 (i_nTime last + nPowTargetSpacing params * 2) <? nTime b then Some nProofOfWorkLimit
        else last_regular pindexLast m pindexLast interval nProofOfWorkLimit
      else Some (i_nBits last)
    else
      let nHeightFirst := if g_isRandomX then Z.max 0 (nHeight last - interval) else nHeight last - (interval - 1) in
      if nHeightFirst <? 0 then None else
      anc ← GetAncestor m pindexLast nHeightFirst;
      q ← anc;
      first ← index m q;
      CalculateNextWorkRequired last (i_nTime first) params in
  match asertAnchorParams params with
  | Some a =>
      if nASERTActivationHeight params <=? nHeight last + 1 then
        GetNextASERTWorkRequired m pindexLast pblock params a
      else legacy
  | None => legacy
  end.

Definition PermittedDifficultyTransition (params : Params) (height old_nbits new_nbits : Z) : option bool :=
  if fPowAllowMinDifficultyBlocks params then Some true else
  if match asertAnchorParams params with Some _ => nASERTActivationHeight params <=? height | None => false end
  then Some true else
  let interval := DifficultyAdjustmentInterval params in
  if interval =? 0 then None else
  if Z.rem height interval =? 0 then
    let span := nPowTargetTimespan params in
    let smallest_timespan := Z.quot span 4 in
    let largest_timespan := i64 (span * 4) in
    let pow_limit := powLimit params in
    let observed_new_target := c_target (SetCompact new_nbits) in
    let old_target := c_target (SetCompact old_nbits) in
    tmp ← div_u (mul512 old_target largest_timespan) span;
    let largest_difficulty_target := if pow_limit <? tmp then pow_limit else wrap256 tmp in
    let maximum_new_target := c_target (SetCompact (GetCompact largest_difficulty_target)) in
    if maximum_new_target <? observed_new_target then Some false else
    smallest_difficulty_target ← div_u (wrap256 (old_target * u32 smallest_timespan)) span;
    let smallest_difficulty_target :=
      if pow_limit <? smallest_difficulty_target then pow_limit else smallest_difficulty_target in
    let minimum_new_target := c_target (SetCompact (GetCompact smallest_difficulty_target)) in
    Some (negb (observed_new_target <? minimum_new_target))
  else Some (old_nbits =? new_nbits).
