(* ===== verification/PowTargetFacts.v ===== *)
(** * What the difficulty rules compute

    [CalculateASERT] against the formula it implements, over unbounded integers:
    no intermediate result overflows, and the clamps and overflow tests only
    decide targets that the formula puts beyond the limits as well.  On that
    basis: the schedule each algorithm follows, the validity of every required
    target, and what the presynchronisation check admits. *)

From Stdlib Require Import ZArith Lia Bool.
From stdpp Require Import base list numbers option.
From S2P Require Import Prelude Bytes Sha256 Libs Consensus Compact BlockIndex PowTarget.

Open Scope Z_scope.

(** ** Integers *)

Lemma i64_id n : - 2 ^ 63 <= n < 2 ^ 63 -> i64 n = n.
Proof. intros H. unfold i64. rewrite Z.mod_small by lia. lia. Qed.

Lemma i64_range n : - 2 ^ 63 <= i64 n < 2 ^ 63.
Proof. unfold i64. pose proof (Z.mod_pos_bound (n + 2 ^ 63) (2 ^ 64)). lia. Qed.

Lemma wrap512_id n : 0 <= n < 2 ^ 512 -> wrap512 n = n.
Proof. apply Z.mod_small. Qed.

Lemma wrap256_id n : 0 <= n < 2 ^ 256 -> wrap256 n = n.
Proof. apply Z.mod_small. Qed.

(** ** The formula *)

(** [x * 2 ^ s], rounded down. *)
Definition scale2 (x s : Z) : Z := if s <=? 0 then x / 2 ^ (- s) else x * 2 ^ s.

(** 65536 times the cubic that approximates the power of two of [f / 65536], its
    fraction rounded to nearest. *)
Definition factor_sum (f : Z) : Z := 195766423245049 * f + 971821376 * f * f + 5127 * f * f * f + 2 ^ 47.

Definition power_cubic (f : Z) : Z := 65536 + factor_sum f / 2 ^ 48.

(** The target an exponent (a multiple of 1 / 65536) gives. *)
Definition asert_value (refTarget e : Z) : Z := scale2 (refTarget * power_cubic (e mod 65536)) (e / 65536 - 16).

Definition asert_exponent (spacing time_diff height_diff half_life : Z) : Z :=
  Z.quot ((time_diff - spacing * (height_diff + 1)) * 65536) half_life.

Definition clamp (limit t : Z) : Z := Z.max 1 (Z.min limit t).

Definition asert_reference (refTarget spacing time_diff height_diff limit half_life : Z) : Z :=
  clamp limit (asert_value refTarget (asert_exponent spacing time_diff height_diff half_life)).

(** ** The factor *)

Lemma factor_sum_range f : 0 <= f < 65536 -> 0 <= factor_sum f < 2 ^ 64.
Proof.
  intros Hf. unfold factor_sum. assert (f * f <= 65535 * 65535) by nia. assert (0 <= f * f * f <= 65535 * 65535 * 65535) by nia. nia.
Qed.

Lemma power_cubic_range f : 0 <= f < 65536 -> 65536 <= power_cubic f < 131072.
Proof.
  intros Hf. pose proof (factor_sum_range f Hf). unfold power_cubic.
  assert (0 <= factor_sum f / 2 ^ 48 < 65536) by (split; [apply Z.div_pos|apply Z.div_lt_upper_bound]; lia). lia.
Qed.

(** The 64-bit sum does not wrap, nor does the cast to 32 bits lose a digit. *)
Lemma asert_factor_eq f : 0 <= f < 65536 -> asert_factor f = power_cubic f.
Proof.
  intros Hf. pose proof (factor_sum_range f Hf). pose proof (power_cubic_range f Hf). unfold asert_factor, u32, u64. fold (factor_sum f).
  rewrite (Z.mod_small (factor_sum f)), Z.shiftr_div_pow2 by lia. apply Z.mod_small. fold (power_cubic f). lia.
Qed.

Lemma power_cubic_mono f g : 0 <= f <= g -> g < 65536 -> power_cubic f <= power_cubic g.
Proof.
  intros Hf Hg. apply Z.add_le_mono_l, Z.div_le_mono; [lia|]. unfold factor_sum.
  assert (f * f <= g * g) by nia. assert (f * f * f <= g * g * g) by nia. lia.
Qed.

(** ** Scaling *)

Lemma scale2_mono x y s : 0 <= x <= y -> scale2 x s <= scale2 y s.
Proof.
  intros H. unfold scale2. destruct (Z.leb_spec s 0).
  - apply Z.div_le_mono; [apply Z.pow_pos_nonneg; lia|lia].
  - assert (0 < 2 ^ s) by (apply Z.pow_pos_nonneg; lia). nia.
Qed.

Lemma scale2_step x s : 0 <= x -> scale2 (2 * x) s = scale2 x (s + 1).
Proof.
  intros H. unfold scale2. destruct (Z.leb_spec s 0), (Z.leb_spec (s + 1) 0); try lia.
  - replace (- s) with (1 + - (s + 1)) by lia. rewrite Z.pow_add_r by lia. change (2 ^ 1) with 2.
    rewrite Z.div_mul_cancel_l; [done|apply Z.pow_nonzero; lia|lia].
  - replace s with 0 by lia. cbn. rewrite Z.div_1_r. lia.
  - rewrite Z.pow_add_r by lia. lia.
Qed.

Lemma scale2_nonneg x s : 0 <= x -> 0 <= scale2 x s.
Proof.
  intros H. unfold scale2. destruct (Z.leb_spec s 0).
  - apply Z.div_pos; [done|apply Z.pow_pos_nonneg; lia].
  - assert (0 < 2 ^ s) by (apply Z.pow_pos_nonneg; lia). nia.
Qed.

Lemma scale2_shift_mono x s t : 0 <= x -> s <= t -> scale2 x s <= scale2 x t.
Proof.
  intros Hx Hst. replace t with (s + Z.of_nat (Z.to_nat (t - s))) by lia. generalize (Z.to_nat (t - s)) as n. intros n.
  induction n as [|n IH]; [rewrite Z.add_0_r; lia|]. replace (s + Z.of_nat (S n)) with (s + Z.of_nat n + 1) by lia.
  rewrite <- scale2_step by done. etransitivity; [apply IH|]. apply scale2_mono. lia.
Qed.

(** A later time never gives a lower target. *)
Lemma asert_value_mono r e e' : 0 <= r -> e <= e' -> asert_value r e <= asert_value r e'.
Proof.
  intros Hr He. unfold asert_value. pose proof (Z.mod_pos_bound e 65536 ltac:(lia)) as H1.
  pose proof (Z.mod_pos_bound e' 65536 ltac:(lia)) as H2. pose proof (Z.div_le_mono e e' 65536 ltac:(lia) He) as Hd.
  pose proof (power_cubic_range _ H1) as F1. pose proof (power_cubic_range _ H2) as F2.
  destruct (Z.eq_dec (e / 65536) (e' / 65536)) as [Eq|Ne].
  - rewrite Eq. apply scale2_mono. split; [nia|]. apply Z.mul_le_mono_nonneg_l; [done|]. apply power_cubic_mono; [|lia].
    pose proof (Z.div_mod e 65536). pose proof (Z.div_mod e' 65536). lia.
  - etransitivity; [apply (scale2_mono _ (2 * (r * power_cubic (e' mod 65536)))); split; [nia|]|].
    + rewrite Z.mul_assoc, (Z.mul_comm 2 r), <- Z.mul_assoc. apply Z.mul_le_mono_nonneg_l; lia.
    + rewrite scale2_step by nia. apply scale2_shift_mono; [nia|lia].
Qed.

Lemma asert_value_nonneg r e : 0 <= r -> 0 <= asert_value r e.
Proof.
  intros Hr. apply scale2_nonneg. pose proof (power_cubic_range _ (Z.mod_pos_bound e 65536 ltac:(lia))). nia.
Qed.

(** ** The code computes the formula *)

(** Beyond 2^256 times the reference, or below 2^-256 of it, the clamp decides. *)
Lemma asert_value_high r e limit : 0 < r -> limit < 2 ^ 256 -> 256 * 65536 <= e -> limit < asert_value r e.
Proof.
  intros Hr Hl He. apply Z.lt_le_trans with (2 ^ 256); [done|].
  etransitivity; [|apply (asert_value_mono r (256 * 65536)); lia]. unfold asert_value.
  change ((256 * 65536) mod 65536) with 0. change (256 * 65536 / 65536 - 16) with 240.
  change (power_cubic 0) with 65536. unfold scale2.
  rewrite (proj2 (Z.leb_gt 240 0)) by lia. change (2 ^ 256) with (65536 * 2 ^ 240). lia.
Qed.

Lemma asert_value_low r e : 0 < r < 2 ^ 256 -> e < - (257 * 65536) -> asert_value r e = 0.
Proof.
  intros Hr He. assert (asert_value r e <= asert_value r (- (258 * 65536) + 65535)) as H by (apply asert_value_mono; lia).
  pose proof (asert_value_nonneg r e ltac:(lia)). enough (asert_value r (- (258 * 65536) + 65535) = 0) by lia.
  unfold asert_value. change ((- (258 * 65536) + 65535) mod 65536) with 65535. change ((- (258 * 65536) + 65535) / 65536 - 16) with (- 274).
  pose proof (power_cubic_range 65535 ltac:(lia)). unfold scale2. rewrite (proj2 (Z.leb_le (-274) 0)) by lia.
  apply Z.div_small. change (2 ^ (- -274)) with (2 ^ 256 * 2 ^ 18). nia.
Qed.

Lemma asert_scale_ok r limit e :
  0 < r <= limit -> limit < 2 ^ 256 ->
  exists v, asert_scale r limit e = Some v /\ 0 <= v /\ clamp limit v = clamp limit (asert_value r e).
Proof.
  intros Hr Hl. unfold asert_scale. change (2 ^ 16) with 65536. rewrite Z.shiftr_div_pow2 by lia. change (2 ^ 16) with 65536.
  pose proof (Z.div_mod e 65536 ltac:(lia)) as Hd. pose proof (Z.mod_pos_bound e 65536 ltac:(lia)) as Hm.
  rewrite (proj2 (Z.eqb_eq e _)) by lia. cbn [negb]. rewrite (asert_factor_eq _ Hm). pose proof (power_cubic_range _ Hm) as Hf.
  assert (0 < r * power_cubic (e mod 65536) < 2 ^ 273) as Hx by (change (2 ^ 273) with (2 ^ 256 * 131072); nia).
  assert (2 ^ 273 < 2 ^ 512) as H512 by (apply Z.pow_lt_mono_r; lia).
  rewrite wrap512_id by lia. pose proof (asert_value_nonneg r e ltac:(lia)) as Hv.
  assert (asert_value r e = scale2 (r * power_cubic (e mod 65536)) (e / 65536 - 16)) as Ev by done.
  set (x := r * power_cubic (e mod 65536)) in *. set (s := e / 65536 - 16) in *. eexists. split; [reflexivity|].
  destruct (Z.ltb_spec 512 s).
  { split; [lia|]. pose proof (asert_value_high r e limit ltac:(lia) Hl ltac:(lia)). unfold clamp. lia. }
  destruct (Z.ltb_spec s (-512)).
  { split; [lia|]. rewrite (asert_value_low r e) by lia. unfold clamp. lia. }
  destruct (Z.leb_spec s 0) as [Hs|Hs].
  { rewrite Z.shiftr_div_pow2 by lia. unfold scale2 in Ev. rewrite (proj2 (Z.leb_le s 0) Hs) in Ev. rewrite <- Ev. done. }
  rewrite Z.shiftl_mul_pow2, Z.shiftr_div_pow2 by lia. unfold scale2 in Ev. rewrite (proj2 (Z.leb_gt s 0) Hs) in Ev.
  rewrite <- Ev. assert (0 < 2 ^ s) as Hp by (apply Z.pow_pos_nonneg; lia).
  destruct (Z.lt_ge_cases (asert_value r e) (2 ^ 512)) as [Hlt|Hge].
  - rewrite wrap512_id by lia. assert (asert_value r e / 2 ^ s = x) as -> by (rewrite Ev; apply Z.div_mul; lia).
    rewrite Z.eqb_refl. done.
  - assert (wrap512 (asert_value r e) / 2 ^ s <> x) as Hne.
    { intros Hq. pose proof (Z.mod_pos_bound (asert_value r e) (2 ^ 512) ltac:(lia)) as Hb. fold (wrap512 (asert_value r e)) in Hb.
      pose proof (Z.mul_div_le (wrap512 (asert_value r e)) (2 ^ s) Hp). rewrite Hq in *. lia. }
    rewrite (proj2 (Z.eqb_neq _ _) Hne). cbn [negb]. split; [lia|]. unfold clamp.
    assert (2 ^ 256 < 2 ^ 512) by (apply Z.pow_lt_mono_r; lia). lia.
Qed.

(** What [asert_delta] says about the exact difference. *)
Lemma asert_delta_ok spacing t h :
  0 <= spacing -> 0 <= h < 2 ^ 63 - 1 -> Z.abs t <= 2 ^ 62 ->
  match asert_delta spacing t h with
  | inl true => False
  | inl false => t - spacing * (h + 1) <= - 2 ^ 62
  | inr d => d = t - spacing * (h + 1)
  end.
Proof.
  intros Hs Hh Ht. unfold asert_delta, int64_max, int64_min. rewrite (i64_id (h + 1)) by lia. cbn zeta.
  rewrite Z.quot_div_nonneg by lia.
  destruct ((0 <? spacing) && (0 <? h + 1) && ((2 ^ 63 - 1) / (h + 1) <? spacing)) eqn:E.
  - apply andb_true_iff in E as [_ E]. apply Z.ltb_lt in E.
    pose proof (Z.mul_succ_div_gt (2 ^ 63 - 1) (h + 1) ltac:(lia)).
    pose proof (Z.mul_le_mono_nonneg_l (Z.succ ((2 ^ 63 - 1) / (h + 1))) spacing (h + 1) ltac:(lia) ltac:(lia)).
    rewrite (Z.mul_comm spacing). lia.
  - assert (spacing * (h + 1) <= 2 ^ 63 - 1) as Hi.
    { destruct (Z.eq_dec spacing 0) as [->|]; [lia|].
      rewrite (proj2 (Z.ltb_lt 0 spacing)), (proj2 (Z.ltb_lt 0 (h + 1))) in E by lia. apply Z.ltb_ge in E.
      pose proof (Z.mul_div_le (2 ^ 63 - 1) (h + 1) ltac:(lia)).
      pose proof (Z.mul_le_mono_nonneg_l spacing ((2 ^ 63 - 1) / (h + 1)) (h + 1) ltac:(lia) E). lia. }
    assert (0 <= spacing * (h + 1)) by nia. set (ideal := spacing * (h + 1)) in *. rewrite (i64_id ideal) by lia.
    rewrite (proj2 (Z.ltb_ge ideal 0)) by lia. rewrite (proj2 (Z.ltb_ge (2 ^ 63 - 1 + 0) t)) by lia. rewrite andb_false_r.
    destruct ((t <? 0) && (0 <? ideal) && (t <? - 2 ^ 63 + ideal)) eqn:E'; [lia|].
    apply i64_id. lia.
Qed.

Lemma quot_low a b : 0 < b <= 2 ^ 32 -> a <= - 2 ^ 62 -> Z.quot a b <= - 2 ^ 30.
Proof.
  intros Hb Ha. rewrite <- (Z.opp_involutive a), Z.quot_opp_l by lia. rewrite Z.quot_div_nonneg by lia.
  enough (2 ^ 30 <= - a / b) by lia. apply Z.div_le_lower_bound; [lia|]. nia.
Qed.

Lemma quot_high a b : 0 < b <= 2 ^ 32 -> 2 ^ 62 <= a -> 2 ^ 30 <= Z.quot a b.
Proof.
  intros Hb Ha. rewrite Z.quot_div_nonneg by lia. apply Z.div_le_lower_bound; [lia|]. nia.
Qed.

Lemma calculate_asert r spacing t h limit hl :
  0 < r <= limit -> limit < 2 ^ 256 -> 0 <= spacing -> 0 <= h < 2 ^ 63 - 1 -> Z.abs t <= 2 ^ 62 -> 0 < hl <= 2 ^ 32 ->
  CalculateASERT r spacing t h limit hl = Some (asert_reference r spacing t h limit hl).
Proof.
  intros Hr Hl Hs Hh Ht Hhl. unfold CalculateASERT, asert_reference, asert_exponent. zbool. cbn [negb andb].
  pose proof (asert_delta_ok spacing t h Hs Hh Ht) as Hd. set (d := t - spacing * (h + 1)) in *.
  assert (forall v, 0 <= v ->
    (let next := wrap256 (if limit <? v then limit else v) in
     if next =? 0 then 1 else if limit <? next then limit else next) = clamp limit v) as Hfin.
  { intros v Hv. cbn zeta. rewrite wrap256_id by (destruct (Z.ltb_spec limit v); lia). unfold clamp.
    destruct (Z.ltb_spec limit v); [zbool; lia|]. destruct (Z.eqb_spec v 0); [lia|]. zbool. lia. }
  assert (forall v, 0 <= v -> clamp limit v = clamp limit (asert_value r (Z.quot (d * 65536) hl)) ->
    Some (let next := wrap256 (if limit <? v then limit else v) in
     if next =? 0 then 1 else if limit <? next then limit else next) =
    Some (clamp limit (asert_value r (Z.quot (d * 65536) hl)))) as Hend by (intros v Hv <-; by rewrite Hfin).
  change (Z.quot int64_max 65536) with (2 ^ 47 - 1).
  assert (d <= - 2 ^ 47 -> clamp limit 1 = clamp limit (asert_value r (Z.quot (d * 65536) hl))) as Hlow.
  { intros H. pose proof (quot_low (d * 65536) hl Hhl ltac:(lia)). rewrite asert_value_low by lia. unfold clamp. lia. }
  assert (2 ^ 47 <= d -> clamp limit limit = clamp limit (asert_value r (Z.quot (d * 65536) hl))) as Hhigh.
  { intros H. pose proof (quot_high (d * 65536) hl Hhl ltac:(lia)).
    pose proof (asert_value_high r (Z.quot (d * 65536) hl) limit ltac:(lia) Hl ltac:(lia)). unfold clamp. lia. }
  destruct (asert_delta spacing t h) as [[|]|d'] eqn:Ed; [done|apply Hend; [lia|apply Hlow; lia]|]. subst d'.
  destruct (Z.ltb_spec (2 ^ 47 - 1) d); [apply Hend; [lia|apply Hhigh; lia]|].
  destruct (Z.ltb_spec d (- (2 ^ 47 - 1))); [apply Hend; [lia|apply Hlow; lia]|].
  rewrite i64_id by lia.
  destruct (asert_scale_ok r limit (Z.quot (d * 65536) hl) Hr Hl) as (v & -> & Hv & Hc). by apply Hend.
Qed.

(** ** The schedule *)

Lemma scale2_shift x s n : 0 <= x -> 0 <= n -> scale2 (2 ^ n * x) s = scale2 x (s + n).
Proof.
  intros Hx Hn. rewrite <- (Z2Nat.id n Hn). generalize (Z.to_nat n) as k. intros k. revert s.
  induction k as [|k IH]; intros s; [rewrite Z.add_0_r; f_equal; lia|].
  rewrite Nat2Z.inj_succ, Z.pow_succ_r, <- Z.mul_assoc by lia. rewrite scale2_step, IH by (assert (0 < 2 ^ Z.of_nat k) by (apply Z.pow_pos_nonneg; lia); nia).
  f_equal. lia.
Qed.

Lemma asert_value_whole r k : 0 <= r -> asert_value r (k * 65536) = scale2 r k.
Proof.
  intros Hr. unfold asert_value. rewrite Z.mod_mul, Z.div_mul by lia. change (power_cubic 0) with (2 ^ 16).
  rewrite Z.mul_comm, scale2_shift by lia. f_equal. lia.
Qed.

Lemma clamp_mono limit a b : a <= b -> clamp limit a <= clamp limit b.
Proof. unfold clamp. lia. Qed.

Lemma clamp_range limit a : 0 < limit -> 0 < clamp limit a <= limit.
Proof. unfold clamp. lia. Qed.

Section Asert.
Context (refTarget spacing limit half_life : Z).
Hypothesis ref_ok : 0 < refTarget <= limit.
Hypothesis limit_ok : limit < 2 ^ 256.
Hypothesis spacing_ok : 0 <= spacing.
Hypothesis half_life_ok : 0 < half_life <= 2 ^ 32.

(** C5. The next target is the ASERT formula.  For every reference target up to
    the limit, every half-life up to 2^32 seconds, every height difference and
    every time difference up to 2^62 seconds either way, [CalculateASERT]
    returns, without failing an assertion, the ASERT formula over unbounded
    integers, between 1 and the limit: the reference target times the cubic
    approximation of the power of two of the exponent's fraction, shifted by its
    whole part and rounded down.  Neither the 64-bit nor the 512-bit arithmetic
    ever loses a digit that matters, and each of the overflow tests decides as
    the formula does. *)
Theorem asert_matches_reference time_diff height_diff :
  Z.abs time_diff <= 2 ^ 62 -> 0 <= height_diff < 2 ^ 63 - 1 ->
  CalculateASERT refTarget spacing time_diff height_diff limit half_life =
    Some (asert_reference refTarget spacing time_diff height_diff limit half_life) /\
  0 < asert_reference refTarget spacing time_diff height_diff limit half_life <= limit.
Proof.
  intros Ht Hh. split; [by apply calculate_asert|]. apply clamp_range. lia.
Qed.

(** The difficulty follows the schedule.  A chain exactly on schedule keeps the
    reference target; each half-life behind doubles it and each half-life ahead
    halves it, rounding down, between 1 and the limit; a later time never gives
    a lower target, and more blocks at the same time never give a higher one. *)
Theorem asert_tracks_schedule :
  (forall height_diff k, 0 <= height_diff < 2 ^ 63 - 1 -> Z.abs (spacing * (height_diff + 1) + k * half_life) <= 2 ^ 62 ->
     CalculateASERT refTarget spacing (spacing * (height_diff + 1) + k * half_life) height_diff limit half_life =
       Some (clamp limit (scale2 refTarget k))) /\
  (forall height_diff height_diff' t t' n n',
     0 <= height_diff' <= height_diff -> height_diff < 2 ^ 63 - 1 -> t <= t' -> Z.abs t <= 2 ^ 62 -> Z.abs t' <= 2 ^ 62 ->
     CalculateASERT refTarget spacing t height_diff limit half_life = Some n ->
     CalculateASERT refTarget spacing t' height_diff' limit half_life = Some n' -> n <= n').
Proof.
  split.
  - intros h k Hh Ht. rewrite calculate_asert by done. unfold asert_reference, asert_exponent. do 2 f_equal.
    replace ((spacing * (h + 1) + k * half_life - spacing * (h + 1)) * 65536) with (k * 65536 * half_life) by lia.
    rewrite Z.quot_mul by lia. apply asert_value_whole. lia.
  - intros h h' t t' n n' Hh Hh2 Htt Ht Ht'. rewrite !calculate_asert by (done || lia). intros [= <-] [= <-].
    apply clamp_mono, asert_value_mono; [lia|]. unfold asert_exponent. apply Z.quot_le_mono; [lia|].
    assert (spacing * (h' + 1) <= spacing * (h + 1)) by nia. lia.
Qed.
End Asert.

(** ** Counting the blocks of one algorithm *)

(** The blocks of one algorithm on a chain, from the activation height on. *)
Definition of_algo (act : Z) (q : bool) (b : CBlockIndex) : bool :=
  (act <=? nHeight b) && Bool.eqb (second_algo (i_nVersion b)) q.

Definition algo_count (act : Z) (q : bool) (m : block_map) (p : nat) : Z :=
  Z.of_nat (length (List.filter (of_algo act q) (entries_of m p))).

Section Counting.
Context (act : Z) (m : block_map).
Hypothesis m_wf : wf act m.

Lemma count_back_ok p b fuel n :
  index m p = Some b -> (p < fuel)%nat -> count_back fuel m (Some p) act n = Some (n + second_count act m p).
Proof.
  revert b fuel n. induction p as [p IH] using lt_wf_ind. intros b [|f] n E Hf; [lia|]. cbn [count_back]. rewrite E. cbn [mbind option_bind].
  destruct (Z.ltb_spec (nHeight b) act) as [Hlt|Hge]; [rewrite (second_before act m m_wf p b E Hlt); f_equal; lia|].
  unfold second_count. rewrite (entries_step act m m_wf p b E). cbn [List.filter].
  change (counted act b) with ((act <=? nHeight b) && second_algo (i_nVersion b)).
  rewrite (proj2 (Z.leb_le _ _) Hge). cbn [andb]. destruct (pprev b) as [r|] eqn:Er.
  - destruct (parent_ok act m m_wf p b r E Er) as (Hr & br & Ebr & _). rewrite (IH r Hr br f _ Ebr ltac:(lia)).
    fold (second_count act m r). f_equal. destruct (second_algo _); cbn [length]; unfold second_count; lia.
  - destruct f; cbn [count_back]; f_equal; destruct (second_algo _); cbn [List.filter length]; lia.
Qed.

Lemma algo_count_second p : algo_count act true m p = second_count act m p.
Proof.
  unfold algo_count, second_count. do 2 f_equal. apply List.filter_ext. intros b. unfold of_algo, counted.
  by destruct (second_algo _).
Qed.

(** Every block from the activation height on is of one of the two algorithms. *)
Lemma algo_count_total p b :
  index m p = Some b -> algo_count act true m p + algo_count act false m p = Z.max 0 (nHeight b - Z.max 0 act + 1).
Proof.
  revert p b. apply (chain_ind act m m_wf (fun p b => algo_count act true m p + algo_count act false m p = Z.max 0 (nHeight b - Z.max 0 act + 1))).
  - intros p b E Er Hh. unfold algo_count. rewrite (entries_step act m m_wf p b E), Er. cbn [List.filter]. unfold of_algo. rewrite Hh.
    destruct (Z.leb_spec act 0), (second_algo _); cbn; lia.
  - intros p b r br E Er Ebr Hh IH. unfold algo_count in *. rewrite (entries_step act m m_wf p b E), Er. cbn [List.filter].
    assert (forall q, of_algo act q b = (act <=? nHeight b) && Bool.eqb (second_algo (i_nVersion b)) q) as Ho by done.
    rewrite !Ho.
    pose proof (height_nonneg act m m_wf r br Ebr).
    destruct (Z.leb_spec act (nHeight b)), (second_algo _); cbn [andb Bool.eqb length]; lia.
Qed.

(** The entry an ancestor query gives. *)
Lemma ancestor_entry p b height :
  index m p = Some b -> 0 <= height <= nHeight b ->
  exists q a, GetAncestor m p height = Some (Some q) /\ index m q = Some a /\ nHeight a = height /\
              entries_of m p !! Z.to_nat (nHeight b - height) = Some a.
Proof.
  intros E Hh. rewrite (GetAncestor_ok act m m_wf p b height E). zbool. cbn [orb].
  destruct (chain_lookup act m m_wf p b (nHeight b - height) E ltac:(lia)) as [q Hq]. rewrite Hq.
  destruct (chain_suffix act m m_wf p b E _ q Hq) as (_ & a & Ea & Ha). exists q, a. split; [done|]. split; [done|]. split; [lia|].
  assert (forall p b, index m p = Some b -> forall i q, chain m p !! i = Some q -> entries_of m p !! i = index m q) as Hent; [|by rewrite (Hent p b E _ q Hq)].
  apply (chain_ind act m m_wf (fun p b => forall i q, chain m p !! i = Some q -> entries_of m p !! i = index m q)).
  - intros p' b' E' Er _ [|i] q'; rewrite (chain_step act m m_wf p' b' E'), (entries_step act m m_wf p' b' E'), Er; [|done].
    intros [= <-]. done.
  - intros p' b' r br E' Er Ebr _ IH [|i] q'; rewrite (chain_step act m m_wf p' b' E'), (entries_step act m m_wf p' b' E'), Er.
    + intros [= <-]. done.
    + apply IH.
Qed.
End Counting.

(** ** Required targets *)

(** What the difficulty rules need of a network's parameters. *)
Record pow_params_ok (params : Params) : Prop := {
  limit_range : 0 < powLimit params < 2 ^ 256;
  spacing_range : 0 <= nPowTargetSpacing params < 2 ^ 32;
  dual_spacing_range : 0 <= nDualAlgoTargetSpacing params;
  half_life_range : 0 < nASERTHalfLife params <= 2 ^ 32;
  activation_range : 0 < nDualAlgoActivationHeight params;
}.

Record anchor_ok (params : Params) (a : ASERTAnchor) : Prop := {
  anchor_target : 0 < c_target (SetCompact (a_nBits a)) <= powLimit params;
  anchor_height : 0 <= a_nHeight a;
  anchor_time : Z.abs (a_nPrevBlockTime a) <= 2 ^ 61;
}.

(** Half a block's target, between 1 and the limit. *)
Definition half_target (bits limit : Z) : Z := clamp limit (c_target (SetCompact bits) / 2).

Lemma dual_anchor_eq bits limit : 0 <= bits -> 0 < limit -> dual_anchor_target bits limit = half_target bits limit.
Proof.
  intros Hb Hl. unfold dual_anchor_target, half_target, clamp. pose proof (SetCompact_below bits Hb).
  rewrite Z.shiftr_div_pow2 by lia. change (2 ^ 1) with 2. pose proof (Z.div_pos (c_target (SetCompact bits)) 2).
  destruct (Z.eqb_spec (c_target (SetCompact bits) / 2) 0) as [->|].
  - destruct (Z.ltb_spec limit 1); lia.
  - destruct (Z.ltb_spec limit (c_target (SetCompact bits) / 2)); lia.
Qed.

Lemma half_target_range bits limit : 0 < limit -> 0 < half_target bits limit <= limit.
Proof. apply clamp_range. Qed.

Lemma compact_in_range t params : 0 < t <= powLimit params -> powLimit params < 2 ^ 256 -> target_in_range (GetCompact t) params = true.
Proof.
  intros Ht Hl. destruct (compact_precision t ltac:(lia)) as (Hn & Ho & Hc & _). unfold target_in_range. rewrite Hn, Ho. zbool. done.
Qed.

(** A valid compact target: in range, and the encoding of what it stands for. *)
Definition valid_bits (params : Params) (bits : Z) : Prop :=
  is_u32 bits /\ target_in_range bits params = true /\ GetCompact (c_target (SetCompact bits)) = bits.

Lemma GetCompact_valid params t : 0 < t <= powLimit params -> powLimit params < 2 ^ 256 -> valid_bits params (GetCompact t).
Proof.
  intros Ht Hl. split; [apply GetCompact_u32; lia|]. split; [by apply compact_in_range|]. apply compact_stable. lia.
Qed.

Section Required.
Context (params : Params) (m : block_map) (best : option nat) (p : nat) (b : CBlockIndex).
Hypothesis params_ok : pow_params_ok params.
Hypothesis m_built : built (nDualAlgoActivationHeight params) m best.
Hypothesis p_entry : index m p = Some b.
Hypothesis p_height : nHeight b < 2 ^ 31.

Let act := nDualAlgoActivationHeight params.
Let m_wf : wf act m := built_wf _ _ _ m_built.

Lemma times_ok q a : index m q = Some a -> - 2 ^ 32 <= i_nTime b - i_nTime a <= 2 ^ 32.
Proof.
  intros Ea. destruct (built_fields _ _ _ m_built p b p_entry) as [H1 _]. destruct (built_fields _ _ _ m_built q a Ea) as [H2 _].
  unfold is_u32 in *. lia.
Qed.

(** The difficulty of an algorithm after the activation. *)
Lemma dual_work pblock q :
  act <= nHeight b + 1 ->
  exists a, entries_of m p !! Z.to_nat (nHeight b - (act - 1)) = Some a /\ is_u32 (i_nBits a) /\
    let refTarget := half_target (i_nBits a) (powLimit params) in
    GetDualAlgoWorkRequired m p pblock params q =
      Some (GetCompact
        (if fPowNoRetargeting params then refTarget
         else if fPowAllowMinDifficultyBlocks params &&
                 match pblock with Some h => i_nTime b + 2 * nPowTargetSpacing params <? nTime h | None => false end
         then powLimit params
         else asert_reference refTarget (nDualAlgoTargetSpacing params) (i_nTime b - i_nTime a) (algo_count act q m p)
                (powLimit params) (nASERTHalfLife params))).
Proof.
  intros Hact. destruct params_ok as [Hl Hs Hd Hh Ha]. fold act in Ha. pose proof (height_nonneg act m m_wf p b p_entry) as H0.
  destruct (ancestor_entry act m m_wf p b (act - 1) p_entry ltac:(lia)) as (r & a & Hanc & Ea & Hha & Hent).
  destruct (built_fields _ _ _ m_built r a Ea) as [_ Hbits]. exists a. split; [done|]. split; [done|]. cbn zeta.
  unfold GetDualAlgoWorkRequired. rewrite p_entry. cbn [mbind option_bind]. fold act. zbool. rewrite Hanc. cbn [mbind option_bind]. rewrite Ea. cbn [mbind option_bind].
  rewrite dual_anchor_eq by (unfold is_u32 in Hbits; lia).
  destruct (fPowNoRetargeting params); [done|]. destruct (built_fields _ _ _ m_built p b p_entry) as [Htb _]. unfold is_u32 in *.
  rewrite i64_id by lia. destruct (_ && _); [done|].
  rewrite (second_count_ok act m m_wf p b p_entry). rewrite (proj2 (Z.ltb_ge _ 0)) by (unfold second_count; lia). cbn [mbind option_bind].
  pose proof (algo_count_total act m m_wf p b p_entry) as Ht. pose proof (algo_count_second act m p) as Hc.
  assert (0 <= algo_count act true m p /\ 0 <= algo_count act false m p) as [Hc1 Hc2] by (unfold algo_count; lia).
  assert ((if q then second_count act m p else i64 (nHeight b - (act - 1) - second_count act m p)) = algo_count act q m p) as ->.
  { destruct q; [lia|]. rewrite i64_id by lia. lia. }
  pose proof (times_ok r a Ea). rewrite i64_id by lia.
  rewrite calculate_asert; [done|apply half_target_range; lia|lia|lia|destruct q; lia|lia|lia].
Qed.

(** The ASERT rule before the activation. *)
Lemma asert_work a h :
  anchor_ok params a -> a_nHeight a <= nHeight b ->
  GetNextASERTWorkRequired m p (Some h) params a =
    Some (GetCompact
      (if fPowAllowMinDifficultyBlocks params && (i_nTime b + 2 * nPowTargetSpacing params <? nTime h) then powLimit params
       else asert_reference (c_target (SetCompact (a_nBits a))) (nPowTargetSpacing params) (i_nTime b - a_nPrevBlockTime a)
              (nHeight b - a_nHeight a) (powLimit params) (nASERTHalfLife params))).
Proof.
  intros [Hat Hah Htm] Hh. destruct params_ok as [Hl Hs Hd Hhl Ha]. destruct (built_fields _ _ _ m_built p b p_entry) as [Htb _].
  unfold is_u32 in Htb. unfold GetNextASERTWorkRequired. rewrite p_entry. cbn [mbind option_bind]. zbool.
  rewrite !i64_id, calculate_asert by lia. destruct (fPowAllowMinDifficultyBlocks params); cbn [mbind option_bind andb]; [|done].
  by destruct (_ <? _).
Qed.

Lemma asert_reference_range r s t h limit hl : 0 < limit -> 0 < asert_reference r s t h limit hl <= limit.
Proof. apply clamp_range. Qed.

(** C6. Each algorithm has its own difficulty.  After the activation, on top of
    every entry below height 2^31 of a table the node builds, the bits required of
    a block are the encoding of a target that starts at half the
    target of the last block before the activation, between 1 and the limit.  A
    network that does not retarget keeps that target; one that allows
    minimum-difficulty blocks gives the limit to a block more than two spacings
    after its parent; otherwise it is the ASERT formula anchored at that last
    block, where only the blocks of the block's own algorithm on the chain count
    as progress, and the cached count in the tip gives that number. *)
Theorem dual_schedule g_isRandomX h :
  act <= nHeight b + 1 ->
  exists a, entries_of m p !! Z.to_nat (nHeight b - (act - 1)) = Some a /\
    let start := half_target (i_nBits a) (powLimit params) in
    GetNextWorkRequired g_isRandomX m p (Some h) params =
      Some (GetCompact
        (if fPowNoRetargeting params then start
         else if fPowAllowMinDifficultyBlocks params && (i_nTime b + 2 * nPowTargetSpacing params <? nTime h) then powLimit params
         else asert_reference start (nDualAlgoTargetSpacing params) (i_nTime b - i_nTime a)
                (algo_count act (second_algo (nVersion h)) m p) (powLimit params) (nASERTHalfLife params))).
Proof.
  intros Hact. destruct (dual_work (Some h) (second_algo (nVersion h)) Hact) as (a & Ha & _ & Hw). exists a.
  split; [done|]. unfold GetNextWorkRequired. rewrite p_entry. cbn [mbind option_bind]. fold act. zbool. exact Hw.
Qed.

(** The required work exists and is valid. *)
Lemma required_work g_isRandomX a h :
  asertAnchorParams params = Some a -> anchor_ok params a -> a_nHeight a <= nHeight b ->
  nASERTActivationHeight params <= nHeight b + 1 ->
  exists bits, GetNextWorkRequired g_isRandomX m p (Some h) params = Some bits /\ valid_bits params bits.
Proof.
  intros Has Hok Hh Hact. pose proof params_ok as [Hl _ _ _ _]. unfold GetNextWorkRequired. rewrite p_entry. cbn [mbind option_bind].
  destruct (Z.leb_spec (nDualAlgoActivationHeight params) (nHeight b + 1)) as [Hd|Hd].
  - destruct (dual_work (Some h) (second_algo (nVersion h)) Hd) as (e & _ & He & ->). eexists. split; [reflexivity|].
    apply GetCompact_valid; [|lia]. destruct (fPowNoRetargeting params); [apply half_target_range; lia|].
    destruct (_ && _); [lia|]. apply asert_reference_range. lia.
  - rewrite Has. zbool. rewrite asert_work by done. eexists. split; [reflexivity|]. apply GetCompact_valid; [|lia].
    destruct (_ && _); [lia|]. apply asert_reference_range. lia.
Qed.

(** C14. Required bits are valid.  On a network with ASERT, at every tip from its
    activation on and for every block on top of it, [GetNextWorkRequired] returns
    and its result is a 32-bit number that passes the range check of block
    verification (not negative, not zero, no overflow, not above the limit) and
    is the canonical encoding of its target. *)
Theorem required_bits_valid g_isRandomX a h :
  asertAnchorParams params = Some a -> anchor_ok params a -> a_nHeight a <= nHeight b ->
  nASERTActivationHeight params <= nHeight b + 1 ->
  exists bits, GetNextWorkRequired g_isRandomX m p (Some h) params = Some bits /\ valid_bits params bits.
Proof. apply required_work. Qed.
End Required.

(** ** The cached count *)

(** The same table as a tool outside the node builds it: no counts. *)
Definition uncount (b : CBlockIndex) : CBlockIndex :=
  MkIndex (pprev b) (pskip b) (nHeight b) (i_nVersion b) (i_nTime b) (i_nBits b) (nTimeMax b) (nChainWork b) (-1).
Definition uncounted (m : block_map) : block_map := (fun x => (x.1, uncount x.2)) <$> m.

Lemma index_uncounted m p : index (uncounted m) p = uncount <$> index m p.
Proof. unfold index, uncounted. rewrite list_lookup_fmap. by destruct (m !! p). Qed.

Lemma walk_uncounted fuel m p w h : walk fuel (uncounted m) p w h = walk fuel m p w h.
Proof.
  revert p w. induction fuel as [|f IH]; intros p w; cbn [walk]; destruct (w <=? h); try done.
  rewrite index_uncounted. destruct (index m p) as [b|]; [|done]. cbn [fmap option_fmap option_map mbind option_bind].
  change (pskip (uncount b)) with (pskip b). change (pprev (uncount b)) with (pprev b).
  destruct (pskip b), (pprev b); cbn [mbind option_bind]; rewrite ?IH; done.
Qed.

Lemma GetAncestor_uncounted m p h : GetAncestor (uncounted m) p h = GetAncestor m p h.
Proof.
  unfold GetAncestor. rewrite index_uncounted. destruct (index m p) as [b|]; [|done].
  cbn [fmap option_fmap option_map mbind option_bind]. change (nHeight (uncount b)) with (nHeight b). by rewrite walk_uncounted.
Qed.

Lemma count_back_uncounted fuel m p act n : count_back fuel (uncounted m) p act n = count_back fuel m p act n.
Proof.
  revert p n. induction fuel as [|f IH]; intros [q|] n; cbn [count_back]; try done. rewrite index_uncounted.
  destruct (index m q) as [b|]; [|done]. cbn [fmap option_fmap option_map mbind option_bind].
  change (nHeight (uncount b)) with (nHeight b). change (i_nVersion (uncount b)) with (i_nVersion b).
  change (pprev (uncount b)) with (pprev b). by rewrite IH.
Qed.

(** The cached count is only a cache.  For every table the node builds, the
    difficulty after the activation is the same whether the tip carries the
    cumulative count or no count at all, when the code walks the chain back to
    the activation height instead; the walk ends. *)
Theorem dual_count_cache params m best p pblock fQhash :
  built (nDualAlgoActivationHeight params) m best ->
  GetDualAlgoWorkRequired (uncounted m) p pblock params fQhash = GetDualAlgoWorkRequired m p pblock params fQhash /\
  (forall b, index m p = Some b ->
     count_back (S p) m (Some p) (nDualAlgoActivationHeight params) 0 = Some (nSecondAlgoCount b)).
Proof.
  intros Hm. pose proof (built_wf _ _ _ Hm) as Hw.
  assert (forall b, index m p = Some b ->
    count_back (S p) m (Some p) (nDualAlgoActivationHeight params) 0 = Some (nSecondAlgoCount b) /\ 0 <= nSecondAlgoCount b) as Hc.
  { intros b Hb. rewrite (count_back_ok _ m Hw p b (S p) 0 Hb) by lia. rewrite (second_count_ok _ m Hw p b Hb).
    split; [done|]. unfold second_count. lia. }
  split; [|intros b Hb; by apply Hc]. unfold GetDualAlgoWorkRequired. rewrite index_uncounted, GetAncestor_uncounted.
  destruct (index m p) as [b|]; [|done]. destruct (Hc b eq_refl) as [Hc1 Hc2]. cbn [fmap option_fmap option_map mbind option_bind].
  destruct (_ <=? 0); [done|]. destruct (GetAncestor m p _) as [[q|]|]; cbn [mbind option_bind]; [|done..].
  rewrite index_uncounted, count_back_uncounted, Hc1. destruct (index m q) as [a|]; [|done].
  cbn [fmap option_fmap option_map mbind option_bind]. change (nSecondAlgoCount (uncount b)) with (-1). zbool. done.
Qed.

(** ** Legacy retargeting and presynchronisation *)

(** The target that is left of a number once encoded. *)
Definition rounded (t : Z) : Z := c_target (SetCompact (GetCompact t)).

Lemma rounded_mono s t : 0 <= s <= t -> t < 2 ^ 256 -> rounded s <= rounded t.
Proof.
  intros Hs Ht. destruct (Z.eq_dec s 0) as [->|]; [|apply compact_mono; lia]. change (rounded 0) with 0.
  destruct (Z.eq_dec t 0) as [->|]; [done|]. destruct (compact_precision t ltac:(lia)) as (_ & _ & H & _). unfold rounded. lia.
Qed.

Section Retarget.
Context (params : Params) (old_nbits : Z).
Hypothesis limit_ok : 0 < powLimit params < 2 ^ 256.
Hypothesis span_ok : 4 <= nPowTargetTimespan params < 2 ^ 30.
Hypothesis interval_ok : DifficultyAdjustmentInterval params <> 0.
Hypothesis old_ok : 0 <= old_nbits.

Let span := nPowTargetTimespan params.
Let old_target := c_target (SetCompact old_nbits).

Lemma old_range : 0 <= old_target < 2 ^ 256.
Proof. unfold old_target. pose proof (SetCompact_below old_nbits old_ok). lia. Qed.

Lemma scaled a : 0 <= a <= 4 * span -> div_u (mul512 old_target a) span = Some (old_target * a / span) /\ 0 <= old_target * a / span.
Proof.
  intros Ha. pose proof old_range as Ho. unfold div_u, mul512, u32, u64. fold span in span_ok.
  rewrite (Z.mod_small a), (Z.mod_small span) by lia. rewrite (proj2 (Z.eqb_neq span 0)) by lia.
  assert (0 <= old_target * a < 2 ^ 512).
  { split; [nia|]. apply Z.lt_le_trans with (2 ^ 256 * 2 ^ 32); [nia|]. change (2 ^ 256 * 2 ^ 32) with (2 ^ 288). apply Z.pow_le_mono_r; lia. }
  rewrite wrap512_id by done. split; [done|]. apply Z.div_pos; lia.
Qed.

(** The time a period took, between a quarter and four times its plan. *)
Definition actual_timespan (dt : Z) : Z := Z.min (4 * span) (Z.max (span / 4) dt).

Lemma retarget last first :
  i_nBits last = old_nbits -> fPowNoRetargeting params = false -> - 2 ^ 62 <= i_nTime last - first <= 2 ^ 62 ->
  CalculateNextWorkRequired last first params =
    Some (GetCompact (Z.min (powLimit params) (old_target * actual_timespan (i_nTime last - first) / span))).
Proof.
  intros Hb Hn Ht. unfold CalculateNextWorkRequired. rewrite Hn, Hb. fold span. fold span in span_ok. fold old_target. rewrite !i64_id by lia.
  rewrite Z.quot_div_nonneg by lia.
  assert (forall x, (let y := (if x <? span / 4 then span / 4 else x) in if span * 4 <? y then span * 4 else y) = actual_timespan x) as E.
  { intros x. unfold actual_timespan. cbn zeta. assert (0 <= span / 4 <= span) by (split; [apply Z.div_pos|apply Z.div_le_upper_bound]; lia).
    destruct (Z.ltb_spec x (span / 4)); [destruct (Z.ltb_spec (span * 4) (span / 4))|destruct (Z.ltb_spec (span * 4) x)]; lia. }
  cbn zeta in E. rewrite E. assert (0 <= span / 4) by (apply Z.div_pos; lia).
  destruct (scaled (actual_timespan (i_nTime last - first)) ltac:(unfold actual_timespan; lia)) as [-> Hnn]. cbn [mbind option_bind].
  do 2 f_equal. destruct (Z.ltb_spec (powLimit params) (old_target * actual_timespan (i_nTime last - first) / span)); [lia|].
  rewrite wrap256_id by lia. lia.
Qed.

(** The two bounds of the presynchronisation check at a retarget height. *)
Lemma transition_bounds height new_nbits :
  fPowAllowMinDifficultyBlocks params = false -> asertAnchorParams params = None ->
  Z.rem height (DifficultyAdjustmentInterval params) = 0 ->
  PermittedDifficultyTransition params height old_nbits new_nbits =
    Some ((c_target (SetCompact new_nbits) <=? rounded (Z.min (powLimit params) (old_target * (4 * span) / span))) &&
          (rounded (Z.min (powLimit params) (wrap256 (old_target * (span / 4)) / span)) <=? c_target (SetCompact new_nbits))).
Proof.
  intros Hmin Has Hint. unfold PermittedDifficultyTransition. rewrite Hmin, Has, Hint, (proj2 (Z.eqb_neq _ 0) interval_ok), Z.eqb_refl.
  fold span. fold span in span_ok. fold old_target. rewrite i64_id, Z.quot_div_nonneg, (Z.mul_comm span 4) by lia.
  destruct (scaled (4 * span) ltac:(lia)) as [-> H1]. cbn [mbind option_bind].
  assert (0 <= span / 4 <= span) as Hq by (split; [apply Z.div_pos|apply Z.div_le_upper_bound]; lia).
  unfold div_u, u32, u64. rewrite (Z.mod_small (span / 4)), (Z.mod_small span) by lia. rewrite (proj2 (Z.eqb_neq span 0)) by lia.
  cbn [mbind option_bind]. set (big := old_target * (4 * span) / span) in *.
  assert ((if powLimit params <? big then powLimit params else wrap256 big) = Z.min (powLimit params) big) as ->.
  { destruct (Z.ltb_spec (powLimit params) big); [lia|]. rewrite wrap256_id by lia. lia. }
  set (small := wrap256 _ / span). assert ((if powLimit params <? small then powLimit params else small) = Z.min (powLimit params) small) as ->
    by (destruct (Z.ltb_spec (powLimit params) small); lia).
  fold (rounded (Z.min (powLimit params) big)). fold (rounded (Z.min (powLimit params) small)).
  rewrite !Z.leb_antisym. destruct (_ <? c_target _); done.
Qed.

(** The presynchronisation check admits the consensus retarget.  On a network
    with the legacy rule, at a retarget height, the bits that
    [CalculateNextWorkRequired] computes, whatever the period's duration, pass
    [PermittedDifficultyTransition]. *)
Theorem retarget_permitted height last first bits :
  fPowAllowMinDifficultyBlocks params = false -> asertAnchorParams params = None -> fPowNoRetargeting params = false ->
  Z.rem height (DifficultyAdjustmentInterval params) = 0 ->
  i_nBits last = old_nbits -> - 2 ^ 62 <= i_nTime last - first <= 2 ^ 62 ->
  CalculateNextWorkRequired last first params = Some bits ->
  PermittedDifficultyTransition params height old_nbits bits = Some true.
Proof.
  intros Hmin Has Hn Hint Hb Ht. rewrite retarget by done. intros [= <-]. rewrite transition_bounds by done. f_equal.
  fold (rounded (Z.min (powLimit params) (old_target * actual_timespan (i_nTime last - first) / span))).
  fold span in span_ok. pose proof old_range as Ho. set (a := actual_timespan _).
  assert (0 <= span / 4 <= a /\ a <= 4 * span) as Ha.
  { assert (0 <= span / 4 <= span) by (split; [apply Z.div_pos|apply Z.div_le_upper_bound]; lia). unfold a, actual_timespan. lia. }
  assert (0 <= wrap256 (old_target * (span / 4)) <= old_target * (span / 4)) as Hw.
  { unfold wrap256. split; [apply Z.mod_pos_bound; lia|]. apply Z.mod_le; nia. }
  assert (0 <= wrap256 (old_target * (span / 4)) / span <= old_target * a / span) as H1
    by (split; [apply Z.div_pos; lia|apply Z.div_le_mono; [lia|nia]]).
  assert (old_target * a / span <= old_target * (4 * span) / span) as H2 by (apply Z.div_le_mono; [lia|nia]).
  apply andb_true_iff. split; apply Z.leb_le, rounded_mono; lia.
Qed.

(** Without the wrap the check bounds the new target on both sides. *)
Lemma permitted_bounds height new_nbits :
  fPowAllowMinDifficultyBlocks params = false -> asertAnchorParams params = None ->
  Z.rem height (DifficultyAdjustmentInterval params) = 0 -> old_target * (span / 4) < 2 ^ 256 ->
  PermittedDifficultyTransition params height old_nbits new_nbits = Some true ->
  rounded (Z.min (powLimit params) (old_target * (span / 4) / span)) <= c_target (SetCompact new_nbits) <=
  rounded (Z.min (powLimit params) (old_target * (4 * span) / span)).
Proof.
  intros Hmin Has Hint Hw. rewrite transition_bounds by done. intros H. apply (inj Some) in H. apply andb_true_iff in H as [H1 H2].
  fold span in span_ok. rewrite wrap256_id in H2 by (pose proof old_range; assert (0 <= span / 4) by (apply Z.div_pos; lia); nia). lia.
Qed.
End Retarget.

(** Compact encoding.  For every target below 2^256, the 32 bits that
    [GetCompact] gives decode as valid (not negative, no overflow) to a number
    that is at most the target, not zero, and short of it by less than one part
    in 2^15; encoding that number gives the same bits; and the order of targets
    is kept. *)
Theorem compact_roundtrip t :
  0 < t < 2 ^ 256 ->
  (let c := SetCompact (GetCompact t) in
   c_negative c = false /\ c_overflow c = false /\ 0 < c_target c <= t /\ (t - c_target c) * 2 ^ 15 < c_target c /\
   is_u32 (GetCompact t) /\ GetCompact (c_target c) = GetCompact t) /\
  (forall s, 0 < s <= t -> rounded s <= rounded t).
Proof.
  intros Ht. destruct (compact_precision t Ht) as (H1 & H2 & H3 & H4). cbn zeta. split.
  - do 4 (split; [done|]). split; [by apply GetCompact_u32|by apply compact_stable].
  - intros s Hs. apply rounded_mono; lia.
Qed.

(** ** Concrete parameters *)

Definition with_act (act : Z) (anchor : option ASERTAnchor) (p : Params) : Params :=
  MkParams (powLimit p) (fPowAllowMinDifficultyBlocks p) (fPowNoRetargeting p) (nPowTargetSpacing p) (nPowTargetTimespan p)
    (fPowRandomX p) (nRandomXEpochDuration p) act (nDualAlgoTargetSpacing p) (fDualAlgoEtchash p) (nEtchashEpochLength p)
    (nEtchashBigEndianHeight p) (nASERTActivationHeight p) (nASERTHalfLife p) anchor.

(** The main network, activated at height 1; and without ASERT. *)
Definition ex_dual : Params := with_act 1 (asertAnchorParams rcpu_main) rcpu_main.
Definition ex_legacy : Params := with_act (2 ^ 31 - 1) None rcpu_main.

Lemma main_params_ok : pow_params_ok rcpu_main.
Proof. split; cbn; lia. Qed.

Lemma ex_dual_ok : pow_params_ok ex_dual.
Proof. split; cbn; lia. Qed.

Lemma main_anchor_ok : anchor_ok rcpu_main (MkAnchor 0 0x1e3ffffc 1788566400).
Proof. split; [vm_compute; split; congruence|cbn; lia..]. Qed.

(** At the proof-of-work limit of the main network the lower bound of the
    presynchronisation check wraps at 256 bits: a target a sixteenth of the old
    one passes, although the smallest legal step is a quarter. *)
Theorem presync_minimum_wraps :
  let old := GetCompact (powLimit ex_legacy) in
  let new := GetCompact (powLimit ex_legacy / 16) in
  let span := nPowTargetTimespan ex_legacy in
  target_in_range old ex_legacy = true /\ target_in_range new ex_legacy = true /\
  PermittedDifficultyTransition ex_legacy (DifficultyAdjustmentInterval ex_legacy) old new = Some true /\
  c_target (SetCompact new) < rounded (c_target (SetCompact old) * (span / 4) / span).
Proof. vm_compute. repeat split; reflexivity. Qed.

Lemma asert_matches_reference_witness :
  CalculateASERT 1000 300 1000 2 (2 ^ 240) 172800 = Some (asert_reference 1000 300 1000 2 (2 ^ 240) 172800).
Proof. apply (asert_matches_reference 1000 300 (2 ^ 240) 172800); lia. Defined.

Lemma asert_tracks_schedule_witness :
  CalculateASERT 1000 300 (900 + 2 * 172800) 2 (2 ^ 240) 172800 = Some 4000.
Proof.
  destruct (asert_tracks_schedule 1000 300 (2 ^ 240) 172800 ltac:(lia) ltac:(lia) ltac:(lia) ltac:(lia)) as [H _].
  exact (H 2 2 ltac:(lia) ltac:(lia)).
Defined.

Lemma dual_schedule_witness :
  exists bits, GetNextWorkRequired true ex_table 1 (Some ex_child) ex_dual = Some bits.
Proof.
  destruct (dual_schedule ex_dual ex_table (Some 1%nat) 1 ex_tip ex_dual_ok ex_built eq_refl ltac:(cbn; lia) true ex_child
    ltac:(cbn; lia)) as (a & _ & H). eexists. exact H.
Defined.

Lemma required_bits_valid_witness :
  exists bits, GetNextWorkRequired true ex_table 1 (Some ex_child) ex_dual = Some bits /\ valid_bits ex_dual bits.
Proof.
  apply (required_bits_valid ex_dual ex_table (Some 1%nat) 1 ex_tip ex_dual_ok ex_built eq_refl ltac:(cbn; lia) true
    (MkAnchor 0 0x1e3ffffc 1788566400)); [reflexivity| |cbn; lia..].
  destruct main_anchor_ok as [H1 H2 H3]. exact (Build_anchor_ok ex_dual _ H1 H2 H3).
Defined.

Lemma dual_count_cache_witness :
  GetDualAlgoWorkRequired (uncounted ex_table) 1 (Some ex_child) ex_dual true =
  GetDualAlgoWorkRequired ex_table 1 (Some ex_child) ex_dual true.
Proof. exact (proj1 (dual_count_cache ex_dual ex_table (Some 1%nat) 1 (Some ex_child) true ex_built)). Defined.

Definition ex_last : CBlockIndex := MkIndex None None 4031 1 9000 0x1e3ffffc 9000 0 0.

Lemma ex_retarget : CalculateNextWorkRequired ex_last 1000 ex_legacy = Some 0x1e0fffff.
Proof. vm_compute. reflexivity. Qed.

Lemma retarget_permitted_witness : PermittedDifficultyTransition ex_legacy 4032 0x1e3ffffc 0x1e0fffff = Some true.
Proof.
  apply (retarget_permitted ex_legacy 0x1e3ffffc) with (last := ex_last) (first := 1000);
    [cbn; lia|cbn; lia|vm_compute; congruence|lia|reflexivity..|cbn; lia|apply ex_retarget].
Defined.

Lemma compact_roundtrip_witness : rounded 0x12345678 <= 0x12345678.
Proof. destruct (compact_roundtrip 0x12345678 ltac:(lia)) as [(_ & _ & [_ H] & _) _]. exact H. Defined.
