(* ===== verification/LruCache.v ===== *)
(** * The cache of RandomX machines

    [LRUCache] of [src/pow.cpp]: a list of keys by recency and a map from keys to
    values.  An iterator stored in the map points to the list node of its key; as
    no key occurs twice in the list, the node is identified by the key.  The
    specification is a single list of entries, most recent first, cut at the
    capacity. *)

From Stdlib Require Import ZArith Lia.
From stdpp Require Import base gmap list option fin_maps.

Section Lru.
Context {V : Type}.

Record LRUCache := MkLru {
  m_capacity : nat;
  m_list : list Z;
  m_map : gmap Z V;
}.

Definition lru_new (capacity : nat) : LRUCache := MkLru (if bool_decide (capacity = 0) then 1 else capacity) [] ∅.

(** [m_list.splice(m_list.begin(), m_list, node)]. *)
Definition splice_front (k : Z) (l : list Z) : list Z := k :: filter (fun x => x <> k) l.

Definition lru_contains (c : LRUCache) (key : Z) : bool := bool_decide (is_Some (m_map c !! key)).

Definition lru_insert (c : LRUCache) (key : Z) (value : V) : LRUCache :=
  match m_map c !! key with
  | Some _ => MkLru (m_capacity c) (splice_front key (m_list c)) (<[key := value]> (m_map c))
  | None =>
      let l := key :: m_list c in
      let m := <[key := value]> (m_map c) in
      if bool_decide (m_capacity c < size m)
      then match last l with
           | Some evict => MkLru (m_capacity c) (removelast l) (delete evict m)
           | None => MkLru (m_capacity c) l m
           end
      else MkLru (m_capacity c) l m
  end.

(** [get] returns nothing for a missing key: it throws [std::out_of_range]. *)
Definition lru_get (c : LRUCache) (key : Z) : option (LRUCache * V) :=
  v ← m_map c !! key;
  Some (MkLru (m_capacity c) (splice_front key (m_list c)) (m_map c), v).

Definition lru_try_get (c : LRUCache) (key : Z) : LRUCache * option V :=
  match m_map c !! key with
  | None => (c, None)
  | Some v => (MkLru (m_capacity c) (splice_front key (m_list c)) (m_map c), Some v)
  end.

Definition lru_clear (c : LRUCache) : LRUCache := MkLru (m_capacity c) [] ∅.
Definition lru_size (c : LRUCache) : nat := size (m_map c).

(** ** Specification *)

(** Entries, most recent first. *)
Abbreviation recency := (list (Z * V)).

Definition spec_find (l : recency) (k : Z) : option V := snd <$> List.find (fun x => bool_decide (x.1 = k)) l.
Definition spec_others (l : recency) (k : Z) : recency := filter (fun x => x.1 <> k) l.
Definition spec_insert (cap : nat) (l : recency) (k : Z) (v : V) : recency := take cap ((k, v) :: spec_others l k).
Definition spec_try_get (l : recency) (k : Z) : recency * option V :=
  match spec_find l k with
  | None => (l, None)
  | Some v => ((k, v) :: spec_others l k, Some v)
  end.

(** The entries of a cache. *)
Definition entries (c : LRUCache) : recency := omap (fun k => pair k <$> m_map c !! k) (m_list c).

Record lru_ok (c : LRUCache) : Prop := {
  lru_nodup : NoDup (m_list c);
  lru_dom : forall k, k ∈ m_list c <-> is_Some (m_map c !! k);
  lru_cap : 0 < m_capacity c;
  lru_bound : length (m_list c) <= m_capacity c;
}.

(** ** Entries of keys *)

Definition ents (l : list Z) (m : gmap Z V) : recency := omap (fun k => pair k <$> m !! k) l.

Lemma ents_cons k l m v : m !! k = Some v -> ents (k :: l) m = (k, v) :: ents l m.
Proof. intros E. unfold ents. cbn [omap list_omap]. by rewrite E. Qed.

Lemma ents_ext l m m' : (forall k, k ∈ l -> m !! k = m' !! k) -> ents l m = ents l m'.
Proof.
  induction l as [|x l IH]; intros H; [done|]. unfold ents. cbn [omap list_omap]. fold (ents l m) (ents l m').
  rewrite (H x) by set_solver. rewrite IH; [done|]. intros k Hk. apply H. set_solver.
Qed.

Lemma ents_length l m : (forall k, k ∈ l -> is_Some (m !! k)) -> length (ents l m) = length l.
Proof.
  induction l as [|x l IH]; intros H; [done|]. destruct (H x ltac:(set_solver)) as [v Hv]. rewrite (ents_cons x l m v Hv). cbn [length].
  rewrite IH; [done|]. intros k Hk. apply H. set_solver.
Qed.

Lemma ents_find l m k : spec_find (ents l m) k = if bool_decide (k ∈ l) then m !! k else None.
Proof.
  induction l as [|x l IH]; [done|]. unfold ents. cbn [omap list_omap]. fold (ents l m). destruct (m !! x) as [v|] eqn:E; cbn [fmap option_fmap option_map].
  - unfold spec_find. cbn [List.find fst]. destruct (decide (x = k)) as [->|Hne].
    + rewrite !bool_decide_true by set_solver. done.
    + rewrite (bool_decide_false (x = k)) by done. fold (spec_find (ents l m) k). rewrite IH.
      repeat case_bool_decide; set_solver.
  - rewrite IH. destruct (decide (x = k)) as [->|Hne]; [rewrite E; by repeat case_bool_decide|]. repeat case_bool_decide; set_solver.
Qed.

Lemma ents_others l m k : spec_others (ents l m) k = ents (filter (fun x => x <> k) l) m.
Proof.
  induction l as [|x l IH]; [done|]. unfold ents at 1. cbn [omap list_omap]. fold (ents l m). rewrite (filter_cons _ x l).
  unfold spec_others in *. destruct (m !! x) as [v|] eqn:E; cbn [fmap option_fmap option_map].
  - rewrite filter_cons. cbn [fst]. destruct (decide (x <> k)); [by rewrite (ents_cons x _ m v E), IH|done].
  - rewrite IH. destruct (decide (x <> k)); [|done]. unfold ents at 2. cbn [omap list_omap]. by rewrite E.
Qed.

Lemma ents_app l r m : ents (l ++ r) m = ents l m ++ ents r m.
Proof. apply omap_app. Qed.

(** ** The cache implements the list *)

Lemma size_list (l : list Z) (m : gmap Z V) : NoDup l -> (forall k, k ∈ l <-> is_Some (m !! k)) -> size m = length l.
Proof.
  intros Hn Hd. rewrite <- size_dom. rewrite <- (size_list_to_set (C := gset Z) l Hn). f_equal.
  apply set_eq. intros k. rewrite elem_of_dom, elem_of_list_to_set. symmetry. apply Hd.
Qed.

Lemma splice_elem k l x : k ∈ l -> x ∈ splice_front k l <-> x ∈ l.
Proof.
  intros Hk. unfold splice_front. rewrite elem_of_cons, list_elem_of_filter. destruct (decide (x = k)) as [->|]; [|naive_solver]. naive_solver.
Qed.

Lemma splice_nodup k l : NoDup l -> NoDup (splice_front k l).
Proof. intros H. constructor; [rewrite list_elem_of_filter; naive_solver|by apply NoDup_filter]. Qed.

Lemma splice_length k l : NoDup l -> k ∈ l -> length (splice_front k l) = length l.
Proof.
  intros Hn Hk. apply Permutation_length. apply NoDup_Permutation; [by apply splice_nodup|done|]. intros x. by apply splice_elem.
Qed.

Lemma filter_absent (k : Z) (l : list Z) : k ∉ l -> filter (fun x => x <> k) l = l.
Proof.
  induction l as [|x l IH]; intros Hk; [done|]. rewrite filter_cons, IH by set_solver. by rewrite decide_True by set_solver.
Qed.

Section Ops.
Context (c : LRUCache).
Hypothesis c_ok : lru_ok c.

Lemma entries_find k : spec_find (entries c) k = m_map c !! k.
Proof.
  destruct c_ok as [Hn Hd _ _]. fold (ents (m_list c) (m_map c)). unfold entries. fold (ents (m_list c) (m_map c)). rewrite ents_find.
  case_bool_decide as Hk; [done|]. rewrite Hd in Hk. by destruct (m_map c !! k) eqn:E; [destruct Hk; eauto|].
Qed.

Lemma try_get_ok k :
  let '(c', r) := lru_try_get c k in lru_ok c' /\ m_capacity c' = m_capacity c /\ (entries c', r) = spec_try_get (entries c) k.
Proof.
  pose proof (entries_find k) as Hf. destruct c_ok as [Hn Hd Hc Hb]. unfold lru_try_get, spec_try_get. rewrite Hf.
  destruct (m_map c !! k) as [v|] eqn:E; [|done]. assert (k ∈ m_list c) as Hk by (apply Hd; eauto). split; [|split; [done|]].
  - split; cbn [m_list m_map m_capacity]; [by apply splice_nodup|intros x; rewrite splice_elem by done; apply Hd|done|by rewrite splice_length].
  - f_equal. unfold entries. cbn [m_list m_map]. fold (ents (splice_front k (m_list c)) (m_map c)) (ents (m_list c) (m_map c)).
    unfold splice_front. by rewrite (ents_cons k _ _ v E), ents_others.
Qed.

Lemma insert_present k v v0 : m_map c !! k = Some v0 ->
  lru_ok (lru_insert c k v) /\ entries (lru_insert c k v) = spec_insert (m_capacity c) (entries c) k v.
Proof.
  intros E. destruct c_ok as [Hn Hd Hc Hb]. assert (k ∈ m_list c) as Hk by (apply Hd; eauto). unfold lru_insert. rewrite E.
  assert (entries (MkLru (m_capacity c) (splice_front k (m_list c)) (<[k := v]> (m_map c))) = (k, v) :: spec_others (entries c) k) as He.
  { unfold entries. cbn [m_list m_map]. fold (ents (splice_front k (m_list c)) (<[k := v]> (m_map c))) (ents (m_list c) (m_map c)).
    unfold splice_front. rewrite (ents_cons k _ _ v) by apply lookup_insert_eq. rewrite ents_others. f_equal. apply ents_ext.
    intros x Hx. apply list_elem_of_filter in Hx as [Hx _]. by rewrite lookup_insert_ne. }
  assert (forall x, x ∈ splice_front k (m_list c) <-> is_Some ((<[k := v]> (m_map c)) !! x)) as Hd'.
  { intros x. rewrite splice_elem by done. rewrite lookup_insert_is_Some. rewrite Hd. destruct (decide (k = x)) as [->|]; naive_solver. }
  split.
  - split; cbn [m_list m_map m_capacity]; [by apply splice_nodup|done|done|by rewrite splice_length].
  - rewrite He. unfold spec_insert. rewrite take_ge; [done|]. rewrite <- He. unfold entries. cbn [m_list m_map].
    fold (ents (splice_front k (m_list c)) (<[k := v]> (m_map c))). rewrite ents_length by (intros; by apply Hd'). by rewrite splice_length.
Qed.

Lemma insert_absent k v : m_map c !! k = None ->
  lru_ok (lru_insert c k v) /\ entries (lru_insert c k v) = spec_insert (m_capacity c) (entries c) k v.
Proof.
  intros E. destruct c_ok as [Hn Hd Hc Hb]. assert (k ∉ m_list c) as Hk by (rewrite Hd, E; by intros [? ?]).
  set (l := k :: m_list c). set (m := <[k := v]> (m_map c)).
  assert (NoDup l) as Hnl by (by constructor).
  assert (forall x, x ∈ l <-> is_Some (m !! x)) as Hdl.
  { intros x. unfold l, m. rewrite elem_of_cons, lookup_insert_is_Some, Hd. destruct (decide (k = x)) as [->|]; naive_solver. }
  assert (ents l m = (k, v) :: spec_others (entries c) k) as He.
  { unfold l, m. rewrite (ents_cons k _ _ v) by apply lookup_insert_eq. unfold entries. fold (ents (m_list c) (m_map c)). rewrite ents_others. f_equal.
    rewrite filter_absent by done. apply ents_ext. intros x Hx. apply lookup_insert_ne. set_solver. }
  assert (length (ents l m) = S (length (m_list c))) as Hlen by (by rewrite ents_length by (intros; by apply Hdl)).
  unfold lru_insert. rewrite E. cbn zeta. fold l m. rewrite (size_list l m Hnl Hdl). unfold spec_insert. rewrite <- He. case_bool_decide as Hs.
  - destruct (exists_last (l := l) ltac:(done)) as (init & e & El). rewrite El in *. rewrite last_snoc, removelast_last.
    apply NoDup_app in Hnl as (Hni & Hdis & _). assert (e ∉ init) as Hei by (intros Hx; apply (Hdis e Hx); set_solver).
    assert (length init = m_capacity c) as Hli by (rewrite length_app in Hs; cbn [length] in Hs; assert (length (init ++ [e]) = S (length (m_list c))) as H
      by (by rewrite <- El); rewrite length_app in H; cbn [length] in H; lia).
    split.
    + split; cbn [m_list m_map m_capacity]; [done| |done|lia]. intros x. destruct (decide (x = e)) as [->|Hne].
      * rewrite lookup_delete_eq. split; [done|by intros [? ?]].
      * rewrite lookup_delete_ne by done. rewrite <- Hdl. set_solver.
    + unfold entries. cbn [m_list m_map]. fold (ents init (delete e m)). rewrite ents_app, take_app_length'.
      * apply ents_ext. intros x Hx. apply lookup_delete_ne. set_solver.
      * rewrite ents_length; [done|]. intros x Hx. apply Hdl. set_solver.
  - change (length l) with (S (length (m_list c))) in Hs.
    split; [|unfold entries; cbn [m_list m_map]; fold (ents l m); rewrite take_ge; [done|lia]].
    split; cbn [m_list m_map m_capacity]; [done|done|done|]. unfold l. cbn [length]. lia.
Qed.

Lemma insert_ok k v : lru_ok (lru_insert c k v) /\ entries (lru_insert c k v) = spec_insert (m_capacity c) (entries c) k v.
Proof. destruct (m_map c !! k) eqn:E; [by eapply insert_present|by apply insert_absent]. Qed.
End Ops.

(** ** Runs *)

Inductive lru_op := OInsert (k : Z) (v : V) | OGet (k : Z) | OTryGet (k : Z) | OContains (k : Z) | OClear | OSize.
Inductive lru_result := RNone | RThrow | RValue (v : V) | RGot (v : option V) | RBool (b : bool) | RSize (n : nat).

Definition lru_step (c : LRUCache) (o : lru_op) : LRUCache * lru_result :=
  match o with
  | OInsert k v => (lru_insert c k v, RNone)
  | OGet k => match lru_get c k with Some (c, v) => (c, RValue v) | None => (c, RThrow) end
  | OTryGet k => let '(c, r) := lru_try_get c k in (c, RGot r)
  | OContains k => (c, RBool (lru_contains c k))
  | OClear => (lru_clear c, RNone)
  | OSize => (c, RSize (lru_size c))
  end.

Definition spec_step (cap : nat) (l : recency) (o : lru_op) : recency * lru_result :=
  match o with
  | OInsert k v => (spec_insert cap l k v, RNone)
  | OGet k => let '(l, r) := spec_try_get l k in (l, from_option RValue RThrow r)
  | OTryGet k => let '(l, r) := spec_try_get l k in (l, RGot r)
  | OContains k => (l, RBool (bool_decide (is_Some (spec_find l k))))
  | OClear => ([], RNone)
  | OSize => (l, RSize (length l))
  end.

Fixpoint run {S} (step : S -> lru_op -> S * lru_result) (s : S) (os : list lru_op) : S * list lru_result :=
  match os with
  | [] => (s, [])
  | o :: os => let '(s, r) := step s o in let '(s, rs) := run step s os in (s, r :: rs)
  end.

Lemma insert_capacity c k v : m_capacity (lru_insert c k v) = m_capacity c.
Proof. unfold lru_insert. destruct (m_map c !! k); [done|]. cbn zeta. case_bool_decide; [|done]. by destruct (last _). Qed.

Lemma clear_ok c : lru_ok c -> lru_ok (lru_clear c).
Proof.
  intros [_ _ Hc _]. split; cbn; [constructor| |done|lia]. intros k. rewrite lookup_empty. split; [by intros ?%not_elem_of_nil|by intros [? ?]].
Qed.

Lemma step_ok c o : lru_ok c ->
  let '(c', r) := lru_step c o in
  lru_ok c' /\ m_capacity c' = m_capacity c /\ (entries c', r) = spec_step (m_capacity c) (entries c) o.
Proof.
  intros Hc. destruct o as [k v|k|k|k| |]; cbn [lru_step spec_step].
  - destruct (insert_ok c Hc k v) as [H1 H2]. rewrite H2. by rewrite insert_capacity.
  - pose proof (try_get_ok c Hc k) as H. unfold lru_get, lru_try_get in *.
    destruct (m_map c !! k); cbn [mbind option_bind]; destruct H as (H1 & H2 & H3); by rewrite <- H3.
  - pose proof (try_get_ok c Hc k) as H. destruct (lru_try_get c k) as [c' r]. destruct H as (H1 & H2 & H3). by rewrite <- H3.
  - split; [done|]. split; [done|]. by rewrite entries_find.
  - by split; [apply clear_ok|].
  - split; [done|]. split; [done|]. do 2 f_equal. unfold lru_size, entries. destruct Hc as [Hn Hd _ _].
    fold (ents (m_list c) (m_map c)). rewrite ents_length by (intros; by apply Hd). by apply size_list.
Qed.

Lemma run_ok c os : lru_ok c ->
  let '(c', rs) := run lru_step c os in
  lru_ok c' /\ m_capacity c' = m_capacity c /\ (entries c', rs) = run (spec_step (m_capacity c)) (entries c) os.
Proof.
  revert c. induction os as [|o os IH]; intros c Hc; cbn [run]; [done|]. pose proof (step_ok c o Hc) as H.
  destruct (lru_step c o) as [c1 r]. destruct H as (H1 & H2 & H3). rewrite <- H3. specialize (IH c1 H1). rewrite H2 in IH.
  destruct (run lru_step c1 os) as [c2 rs]. destruct IH as (H4 & H5 & H6). split; [done|]. split; [done|]. by rewrite <- H6.
Qed.
End Lru.

Arguments LRUCache : clear implicits.
Arguments lru_op : clear implicits.

(** An insertion adds its entry and no other. *)
Lemma insert_lookup {V} (c : LRUCache V) k v e x :
  m_map (lru_insert c k v) !! e = Some x -> (e = k /\ x = v) \/ m_map c !! e = Some x.
Proof.
  assert (forall m : gmap Z V, (<[k := v]> m) !! e = Some x -> (e = k /\ x = v) \/ m !! e = Some x) as H.
  { intros m. destruct (decide (k = e)) as [->|]; [rewrite lookup_insert_eq; intros [= <-]; by left|rewrite lookup_insert_ne by done; by right]. }
  unfold lru_insert. destruct (m_map c !! k); [apply H|]. cbn zeta. case_bool_decide; [|apply H]. case_match; [|apply H].
  cbn [m_map]. intros Hd. apply lookup_delete_Some in Hd as [_ Hd]. by apply H.
Qed.

(** C29. The cache is a bounded list by recency.  For every capacity and every
    sequence of [insert], [get], [try_get], [contains], [clear] and [size], the
    list and the map of [LRUCache] give the same answers, exceptions included,
    as one list of entries in which a use moves an entry to the front, an
    insertion replaces the entry of its key and the entries beyond the capacity
    fall off the end; list and map always hold the same keys, and never more
    than the capacity (1 for a capacity of 0). *)
Theorem lru_refines {V} (capacity : nat) (os : list (lru_op V)) :
  let '(c, rs) := run lru_step (lru_new capacity) os in
  (entries c, rs) = run (spec_step (Nat.max 1 capacity)) [] os /\
  lru_ok c /\ lru_size c <= Nat.max 1 capacity.
Proof.
  assert (lru_ok (lru_new (V := V) capacity)) as H0.
  { split; cbn; [constructor| |case_bool_decide; lia|lia]. intros k. rewrite lookup_empty. split; [by intros ?%not_elem_of_nil|by intros [? ?]]. }
  assert (m_capacity (lru_new (V := V) capacity) = Nat.max 1 capacity) as Hc by (cbn; case_bool_decide; lia).
  pose proof (run_ok _ os H0) as H. rewrite Hc in H. destruct (run lru_step _ os) as [c rs]. destruct H as (H1 & H2 & H3).
  split; [done|]. split; [done|]. unfold lru_size. destruct H1 as [Hn Hd _ Hb]. rewrite (size_list _ _ Hn Hd). lia.
Qed.
