(* ===== verification/RandomXVms.v ===== *)
(** * The RandomX machines of the node, under concurrency

    [GetVM] and [CreateFastVM] of [src/pow.cpp] as threads over the four shared
    caches.  Each operation of an [LRUCache] holds the cache's own mutex and is one
    step; the sections under [rx_caches_mutex] are the steps between taking and
    releasing it, with the steps of other threads in between.  Allocation may fail
    at any time.  The result is that, in every interleaving, the machine returned
    for an epoch hashes under the seed hash of that epoch, that the second check
    under the lock does its work (no insertion ever replaces an entry), and that
    the threads never block each other for good. *)

From Stdlib Require Import ZArith Lia.
From stdpp Require Import base gmap list option.
From S2P Require Import Prelude Bytes Sha256 Libs Consensus LruCache.

(** The RandomX C library: what it builds from a key, and the hash of a machine. *)
Class RandomXC := {
  x_cache : Type;
  x_dataset : Type;
  x_vm : Type;
  x_init_cache : bytes -> x_cache;
  x_init_dataset : x_cache -> x_dataset;
  x_create_light : x_cache -> x_vm;
  x_create_fast : x_dataset -> x_vm;
  x_calculate_hash : x_vm -> bytes -> bytes;
}.

(** Both kinds of machine compute the RandomX hash under their key. *)
Class RandomXCLaws (X : RandomXC) (R : RandomXRef) : Prop := {
  light_hash : forall k m, x_calculate_hash (x_create_light (x_init_cache k)) m = rx_hash k m;
  fast_hash : forall k m, x_calculate_hash (x_create_fast (x_init_dataset (x_init_cache k))) m = rx_hash k m;
}.

Section Vms.
Context {X : RandomXC}.

(** ** Shared state *)

Inductive once := NotRun | Running (t : nat) | Ran.

Record shared := MkShared {
  cache_rx_cache : LRUCache x_cache;
  cache_rx_vm_light : LRUCache x_vm;
  cache_rx_vm_fast : LRUCache x_vm;
  cache_rx_dataset : LRUCache x_dataset;
  rx_caches_mutex : option nat;
  g_isIBDFinished : bool;
  allowFlag : once;
}.

Definition with_cache g c := MkShared c (cache_rx_vm_light g) (cache_rx_vm_fast g) (cache_rx_dataset g) (rx_caches_mutex g) (g_isIBDFinished g) (allowFlag g).
Definition with_light g c := MkShared (cache_rx_cache g) c (cache_rx_vm_fast g) (cache_rx_dataset g) (rx_caches_mutex g) (g_isIBDFinished g) (allowFlag g).
Definition with_fast g c := MkShared (cache_rx_cache g) (cache_rx_vm_light g) c (cache_rx_dataset g) (rx_caches_mutex g) (g_isIBDFinished g) (allowFlag g).
Definition with_dataset g c := MkShared (cache_rx_cache g) (cache_rx_vm_light g) (cache_rx_vm_fast g) c (rx_caches_mutex g) (g_isIBDFinished g) (allowFlag g).
Definition with_mutex g o := MkShared (cache_rx_cache g) (cache_rx_vm_light g) (cache_rx_vm_fast g) (cache_rx_dataset g) o (g_isIBDFinished g) (allowFlag g).
Definition with_allow g a := MkShared (cache_rx_cache g) (cache_rx_vm_light g) (cache_rx_vm_fast g) (cache_rx_dataset g) (rx_caches_mutex g) (g_isIBDFinished g) a.
Definition finish_ibd g := MkShared (cache_rx_cache g) (cache_rx_vm_light g) (cache_rx_vm_fast g) (cache_rx_dataset g) (rx_caches_mutex g) true (allowFlag g).

(** ** Threads *)

(** Where a thread is, with its local variables; [G] is [GetVM], [F] is
    [CreateFastVM]. *)
Inductive pc :=
  | GStart (e : Z)
  | GOnce (e : Z)
  | GFast (e : Z)
  | GLight (e : Z)
  | GCache (e : Z)
  | GAlloc (e : Z)
  | GLockC (e : Z) (newCache : x_cache)
  | GCheckC (e : Z) (newCache : x_cache)
  | GInsC (e : Z) (newCache : x_cache)
  | GVm (e : Z) (myCache : x_cache)
  | GLockV (e : Z) (myCache : x_cache) (vmRef : x_vm)
  | GCheckV (e : Z) (myCache : x_cache) (vmRef : x_vm)
  | GInsV (e : Z) (myCache : x_cache) (vmRef : x_vm)
  | GSpawn (e : Z) (myCache : x_cache) (vmRef : x_vm)
  | GDone (e : Z) (r : option x_vm)
  | FDataset (e : Z) (myCache : x_cache)
  | FAlloc (e : Z) (myCache : x_cache)
  | FLockD (e : Z) (newDataset : x_dataset)
  | FCheckD (e : Z) (newDataset : x_dataset)
  | FInsD (e : Z) (newDataset : x_dataset)
  | FVm (e : Z) (myDataset : x_dataset)
  | FLockV (e : Z) (myVM : x_vm)
  | FCheckV (e : Z) (myVM : x_vm)
  | FInsV (e : Z) (myVM : x_vm)
  | FDone.

(** [LOCK(rx_caches_mutex)]: blocked while another thread holds it. *)
Definition lock (g : shared) (t : nat) : option shared :=
  match rx_caches_mutex g with None => Some (with_mutex g (Some t)) | Some _ => None end.
Definition unlock (g : shared) : shared := with_mutex g None.

(** One step of thread [t]: the new shared state, where the thread is then, and a
    thread it starts.  [ok] says whether an allocation of the library succeeds;
    [None]: the thread is blocked or has returned. *)
Definition rx_step (fastmode : bool) (g : shared) (t : nat) (p : pc) (ok : bool) : option (shared * pc * option pc) :=
  match p with
  | GStart e =>
      if g_isIBDFinished g then
        match allowFlag g with
        | NotRun => if fastmode then Some (with_allow g (Running t), GOnce e, None)
                    else Some (with_allow g Ran, GFast e, None)
        | Running _ => None
        | Ran => Some (g, GFast e, None)
        end
      else Some (g, GFast e, None)
  | GOnce e =>
      match rx_caches_mutex g with
      | None => Some (with_allow (with_light g (lru_clear (cache_rx_vm_light g))) Ran, GFast e, None)
      | Some _ => None
      end
  | GFast e =>
      let '(c, r) := lru_try_get (cache_rx_vm_fast g) e in
      Some (with_fast g c, match r with Some vm => GDone e (Some vm) | None => GLight e end, None)
  | GLight e =>
      let '(c, r) := lru_try_get (cache_rx_vm_light g) e in
      Some (with_light g c, match r with Some vm => GDone e (Some vm) | None => GCache e end, None)
  | GCache e =>
      let '(c, r) := lru_try_get (cache_rx_cache g) e in
      Some (with_cache g c, match r with Some x => GVm e x | None => GAlloc e end, None)
  | GAlloc e => Some (g, if ok then GLockC e (x_init_cache (GetSeedHash e)) else GDone e None, None)
  | GLockC e n => g ← lock g t; Some (g, GCheckC e n, None)
  | GCheckC e n =>
      let '(c, r) := lru_try_get (cache_rx_cache g) e in
      match r with
      | Some x => Some (unlock (with_cache g c), GVm e x, None)
      | None => Some (with_cache g c, GInsC e n, None)
      end
  | GInsC e n => Some (unlock (with_cache g (lru_insert (cache_rx_cache g) e n)), GVm e n, None)
  | GVm e x => Some (g, if ok then GLockV e x (x_create_light x) else GDone e None, None)
  | GLockV e x v => g ← lock g t; Some (g, GCheckV e x v, None)
  | GCheckV e x v =>
      let '(c, r) := lru_try_get (cache_rx_vm_light g) e in
      match r with
      | Some v' => Some (unlock (with_light g c), GDone e (Some v'), None)
      | None => Some (with_light g c, GInsV e x v, None)
      end
  | GInsV e x v => Some (unlock (with_light g (lru_insert (cache_rx_vm_light g) e v)), GSpawn e x v, None)
  | GSpawn e x v => Some (g, GDone e (Some v), if g_isIBDFinished g && fastmode then Some (FDataset e x) else None)
  | GDone _ _ => None
  | FDataset e x =>
      let '(c, r) := lru_try_get (cache_rx_dataset g) e in
      Some (with_dataset g c, match r with Some d => FVm e d | None => FAlloc e x end, None)
  | FAlloc e x => Some (g, if ok then FLockD e (x_init_dataset x) else FDone, None)
  | FLockD e n => g ← lock g t; Some (g, FCheckD e n, None)
  | FCheckD e n =>
      let '(c, r) := lru_try_get (cache_rx_dataset g) e in
      match r with
      | Some d => Some (unlock (with_dataset g c), FVm e d, None)
      | None => Some (with_dataset g c, FInsD e n, None)
      end
  | FInsD e n => Some (unlock (with_dataset g (lru_insert (cache_rx_dataset g) e n)), FVm e n, None)
  | FVm e d => Some (g, if ok then FLockV e (x_create_fast d) else FDone, None)
  | FLockV e v => g ← lock g t; Some (g, FCheckV e v, None)
  | FCheckV e v =>
      let '(c, r) := lru_try_get (cache_rx_vm_fast g) e in
      match r with
      | Some _ => Some (unlock (with_fast g c), FDone, None)
      | None => Some (with_fast g c, FInsV e v, None)
      end
  | FInsV e v => Some (unlock (with_fast g (lru_insert (cache_rx_vm_fast g) e v)), FDone, None)
  | FDone => None
  end.

(** ** Runs *)

Record world := MkWorld { w_shared : shared; w_threads : list pc }.

Definition world0 (n : nat) : world :=
  MkWorld (MkShared (lru_new n) (lru_new n) (lru_new n) (lru_new n) None false NotRun) [].

(** A verification starts, initial block download ends, or a thread runs. *)
Inductive action := ACall (e : Z) | AIbd | ARun (t : nat) (ok : bool).

Definition wact (fastmode : bool) (w : world) (a : action) : option world :=
  let g := w_shared w in
  let ts := w_threads w in
  match a with
  | ACall e => Some (MkWorld g (ts ++ [GStart e]))
  | AIbd => Some (MkWorld (finish_ibd g) ts)
  | ARun t ok =>
      p ← ts !! t;
      '(g', p', spawned) ← rx_step fastmode g t p ok;
      Some (MkWorld g' (<[t := p']> ts ++ option_list spawned))
  end.

Inductive reachable (fastmode : bool) (n : nat) : world -> Prop :=
  | reach_0 : reachable fastmode n (world0 n)
  | reach_step w a w' : reachable fastmode n w -> wact fastmode w a = Some w' -> reachable fastmode n w'.

Fixpoint schedule (fastmode : bool) (w : world) (l : list action) : option world :=
  match l with
  | [] => Some w
  | a :: l => w' ← wact fastmode w a; schedule fastmode w' l
  end.

Lemma schedule_reachable fm n w l w' : reachable fm n w -> schedule fm w l = Some w' -> reachable fm n w'.
Proof.
  revert w. induction l as [|a l IH]; intros w Hw; cbn [schedule]; [by intros [= <-]|].
  destruct (wact fm w a) as [w1|] eqn:E; [|done]. cbn [mbind option_bind]. apply IH. by eapply reach_step.
Qed.

(** ** What the caches hold *)

Definition keyed {V} (f : Z -> V) (c : LRUCache V) : Prop := forall e x, m_map c !! e = Some x -> x = f e.

Lemma try_get_spec {V} (c c' : LRUCache V) e r : lru_try_get c e = (c', r) -> m_map c' = m_map c /\ r = m_map c !! e.
Proof. unfold lru_try_get. destruct (m_map c !! e) eqn:E; intros [= <- <-]; done. Qed.

Lemma keyed_insert {V} (f : Z -> V) c k : keyed f c -> keyed f (lru_insert c k (f k)).
Proof. intros H e x Hx. destruct (insert_lookup _ _ _ _ _ Hx) as [[-> ->]|Hx']; [done|by apply H]. Qed.

Lemma keyed_same {V} (f : Z -> V) (c c' : LRUCache V) : m_map c' = m_map c -> keyed f c -> keyed f c'.
Proof. intros E H e x. rewrite E. apply H. Qed.

Lemma keyed_empty {V} (f : Z -> V) (c : LRUCache V) : m_map c = ∅ -> keyed f c.
Proof. intros E e x. rewrite E, lookup_empty. done. Qed.

(** The objects of an epoch. *)
Definition epoch_cache (e : Z) : x_cache := x_init_cache (GetSeedHash e).
Definition epoch_dataset (e : Z) : x_dataset := x_init_dataset (epoch_cache e).
Definition epoch_light (e : Z) : x_vm := x_create_light (epoch_cache e).
Definition epoch_fast (e : Z) : x_vm := x_create_fast (epoch_dataset e).

Record caches_ok (g : shared) : Prop := {
  ok_cache : keyed epoch_cache (cache_rx_cache g);
  ok_light : keyed epoch_light (cache_rx_vm_light g);
  ok_fast : keyed epoch_fast (cache_rx_vm_fast g);
  ok_dataset : keyed epoch_dataset (cache_rx_dataset g);
}.

(** The local variables of a thread belong to its epoch. *)
Definition local_ok (p : pc) : Prop :=
  match p with
  | GLockC e n | GCheckC e n | GInsC e n | GVm e n | FDataset e n | FAlloc e n => n = epoch_cache e
  | GLockV e x v | GCheckV e x v | GInsV e x v | GSpawn e x v => x = epoch_cache e /\ v = epoch_light e
  | GDone e (Some v) => v = epoch_light e \/ v = epoch_fast e
  | FLockD e n | FCheckD e n | FInsD e n | FVm e n => n = epoch_dataset e
  | FLockV e v | FCheckV e v | FInsV e v => v = epoch_fast e
  | _ => True
  end.

(** A step changes at most one cache, by a lookup, an insertion or a clearing. *)
Ltac step_cases :=
  repeat (cbn [mbind option_bind] in *; match goal with
  | H : context [lru_try_get ?c ?e] |- _ =>
      let c' := fresh "c" in let r := fresh "r" in let E := fresh "E" in
      destruct (lru_try_get c e) as [c' r] eqn:E; apply try_get_spec in E as [? E]; subst r
  | H : context [match ?x with _ => _ end] |- _ => lazymatch type of H with _ = Some _ => let E := fresh "E" in destruct x eqn:E end
  | H : Some (_, _, _) = Some (_, _, _) |- _ => injection H as <- <- <-
  | H : None = Some _ |- _ => discriminate H
  end).

Lemma step_local fm g t p ok g' p' sp :
  rx_step fm g t p ok = Some (g', p', sp) -> caches_ok g -> local_ok p ->
  caches_ok g' /\ local_ok p' /\ Forall local_ok (option_list sp).
Proof.
  intros Hs [H1 H2 H3 H4] Hp.
  assert (forall c', m_map c' = m_map (cache_rx_cache g) -> keyed epoch_cache c') as K1 by (intros; by eapply keyed_same).
  assert (forall c', m_map c' = m_map (cache_rx_vm_light g) -> keyed epoch_light c') as K2 by (intros; by eapply keyed_same).
  assert (forall c', m_map c' = m_map (cache_rx_vm_fast g) -> keyed epoch_fast c') as K3 by (intros; by eapply keyed_same).
  assert (forall c', m_map c' = m_map (cache_rx_dataset g) -> keyed epoch_dataset c') as K4 by (intros; by eapply keyed_same).
  destruct p; cbn [rx_step] in Hs; unfold lock in Hs; cbn [local_ok] in Hp; step_cases.
  all: (split; [split; cbn; auto using keyed_empty|]).
  all: cbn [local_ok option_list]; try (split; [|by constructor]).
  all: try done; lazymatch type of Hp with _ /\ _ => destruct Hp as [-> ->] | _ = _ => rewrite ?Hp | _ => idtac end.
  all: first [by apply keyed_insert|by apply H1|by apply H4|left; by apply H2|right; by apply H3|by left|done|idtac].
  split; [by left|by repeat constructor].
Qed.

(** ** The second check under the lock *)

(** The thread holds [rx_caches_mutex]. *)
Definition holding (p : pc) : bool :=
  match p with
  | GCheckC _ _ | GInsC _ _ | GCheckV _ _ _ | GInsV _ _ _ | FCheckD _ _ | FInsD _ _ | FCheckV _ _ | FInsV _ _ => true
  | _ => false
  end.

(** What a thread about to insert knows: its epoch has no entry. *)
Definition absent_ok (g : shared) (p : pc) : Prop :=
  match p with
  | GInsC e _ => m_map (cache_rx_cache g) !! e = None
  | GInsV e _ _ => m_map (cache_rx_vm_light g) !! e = None
  | FInsD e _ => m_map (cache_rx_dataset g) !! e = None
  | FInsV e _ => m_map (cache_rx_vm_fast g) !! e = None
  | _ => True
  end.

(** The maps of two states agree. *)
Definition same_maps (g g' : shared) : Prop :=
  m_map (cache_rx_cache g') = m_map (cache_rx_cache g) /\ m_map (cache_rx_vm_light g') = m_map (cache_rx_vm_light g) /\
  m_map (cache_rx_vm_fast g') = m_map (cache_rx_vm_fast g) /\ m_map (cache_rx_dataset g') = m_map (cache_rx_dataset g).

(** The mutex and the maps across a step, by whether the thread holds the lock. *)
Lemma step_lock fm g t p ok g' p' sp :
  rx_step fm g t p ok = Some (g', p', sp) -> (holding p = true -> rx_caches_mutex g = Some t) ->
  (holding p = false -> rx_caches_mutex g <> None -> same_maps g g' /\ rx_caches_mutex g' = rx_caches_mutex g /\ holding p' = false) /\
  (rx_caches_mutex g' = if holding p' then Some t else if holding p then None else rx_caches_mutex g) /\
  absent_ok g' p' /\ Forall (fun q => holding q = false) (option_list sp).
Proof.
  intros Hs Hm. destruct p; cbn [rx_step] in Hs; unfold lock in Hs; cbn [holding] in Hm; step_cases.
  all: cbn [holding absent_ok option_list]; try specialize (Hm eq_refl).
  all: split; [|split; [|split; [|by repeat constructor] ] ].
  all: try (intros Hx Hy; try discriminate Hx; split; [unfold same_maps; split_and!|split]); cbn; try done; try congruence.
Qed.

Lemma step_once fm g t p ok g' p' sp u :
  rx_step fm g t p ok = Some (g', p', sp) -> allowFlag g' = Running u ->
  (u = t /\ exists e, p' = GOnce e) \/ (allowFlag g = Running u /\ forall e, p <> GOnce e).
Proof.
  intros Hs Hu. destruct p; cbn [rx_step] in Hs; unfold lock in Hs; step_cases; cbn in Hu; try (right; split; [by rewrite ?E|done]); try congruence.
  left. injection Hu as ->. eauto.
Qed.

Lemma absent_same g g' p : same_maps g g' -> absent_ok g p -> absent_ok g' p.
Proof. intros (H1 & H2 & H3 & H4). destruct p; cbn [absent_ok]; rewrite ?H1, ?H2, ?H3, ?H4; done. Qed.

Lemma absent_free g p : holding p = false -> absent_ok g p.
Proof. by destruct p. Qed.

(** ** Invariant *)

Record winv (w : world) : Prop := {
  i_caches : caches_ok (w_shared w);
  i_local : forall t p, w_threads w !! t = Some p -> local_ok p;
  i_hold : forall t p, w_threads w !! t = Some p -> holding p = true -> rx_caches_mutex (w_shared w) = Some t;
  i_mutex : forall t, rx_caches_mutex (w_shared w) = Some t -> exists p, w_threads w !! t = Some p /\ holding p = true;
  i_absent : forall t p, w_threads w !! t = Some p -> absent_ok (w_shared w) p;
  i_once : forall t, allowFlag (w_shared w) = Running t -> exists e, w_threads w !! t = Some (GOnce e);
}.

(** A thread after a step: the one that ran, another one, or a new one. *)
Lemma threads_after (ts : list pc) t p' sp u q :
  is_Some (ts !! t) -> (<[t := p']> ts ++ option_list sp) !! u = Some q ->
  (u = t /\ q = p') \/ (u <> t /\ ts !! u = Some q) \/ (sp = Some q).
Proof.
  intros Ht Hq. apply lookup_app_Some in Hq as [Hq|[_ Hq]].
  - destruct (decide (u = t)) as [->|Hne]; [left|right; left].
    + rewrite list_lookup_insert_eq in Hq by (by apply lookup_lt_is_Some). by injection Hq as <-.
    + by rewrite list_lookup_insert_ne in Hq.
  - right. right. destruct sp as [x|]; cbn [option_list] in Hq; [|by destruct (u - _)%nat].
    destruct (u - _)%nat; [|done]. by injection Hq as ->.
Qed.

Lemma lookup_after (ts : list pc) t p' sp u q :
  u <> t -> ts !! u = Some q -> (<[t := p']> ts ++ option_list sp) !! u = Some q.
Proof. intros Hne Hq. apply lookup_app_l_Some. by rewrite list_lookup_insert_ne. Qed.

Lemma lookup_self (ts : list pc) t p p' sp : ts !! t = Some p -> (<[t := p']> ts ++ option_list sp) !! t = Some p'.
Proof. intros Ht. apply lookup_app_l_Some. apply list_lookup_insert_eq. by eapply lookup_lt_Some. Qed.

Lemma run_inv fm g ts t p ok g' p' sp :
  winv (MkWorld g ts) -> ts !! t = Some p -> rx_step fm g t p ok = Some (g', p', sp) ->
  winv (MkWorld g' (<[t := p']> ts ++ option_list sp)).
Proof.
  intros [Hc Hl Hh Hm Ha Ho] Ht Hs. cbn [w_shared w_threads] in *.
  destruct (step_local _ _ _ _ _ _ _ _ Hs Hc (Hl t p Ht)) as (Hc' & Hl' & Hsl).
  destruct (step_lock _ _ _ _ _ _ _ _ Hs (Hh t p Ht)) as (Hfree & Hmx & Habs & Hsh).
  assert (forall u q, u <> t -> ts !! u = Some q -> holding q = true ->
    same_maps g g' /\ rx_caches_mutex g' = Some u) as Hother.
  { intros u q Hne Hq Hhq. pose proof (Hh u q Hq Hhq) as Hu.
    destruct (holding p) eqn:Ep; [pose proof (Hh t p Ht Ep); congruence|].
    destruct (Hfree eq_refl) as (H1 & H2 & _); [congruence|]. by rewrite H2. }
  split; cbn [w_shared w_threads]; [done|..].
  - intros u q Hq. destruct (threads_after _ _ _ _ _ _ (mk_is_Some _ _ Ht) Hq) as [[-> ->]|[[_ Hq']| ->]]; [done|by eapply Hl|by inversion Hsl].
  - intros u q Hq Hhq. destruct (threads_after _ _ _ _ _ _ (mk_is_Some _ _ Ht) Hq) as [[-> ->]|[[Hne Hq']| ->]].
    + by rewrite Hmx, Hhq.
    + by eapply Hother.
    + inversion Hsh. congruence.
  - intros u Hu. rewrite Hmx in Hu. destruct (holding p') eqn:Ep'; [injection Hu as <-; eauto using lookup_self|].
    destruct (holding p) eqn:Ep; [done|]. destruct (Hm u Hu) as (q & Hq & Hhq). exists q. split; [|done].
    apply lookup_after; [|done]. intros ->. rewrite Ht in Hq. injection Hq as <-. congruence.
  - intros u q Hq. destruct (threads_after _ _ _ _ _ _ (mk_is_Some _ _ Ht) Hq) as [[-> ->]|[[Hne Hq']| ->]]; [done| |apply absent_free; by inversion Hsh].
    destruct (holding q) eqn:Eq; [|by apply absent_free]. destruct (Hother u q Hne Hq' Eq) as [H1 _]. eapply absent_same; [done|by eapply Ha].
  - intros u Hu. destruct (step_once _ _ _ _ _ _ _ _ _ Hs Hu) as [[-> [e ->]]|[Hu' Hp]]; [eauto using lookup_self|].
    destruct (Ho u Hu') as [e He]. exists e. apply lookup_after; [|done]. intros ->. rewrite Ht in He. injection He as ->. by apply (Hp e).
Qed.

Lemma wact_inv fm w a w' : winv w -> wact fm w a = Some w' -> winv w'.
Proof.
  destruct w as [g ts]. intros Hw. destruct a as [e| |t ok]; cbn [wact w_shared w_threads].
  - intros [= <-]. destruct Hw as [Hc Hl Hh Hm Ha Ho]. cbn [w_shared w_threads] in *.
    assert (forall t p, (ts ++ [GStart e]) !! t = Some p -> ts !! t = Some p \/ p = GStart e) as Hsplit.
    { intros t p Hp. apply lookup_app_Some in Hp as [Hp|[_ Hp]]; [by left|]. apply list_lookup_singleton_Some in Hp as [_ <-]. by right. }
    split; cbn [w_shared w_threads]; [done|..].
    + intros t p Hp. destruct (Hsplit t p Hp) as [Hp'| ->]; [by eapply Hl|done].
    + intros t p Hp. destruct (Hsplit t p Hp) as [Hp'| ->]; [by apply Hh|done].
    + intros t Ht. destruct (Hm t Ht) as (p & Hp & Hhp). exists p. split; [by apply lookup_app_l_Some|done].
    + intros t p Hp. destruct (Hsplit t p Hp) as [Hp'| ->]; [by eapply Ha|done].
    + intros t Ht. destruct (Ho t Ht) as [x Hx]. exists x. by apply lookup_app_l_Some.
  - intros [= <-]. destruct Hw as [[H1 H2 H3 H4] Hl Hh Hm Ha Ho]. split; try done.
  - destruct (ts !! t) as [p|] eqn:Ht; [|done]. cbn [mbind option_bind]. destruct (rx_step fm g t p ok) as [[[g' p'] sp]|] eqn:Hs; [|done].
    intros [= <-]. by eapply run_inv.
Qed.

Lemma reachable_inv fm n w : reachable fm n w -> winv w.
Proof.
  induction 1 as [|w a w' _ IH E]; [|by eapply wact_inv]. by split.
Qed.

(** ** Progress *)

Definition finished (p : pc) : bool := match p with GDone _ _ | FDone => true | _ => false end.

Lemma holder_steps fm g t p : holding p = true -> is_Some (rx_step fm g t p true).
Proof. destruct p; try done; intros _; cbn [rx_step]; try (destruct (lru_try_get _ _) as [? []]); eauto. Qed.

Lemma free_steps fm g t p :
  rx_caches_mutex g = None -> finished p = false -> (forall e u, p = GStart e -> allowFlag g <> Running u) -> is_Some (rx_step fm g t p true).
Proof.
  intros Hm Hf Hw. destruct p; try done; cbn [rx_step]; unfold lock; rewrite ?Hm; cbn [mbind option_bind];
    try (destruct (lru_try_get _ _) as [? []]); eauto.
  destruct (g_isIBDFinished g); [|eauto]. destruct (allowFlag g) eqn:E; [destruct fm; eauto| |eauto]. by destruct (Hw e t0 eq_refl).
Qed.
End Vms.

(** ** Main results *)

(** C12. The machine of an epoch.  Under every interleaving of verification threads
    and background builders, with evictions, the end of initial block download and
    allocation failures at any moment, a machine that [GetVM] returns for an epoch
    computes the RandomX hash under the seed hash of that epoch; and a thread about
    to insert into a cache under the lock inserts under a key that is not present,
    so no published cache, dataset or machine is ever replaced. *)
Theorem vm_for_epoch {X : RandomXC} {R : RandomXRef} {laws : RandomXCLaws X R} (fastmode : bool) (n : nat) (w : world) (t : nat) (p : pc) :
  reachable fastmode n w -> w_threads w !! t = Some p ->
  absent_ok (w_shared w) p /\
  forall e v m, p = GDone e (Some v) -> x_calculate_hash v m = rx_hash (GetSeedHash e) m.
Proof.
  intros Hw Ht. apply reachable_inv in Hw as [_ Hl _ _ Ha _]. split; [by eapply Ha|]. intros e v m ->.
  destruct (Hl t _ Ht) as [-> | ->]; [apply light_hash|apply fast_hash].
Qed.

(** C36. No deadlock.  In every reachable state with a thread that has not
    returned, some thread can take a step: the holder of the lock never waits, and
    the one-time switch to fast mode only waits for the lock. *)
Theorem vm_threads_progress {X : RandomXC} (fastmode : bool) (n : nat) (w : world) (t : nat) (p : pc) :
  reachable fastmode n w -> w_threads w !! t = Some p -> finished p = false ->
  exists u w', wact fastmode w (ARun u true) = Some w'.
Proof.
  intros Hw Ht Hf. apply reachable_inv in Hw as [_ _ _ Hm _ Ho].
  assert (forall u q, w_threads w !! u = Some q -> is_Some (rx_step fastmode (w_shared w) u q true) ->
    exists u w', wact fastmode w (ARun u true) = Some w') as Hgo.
  { intros u q Hq [[[g' q'] sp] Hs]. exists u. cbn [wact]. rewrite Hq. cbn [mbind option_bind]. rewrite Hs. cbn [mbind option_bind]. eauto. }
  destruct (rx_caches_mutex (w_shared w)) as [u|] eqn:Em.
  { destruct (Hm u eq_refl) as (q & Hq & Hh). apply (Hgo u q Hq). by apply holder_steps. }
  destruct (allowFlag (w_shared w)) as [|u|] eqn:Ea; [|destruct (Ho u eq_refl) as [e He]; apply (Hgo u _ He)|apply (Hgo t p Ht)].
  - apply (Hgo t p Ht). apply free_steps; [done..|]. intros e u _. by rewrite Ea.
  - apply free_steps; [done..|]. by intros.
  - apply free_steps; [done..|]. intros e u _. by rewrite Ea.
Qed.

(** ** A concrete library and schedule *)

#[export] Instance toy_randomx_c : RandomXC := {|
  x_cache := bytes; x_dataset := bytes; x_vm := bytes;
  x_init_cache k := k; x_init_dataset c := c; x_create_light c := c; x_create_fast d := d;
  x_calculate_hash v m := rx_hash (RandomXRef := toy_reference) v m;
|}.

#[export] Instance toy_randomx_c_laws : RandomXCLaws toy_randomx_c toy_reference.
Proof. split; done. Qed.

(** One thread that builds the machine of epoch 5, and one that finds it. *)
Definition ex_schedule : list action :=
  ACall 5 :: ACall 5 :: replicate 13 (ARun 0 true) ++ replicate 3 (ARun 1 true).

Definition ex_world : option world := schedule false (world0 2) ex_schedule.

Lemma ex_threads : w_threads <$> ex_world = Some [GDone 5 (Some (GetSeedHash 5)); GDone 5 (Some (GetSeedHash 5))].
Proof. reflexivity. Qed.

Lemma ex_world_ok : exists w, ex_world = Some w /\
  w_threads w = [GDone 5 (Some (GetSeedHash 5)); GDone 5 (Some (GetSeedHash 5))].
Proof. pose proof ex_threads as H. apply fmap_Some in H as (w & E & Et). exists w. split; [exact E|]. symmetry. exact Et. Qed.

Lemma vm_for_epoch_witness :
  exists w v, ex_world = Some w /\ w_threads w !! 0%nat = Some (GDone 5 (Some v)) /\ x_calculate_hash v [1%Z] = rx_hash (GetSeedHash 5) [1%Z].
Proof.
  destruct ex_world_ok as (w & E & Et). exists w, (GetSeedHash 5). split; [exact E|]. rewrite Et. split; [reflexivity|].
  refine (proj2 (vm_for_epoch (R := toy_reference) false 2 w 0 (GDone 5 (Some (GetSeedHash 5))) _ _) 5%Z _ [1%Z] eq_refl).
  - exact (schedule_reachable false 2 (world0 2) ex_schedule w (reach_0 false 2) E).
  - rewrite Et. reflexivity.
Defined.

Lemma vm_threads_progress_witness :
  exists u w', wact false (MkWorld (w_shared (world0 2)) [GStart 5]) (ARun u true) = Some w'.
Proof.
  apply (vm_threads_progress false 2 (MkWorld (w_shared (world0 2)) [GStart 5]) 0 (GStart 5)); [|reflexivity..].
  exact (reach_step false 2 (world0 2) (ACall 5) _ (reach_0 false 2) eq_refl).
Defined.
