(* ===== verification/EtchashSize.v ===== *)
(** * Etchash: sizes

    The size search of [src/crypto/etchash.cpp]: modular arithmetic on 64-bit
    words, the Miller-Rabin test, and the loops that step down from a linear bound
    to the next size with a prime number of rows.  [uint64_t] is written as [Z]
    modulo 2^64.  The results: [mulmod] and [powmod] are exact for moduli up to
    2^63 (and not above), and the loops end. *)

From Stdlib Require Import ZArith Lia Bool List Znumtheory Zpow_facts.
Import ListNotations.

Open Scope Z_scope.

Definition w64 (n : Z) : Z := n mod 2 ^ 64.

(** ** Modular arithmetic *)

(** The loop of [mulmod]: one turn per bit of [b]. *)
Fixpoint mulmod_loop (turns : nat) (r a b m : Z) : Z :=
  match turns with
  | O => r
  | S t =>
      if b =? 0 then r else
      let r := if Z.odd b then
                 let r := w64 (r + a) in if (m <=? r) || (r <? a) then w64 (r - m) else r
               else r in
      let a := w64 (Z.shiftl a 1) in
      let a := if m <=? a then a - m else a in
      mulmod_loop t r a (Z.shiftr b 1) m
  end.

Definition mulmod (a b m : Z) : Z := mulmod_loop 64 0 a b m.

Fixpoint powmod_loop (turns : nat) (r base exp m : Z) : Z :=
  match turns with
  | O => r
  | S t =>
      if exp =? 0 then r else
      let r := if Z.odd exp then mulmod r base m else r in
      powmod_loop t r (mulmod base base m) (Z.shiftr exp 1) m
  end.

Definition powmod (base exp m : Z) : Z := powmod_loop 64 (1 mod m) (base mod m) exp m.

(** ** The primality test *)

Definition SMALL_PRIMES : list Z := [2; 3; 5; 7; 11; 13; 17; 19; 23; 29; 31; 37].
Definition BASES : list Z := [2; 325; 9375; 28178; 450775; 9780504; 1795265022].

(** [d] without its factors of two, and their number. *)
Fixpoint halve (turns : nat) (d r : Z) : Z * Z :=
  match turns with
  | O => (d, r)
  | S t => if negb (Z.odd d) then halve t (Z.shiftr d 1) (r + 1) else (d, r)
  end.

(** The squarings of one base: is [n - 1] among them? *)
Fixpoint squares (turns : nat) (x n : Z) : bool :=
  match turns with
  | O => false
  | S t => let x := mulmod x x n in if x =? n - 1 then true else squares t x n
  end.

Definition base_passes (n d r a : Z) : bool :=
  let a := a mod n in
  if a =? 0 then true else
  let x := powmod a d n in
  if (x =? 1) || (x =? n - 1) then true else squares (Z.to_nat (r - 1)) x n.

Definition IsPrime (n : Z) : bool :=
  if n <? 2 then false else
  match find (fun p => n mod p =? 0) SMALL_PRIMES with
  | Some p => n =? p
  | None => let '(d, r) := halve 64 (n - 1) 0 in forallb (base_passes n d r) BASES
  end.

(** ** Sizes *)

Definition HASH_BYTES : Z := 64.
Definition MIX_BYTES : Z := 128.
Definition CACHE_INIT_BYTES : Z := 2 ^ 24.
Definition CACHE_GROWTH_BYTES : Z := 2 ^ 17.
Definition DATASET_INIT_BYTES : Z := 2 ^ 30.
Definition DATASET_GROWTH_BYTES : Z := 2 ^ 23.

(** [while (!IsPrime(size / unit)) size -= 2 * unit]; [None] is an unfinished loop. *)
Fixpoint shrink (fuel : nat) (unit size : Z) : option Z :=
  if IsPrime (size / unit) then Some size else
  match fuel with
  | O => None
  | S f => shrink f unit (w64 (size - 2 * unit))
  end.

Definition CalcCacheSize (fuel : nat) (epoch : Z) : option Z :=
  shrink fuel HASH_BYTES (w64 (CACHE_INIT_BYTES + CACHE_GROWTH_BYTES * epoch - HASH_BYTES)).

Definition CalcDatasetSize (fuel : nat) (epoch : Z) : option Z :=
  shrink fuel MIX_BYTES (w64 (DATASET_INIT_BYTES + DATASET_GROWTH_BYTES * epoch - MIX_BYTES)).

(** ** Exactness of the arithmetic *)

Lemma odd_split b : b = 2 * Z.shiftr b 1 + (if Z.odd b then 1 else 0).
Proof. rewrite <- Z.div2_spec. pose proof (Z.div2_odd b) as H. destruct (Z.odd b); cbn [Z.b2z] in H; lia. Qed.

Lemma shiftr_bound t b : 0 <= b < 2 ^ Z.of_nat (S t) -> 0 <= Z.shiftr b 1 < 2 ^ Z.of_nat t.
Proof.
  rewrite Nat2Z.inj_succ, Z.pow_succ_r by lia. intros H. pose proof (odd_split b). destruct (Z.odd b); lia.
Qed.

Lemma mulmod_loop_ok t r a b m :
  0 < m <= 2 ^ 63 -> 0 <= r < m -> 0 <= a < m -> 0 <= b < 2 ^ Z.of_nat t ->
  mulmod_loop t r a b m = (r + a * b) mod m.
Proof.
  intros Hm. revert r a b. induction t as [|t IH]; intros r a b Hr Ha Hb.
  - change (2 ^ Z.of_nat 0) with 1 in Hb. replace b with 0 by lia. cbn [mulmod_loop]. rewrite Z.mul_0_r, Z.add_0_r. symmetry. now apply Z.mod_small.
  - cbn [mulmod_loop]. destruct (Z.eqb_spec b 0) as [->|Hb0]; [rewrite Z.mul_0_r, Z.add_0_r; symmetry; now apply Z.mod_small|].
    rewrite Z.shiftl_mul_pow2 by lia. change (2 ^ 1) with 2. unfold w64.
    rewrite (Z.mod_small (r + a)), (Z.mod_small (a * 2)) by lia. rewrite (proj2 (Z.ltb_ge (r + a) a)), orb_false_r by lia.
    set (r' := if Z.odd b then _ else _). set (a' := if m <=? a * 2 then _ else _).
    assert (0 <= r' < m /\ exists k, r' = r + (if Z.odd b then a else 0) + k * m) as [Hr' [k Ek]].
    { unfold r'. destruct (Z.odd b); [|split; [lia|exists 0; lia]]. destruct (Z.leb_spec m (r + a)).
      - rewrite Z.mod_small by lia. split; [lia|]. exists (-1). lia.
      - split; [lia|]. exists 0. lia. }
    assert (0 <= a' < m /\ exists k, a' = 2 * a + k * m) as [Ha' [l El]].
    { unfold a'. destruct (Z.leb_spec m (a * 2)); [split; [lia|exists (-1); lia]|split; [lia|exists 0; lia]]. }
    rewrite IH by (try lia; now apply shiftr_bound). rewrite Ek, El. pose proof (odd_split b) as Eb. set (b' := Z.shiftr b 1) in *.
    replace (r + (if Z.odd b then a else 0) + k * m + (2 * a + l * m) * b') with (r + a * b + (k + l * b') * m)
      by (rewrite Eb at 1; destruct (Z.odd b); ring).
    now apply Z.mod_add; lia.
Qed.

Lemma mulmod_ok a b m : 0 < m <= 2 ^ 63 -> 0 <= a < m -> 0 <= b < 2 ^ 64 -> mulmod a b m = (a * b) mod m.
Proof. intros Hm Ha Hb. unfold mulmod. rewrite mulmod_loop_ok by (try lia; exact Hb). reflexivity. Qed.

Lemma powmod_loop_ok t r base exp m :
  0 < m <= 2 ^ 63 -> 0 <= r < m -> 0 <= base < m -> 0 <= exp < 2 ^ Z.of_nat t ->
  powmod_loop t r base exp m = (r * base ^ exp) mod m.
Proof.
  intros Hm. revert r base exp. induction t as [|t IH]; intros r base exp Hr Hb He.
  - change (2 ^ Z.of_nat 0) with 1 in He. replace exp with 0 by lia. cbn [powmod_loop]. rewrite Z.pow_0_r, Z.mul_1_r. symmetry. now apply Z.mod_small.
  - cbn [powmod_loop]. destruct (Z.eqb_spec exp 0) as [->|He0]; [rewrite Z.pow_0_r, Z.mul_1_r; symmetry; now apply Z.mod_small|].
    rewrite !mulmod_ok by lia. pose proof (shiftr_bound t exp He) as Hs. pose proof (odd_split exp) as Ee. set (e := Z.shiftr exp 1) in *.
    rewrite IH; [|destruct (Z.odd exp); [apply Z.mod_pos_bound; lia|lia]|apply Z.mod_pos_bound; lia|lia].
    rewrite <- Zmult_mod_idemp_r, <- Zpower_mod, Zmult_mod_idemp_r, <- Z.pow_2_r, <- Z.pow_mul_r by lia.
    rewrite Ee at 2. destruct (Z.odd exp); [|now rewrite Z.add_0_r].
    rewrite Zmult_mod_idemp_l, Z.pow_add_r, Z.pow_1_r by lia. f_equal. ring.
Qed.

Lemma powmod_ok base exp m : 0 < m <= 2 ^ 63 -> 0 <= base -> 0 <= exp < 2 ^ 64 -> powmod base exp m = base ^ exp mod m.
Proof.
  intros Hm Hb He. unfold powmod. rewrite powmod_loop_ok by (try (apply Z.mod_pos_bound; lia); try exact He; lia).
  rewrite Zmult_mod_idemp_l, Z.mul_1_l, <- Zpower_mod by lia. reflexivity.
Qed.

(** ** The loops end *)

(** An odd number of rows steps down to 3 at the latest. *)
Lemma shrink_ends unit k :
  0 < unit -> 0 <= k -> (2 * k + 3) * unit < 2 ^ 64 ->
  exists j, 0 <= j <= k /\ IsPrime (2 * (k - j) + 3) = true /\
    (forall i, 0 <= i < j -> IsPrime (2 * (k - i) + 3) = false) /\
    forall fuel, (Z.to_nat k <= fuel)%nat -> shrink fuel unit ((2 * k + 3) * unit) = Some ((2 * (k - j) + 3) * unit).
Proof.
  intros Hu Hk. rewrite <- (Z2Nat.id k Hk). generalize (Z.to_nat k) as n. clear k Hk. intros n.
  induction n as [|n IH]; intros Hlt.
  - exists 0. split; [lia|]. split; [reflexivity|]. split; [lia|]. intros fuel _.
    assert ((2 * Z.of_nat 0 + 3) * unit / unit = 3) as E by (apply Z.div_mul; lia). destruct fuel; cbn [shrink]; rewrite E; reflexivity.
  - assert (forall fuel, shrink fuel unit ((2 * Z.of_nat (S n) + 3) * unit) =
      if IsPrime (2 * Z.of_nat (S n) + 3) then Some ((2 * Z.of_nat (S n) + 3) * unit) else
      match fuel with O => None | S f => shrink f unit ((2 * Z.of_nat n + 3) * unit) end) as Hs.
    { intros fuel. destruct fuel; cbn [shrink]; rewrite Z.div_mul by lia; [reflexivity|].
      unfold w64. replace ((2 * Z.of_nat (S n) + 3) * unit - 2 * unit) with ((2 * Z.of_nat n + 3) * unit) by lia.
      rewrite (Z.mod_small ((2 * Z.of_nat n + 3) * unit)) by nia. reflexivity. }
    destruct (IsPrime (2 * Z.of_nat (S n) + 3)) eqn:Ep.
    + exists 0. rewrite Z.sub_0_r. split; [lia|]. split; [exact Ep|]. split; [lia|]. intros fuel _. now rewrite Hs.
    + destruct (IH ltac:(nia)) as (j & Hj & Hp & Hnone & Hres). exists (j + 1).
      replace (Z.of_nat (S n) - (j + 1)) with (Z.of_nat n - j) by lia. split; [lia|]. split; [exact Hp|]. split.
      * intros i Hi. destruct (Z.eq_dec i 0) as [->|]; [now rewrite Z.sub_0_r|].
        replace (Z.of_nat (S n) - i) with (Z.of_nat n - (i - 1)) by lia. apply Hnone. lia.
      * intros fuel Hf. destruct fuel as [|f]; [lia|]. rewrite Hs. apply Hres. lia.
Qed.

(** ** The test accepts every prime *)

Lemma halve_spec t d r :
  0 < d < 2 ^ Z.of_nat t ->
  let '(d', r') := halve t d r in r <= r' /\ Z.odd d' = true /\ 0 < d' <= d /\ d = d' * 2 ^ (r' - r).
Proof.
  revert d r. induction t as [|t IH]; intros d r Hd; [change (2 ^ Z.of_nat 0) with 1 in Hd; lia|].
  cbn [halve]. destruct (Z.odd d) eqn:Eo; cbn [negb]; [rewrite Z.sub_diag; repeat split; try lia; exact Eo|].
  pose proof (odd_split d) as Es. rewrite Eo in Es. pose proof (shiftr_bound t d ltac:(lia)) as Hs. set (e := Z.shiftr d 1) in *.
  specialize (IH e (r + 1) ltac:(lia)). destruct (halve t e (r + 1)) as [d' r']. destruct IH as (H1 & H2 & H3 & H4).
  split; [lia|]. split; [exact H2|]. split; [lia|]. replace (r' - r) with (r' - (r + 1) + 1) by lia. rewrite Z.pow_add_r by lia. lia.
Qed.

(** A square root of 1 modulo a prime is 1 or -1. *)
Lemma root_of_one p y : prime p -> 0 <= y < p -> (y * y) mod p = 1 -> y = 1 \/ y = p - 1.
Proof.
  intros Hp Hy H. assert (1 < p) by (destruct Hp; lia).
  assert ((p | (y - 1) * (y + 1))) as Hd.
  { apply Z.mod_divide; [lia|]. replace ((y - 1) * (y + 1)) with (y * y - 1) by ring. rewrite Zminus_mod, H, (Z.mod_small 1) by lia. reflexivity. }
  apply (prime_mult p Hp) in Hd as [[k Hk]|[k Hk]].
  - left. assert (k = 0) by nia. nia.
  - right. assert (k = 1) by nia. nia.
Qed.

Lemma squares_find p t x :
  prime p -> p <= 2 ^ 63 -> 0 <= x < p -> x <> 1 -> x <> p - 1 -> x ^ (2 ^ Z.of_nat (S t)) mod p = 1 -> squares t x p = true.
Proof.
  intros Hp Hle. assert (1 < p) by (destruct Hp; lia). revert x. induction t as [|t IH]; intros x Hx H1 H2 Hpow.
  - exfalso. change (2 ^ Z.of_nat 1) with 2 in Hpow. rewrite Z.pow_2_r in Hpow. destruct (root_of_one p x Hp Hx Hpow); lia.
  - cbn [squares]. rewrite mulmod_ok by lia. destruct (Z.eqb_spec ((x * x) mod p) (p - 1)) as [|Hne]; [reflexivity|].
    apply IH; [apply Z.mod_pos_bound; lia| |exact Hne|].
    + intros E. destruct (root_of_one p x Hp Hx E); lia.
    + rewrite <- Zpower_mod, <- Z.pow_2_r, <- Z.pow_mul_r by lia.
      replace (2 * 2 ^ Z.of_nat (S t)) with (2 ^ Z.of_nat (S (S t))) by (rewrite (Nat2Z.inj_succ (S t)), Z.pow_succ_r by lia; reflexivity).
      exact Hpow.
Qed.

Section Prime.
Context (p : Z).
Hypothesis p_prime : prime p.
Hypothesis p_small : p <= 2 ^ 63.
Hypothesis fermat : forall a, 0 < a < p -> a ^ (p - 1) mod p = 1.

Lemma base_passes_prime d r a : 0 < d < 2 ^ 63 -> 0 <= r -> p - 1 = d * 2 ^ r -> 0 <= a -> base_passes p d r a = true.
Proof.
  intros Hd Hr Hp Ha. assert (1 < p) by (destruct p_prime; lia). unfold base_passes.
  pose proof (Z.mod_pos_bound a p ltac:(lia)) as Hm. set (b := a mod p) in *. destruct (Z.eqb_spec b 0) as [|Hb]; [reflexivity|].
  rewrite powmod_ok by lia. destruct ((_ =? 1) || (_ =? p - 1)) eqn:E; [reflexivity|].
  apply orb_false_iff in E as [E1 E2]. apply Z.eqb_neq in E1, E2. pose proof (fermat b ltac:(lia)) as Hf.
  rewrite Hp, Z.pow_mul_r, Zpower_mod in Hf by (try lia; apply Z.pow_nonneg; lia).
  assert (r <> 0) as Hr0.
  { intros ->. rewrite Z.pow_0_r, Z.pow_1_r, Z.mod_mod in Hf by lia. contradiction. }
  apply squares_find; [exact p_prime|exact p_small|apply Z.mod_pos_bound; lia|exact E1|exact E2|].
  replace (Z.of_nat (S (Z.to_nat (r - 1)))) with r by lia. exact Hf.
Qed.

Lemma IsPrime_prime : IsPrime p = true.
Proof.
  assert (1 < p) as H1 by (destruct p_prime; lia). unfold IsPrime. rewrite (proj2 (Z.ltb_ge p 2)) by lia.
  destruct (find _ SMALL_PRIMES) as [q|] eqn:Ef.
  - apply find_some in Ef as [Hin Hq]. apply Z.eqb_eq in Hq. assert (2 <= q) as H2 by (cbn in Hin; intuition lia).
    apply Z.mod_divide in Hq; [|lia]. apply Z.eqb_eq. destruct (prime_divisors p p_prime q Hq) as [|[|[|]]]; lia.
  - pose proof (halve_spec 64 (p - 1) 0 ltac:(change (2 ^ Z.of_nat 64) with (2 ^ 64); lia)) as Hh.
    destruct (halve 64 (p - 1) 0) as [d r]. destruct Hh as (Hr & _ & Hd & Ep). rewrite Z.sub_0_r in Ep.
    apply forallb_forall. intros a Ha. apply base_passes_prime; [lia|exact Hr|exact Ep|]. cbn in Ha. intuition lia.
Qed.
End Prime.

(** ** Above 2^63 *)

(** The comments promise exactness for every 64-bit modulus; above 2^63 the
    doubling of [a] loses its top bit. *)
Theorem mulmod_wraps :
  let m := 2 ^ 64 - 59 in
  0 <= m - 1 < m /\ m < 2 ^ 64 /\ mulmod (m - 1) 2 m = m - 61 /\ ((m - 1) * 2) mod m = m - 2.
Proof. vm_compute. repeat split; congruence. Qed.
