(* ===== verification/EtchashPrime.v ===== *)
(** * Etchash: the size search skips no prime

    Fermat's little theorem carried from MathComp's natural numbers to [Z], and
    with it the specification of [CalcCacheSize] and [CalcDatasetSize]
    ([src/crypto/etchash.cpp]): both loops end, and no prime number of rows lies
    between the one they choose and the linear bound. *)

From Stdlib Require Import ZArith Znumtheory Lia Bool List.
From mathcomp Require Import ssreflect ssrfun ssrbool eqtype ssrnat div prime cyclic.
From S2P Require Import EtchashSize.

Open Scope Z_scope.

(** ** Natural numbers of MathComp and integers *)

Lemma dvdn_Z (d n : nat) : (d %| n)%N -> (Z.of_nat d | Z.of_nat n).
Proof. move=> /dvdnP[k ->]. exists (Z.of_nat k). exact: Nat2Z.inj_mul. Qed.

Lemma modn_Z (m d : nat) : (0 < d)%N -> Z.of_nat (m %% d)%N = Z.of_nat m mod Z.of_nat d.
Proof.
  move=> Hd. apply: (Z.mod_unique_pos _ _ (Z.of_nat (m %/ d)%N)).
  - have /ltP := ltn_pmod m Hd. lia.
  - rw {1}(divn_eq m d) Nat2Z.inj_add Nat2Z.inj_mul. lia.
Qed.

Lemma expn_Z (a n : nat) : Z.of_nat (a ^ n)%N = Z.of_nat a ^ Z.of_nat n.
Proof. elim: n => [//|n IH]. rw expnS Nat2Z.inj_succ (Z.pow_succ_r _ _ (Nat2Z.is_nonneg n)). by rw -IH -Nat2Z.inj_mul. Qed.

Lemma prime_nat (p : Z) : Znumtheory.prime p -> prime.prime (Z.to_nat p).
Proof.
  move=> Hp. have Hlt : 1 < p by case: Hp. apply/primeP. split; first by (apply/ltP; lia).
  move=> d Hd. have [c Hc] := dvdn_Z _ _ Hd. have E := Z2Nat.id p ltac:(lia). rw E in Hc.
  have Hdiv : (Z.of_nat d | p) by exists c.
  case: (prime_divisors p Hp _ Hdiv) => [|[|[|]]] H; first lia; last lia.
  - apply/orP; left. apply/eqP. lia.
  - apply/orP; right. apply/eqP. lia.
Qed.

(** Fermat's little theorem. *)
Lemma fermat_Z (p a : Z) : Znumtheory.prime p -> 0 < a < p -> a ^ (p - 1) mod p = 1.
Proof.
  move=> Hp Ha. have Hn := prime_nat p Hp. have Hlt : 1 < p by case: Hp.
  have Ep := Z2Nat.id p ltac:(lia). have Ea := Z2Nat.id a ltac:(lia).
  have Hco : coprime (Z.to_nat a) (Z.to_nat p).
  { rw coprime_sym prime_coprime //. apply/negP => /dvdn_Z Hd.
    rw Ep Ea in Hd. have := Z.divide_pos_le p a (proj1 Ha) Hd. lia. }
  have Hp0 : (0 < Z.to_nat p)%N by (apply/ltP; lia).
  have := f_equal Z.of_nat (Euler_exp_totient Hco). rw totient_prime // !modn_Z // expn_Z.
  have -> : Z.of_nat (Z.to_nat p).-1 = p - 1 by lia.
  rw Ep Ea => ->. apply: Z.mod_small. lia.
Qed.

(** ** The search *)

(** [rows] is accepted, and no prime above it fits below [limit] bytes. *)
Definition highest_rows (unit limit rows : Z) : Prop :=
  3 <= rows /\ rows * unit < limit /\ IsPrime rows = true /\
  forall q, Znumtheory.prime q -> q * unit < limit -> q <= rows.

Lemma search_ends unit k limit :
  0 < unit -> 0 <= k -> limit = (2 * k + 4) * unit -> limit <= 2 ^ 63 ->
  exists rows, highest_rows unit limit rows /\
    forall fuel, k <= Z.of_nat fuel -> shrink fuel unit (w64 (limit - unit)) = Some (rows * unit).
Proof.
  move=> Hu Hk -> Hlt. have [j [Hj [Hp [Hnone Hs]]]] := shrink_ends unit k Hu Hk ltac:(lia).
  exists (2 * (k - j) + 3). split; last first.
  { move=> fuel Hf. have -> : w64 ((2 * k + 4) * unit - unit) = (2 * k + 3) * unit.
    { have -> : (2 * k + 4) * unit - unit = (2 * k + 3) * unit by lia. apply: Z.mod_small. lia. }
    apply: Hs. lia. }
  split; first lia. split; first nia. split; first exact: Hp.
  move=> q Hq Hql. have Hq1 : 1 < q by case: Hq. have Hq4 : q < 2 * k + 4 by nia.
  case: (Z.le_gt_cases q (2 * (k - j) + 3)) => [//|Hgt].
  have Hodd : Z.odd q = true.
  { case E: (Z.odd q) => //. have Hd : (2 | q) by (exists (Z.div2 q); move: (Z.div2_odd q); rw E; cbn [Z.b2z]; lia).
    by case: (prime_divisors q Hq 2 Hd) => [|[|[|]]] H; lia. }
  have [i Hi] : exists i, q = 2 * (k - i) + 3.
  { exists (k + 1 - Z.div2 q). move: (Z.div2_odd q). rw Hodd. cbn [Z.b2z]. lia. }
  have Hprime := IsPrime_prime q Hq ltac:(nia) (fun a => fermat_Z q a Hq).
  have := Hnone i ltac:(lia). by rw -Hi Hprime.
Qed.

(** C27. For every epoch below 2^39 both size loops end (within as many turns as
    half the starting number of rows), without leaving the 64-bit range, at the
    highest size below the linear threshold whose row count passes the
    primality test; every prime row count below the threshold is at most the
    chosen one, so no admissible size is skipped. *)
Theorem size_search_ends epoch :
  0 <= epoch < 2 ^ 39 ->
  (exists rows, highest_rows HASH_BYTES (CACHE_INIT_BYTES + CACHE_GROWTH_BYTES * epoch) rows /\
     forall fuel, 2 ^ 17 + 2 ^ 10 * epoch <= Z.of_nat fuel -> CalcCacheSize fuel epoch = Some (rows * HASH_BYTES)) /\
  (exists rows, highest_rows MIX_BYTES (DATASET_INIT_BYTES + DATASET_GROWTH_BYTES * epoch) rows /\
     forall fuel, 2 ^ 22 + 2 ^ 15 * epoch <= Z.of_nat fuel -> CalcDatasetSize fuel epoch = Some (rows * MIX_BYTES)).
Proof.
  move=> He. split.
  - have [|||rows [Hr Hs]] := search_ends HASH_BYTES (2 ^ 17 + 2 ^ 10 * epoch - 2) (CACHE_INIT_BYTES + CACHE_GROWTH_BYTES * epoch) ltac:(reflexivity);
      rw /HASH_BYTES /CACHE_INIT_BYTES /CACHE_GROWTH_BYTES; try lia.
    exists rows. split; first exact: Hr. move=> fuel Hf. apply: Hs. lia.
  - have [|||rows [Hr Hs]] := search_ends MIX_BYTES (2 ^ 22 + 2 ^ 15 * epoch - 2) (DATASET_INIT_BYTES + DATASET_GROWTH_BYTES * epoch) ltac:(reflexivity);
      rw /MIX_BYTES /DATASET_INIT_BYTES /DATASET_GROWTH_BYTES; try lia.
    exists rows. split; first exact: Hr. move=> fuel Hf. apply: Hs. lia.
Qed.

Lemma size_search_ends_witness :
  (exists rows, highest_rows HASH_BYTES (2 ^ 24 + 2 ^ 17 * 1) rows) /\ CalcCacheSize 20 1 = Some 16907456.
Proof.
  split; last by vm_compute.
  have [[rows [Hr _]] _] := size_search_ends 1 ltac:(lia). by exists rows.
Defined.
