(* ===== verification/Keccak.v ===== *)
(** * Keccak

    [src/crypto/keccak.cpp]: the permutation on 25 lanes of 64 bits, and the two
    sponges ([CKeccak256], [CKeccak512]) with their input buffer.  The
    specification is the one of FIPS 202: the permutation on single bits
    A[x,y,z], with rotation offsets and round constants from their recurrences,
    and the sponge on the padded message. *)

From Stdlib Require Import ZArith Lia.
From stdpp Require Import base list list_numbers numbers.
From S2P Require Import Prelude Bytes.

Open Scope Z_scope.

Definition u64 (n : Z) : Z := n mod 2 ^ 64.

Definition rotl64 (x n : Z) : Z := Z.lor (u64 (Z.shiftl x n)) (Z.shiftr x (64 - n)).

(** ** The permutation *)

Definition KECCAK_RHO : list Z :=
  [1; 3; 6; 10; 15; 21; 28; 36; 45; 55; 2; 14; 27; 41; 56; 8; 25; 43; 62; 18; 39; 61; 20; 44].

Definition KECCAK_PI : list nat :=
  [10; 7; 11; 17; 18; 3; 5; 16; 8; 21; 24; 4; 15; 23; 19; 13; 12; 2; 20; 14; 22; 9; 6; 1]%nat.

Definition KECCAK_RC : list Z :=
  [0x0000000000000001; 0x0000000000008082; 0x800000000000808a; 0x8000000080008000;
   0x000000000000808b; 0x0000000080000001; 0x8000000080008081; 0x8000000000008009;
   0x000000000000008a; 0x0000000000000088; 0x0000000080008009; 0x000000008000000a;
   0x000000008000808b; 0x800000000000008b; 0x8000000000008089; 0x8000000000008003;
   0x8000000000008002; 0x8000000000000080; 0x000000000000800a; 0x800000008000000a;
   0x8000000080008081; 0x8000000000008080; 0x0000000080000001; 0x8000000080008008].

Abbreviation lanes := (list Z).

(** [st[i] ^= x]. *)
Definition xor_at (i : nat) (x : Z) (st : lanes) : lanes := <[i := Z.lxor (st !!! i) x]> st.

Definition theta (st : lanes) : lanes :=
  let bc := map (fun i => Z.lxor (Z.lxor (Z.lxor (Z.lxor (st !!! i) (st !!! (i + 5)%nat)) (st !!! (i + 10)%nat))
                                  (st !!! (i + 15)%nat)) (st !!! (i + 20)%nat)) (seq 0 5) in
  foldl (fun st i =>
    let t := Z.lxor (bc !!! ((i + 4) mod 5)%nat) (rotl64 (bc !!! ((i + 1) mod 5)%nat) 1) in
    foldl (fun st j => xor_at (j + i) t st) st [0; 5; 10; 15; 20]%nat) st (seq 0 5).

Definition rho_pi (st : lanes) : lanes :=
  fst (foldl (fun '(st, t) '(j, n) => (<[j := rotl64 t n]> st, st !!! j)) (st, st !!! 1%nat) (zip KECCAK_PI KECCAK_RHO)).

Definition chi (st : lanes) : lanes :=
  foldl (fun st j =>
    let row := map (fun i => st !!! (j + i)%nat) (seq 0 5) in
    foldl (fun st i => xor_at (j + i) (Z.land (Z.lxor (row !!! ((i + 1) mod 5)%nat) (2 ^ 64 - 1)) (row !!! ((i + 2) mod 5)%nat)) st)
      st (seq 0 5)) st [0; 5; 10; 15; 20]%nat.

Definition iota (rc : Z) (st : lanes) : lanes := xor_at 0 rc st.

Definition keccakf (st : lanes) : lanes := foldl (fun st rc => iota rc (chi (rho_pi (theta st)))) st KECCAK_RC.

(** ** The sponge *)

Definition load64 (x : bytes) : Z :=
  foldl (fun r i => Z.lor r (Z.shiftl (x !!! i) (8 * Z.of_nat i))) 0 (seq 0 8).

Definition store64 (u : Z) : bytes := map (fun i => Z.shiftr u (8 * Z.of_nat i) mod 256) (seq 0 8).

Definition keccak_absorb_block (st : lanes) (block : bytes) (rate : nat) : lanes :=
  keccakf (foldl (fun st i => xor_at i (load64 (drop (8 * i) block)) st) st (seq 0 (rate / 8))).

Record CKeccak := MkKeccak { m_state : lanes; m_buf : bytes; m_buflen : nat }.

(** [std::memcpy(buf + pos, data, length of data)]. *)
Definition memcpy (pos : nat) (data buf : bytes) : bytes := take pos buf ++ data ++ drop (pos + length data) buf.

Section Sponge.
Context (RATE OUTPUT_SIZE : nat).

(** The constructor leaves the buffer as the memory was. *)
Definition construct (memory : bytes) : CKeccak := MkKeccak (replicate 25 0) memory 0.

Definition Reset (h : CKeccak) : CKeccak := MkKeccak (replicate 25 0) (replicate RATE 0) 0.

(** One turn of [Write]: what is left of the data. *)
Definition write_turn (h : CKeccak) (data : bytes) : CKeccak * bytes :=
  let take_ := Nat.min (RATE - m_buflen h) (length data) in
  let buf := memcpy (m_buflen h) (take take_ data) (m_buf h) in
  let len := (m_buflen h + take_)%nat in
  (if bool_decide (len = RATE) then MkKeccak (keccak_absorb_block (m_state h) buf RATE) buf 0
   else MkKeccak (m_state h) buf len, drop take_ data).

Fixpoint write_loop (fuel : nat) (h : CKeccak) (data : bytes) : CKeccak :=
  match data with
  | [] => h
  | _ :: _ => match fuel with
              | O => h
              | S f => let '(h, data) := write_turn h data in write_loop f h data
              end
  end.

(** Every turn but the first finds an empty buffer and takes a byte at least. *)
Definition Write (h : CKeccak) (data : bytes) : CKeccak := write_loop (length data) h data.

Definition Finalize (h : CKeccak) : bytes * CKeccak :=
  let buf := memcpy (m_buflen h) (replicate (RATE - m_buflen h) 0) (m_buf h) in
  let buf := <[m_buflen h := Z.lxor (buf !!! m_buflen h) 0x01]> buf in
  let buf := <[(RATE - 1)%nat := Z.lxor (buf !!! (RATE - 1)%nat) 0x80]> buf in
  let h := MkKeccak (keccak_absorb_block (m_state h) buf RATE) buf (m_buflen h) in
  (concat (map (fun i => store64 (m_state h !!! i)) (seq 0 (OUTPUT_SIZE / 8))), Reset h).

(** The hash of one buffer, in an object built for it. *)
Definition hash (data : bytes) : bytes := fst (Finalize (Write (construct (replicate RATE 0)) data)).
End Sponge.

Definition Keccak256 (data : bytes) : bytes := hash 136 32 data.
Definition Keccak512 (data : bytes) : bytes := hash 72 64 data.

(** ** FIPS 202 *)

(** A[x,y,z]. *)
Abbreviation bits := (nat -> nat -> Z -> bool).

Definition s_theta (A : bits) : bits :=
  let C x z := xorb (xorb (xorb (xorb (A x 0%nat z) (A x 1%nat z)) (A x 2%nat z)) (A x 3%nat z)) (A x 4%nat z) in
  fun x y z => xorb (A x y z) (xorb (C ((x + 4) mod 5)%nat z) (C ((x + 1) mod 5)%nat ((z - 1) mod 64))).

(** The offset of lane (x,y): position t of the walk (x,y) -> (y, 2x + 3y) from
    (1,0) gets (t + 1)(t + 2) / 2. *)
Fixpoint offset_from (n t x y : nat) (x' y' : nat) : Z :=
  match n with
  | O => 0
  | S n => if bool_decide (x = x' /\ y = y') then Z.of_nat ((t + 1) * (t + 2) / 2) mod 64
           else offset_from n (S t) y ((2 * x + 3 * y) mod 5) x' y'
  end.

Definition offset (x y : nat) : Z := offset_from 24 0 1 0 x y.

Definition s_rho (A : bits) : bits := fun x y z => A x y ((z - offset x y) mod 64).
Definition s_pi (A : bits) : bits := fun x y z => A ((x + 3 * y) mod 5)%nat x z.
Definition s_chi (A : bits) : bits := fun x y z =>
  xorb (A x y z) (negb (A ((x + 1) mod 5)%nat y z) && A ((x + 2) mod 5)%nat y z).

(** The shift register of the round constants. *)
Definition rc_next (r : list bool) : list bool :=
  match r with
  | [r0; r1; r2; r3; r4; r5; r6; r7] => [r7; r0; r1; r2; xorb r3 r7; xorb r4 r7; xorb r5 r7; r6]
  | _ => r
  end.

Definition rc (t : nat) : bool := Nat.iter (t mod 255) rc_next [true; false; false; false; false; false; false; false] !!! 0%nat.

Definition s_iota (round : nat) (A : bits) : bits := fun x y z =>
  if bool_decide (x = 0%nat /\ y = 0%nat)
  then xorb (A x y z) (existsb (fun j => (z =? 2 ^ Z.of_nat j - 1) && rc (j + 7 * round)) (seq 0 7))
  else A x y z.

Definition s_keccakf (A : bits) : bits := foldl (fun A round => s_iota round (s_chi (s_pi (s_rho (s_theta A))))) A (seq 0 24).

(** The bit of a block that falls on A[x,y,z]. *)
Definition block_bit (block : bytes) : bits := fun x y z =>
  Z.testbit (default 0 (block !! (8 * (x + 5 * y) + Z.to_nat (z / 8))%nat)) (z mod 8).

Definition s_absorb (A : bits) (block : bytes) : bits := s_keccakf (fun x y z => xorb (A x y z) (block_bit block x y z)).

(** The message followed by one bit 1, zeros, and a last bit 1, to whole blocks. *)
Definition pad (rate : nat) (m : bytes) : bytes :=
  let q := (rate - length m mod rate)%nat in
  m ++ (if bool_decide (q = 1%nat) then [0x81] else 0x01 :: replicate (q - 2) 0 ++ [0x80]).

Definition block_at (rate i : nat) (m : bytes) : bytes := take rate (drop (rate * i) m).

Definition sponge (rate : nat) (m : bytes) : bits :=
  foldl (fun A i => s_absorb A (block_at rate i (pad rate m))) (fun _ _ _ => false) (seq 0 (length m / rate + 1)).

(** ** Words *)

Definition is_lane (n : Z) : Prop := 0 <= n < 2 ^ 64.

Lemma lane_of_bits n : 0 <= n -> (forall z, 64 <= z -> Z.testbit n z = false) -> is_lane n.
Proof.
  intros Hn H. assert (n mod 2 ^ 64 = n) as <-; [|apply Z.mod_pos_bound; lia].
  apply Z.bits_inj'. intros z Hz. destruct (Z.lt_ge_cases z 64).
  - by rewrite Z.mod_pow2_bits_low.
  - by rewrite Z.mod_pow2_bits_high, H by lia.
Qed.

Lemma lane_high n z : is_lane n -> 64 <= z -> Z.testbit n z = false.
Proof.
  intros Hn Hz. rewrite <- (Z.mod_small n (2 ^ 64)) by apply Hn. apply Z.mod_pow2_bits_high. lia.
Qed.

Lemma lane_lxor a b : is_lane a -> is_lane b -> is_lane (Z.lxor a b).
Proof.
  intros Ha Hb. apply lane_of_bits; [apply Z.lxor_nonneg; split; intros; [apply Hb|apply Ha]|].
  intros z Hz. by rewrite Z.lxor_spec, !lane_high.
Qed.

Lemma lane_land a b : is_lane a -> is_lane b -> is_lane (Z.land a b).
Proof.
  intros Ha Hb. apply lane_of_bits; [apply Z.land_nonneg; left; apply Ha|].
  intros z Hz. by rewrite Z.land_spec, !lane_high.
Qed.

Lemma rotl64_bit x n z : is_lane x -> 0 < n < 64 -> 0 <= z < 64 -> Z.testbit (rotl64 x n) z = Z.testbit x ((z - n) mod 64).
Proof.
  intros Hx Hn Hz. unfold rotl64, u64. rewrite Z.lor_spec, Z.mod_pow2_bits_low, Z.shiftl_spec, Z.shiftr_spec by lia.
  destruct (Z.lt_ge_cases z n).
  - rewrite Z.testbit_neg_r by lia. cbn [orb]. f_equal. apply (Z.mod_unique_pos _ _ (-1)); lia.
  - rewrite (lane_high x (z + (64 - n))) by (done || lia). rewrite orb_false_r, Z.mod_small by lia. done.
Qed.

Lemma lane_rotl64 x n : is_lane x -> 0 < n < 64 -> is_lane (rotl64 x n).
Proof.
  intros Hx Hn. unfold rotl64, u64. pose proof (Z.mod_pos_bound (Z.shiftl x n) (2 ^ 64) eq_refl).
  apply lane_of_bits; [apply Z.lor_nonneg; split; [lia|apply Z.shiftr_nonneg, Hx]|].
  intros z Hz. rewrite Z.lor_spec, Z.mod_pow2_bits_high, Z.shiftr_spec, lane_high by (done || lia). done.
Qed.

(** ** The steps, lane by lane *)

Definition lanes_ok (st : lanes) : Prop := length st = 25%nat /\ Forall is_lane st.

Definition tabulate (f : nat -> Z) : lanes := map f (seq 0 25).

Definition column (st : lanes) (x : nat) : Z :=
  Z.lxor (Z.lxor (Z.lxor (Z.lxor (st !!! x) (st !!! (x + 5)%nat)) (st !!! (x + 10)%nat)) (st !!! (x + 15)%nat)) (st !!! (x + 20)%nat).

(** The lane that rho and pi bring to position [k], and its rotation. *)
Definition source (k : nat) : nat := ((k mod 5 + 3 * (k / 5)) mod 5 + 5 * (k mod 5))%nat.
Definition rotation (k : nat) : Z := offset ((k mod 5 + 3 * (k / 5)) mod 5) (k mod 5).

Ltac lanes25 st H :=
  do 25 (destruct st as [|? st]; [discriminate H|]); destruct st; [clear H|discriminate H].

Lemma theta_lanes st : length st = 25%nat -> theta st = tabulate (fun k =>
  Z.lxor (st !!! k) (Z.lxor (column st ((k + 4) mod 5)) (rotl64 (column st ((k + 1) mod 5)) 1))).
Proof. intros H. lanes25 st H. reflexivity. Qed.

Lemma rho_pi_lanes st : length st = 25%nat -> rho_pi st = tabulate (fun k =>
  if bool_decide (k = 0%nat) then st !!! 0%nat else rotl64 (st !!! source k) (rotation k)).
Proof. intros H. lanes25 st H. reflexivity. Qed.

Lemma chi_lanes st : length st = 25%nat -> chi st = tabulate (fun k =>
  Z.lxor (st !!! k) (Z.land (Z.lxor (st !!! (5 * (k / 5) + (k + 1) mod 5)%nat) (2 ^ 64 - 1)) (st !!! (5 * (k / 5) + (k + 2) mod 5)%nat))).
Proof. intros H. lanes25 st H. reflexivity. Qed.

(** ** Refinement of the permutation *)

(** The lanes [st] hold the bits [A]. *)
Definition holds_bits (st : lanes) (A : bits) : Prop :=
  lanes_ok st /\ forall x y z, (x < 5)%nat -> (y < 5)%nat -> 0 <= z < 64 -> Z.testbit (st !!! (x + 5 * y)%nat) z = A x y z.

Lemma tabulate_lookup f k : (k < 25)%nat -> tabulate f !!! k = f k.
Proof.
  intros Hk. unfold tabulate. apply list_lookup_total_correct. rewrite list_lookup_fmap, lookup_seq_lt by done. done.
Qed.

Lemma tabulate_ok f : (forall k, (k < 25)%nat -> is_lane (f k)) -> lanes_ok (tabulate f).
Proof.
  intros H. split; [apply length_map|]. apply Forall_fmap, Forall_seq. intros k Hk. apply H. lia.
Qed.

Lemma lanes_lookup st k : lanes_ok st -> is_lane (st !!! k).
Proof.
  intros [_ H]. destruct (st !! k) as [a|] eqn:E.
  - rewrite (list_lookup_total_correct _ _ _ E). by eapply Forall_lookup_1 in E.
  - rewrite list_lookup_total_alt, E. cbn. split; [lia|done].
Qed.

(** Positions: [k] is lane (k mod 5, k / 5). *)
Lemma lane_position x y : (x < 5)%nat -> ((x + 5 * y) mod 5 = x /\ (x + 5 * y) / 5 = y)%nat.
Proof. intros H. split; symmetry; [apply (Nat.mod_unique _ _ y)|apply (Nat.div_unique _ _ _ x)]; lia. Qed.

Lemma lane_position_add x y d : ((x + 5 * y + d) mod 5 = (x + d) mod 5)%nat.
Proof. replace (x + 5 * y + d)%nat with (x + d + y * 5)%nat by lia. apply Nat.Div0.mod_add. Qed.

Lemma mod5 n : (n mod 5 < 5)%nat.
Proof. apply Nat.mod_upper_bound. lia. Qed.

Lemma lane_column st x : lanes_ok st -> is_lane (column st x).
Proof. intros H. unfold column. repeat apply lane_lxor; by apply lanes_lookup. Qed.

Lemma column_bit st A x z : holds_bits st A -> (x < 5)%nat -> 0 <= z < 64 ->
  Z.testbit (column st x) z = xorb (xorb (xorb (xorb (A x 0%nat z) (A x 1%nat z)) (A x 2%nat z)) (A x 3%nat z)) (A x 4%nat z).
Proof.
  intros [_ H] Hx Hz. unfold column. rewrite !Z.lxor_spec.
  rewrite <- (H x 0%nat z), <- (H x 1%nat z), <- (H x 2%nat z), <- (H x 3%nat z), <- (H x 4%nat z) by (done || lia).
  repeat f_equal; lia.
Qed.

Lemma theta_ok st A : holds_bits st A -> holds_bits (theta st) (s_theta A).
Proof.
  intros H. pose proof H as [Hok Hb]. rewrite (theta_lanes st (proj1 Hok)). split.
  - apply tabulate_ok. intros k _. apply lane_lxor; [by apply lanes_lookup|]. apply lane_lxor; [by apply lane_column|].
    apply lane_rotl64; [by apply lane_column|lia].
  - intros x y z Hx Hy Hz. rewrite tabulate_lookup by lia. pose proof (lane_position x y Hx) as [P1 _].
    rewrite !lane_position_add, !Z.lxor_spec, rotl64_bit by (try apply lane_column; done || lia).
    rewrite Hb, !(column_bit st A) by (try apply mod5; try apply Z.mod_pos_bound; done || lia). done.
Qed.

Lemma rotation_range k : (k < 25)%nat -> k <> 0%nat -> 0 < rotation k < 64.
Proof.
  intros Hk H0. do 25 (destruct k as [|k]; [first [done|vm_compute; split; reflexivity]|]). lia.
Qed.

Lemma rho_pi_ok st A : holds_bits st A -> holds_bits (rho_pi st) (s_pi (s_rho A)).
Proof.
  intros H. pose proof H as [Hok Hb]. rewrite (rho_pi_lanes st (proj1 Hok)). split.
  - apply tabulate_ok. intros k Hk. case_bool_decide; [by apply lanes_lookup|]. apply lane_rotl64; [by apply lanes_lookup|by apply rotation_range].
  - intros x y z Hx Hy Hz. rewrite tabulate_lookup by lia. pose proof (lane_position x y Hx) as [P1 P2]. unfold s_pi, s_rho.
    pose proof (mod5 (x + 3 * y)). case_bool_decide as E.
    + assert (x = 0 /\ y = 0)%nat as [-> ->] by lia. change (offset _ _) with 0. rewrite Z.sub_0_r, Z.mod_small by lia. by apply (Hb 0%nat 0%nat).
    + rewrite rotl64_bit by (try apply lanes_lookup; try apply rotation_range; done || lia).
      unfold source, rotation. rewrite P1, P2. apply Hb; [done|done|apply Z.mod_pos_bound; lia].
Qed.

Lemma chi_ok st A : holds_bits st A -> holds_bits (chi st) (s_chi A).
Proof.
  intros H. pose proof H as [Hok Hb]. rewrite (chi_lanes st (proj1 Hok)). split.
  - apply tabulate_ok. intros k _. apply lane_lxor; [by apply lanes_lookup|]. apply lane_land; [|by apply lanes_lookup].
    apply lane_lxor; [by apply lanes_lookup|split; [lia|reflexivity]].
  - intros x y z Hx Hy Hz. rewrite tabulate_lookup by lia. pose proof (lane_position x y Hx) as [P1 P2]. rewrite P2.
    rewrite !lane_position_add, !(Nat.add_comm (5 * y)), Z.lxor_spec, Z.land_spec, Z.lxor_spec, !Hb by (done || lia || apply mod5).
    unfold s_chi. do 2 f_equal. change (2 ^ 64 - 1) with (Z.ones 64). rewrite Z.ones_spec_low by lia. apply xorb_true_r.
Qed.

Lemma rc_bits r z : (r < 24)%nat -> 0 <= z < 64 ->
  Z.testbit (KECCAK_RC !!! r) z = existsb (fun j => (z =? 2 ^ Z.of_nat j - 1) && rc (j + 7 * r)) (seq 0 7).
Proof.
  intros Hr Hz.
  assert (forallb (fun r => forallb (fun k => let z := Z.of_nat k in
    Bool.eqb (Z.testbit (KECCAK_RC !!! r) z) (existsb (fun j => (z =? 2 ^ Z.of_nat j - 1) && rc (j + 7 * r)) (seq 0 7)))
    (seq 0 64)) (seq 0 24) = true) as H by (vm_compute; reflexivity).
  rewrite forallb_forall in H. specialize (H r ltac:(apply in_seq; lia)). rewrite forallb_forall in H.
  specialize (H (Z.to_nat z) ltac:(apply in_seq; lia)). cbv zeta in H. rewrite Z2Nat.id in H by lia. by apply eqb_prop in H.
Qed.

Lemma xor_at_lookup i k x st : (i < length st)%nat -> xor_at i x st !!! k = if bool_decide (k = i) then Z.lxor (st !!! i) x else st !!! k.
Proof.
  intros Hi. unfold xor_at. case_bool_decide as E; [subst; by apply list_lookup_total_insert_eq|by apply list_lookup_total_insert_ne].
Qed.

Lemma xor_at_ok i x st : lanes_ok st -> is_lane x -> lanes_ok (xor_at i x st).
Proof.
  intros H Hx. split; [unfold xor_at; rewrite length_insert; apply H|].
  apply Forall_insert; [apply H|]. apply lane_lxor; [by apply lanes_lookup|done].
Qed.

Lemma iota_ok r st A : (r < 24)%nat -> holds_bits st A -> holds_bits (iota (KECCAK_RC !!! r) st) (s_iota r A).
Proof.
  intros Hr [Hok Hb]. split.
  - apply xor_at_ok; [done|]. do 24 (destruct r as [|r]; [vm_compute; split; [discriminate|reflexivity]|]). lia.
  - intros x y z Hx Hy Hz. unfold iota, s_iota. rewrite xor_at_lookup by (rewrite (proj1 Hok); lia). rewrite <- Hb by done.
    case_bool_decide as E1; case_bool_decide as E2; [|lia|lia|done].
    rewrite Z.lxor_spec, rc_bits by done. destruct E2 as [-> ->]. done.
Qed.

Lemma keccakf_ok st A : holds_bits st A -> holds_bits (keccakf st) (s_keccakf A).
Proof.
  unfold keccakf, s_keccakf. change KECCAK_RC with (map (fun r => KECCAK_RC !!! r) (seq 0 24)).
  assert (Forall (fun r => (r < 24)%nat) (seq 0 24)) as Hl by (apply Forall_seq; lia). revert st A.
  induction (seq 0 24) as [|r l IH]; intros st A H; [done|]. cbn [foldl map]. apply Forall_cons_1 in Hl as [Hr Hl].
  apply (IH Hl), iota_ok, chi_ok, rho_pi_ok, theta_ok; done.
Qed.

(** ** Refinement of the sponge *)

Lemma byte_bit b n : is_byte b -> n < 0 \/ 8 <= n -> Z.testbit b n = false.
Proof.
  intros Hb [Hn|Hn]; [by apply Z.testbit_neg_r|]. rewrite <- (Z.mod_small b (2 ^ 8)) by apply Hb. apply Z.mod_pow2_bits_high. lia.
Qed.

Lemma byte_lookup (bs : bytes) i : Forall is_byte bs -> is_byte (bs !!! i).
Proof.
  intros H. destruct (bs !! i) as [a|] eqn:E.
  - rewrite (list_lookup_total_correct _ _ _ E). by eapply Forall_lookup_1 in E.
  - rewrite list_lookup_total_alt, E. cbn. split; [lia|done].
Qed.

Lemma load_bits x n z : Forall is_byte x -> 0 <= z ->
  Z.testbit (foldl (fun r i => Z.lor r (Z.shiftl (x !!! i) (8 * Z.of_nat i))) 0 (seq 0 n)) z =
  if z <? 8 * Z.of_nat n then Z.testbit (x !!! Z.to_nat (z / 8)) (z mod 8) else false.
Proof.
  intros Hx Hz. induction n as [|n IH]; [rewrite (proj2 (Z.ltb_ge _ _)) by lia; apply Z.bits_0|].
  rewrite seq_S, foldl_app. cbn [foldl]. rewrite Z.lor_spec, Z.shiftl_spec, IH by done. cbn [plus].
  pose proof (byte_lookup x n Hx) as Hb. destruct (Z.ltb_spec z (8 * Z.of_nat n)).
  - rewrite (byte_bit (x !!! n)), (proj2 (Z.ltb_lt _ _)), orb_false_r by (done || lia). done.
  - cbn [orb]. destruct (Z.ltb_spec z (8 * Z.of_nat (S n))); [|apply byte_bit; [done|lia]].
    rewrite <- (Z.div_unique z 8 (Z.of_nat n) (z - 8 * Z.of_nat n)), <- (Z.mod_unique z 8 (Z.of_nat n) (z - 8 * Z.of_nat n)) by lia.
    by rewrite Nat2Z.id.
Qed.

Lemma lane_load64 x : Forall is_byte x -> is_lane (load64 x).
Proof.
  intros Hx. apply lane_of_bits.
  - unfold load64. cbn [seq foldl]. repeat (apply Z.lor_nonneg; split); [lia|apply Z.shiftl_nonneg, byte_lookup; done..].
  - intros z Hz. unfold load64. rewrite load_bits by (done || lia). by rewrite (proj2 (Z.ltb_ge _ _)) by lia.
Qed.

(** The loop that xors lanes into the state. *)
Lemma xor_lanes f n st : (n <= length st)%nat ->
  let st' := foldl (fun st i => xor_at i (f i) st) st (seq 0 n) in
  length st' = length st /\ forall k, st' !!! k = if bool_decide (k < n)%nat then Z.lxor (st !!! k) (f k) else st !!! k.
Proof.
  induction n as [|n IH]; intros Hn; [done|]. rewrite seq_S, foldl_app. cbn [foldl plus]. destruct (IH ltac:(lia)) as [Hl Hk].
  set (st' := foldl _ _ _) in *. split; [unfold xor_at; by rewrite length_insert|]. intros k. rewrite xor_at_lookup by lia.
  rewrite !Hk. repeat case_bool_decide; subst; (done || lia).
Qed.

Lemma absorb_ok st A block rate :
  holds_bits st A -> Forall is_byte block -> length block = rate -> (rate = 8 * (rate / 8))%nat -> (rate / 8 <= 25)%nat ->
  holds_bits (keccak_absorb_block st block rate) (s_absorb A block).
Proof.
  intros [Hok Hb] Hby Hlen Hr Hle. apply keccakf_ok.
  destruct (xor_lanes (fun i => load64 (drop (8 * i) block)) (rate / 8) st) as [Hl Hk]; [by rewrite (proj1 Hok)|].
  set (st' := foldl _ _ _) in *. assert (forall i, Forall is_byte (drop i block)) as Hd by (intros; by apply Forall_drop). split.
  - split; [by rewrite Hl; apply Hok|]. apply Forall_lookup_2. intros k a Ha. apply list_lookup_total_correct in Ha as <-. rewrite Hk.
    case_bool_decide; [apply lane_lxor; [by apply lanes_lookup|by apply lane_load64]|by apply lanes_lookup].
  - intros x y z Hx Hy Hz. rewrite Hk, <- Hb by done. unfold block_bit. pose proof (Z.div_lt_upper_bound z 8 8 ltac:(lia) ltac:(lia)).
    pose proof (Z.div_pos z 8 ltac:(lia) ltac:(lia)). case_bool_decide as E.
    + rewrite Z.lxor_spec. unfold load64. rewrite load_bits, (proj2 (Z.ltb_lt _ _)) by (done || lia). rewrite lookup_total_drop.
      destruct (lookup_lt_is_Some_2 block (8 * (x + 5 * y) + Z.to_nat (z / 8))) as [b Eb]; [lia|].
      by rewrite Eb, (list_lookup_total_correct _ _ _ Eb).
    + rewrite lookup_ge_None_2 by lia. cbn [default from_option]. by rewrite Z.bits_0, xorb_false_r.
Qed.

Lemma store64_bit u j i : (j < 8)%nat -> 0 <= i < 8 -> Z.testbit (store64 u !!! j) i = Z.testbit u (8 * Z.of_nat j + i).
Proof.
  intros Hj Hi. unfold store64.
  assert (map (fun i => Z.shiftr u (8 * Z.of_nat i) mod 256) (seq 0 8) !!! j = Z.shiftr u (8 * Z.of_nat j) mod 2 ^ 8) as ->.
  { apply list_lookup_total_correct. rewrite list_lookup_fmap, lookup_seq_lt by done. done. }
  rewrite Z.mod_pow2_bits_low, Z.shiftr_spec by lia. f_equal. lia.
Qed.

Lemma store64_byte u : length (store64 u) = 8%nat /\ Forall is_byte (store64 u).
Proof. split; [done|]. apply Forall_fmap, Forall_seq. intros. apply byte_range. Qed.

Lemma concat_lookup (f : nat -> bytes) n s k : (forall i, length (f i) = 8%nat) -> (k < 8 * n)%nat ->
  concat (map f (seq s n)) !!! k = f (s + k / 8)%nat !!! (k mod 8)%nat.
Proof.
  intros Hf. revert s k. induction n as [|n IH]; intros s k Hk; [lia|]. cbn [seq map concat]. destruct (Nat.lt_ge_cases k 8).
  - rewrite lookup_total_app_l by (by rewrite Hf). by rewrite Nat.div_small, Nat.add_0_r, Nat.mod_small by done.
  - rewrite lookup_total_app_r, Hf, IH by (rewrite ?Hf; lia). replace k with (k - 8 + 1 * 8)%nat at 3 4 by lia.
    rewrite Nat.div_add, Nat.Div0.mod_add by lia. f_equal. f_equal. lia.
Qed.

Lemma concat_words (f : nat -> bytes) n s : (forall i, length (f i) = 8%nat /\ Forall is_byte (f i)) ->
  length (concat (map f (seq s n))) = (8 * n)%nat /\ Forall is_byte (concat (map f (seq s n))).
Proof.
  intros Hf. revert s. induction n as [|n IH]; intros s; [done|]. cbn [seq map concat]. destruct (IH (S s)) as [H1 H2].
  split; [rewrite length_app, H1, (proj1 (Hf s)); lia|]. apply Forall_app_2; [apply Hf|done].
Qed.

#[local] Opaque keccakf s_keccakf.

Section SpongeFacts.
Context (RATE OUTPUT_SIZE : nat).
Hypothesis rate_words : RATE = (8 * (RATE / 8))%nat.
Hypothesis rate_range : (1 <= RATE / 8 <= 25)%nat.

(** The state after the first [n] blocks of a message. *)
Definition absorbed (n : nat) (m : bytes) : lanes :=
  foldl (fun st i => keccak_absorb_block st (block_at RATE i m) RATE) (replicate 25 0) (seq 0 n).

(** The object has taken in the message [m]. *)
Definition taken (h : CKeccak) (m : bytes) : Prop :=
  m_state h = absorbed (length m / RATE) m /\ m_buflen h = (length m mod RATE)%nat /\ length (m_buf h) = RATE /\
  take (m_buflen h) (m_buf h) = drop (RATE * (length m / RATE)) m.

Lemma absorbed_S n m : absorbed (S n) m = keccak_absorb_block (absorbed n m) (block_at RATE n m) RATE.
Proof. unfold absorbed. rewrite seq_S, foldl_app. reflexivity. Qed.

Lemma block_at_app n m l : (RATE * S n <= length m)%nat -> block_at RATE n (m ++ l) = block_at RATE n m.
Proof. intros H. unfold block_at. rewrite drop_app_le, take_app_le by (rewrite ?length_drop; lia). reflexivity. Qed.

Lemma absorbed_app n m l : (RATE * n <= length m)%nat -> absorbed n (m ++ l) = absorbed n m.
Proof.
  induction n as [|n IH]; intros Hn; [unfold absorbed; cbn [seq foldl]; reflexivity|].
  rewrite !absorbed_S, IH, block_at_app by lia. reflexivity.
Qed.

Lemma construct_taken memory : length memory = RATE -> taken (construct memory) [].
Proof. intros H. unfold taken. cbn. rewrite Nat.Div0.div_0_l, Nat.Div0.mod_0_l. by rewrite drop_nil. Qed.

Lemma write_turn_taken h m data : taken h m -> data <> [] ->
  let '(h', rest) := write_turn RATE h data in
  exists l, data = l ++ rest /\ l <> [] /\ taken h' (m ++ l).
Proof.
  intros (Hs & Hn & Hlen & Hb) Hd. unfold write_turn. set (t := Nat.min (RATE - m_buflen h) (length data)).
  pose proof (Nat.div_mod_eq (length m) RATE) as Em. pose proof (Nat.mod_upper_bound (length m) RATE ltac:(lia)) as Hm.
  set (q := (length m / RATE)%nat) in *. set (r := (length m mod RATE)%nat) in *.
  assert (0 < length data)%nat by (destruct data; [done|cbn; lia]).
  assert (length (take t data) = t) as Ht by (apply length_take_le; lia).
  exists (take t data). split; [by rewrite take_drop|]. split; [intros E; rewrite E in Ht; cbn in Ht; lia|].
  set (buf := memcpy _ _ _).
  assert (length buf = RATE) as Hbl by (unfold buf, memcpy; rewrite !length_app, length_drop, length_take_le, Ht by lia; lia).
  assert (take (r + t) buf = drop (RATE * q) (m ++ take t data)) as Hnew.
  { rewrite drop_app_le by lia. rewrite <- Hb. unfold buf, memcpy. rewrite Hn, app_assoc. apply take_app_length'.
    rewrite length_app, length_take_le, Ht by lia. done. }
  unfold taken. rewrite length_app, Ht. case_bool_decide as E; cbn [m_state m_buf m_buflen].
  - assert (length m + t = RATE * S q)%nat as El by lia. rewrite El, (Nat.mul_comm RATE), Nat.div_mul, Nat.Div0.mod_mul by lia.
    split; [|split; [done|split; [done|]]].
    + assert (buf = block_at RATE q (m ++ take t data)) as ->.
      { unfold block_at. rewrite <- Hnew. replace (r + t)%nat with RATE by lia. rewrite !take_ge by (rewrite ?length_take; lia). reflexivity. }
      rewrite absorbed_S, absorbed_app, Hs by lia. reflexivity.
    + rewrite drop_ge by (rewrite length_app, Ht; lia). done.
  - assert (r + t < RATE)%nat by lia. assert (length m + t = RATE * q + (r + t))%nat as El by lia.
    rewrite <- (Nat.div_unique (length m + t) RATE q (r + t)), <- (Nat.mod_unique (length m + t) RATE q (r + t)) by lia.
    split; [by rewrite absorbed_app by lia|]. split; [by rewrite Hn|]. split; [done|]. by rewrite Hn.
Qed.

Lemma write_taken h m data : taken h m -> taken (Write RATE h data) (m ++ data).
Proof.
  unfold Write. generalize (le_n (length data)). generalize (length data) at 2 3. intros fuel. revert h m data.
  induction fuel as [|fuel IH]; intros h m data Hf Ht.
  - destruct data; [by rewrite app_nil_r|cbn in Hf; lia].
  - destruct data as [|b data]; [by rewrite app_nil_r|]. cbn [write_loop].
    pose proof (write_turn_taken h m (b :: data) Ht ltac:(done)) as H. destruct (write_turn _ _ _) as [h' rest].
    destruct H as (l & E & Hl & Ht'). rewrite E, app_assoc. apply IH; [|done].
    apply (f_equal length) in E. rewrite length_app in E. destruct l; [done|]. cbn in *. lia.
Qed.

Lemma writes_taken h m chunks : taken h m -> taken (foldl (Write RATE) h chunks) (m ++ concat chunks).
Proof.
  revert h m. induction chunks as [|c l IH]; intros h m H; cbn [foldl concat]; [by rewrite app_nil_r|].
  rewrite app_assoc. apply IH, write_taken, H.
Qed.

Lemma length_pad m : length (pad RATE m) = (RATE * (length m / RATE + 1))%nat.
Proof.
  unfold pad. rewrite length_app. pose proof (Nat.div_mod_eq (length m) RATE). pose proof (Nat.mod_upper_bound (length m) RATE ltac:(lia)).
  case_bool_decide; cbn [length]; rewrite ?length_app, ?length_replicate; cbn [length]; lia.
Qed.

Lemma pad_bytes m : Forall is_byte m -> Forall is_byte (pad RATE m).
Proof.
  intros H. apply Forall_app_2; [done|]. case_bool_decide; repeat constructor; try done.
  apply Forall_app_2; [apply Forall_replicate; done|]. repeat constructor; done.
Qed.

(** The buffer that [Finalize] absorbs is the last block of the padded message. *)
Lemma last_block h m : taken h m ->
  let buf := memcpy (m_buflen h) (replicate (RATE - m_buflen h) 0) (m_buf h) in
  let buf := <[m_buflen h := Z.lxor (buf !!! m_buflen h) 0x01]> buf in
  <[(RATE - 1)%nat := Z.lxor (buf !!! (RATE - 1)%nat) 0x80]> buf = block_at RATE (length m / RATE) (pad RATE m).
Proof.
  intros (_ & Hn & Hlen & Hb). pose proof (Nat.div_mod_eq (length m) RATE) as Em.
  pose proof (Nat.mod_upper_bound (length m) RATE ltac:(lia)) as Hm. unfold block_at, pad, memcpy. cbv zeta.
  rewrite drop_app_le, <- Hb, Hn by lia. set (r := (length m mod RATE)%nat) in *. set (d := take r (m_buf h)).
  assert (length d = r) as Hd by (apply length_take_le; lia).
  rewrite length_replicate, (drop_ge (m_buf h)), app_nil_r by lia. clearbody d r. clear Hb Hlen Hn. subst r.
  destruct (RATE - length d)%nat as [|k] eqn:Ek; [lia|]. cbn [replicate].
  rewrite !list_lookup_total_middle, insert_app_r_alt, Nat.sub_diag by (done || lia). cbn [insert list_insert].
  change (Z.lxor 0 1) with 1. destruct k as [|k].
  - rewrite bool_decide_true by done. assert (RATE - 1 = length d)%nat as -> by lia.
    rewrite list_lookup_total_middle, insert_app_r_alt, Nat.sub_diag by (done || lia). cbn [insert list_insert replicate].
    rewrite take_ge by (rewrite length_app; cbn; lia). reflexivity.
  - rewrite bool_decide_false by lia. replace (S (S k) - 2)%nat with k by lia. rewrite replicate_S_end.
    assert ((RATE - 1)%nat = length (d ++ 1 :: replicate k 0)) as -> by (rewrite length_app; cbn; rewrite length_replicate; lia).
    assert (forall x, d ++ 1 :: replicate k 0 ++ [x] = (d ++ 1 :: replicate k 0) ++ [x]) as Ha by (intros; by rewrite <- app_assoc).
    rewrite !Ha, list_lookup_total_middle, insert_app_r_alt, Nat.sub_diag by (done || lia). cbn [insert list_insert].
    rewrite take_ge by (rewrite !length_app; cbn; rewrite length_replicate; lia). reflexivity.
Qed.

Lemma absorbed_bits n m : Forall is_byte m -> (RATE * n <= length m)%nat ->
  holds_bits (absorbed n m) (foldl (fun A i => s_absorb A (block_at RATE i m)) (fun _ _ _ => false) (seq 0 n)).
Proof.
  intros Hm. induction n as [|n IH]; intros Hn.
  - split; [split; [done|apply Forall_replicate; split; [lia|done]]|]. intros x y z Hx Hy Hz. unfold absorbed. cbn [seq foldl].
    rewrite lookup_total_replicate_2 by lia. apply Z.bits_0.
  - rewrite absorbed_S, seq_S, foldl_app. cbn [foldl plus].
    apply absorb_ok; [apply IH; lia|by apply Forall_take, Forall_drop| |done|lia].
    apply length_take_le. rewrite length_drop. lia.
Qed.

Lemma finalize_sponge h m : (OUTPUT_SIZE = 8 * (OUTPUT_SIZE / 8))%nat -> (OUTPUT_SIZE / 8 <= 25)%nat ->
  taken h m -> Forall is_byte m ->
  let '(out, h') := Finalize RATE OUTPUT_SIZE h in
  length out = OUTPUT_SIZE /\ Forall is_byte out /\ h' = construct (replicate RATE 0) /\
  forall k i, (k < OUTPUT_SIZE)%nat -> 0 <= i < 8 ->
    Z.testbit (out !!! k) i = sponge RATE m ((k / 8) mod 5) (k / 8 / 5) (8 * Z.of_nat (k mod 8) + i).
Proof.
  intros Ho Ho' Ht Hm. unfold Finalize. cbn [m_state]. pose proof (last_block h m Ht) as Hl. cbv zeta in Hl. rewrite Hl.
  destruct Ht as (-> & _). rewrite <- (absorbed_app (length m / RATE) m (drop (length m) (pad RATE m)))
    by (pose proof (Nat.div_mod_eq (length m) RATE); lia).
  assert (m ++ drop (length m) (pad RATE m) = pad RATE m) as -> by (unfold pad; by rewrite drop_app_length).
  rewrite <- absorbed_S. pose proof (absorbed_bits (S (length m / RATE)) (pad RATE m) (pad_bytes m Hm)) as Hb.
  destruct Hb as [_ Hb]; [rewrite length_pad; lia|]. set (st := absorbed _ _) in *.
  destruct (concat_words (fun i => store64 (st !!! i)) (OUTPUT_SIZE / 8) 0 ltac:(intros; apply store64_byte)) as [H1 H2].
  split; [by rewrite H1|]. split; [done|]. split; [done|]. intros k i Hk Hi.
  assert (k mod 8 < 8)%nat by (apply Nat.mod_upper_bound; lia).
  rewrite concat_lookup, store64_bit by (try (intros; apply store64_byte); done || lia). cbn [plus].
  pose proof (Nat.Div0.div_lt_upper_bound k 8 (OUTPUT_SIZE / 8) ltac:(lia)) as Hq. set (q := (k / 8)%nat) in *.
  rewrite (Nat.div_mod_eq q 5) at 1. rewrite Nat.add_comm. unfold sponge. rewrite (Nat.add_1_r (length m / RATE)).
  apply Hb; [apply mod5|apply Nat.Div0.div_lt_upper_bound; lia|lia].
Qed.
End SpongeFacts.

Lemma hash_bytes rate n data : length (hash rate (8 * n) data) = (8 * n)%nat /\ Forall is_byte (hash rate (8 * n) data).
Proof.
  unfold hash, Finalize. cbn [fst]. rewrite (Nat.mul_comm 8), Nat.div_mul, (Nat.mul_comm n) by lia.
  apply concat_words. intros. apply store64_byte.
Qed.

Lemma Keccak256_bytes data : length (Keccak256 data) = 32%nat /\ Forall is_byte (Keccak256 data).
Proof. exact (hash_bytes 136 4 data). Qed.

Lemma Keccak512_bytes data : length (Keccak512 data) = 64%nat /\ Forall is_byte (Keccak512 data).
Proof. exact (hash_bytes 72 8 data). Qed.

(** C19. Keccak.  For both hash sizes, whatever the memory of the buffer was and
    however the data is cut into writes, [Finalize] returns the bits that the
    sponge of FIPS 202 squeezes from the padded data, with the permutation stated
    bit by bit, and leaves the object as new. *)
Theorem keccak_is_sponge rate out_size (memory : bytes) (chunks : list bytes) :
  (rate, out_size) = (136, 32)%nat \/ (rate, out_size) = (72, 64)%nat ->
  length memory = rate -> Forall is_byte (concat chunks) ->
  let '(out, h) := Finalize rate out_size (foldl (Write rate) (construct memory) chunks) in
  length out = out_size /\ Forall is_byte out /\ h = construct (replicate rate 0) /\
  forall k i, (k < out_size)%nat -> 0 <= i < 8 ->
    Z.testbit (out !!! k) i = sponge rate (concat chunks) ((k / 8) mod 5) (k / 8 / 5) (8 * Z.of_nat (k mod 8) + i).
Proof.
  intros Hs Hm Hb.
  assert ((rate = 8 * (rate / 8) /\ 1 <= rate / 8 <= 25 /\ out_size = 8 * (out_size / 8) /\ out_size / 8 <= 25)%nat) as (H1 & H2 & H3 & H4)
    by (destruct Hs as [[= -> ->]|[= -> ->]]; cbn; lia).
  apply finalize_sponge; try done. apply (writes_taken rate H1 H2 (construct memory) [] chunks), construct_taken; done.
Qed.

Lemma keccak_is_sponge_witness :
  let '(out, _) := Finalize 136 32 (foldl (Write 136) (construct (replicate 136 7)) [[1]; []; [2; 3]]) in
  length out = 32%nat /\ out = Keccak256 [1; 2; 3].
Proof.
  pose proof (keccak_is_sponge 136 32 (replicate 136 7) [[1]; []; [2; 3]] (or_introl eq_refl) eq_refl
    ltac:(repeat constructor; done)) as H.
  destruct (Finalize 136 32 _) as [out h] eqn:E. destruct H as (H & _). split; [exact H|].
  apply (f_equal fst) in E. change ((out, h).1) with out in E. rewrite <- E. vm_compute. reflexivity.
Defined.
