(* ===== verification/Etchash.v ===== *)
(** * Etchash: the light verification

    Cache generation, dataset items and [HashimotoLight] of
    [src/crypto/etchash.cpp], on flat arrays.  [None] is a read or write outside
    an array, or a division by zero; 32- and 64-bit products and sums wrap where
    the source's types do.  The specification is Ethash on rows, over unbounded
    integers. *)

From Stdlib Require Import ZArith Lia.
From stdpp Require Import base list list_numbers numbers option.
From S2P Require Import Prelude Bytes Compact Sha256 Keccak EtchashSize.

Open Scope Z_scope.

Definition HASH_WORDS : nat := 16.
Definition MIX_WORDS : nat := 32.
Definition DATASET_PARENTS : nat := 256.
Definition CACHE_ROUNDS : nat := 3.
Definition LOOP_ACCESSES : nat := 64.

(** ** Words and arrays *)

Definition fnv1a (a b : Z) : Z := Z.lxor (w32 (a * 0x01000193)) b.

Definition load32 (p : bytes) (off : nat) : option Z :=
  b0 ← p !! off; b1 ← p !! (off + 1)%nat; b2 ← p !! (off + 2)%nat; b3 ← p !! (off + 3)%nat;
  Some (Z.lor (Z.lor (Z.lor b0 (Z.shiftl b1 8)) (Z.shiftl b2 16)) (Z.shiftl b3 24)).

Definition store32 (v : Z) : bytes := [v mod 256; Z.shiftr v 8 mod 256; Z.shiftr v 16 mod 256; Z.shiftr v 24 mod 256].

(** [Keccak512(..., cache.data() + off)] and [cache.data() + off] as an input. *)
Definition put (off : nat) (data buf : bytes) : option bytes :=
  if bool_decide (off + length data <= length buf)%nat then Some (memcpy off data buf) else None.

Definition get (off n : nat) (buf : bytes) : option bytes :=
  if bool_decide (off + n <= length buf)%nat then Some (take n (drop off buf)) else None.

(** [fnv_hash(mix, data, n)]. *)
Definition fnv_hash (mix : list Z) (data : nat -> option Z) (n : nat) : option (list Z) :=
  loop (seq 0 n) (fun i mix => m ← mix !! i; d ← data i; Some (<[i := fnv1a m d]> mix)) mix.

(** [for (i = 0; i < n; ++i) out[i] = load32(p + 4 * i)]. *)
Definition load_words (p : bytes) (n : nat) : option (list Z) := mapM (fun i => load32 p (4 * i)) (seq 0 n).

(** ** The program *)

Definition SeedForEpoch (epoch : Z) : bytes := Z.iter epoch Keccak256 (replicate 32 0).

(** One step of the rounds over the rows of the cache. *)
Definition memo_step (rows : Z) (j : nat) (cache : bytes) : option bytes :=
  if w32 rows =? 0 then None else
  let src_off := u64 (u64 (u64 (Z.of_nat j - 1) + rows) mod rows * HASH_BYTES) in
  let dst_off := u64 (Z.of_nat j * HASH_BYTES) in
  v ← load32 cache (Z.to_nat dst_off);
  let xor_off := w32 (v mod w32 rows * HASH_BYTES) in
  a ← get (Z.to_nat src_off) 64 cache;
  b ← get (Z.to_nat xor_off) 64 cache;
  put (Z.to_nat dst_off) (Keccak512 (zip_with Z.lxor a b)) cache.

Definition GenerateCache (cache_size : Z) (seed : bytes) : option (list Z) :=
  let rows := cache_size / HASH_BYTES in
  let n := Z.to_nat rows in
  cache ← put 0 (Keccak512 seed) (replicate (Z.to_nat cache_size) 0);
  cache ← loop (seq 1 (Z.to_nat ((cache_size - 1) / HASH_BYTES))) (fun i cache =>
    d ← get (64 * i - 64) 64 cache;
    put (64 * i) (Keccak512 d) cache) cache;
  cache ← loop (seq 0 CACHE_ROUNDS) (fun _ cache => loop (seq 0 n) (memo_step rows) cache) cache;
  load_words cache (Z.to_nat (cache_size / 4)).

Definition GenerateDatasetItem (cache_words : list Z) (index : Z) : option bytes :=
  let rows := w32 (Z.of_nat (length cache_words) / Z.of_nat HASH_WORDS) in
  if rows =? 0 then None else
  let base := w32 (index mod rows * Z.of_nat HASH_WORDS) in
  w0 ← cache_words !! Z.to_nat base;
  rest ← mapM (fun i => cache_words !! Z.to_nat (w32 (base + Z.of_nat i))) (seq 1 (HASH_WORDS - 1));
  let mix := concat (map store32 (Z.lxor w0 index :: rest)) in
  int_mix ← load_words (Keccak512 mix) HASH_WORDS;
  int_mix ← loop (seq 0 DATASET_PARENTS) (fun i int_mix =>
    m ← int_mix !! (i mod 16)%nat;
    let parent := fnv1a (Z.lxor index (Z.of_nat i)) m mod rows in
    fnv_hash int_mix (fun k => cache_words !! (Z.to_nat (w32 (parent * Z.of_nat HASH_WORDS)) + k)%nat) HASH_WORDS) int_mix;
  Some (Keccak512 (concat (map store32 int_mix))).

(** One access to the dataset. *)
Definition mix_access (rows : Z) (cache_words : list Z) (seed_head : Z) (i : nat) (mix : list Z) : option (list Z) :=
  m ← mix !! (i mod MIX_WORDS)%nat;
  if rows =? 0 then None else
  let parent := fnv1a (Z.lxor (Z.of_nat i) seed_head) m mod rows in
  item ← GenerateDatasetItem cache_words (w32 (2 * parent));
  temp ← load_words item HASH_WORDS;
  item' ← GenerateDatasetItem cache_words (w32 (w32 (2 * parent) + 1));
  temp' ← load_words item' HASH_WORDS;
  fnv_hash mix (fun k => (temp ++ temp') !! k) MIX_WORDS.

(** One step of the compression of the mix, in place. *)
Definition compress_step (k : nat) (mix : list Z) : option (list Z) :=
  m0 ← mix !! (4 * k)%nat; m1 ← mix !! (4 * k + 1)%nat; m2 ← mix !! (4 * k + 2)%nat; m3 ← mix !! (4 * k + 3)%nat;
  Some (<[k := fnv1a (fnv1a (fnv1a m0 m1) m2) m3]> mix).

Definition HashimotoLight (dataset_size : Z) (cache_words : list Z) (header_hash : bytes) (nonce : Z) : option (bytes * bytes) :=
  let rows := w32 (dataset_size / MIX_BYTES) in
  let seed := Keccak512 (header_hash ++ store32 (w32 nonce) ++ store32 (w32 (Z.shiftr nonce 32))) in
  seed_head ← load32 seed 0;
  mix ← mapM (fun i => load32 seed (4 * (i mod HASH_WORDS))) (seq 0 MIX_WORDS);
  mix ← loop (seq 0 LOOP_ACCESSES) (mix_access rows cache_words seed_head) mix;
  mix ← loop (seq 0 8) compress_step mix;
  let digest := concat (map store32 (take 8 mix)) in
  Some (digest, Keccak256 (seed ++ digest)).

(** ** Ethash *)

Definition words_of (bs : bytes) : list Z := map (fun i => le_value (take 4 (drop (4 * i) bs))) (seq 0 (length bs / 4)).
Definition bytes_of (ws : list Z) : bytes := concat (map (le_bytes 4) ws).

(** Hashing rows of words. *)
Definition h512 (ws : list Z) : list Z := words_of (Keccak512 (bytes_of ws)).

Definition fnv (a b : Z) : Z := Z.lxor (a * 0x01000193 mod 2 ^ 32) b.

Definition mkcache_step (n : nat) (o : list bytes) (i : nat) : list bytes :=
  let v := words_of (o !!! i) !!! 0%nat mod Z.of_nat n in
  <[i := Keccak512 (zip_with Z.lxor (o !!! ((i + n - 1) mod n)%nat) (o !!! Z.to_nat v))]> o.

Definition mkcache (n : nat) (seed : bytes) : list bytes :=
  let o := map (fun i => Nat.iter i Keccak512 (Keccak512 seed)) (seq 0 n) in
  foldl (fun o _ => foldl (mkcache_step n) o (seq 0 n)) o (seq 0 3).

Definition calc_dataset_item (cache : list (list Z)) (i : Z) : list Z :=
  let n := Z.of_nat (length cache) in
  let mix := cache !!! Z.to_nat (i mod n) in
  let mix := h512 (alter (fun w => Z.lxor w i) 0%nat mix) in
  let mix := foldl (fun mix j =>
    zip_with fnv mix (cache !!! Z.to_nat (fnv (Z.lxor i (Z.of_nat j)) (mix !!! (j mod 16)%nat) mod n))) mix (seq 0 256) in
  h512 mix.

(** One access to the dataset, whose items [lookup] gives. *)
Definition hashimoto_step (n : Z) (s0 : Z) (lookup : Z -> list Z) (mix : list Z) (i : nat) : list Z :=
  let p := fnv (Z.lxor (Z.of_nat i) s0) (mix !!! (i mod 32)%nat) mod (n / 2) * 2 in
  zip_with fnv mix (lookup p ++ lookup (p + 1)).

Definition hashimoto (header : bytes) (nonce : Z) (full_size : Z) (lookup : Z -> list Z) : list Z * bytes :=
  let s := Keccak512 (header ++ le_bytes 8 nonce) in
  let mix := foldl (hashimoto_step (full_size / 64) (words_of s !!! 0%nat) lookup) (words_of s ++ words_of s) (seq 0 64) in
  let cmix := map (fun k => fnv (fnv (fnv (mix !!! (4 * k)%nat) (mix !!! (4 * k + 1)%nat)) (mix !!! (4 * k + 2)%nat)) (mix !!! (4 * k + 3)%nat))
    (seq 0 8) in
  (cmix, Keccak256 (s ++ bytes_of cmix)).

#[local] Opaque Keccak256 Keccak512.

(** ** Loads and stores *)

Lemma load32_value p off : Forall is_byte p -> (off + 4 <= length p)%nat -> load32 p off = Some (le_value (take 4 (drop off p))).
Proof.
  intros Hp Hl. unfold load32. rewrite <- (Nat.add_0_r off) at 1. rewrite <- !lookup_drop.
  pose proof (Forall_drop _ off _ Hp) as Hd. assert (4 <= length (drop off p))%nat as Hl' by (rewrite length_drop; lia).
  destruct (drop off p) as [|b0 [|b1 [|b2 [|b3 l]]]]; try (cbn in Hl'; lia). cbn [lookup list_lookup mbind option_bind take le_value].
  do 4 (apply Forall_cons_1 in Hd as [? Hd]). unfold is_byte in *. f_equal.
  rewrite (lor_shift b0 b1 8), (lor_shift (b0 + b1 * 2 ^ 8) b2 16), (lor_shift (b0 + b1 * 2 ^ 8 + b2 * 2 ^ 16) b3 24) by lia.
  change (le_value (take 0 l)) with 0. lia.
Qed.

Lemma store32_bytes v : store32 v = le_bytes 4 v.
Proof.
  unfold store32. cbn [le_bytes]. rewrite !Z.shiftr_div_pow2, !Z.div_div by lia. done.
Qed.

Lemma store_words ws : concat (map store32 ws) = bytes_of ws.
Proof. unfold bytes_of. f_equal. apply map_ext. exact store32_bytes. Qed.

Lemma load_words_value p n : Forall is_byte p -> (4 * n <= length p)%nat ->
  load_words p n = Some (map (fun i => le_value (take 4 (drop (4 * i) p))) (seq 0 n)).
Proof. intros Hp Hn. apply mapM_some. intros i Hi%elem_of_seq. apply load32_value; [done|lia]. Qed.

Lemma length_words_of bs n : length bs = (4 * n)%nat -> length (words_of bs) = n.
Proof. intros H. unfold words_of. rewrite length_map, length_seq, H, Nat.mul_comm. by apply Nat.div_mul. Qed.

Lemma load_words_of p n : Forall is_byte p -> length p = (4 * n)%nat -> load_words p n = Some (words_of p).
Proof. intros Hp Hn. rewrite load_words_value by (done || lia). unfold words_of. by rewrite Hn, (Nat.mul_comm 4), Nat.div_mul. Qed.

Lemma words_of_app a b n : length a = (4 * n)%nat -> words_of (a ++ b) = words_of a ++ words_of b.
Proof.
  intros Ha. unfold words_of. rewrite length_app, Ha, (Nat.mul_comm 4), (Nat.add_comm (n * 4)), Nat.div_add, Nat.div_mul by lia.
  rewrite (Nat.add_comm _ n), seq_app, map_app. f_equal.
  - apply map_ext_in. intros i Hi%in_seq. rewrite drop_app_le, take_app_le by (rewrite ?length_drop; lia). done.
  - rewrite <- (Nat.add_0_r (0 + n)), <- fmap_add_seq. change (fmap (Nat.add (0 + n)) (seq 0 (length b / 4))) with (map (Nat.add (0 + n)) (seq 0 (length b / 4))).
    rewrite map_map. apply map_ext. intros i. rewrite drop_app_ge by lia. do 3 f_equal. lia.
Qed.

(** The loop of [fnv_hash]. *)
Lemma fnv_loop (data : nat -> option Z) ms ds pre :
  length ms = length ds -> (forall k, (k < length ds)%nat -> data (length pre + k)%nat = Some (ds !!! k)) ->
  loop (seq (length pre) (length ms)) (fun i mix => m ← mix !! i; d ← data i; Some (<[i := fnv1a m d]> mix)) (pre ++ ms) =
  Some (pre ++ zip_with fnv ms ds).
Proof.
  revert ds pre. induction ms as [|m ms IH]; intros [|d ds] pre Hl Hd; try done. cbn [length seq loop].
  rewrite list_lookup_middle by done. cbn [mbind option_bind]. specialize (Hd 0%nat ltac:(cbn; lia)) as H0. rewrite Nat.add_0_r in H0.
  rewrite H0. cbn [mbind option_bind lookup_total list_lookup_total]. rewrite insert_app_r_alt, Nat.sub_diag by lia. cbn [insert list_insert].
  specialize (IH ds (pre ++ [fnv1a m d])). rewrite length_app in IH. cbn [length] in IH. rewrite Nat.add_1_r, <- !app_assoc in IH. cbn [app] in IH.
  rewrite IH; [done|cbn in Hl; lia|]. intros k Hk. etransitivity; [|exact (Hd (S k) ltac:(cbn; lia))]. f_equal. lia.
Qed.

Lemma fnv_hash_zip mix (data : nat -> option Z) ds n :
  length mix = n -> length ds = n -> (forall k, (k < n)%nat -> data k = Some (ds !!! k)) -> fnv_hash mix data n = Some (zip_with fnv mix ds).
Proof. intros <- Hd H. apply (fnv_loop data mix ds []); [done|]. rewrite Hd. exact H. Qed.


(** The in-place compression of the mix. *)
Lemma compress_mix mix : length mix = 32%nat ->
  exists mix', loop (seq 0 8) compress_step mix = Some mix' /\
  take 8 mix' = map (fun k => fnv (fnv (fnv (mix !!! (4 * k)%nat) (mix !!! (4 * k + 1)%nat)) (mix !!! (4 * k + 2)%nat)) (mix !!! (4 * k + 3)%nat)) (seq 0 8).
Proof.
  intros H. do 32 (destruct mix as [|? mix]; [discriminate H|]). destruct mix; [|discriminate H]. eexists. split; reflexivity.
Qed.

(** ** Flat arrays of rows *)

Section Rows.
Context {A : Type} (w : nat).
Implicit Type o : list (list A).

Definition rows_ok o : Prop := Forall (fun r => length r = w) o.

Lemma length_rows o : rows_ok o -> length (concat o) = (w * length o)%nat.
Proof. induction 1 as [|r o Hr _ IH]; [cbn; lia|]. cbn [concat length]. rewrite length_app, IH, Hr. lia. Qed.

Lemma rows_split o i r : rows_ok o -> o !! i = Some r ->
  exists a b, concat o = a ++ r ++ b /\ length a = (w * i)%nat /\ length r = w /\
    forall r', concat (<[i := r']> o) = a ++ r' ++ b.
Proof.
  intros Ho Hi. exists (concat (take i o)), (concat (drop (S i) o)). pose proof (lookup_lt_Some _ _ _ Hi) as Hl.
  assert (length (concat (take i o)) = (w * i)%nat) as Ht
    by (rewrite length_rows by (by apply Forall_take); by rewrite length_take_le by lia).
  split; [|split; [done|split; [exact (Forall_lookup_1 _ _ _ _ Ho Hi)|]]].
  - rewrite <- (take_drop_middle o i r Hi) at 1. by rewrite concat_app.
  - intros r'. rewrite insert_take_drop by done. by rewrite concat_app.
Qed.

Lemma rows_lookup o i r k : rows_ok o -> o !! i = Some r -> (k < w)%nat -> concat o !! (w * i + k)%nat = r !! k.
Proof.
  intros Ho Hi Hk. destruct (rows_split o i r Ho Hi) as (a & b & -> & Ha & Hr & _).
  rewrite lookup_app_r, Ha by lia. replace (w * i + k - w * i)%nat with k by lia. apply lookup_app_l. lia.
Qed.
End Rows.
#[local] Hint Unfold rows_ok : core.

Lemma get_row o i r : rows_ok 64 o -> o !! i = Some r -> get (64 * i) 64 (concat o) = Some r.
Proof.
  intros Ho Hi. unfold get. destruct (rows_split 64 o i r Ho Hi) as (a & b & -> & Ha & Hr & _).
  rewrite bool_decide_true by (rewrite !length_app; lia). by rewrite <- Ha, drop_app_length, <- Hr, take_app_length.
Qed.

Lemma put_row o i r : rows_ok 64 o -> (i < length o)%nat -> length r = 64%nat ->
  put (64 * i) r (concat o) = Some (concat (<[i := r]> o)) /\ rows_ok 64 (<[i := r]> o).
Proof.
  intros Ho Hi Hr. split; [|by apply Forall_insert]. destruct (lookup_lt_is_Some_2 _ _ Hi) as [r0 H0].
  destruct (rows_split 64 o i r0 Ho H0) as (a & b & Ec & Ha & Hr0 & ->). rewrite Ec. unfold put, memcpy.
  rewrite bool_decide_true by (rewrite !length_app; lia). f_equal.
  rewrite <- Ha, take_app_length. do 2 f_equal. rewrite drop_app_ge by lia. replace (length a + length r - length a)%nat with (length r0) by lia.
  apply drop_app_length.
Qed.

Lemma load32_row o i r : rows_ok 64 o -> Forall is_byte (concat o) -> o !! i = Some r ->
  load32 (concat o) (64 * i) = Some (words_of r !!! 0%nat).
Proof.
  intros Ho Hb Hi. destruct (rows_split 64 o i r Ho Hi) as (a & b & Ec & Ha & Hr & _).
  rewrite load32_value by (done || (rewrite Ec, !length_app; lia)). f_equal. rewrite Ec, <- Ha, drop_app_length.
  unfold words_of. rewrite Hr. cbn [Nat.div]. change (64 / 4)%nat with 16%nat. cbn [seq map lookup_total list_lookup_total].
  by rewrite take_app_le by lia.
Qed.

Lemma words_of_rows o : rows_ok 64 o -> words_of (concat o) = concat (map words_of o).
Proof.
  induction 1 as [|r o Hr _ IH]; [done|]. cbn [concat map]. rewrite (words_of_app r (concat o) 16) by (by rewrite Hr). by rewrite IH.
Qed.

Lemma w32_small n : 0 <= n < 2 ^ 32 -> w32 n = n.
Proof. apply Z.mod_small. Qed.

Lemma length_h512 ws : length (h512 ws) = 16%nat.
Proof. apply length_words_of, Keccak512_bytes. Qed.

Lemma load_h512 ws : load_words (Keccak512 (bytes_of ws)) 16 = Some (h512 ws).
Proof. apply load_words_of; apply Keccak512_bytes. Qed.

(** From here on loops are followed by [loop_fold], never run. *)
#[local] Opaque loop.

(** ** Dataset items *)

Section Item.
Context (cache : list (list Z)).
Hypothesis cache_rows : rows_ok 16 cache.
Hypothesis cache_size : (0 < length cache)%nat /\ Z.of_nat (length cache) < 2 ^ 28.

Let n := Z.of_nat (length cache).

Lemma item_rows : w32 (Z.of_nat (length (concat cache)) / Z.of_nat HASH_WORDS) = n.
Proof.
  rewrite (length_rows 16) by done. rewrite Nat2Z.inj_mul. change (Z.of_nat HASH_WORDS) with (Z.of_nat 16).
  rewrite Z.mul_comm, Z.div_mul by done. apply w32_small. unfold n. lia.
Qed.

(** Reading word [k] of row [q mod n]. *)
Lemma item_word q k : (k < 16)%nat ->
  concat cache !! (Z.to_nat (w32 (q mod n * Z.of_nat HASH_WORDS)) + k)%nat = Some ((cache !!! Z.to_nat (q mod n)) !!! k) /\
  Z.to_nat (w32 (w32 (q mod n * Z.of_nat HASH_WORDS) + Z.of_nat k)) = (Z.to_nat (w32 (q mod n * Z.of_nat HASH_WORDS)) + k)%nat /\
  length (cache !!! Z.to_nat (q mod n)) = 16%nat.
Proof.
  intros Hk. pose proof (Z.mod_pos_bound q n ltac:(unfold n; lia)) as Hq. set (i := q mod n) in *.
  change (Z.of_nat HASH_WORDS) with 16. rewrite !w32_small by (unfold n in *; lia).
  assert (Z.to_nat i < length cache)%nat as Hi by (unfold n in *; lia). pose proof (lookup_some cache _ Hi) as Hr.
  pose proof (Forall_lookup_1 _ _ _ _ cache_rows Hr) as Hl. cbn beta in Hl. split; [|split; [lia|done]].
  replace (Z.to_nat (i * 16) + k)%nat with (16 * Z.to_nat i + k)%nat by lia.
  rewrite (rows_lookup 16 cache _ _ k cache_rows Hr) by done. apply lookup_some. lia.
Qed.

Lemma dataset_item i : exists out, GenerateDatasetItem (concat cache) i = Some out /\
  load_words out HASH_WORDS = Some (calc_dataset_item cache i).
Proof.
  unfold GenerateDatasetItem. rewrite item_rows. rewrite (proj2 (Z.eqb_neq _ _)) by (unfold n; lia).
  pose proof (fun k => item_word i k) as Hw. destruct (Hw 0%nat ltac:(lia)) as (H0 & _ & Hl).
  rewrite Nat.add_0_r in H0. rewrite H0. cbn [mbind option_bind].
  set (row := cache !!! Z.to_nat (i mod n)) in *.
  rewrite (mapM_some _ (fun k => row !!! k)).
  2: { intros k Hk%elem_of_seq. destruct (Hw k ltac:(unfold HASH_WORDS in *; lia)) as (Hk1 & Hk2 & _). by rewrite Hk2, Hk1. }
  cbn [mbind option_bind]. rewrite store_words.
  assert (Z.lxor (row !!! 0%nat) i :: map (fun k => row !!! k) (seq 1 (HASH_WORDS - 1)) = alter (fun w => Z.lxor w i) 0%nat row) as ->.
  { clearbody row. do 16 (destruct row as [|? row]; [discriminate Hl|]). by destruct row. }
  rewrite load_h512. cbn [mbind option_bind].
  destruct (loop_fold (fun mix => length mix = 16%nat)
    (fun j int_mix => m ← int_mix !! (j mod 16)%nat;
       fnv_hash int_mix (fun k => concat cache !! (Z.to_nat (w32 (fnv1a (Z.lxor i (Z.of_nat j)) m mod n * Z.of_nat HASH_WORDS)) + k)%nat) HASH_WORDS)
    (fun mix j => zip_with fnv mix (cache !!! Z.to_nat (fnv (Z.lxor i (Z.of_nat j)) (mix !!! (j mod 16)%nat) mod n)))
    (seq 0 DATASET_PARENTS) (h512 (alter (fun w => Z.lxor w i) 0%nat row))) as [-> _].
  - intros j mix _ Hm. rewrite lookup_some by (rewrite Hm; apply Nat.mod_upper_bound; lia). cbn [mbind option_bind].
    change (fnv (Z.lxor i (Z.of_nat j)) ?m) with (fnv1a (Z.lxor i (Z.of_nat j)) m). set (q := fnv1a _ _). pose proof (fun k => item_word q k) as Hq.
    destruct (Hq 0%nat ltac:(lia)) as (_ & _ & Hr). split.
    + apply fnv_hash_zip; [done|done|]. intros k Hk. by apply Hq.
    + rewrite length_zip_with, Hm, Hr. done.
  - apply length_h512.
  - cbn [mbind option_bind]. eexists. split; [done|]. rewrite store_words. apply load_h512.
Qed.

Lemma length_item i : length (calc_dataset_item cache i) = 16%nat.
Proof. apply length_h512. Qed.
End Item.

(** ** The cache *)

(** Byte rows of the cache. *)
Definition cache_ok (n : nat) (o : list bytes) : Prop := length o = n /\ rows_ok 64 o /\ Forall is_byte (concat o).

Lemma rows_bytes o : Forall (Forall is_byte) o -> Forall is_byte (concat o).
Proof. induction 1; [done|]. by apply Forall_app_2. Qed.

Lemma bytes_rows o : Forall is_byte (concat o) -> Forall (Forall is_byte) o.
Proof. induction o as [|r o IH]; intros H; [done|]. apply Forall_app in H as [H1 H2]. constructor; auto. Qed.

Lemma cache_insert n o i r : cache_ok n o -> (i < n)%nat -> length r = 64%nat -> Forall is_byte r ->
  put (64 * i) r (concat o) = Some (concat (<[i := r]> o)) /\ cache_ok n (<[i := r]> o).
Proof.
  intros (Hl & Hr & Hb) Hi H64 Hrb. destruct (put_row o i r Hr ltac:(lia) H64) as [H1 H2]. split; [done|].
  split; [by rewrite length_insert|]. split; [done|]. apply rows_bytes, Forall_insert; [by apply bytes_rows|done].
Qed.

Section Cache.
Context (n : nat).
Hypothesis n_range : (0 < n)%nat /\ Z.of_nat n < 2 ^ 26.

Lemma memo_step_row o j : cache_ok n o -> (j < n)%nat ->
  memo_step (Z.of_nat n) j (concat o) = Some (concat (mkcache_step n o j)) /\ cache_ok n (mkcache_step n o j).
Proof.
  intros Hc Hj. pose proof Hc as (Hl & Hr & Hb). unfold memo_step. rewrite (w32_small (Z.of_nat n)) by lia.
  rewrite (proj2 (Z.eqb_neq _ _)) by lia.
  assert (u64 (u64 (Z.of_nat j - 1) + Z.of_nat n) mod Z.of_nat n = Z.of_nat ((j + n - 1) mod n)) as Es.
  { unfold u64. rewrite Zplus_mod_idemp_l, (Z.mod_small _ (2 ^ 64)) by lia. rewrite Nat2Z.inj_mod. f_equal. lia. }
  pose proof (Nat.mod_upper_bound (j + n - 1) n ltac:(lia)) as Hs. set (s := ((j + n - 1) mod n)%nat) in *.
  rewrite Es. change HASH_BYTES with 64. unfold u64. rewrite !(Z.mod_small (_ * 64) (2 ^ 64)) by lia.
  replace (Z.to_nat (Z.of_nat j * 64)) with (64 * j)%nat by lia. replace (Z.to_nat (Z.of_nat s * 64)) with (64 * s)%nat by lia.
  rewrite (load32_row o j (o !!! j) Hr Hb) by (apply lookup_some; lia). cbn [mbind option_bind].
  unfold mkcache_step. fold s. set (v := words_of (o !!! j) !!! 0%nat mod Z.of_nat n).
  pose proof (Z.mod_pos_bound (words_of (o !!! j) !!! 0%nat) (Z.of_nat n) ltac:(lia)) as Hv. fold v in Hv.
  rewrite w32_small by lia. replace (Z.to_nat (v * 64)) with (64 * Z.to_nat v)%nat by lia.
  rewrite (get_row o s _ Hr (lookup_some o s ltac:(lia))), (get_row o _ _ Hr (lookup_some o (Z.to_nat v) ltac:(lia))). cbn [mbind option_bind].
  apply cache_insert; [done|done|apply Keccak512_bytes..].
Qed.

(** The rows that the first loop has filled, followed by zeros. *)
Definition filled (seed : bytes) (i : nat) : list bytes :=
  map (fun k => Nat.iter k Keccak512 (Keccak512 seed)) (seq 0 i) ++ replicate (n - i) (replicate 64 0).

Lemma filled_row seed k : length (Nat.iter k Keccak512 (Keccak512 seed)) = 64%nat /\ Forall is_byte (Nat.iter k Keccak512 (Keccak512 seed)).
Proof. destruct k; apply Keccak512_bytes. Qed.

Lemma filled_lookup seed i k : (k < i)%nat -> filled seed i !! k = Some (Nat.iter k Keccak512 (Keccak512 seed)).
Proof.
  intros Hk. unfold filled. rewrite lookup_app_l by (rewrite length_map, length_seq; lia).
  rewrite list_lookup_fmap, lookup_seq_lt by done. done.
Qed.

Lemma filled_ok seed i : (i <= n)%nat -> cache_ok n (filled seed i).
Proof.
  intros Hi. unfold filled. split; [rewrite length_app, length_map, length_seq, length_replicate; lia|]. split; [|apply rows_bytes].
  - apply Forall_app_2; [apply Forall_fmap, Forall_seq; intros; apply filled_row|apply Forall_replicate; done].
  - apply Forall_app_2; [apply Forall_fmap, Forall_seq; intros; apply filled_row|].
    apply Forall_replicate, Forall_replicate. split; [lia|done].
Qed.

Lemma filled_S seed i : (i < n)%nat -> <[i := Nat.iter i Keccak512 (Keccak512 seed)]> (filled seed i) = filled seed (S i).
Proof.
  intros Hi. unfold filled. rewrite insert_app_r_alt by (rewrite length_map, length_seq; lia).
  rewrite length_map, length_seq, Nat.sub_diag. replace (n - i)%nat with (S (n - S i)) by lia. cbn [replicate insert list_insert].
  rewrite seq_S, map_app, <- app_assoc. done.
Qed.

Lemma first_loop seed k : (k < n)%nat ->
  loop (seq 1 k) (fun i cache => d ← get (64 * i - 64) 64 cache; put (64 * i) (Keccak512 d) cache) (concat (filled seed 1)) =
  Some (concat (filled seed (S k))).
Proof.
  intros Hk. assert (forall s, (1 <= s)%nat -> (s + k <= n)%nat ->
    loop (seq s k) (fun i cache => d ← get (64 * i - 64) 64 cache; put (64 * i) (Keccak512 d) cache) (concat (filled seed s)) =
    Some (concat (filled seed (s + k)))) as H; [|apply (H 1%nat); lia]. clear Hk.
  induction k as [|k IH]; intros s H1 H2; [by rewrite Nat.add_0_r, loop_nil|]. cbn [seq]. rewrite loop_cons.
  replace (64 * s - 64)%nat with (64 * (s - 1))%nat by lia. destruct (filled_ok seed s ltac:(lia)) as (Hl & Hr & Hb).
  rewrite (get_row _ (s - 1) _ Hr (filled_lookup seed s (s - 1) ltac:(lia))). cbn [mbind option_bind].
  destruct (put_row (filled seed s) s (Keccak512 (Nat.iter (s - 1) Keccak512 (Keccak512 seed))) Hr ltac:(lia) (proj1 (Keccak512_bytes _))) as [-> _].
  cbn [mbind option_bind]. change (Keccak512 (Nat.iter (s - 1) Keccak512 (Keccak512 seed))) with (Nat.iter (S (s - 1)) Keccak512 (Keccak512 seed)).
  replace (S (s - 1)) with s by lia. rewrite filled_S, IH by lia. do 3 f_equal. lia.
Qed.

Lemma generate_cache seed : GenerateCache (64 * Z.of_nat n) seed = Some (concat (map words_of (mkcache n seed))) /\ cache_ok n (mkcache n seed).
Proof.
  unfold GenerateCache. change HASH_BYTES with 64. rewrite (Z.mul_comm 64), Z.div_mul by done.
  assert (Z.to_nat ((Z.of_nat n * 64 - 1) / 64) = (n - 1)%nat) as -> by
    (rewrite <- (Z.div_unique (Z.of_nat n * 64 - 1) 64 (Z.of_nat n - 1) 63) by lia; lia).
  replace (Z.to_nat (Z.of_nat n * 64)) with (n * 64)%nat by lia. rewrite Nat2Z.id.
  assert (replicate (n * 64) 0 = concat (filled seed 0)) as ->.
  { unfold filled. cbn [seq map app]. rewrite Nat.sub_0_r. clear. induction n as [|k IH]; [done|]. cbn [Nat.mul replicate concat].
    by rewrite replicate_add, IH. }
  destruct (cache_insert n (filled seed 0) 0 (Keccak512 seed) (filled_ok seed 0 ltac:(lia)) ltac:(lia)) as [E _]; [apply Keccak512_bytes..|].
  change (64 * 0)%nat with 0%nat in E. rewrite E. cbn [mbind option_bind]. pose proof (filled_S seed 0 ltac:(lia)) as F. cbn [Nat.iter nat_rect] in F.
  rewrite F, first_loop by lia. cbn [mbind option_bind].
  replace (S (n - 1)) with n by lia.
  pose proof (filled_ok seed n ltac:(lia)) as Hf.
  assert (mkcache n seed = foldl (fun o _ => foldl (mkcache_step n) o (seq 0 n)) (filled seed n) (seq 0 CACHE_ROUNDS)) as ->
    by (unfold filled; by rewrite Nat.sub_diag, app_nil_r).
  destruct (loop_foldl (@concat Z) (cache_ok n) (fun _ cache => loop (seq 0 n) (memo_step (Z.of_nat n)) cache)
    (fun o _ => foldl (mkcache_step n) o (seq 0 n)) (seq 0 CACHE_ROUNDS) (filled seed n)) as [-> Ho]; [|done|].
  { intros _ o _ Ho. apply (loop_foldl (@concat Z) (cache_ok n)); [|done]. intros j o' Hj%elem_of_seq Ho'. apply memo_step_row; [done|lia]. }
  cbn [mbind option_bind]. split; [|done]. destruct Ho as (Hl & Hr & Hb).
  replace (Z.to_nat (Z.of_nat n * 64 / 4)) with (16 * n)%nat by (replace (Z.of_nat n * 64) with (Z.of_nat n * 16 * 4) by lia; rewrite Z.div_mul; lia).
  rewrite load_words_of by (done || (rewrite (length_rows 64), Hl by done; lia)). by rewrite words_of_rows.
Qed.

Lemma cache_words_ok seed : rows_ok 16 (map words_of (mkcache n seed)) /\ length (map words_of (mkcache n seed)) = n.
Proof.
  destruct (generate_cache seed) as [_ (Hl & Hr & _)]. split; [|by rewrite length_map].
  apply Forall_fmap. revert Hr. apply List.Forall_impl. intros r H. by apply length_words_of.
Qed.
End Cache.

(** ** Hashimoto *)

Lemma nonce_bytes nonce : 0 <= nonce < 2 ^ 64 -> store32 (w32 nonce) ++ store32 (w32 (Z.shiftr nonce 32)) = le_bytes 8 nonce.
Proof.
  intros Hn. rewrite !store32_bytes. set (l := _ ++ _).
  assert (length l = 8%nat /\ Forall is_byte l) as [<- Hb] by (split; [done|apply Forall_app_2; apply le_bytes_byte]).
  rewrite <- (le_bytes_value l Hb) at 1. f_equal. unfold l. rewrite le_value_app, !le_value_bytes, length_le_bytes.
  unfold w32. rewrite Z.shiftr_div_pow2 by lia. change (256 ^ Z.of_nat 4) with (2 ^ 32). rewrite !Z.mod_mod by lia.
  rewrite (Z.mod_small (nonce / 2 ^ 32)) by (split; [apply Z.div_pos|apply Z.div_lt_upper_bound]; lia).
  pose proof (Z.div_mod nonce (2 ^ 32)). lia.
Qed.

Section Hashimoto.
Context (cache : list (list Z)) (r : Z).
Hypothesis cache_rows : rows_ok 16 cache.
Hypothesis cache_size : (0 < length cache)%nat /\ Z.of_nat (length cache) < 2 ^ 28.
Hypothesis r_range : 0 < r < 2 ^ 31.

Lemma seed_mix s : length s = 64%nat -> Forall is_byte s ->
  load32 s 0 = Some (words_of s !!! 0%nat) /\
  mapM (fun i => load32 s (4 * (i mod HASH_WORDS))) (seq 0 MIX_WORDS) = Some (words_of s ++ words_of s).
Proof.
  intros Hl Hb. split.
  - rewrite load32_value by (done || lia). unfold words_of. rewrite Hl. done.
  - rewrite (mapM_some _ (fun i => le_value (take 4 (drop (4 * (i mod 16)) s)))).
    + unfold words_of. rewrite Hl. done.
    + intros i _. apply load32_value; [done|]. pose proof (Nat.mod_upper_bound i HASH_WORDS ltac:(done)). unfold HASH_WORDS in *. lia.
Qed.

Lemma mix_access_step s0 i mix : length mix = 32%nat ->
  mix_access r (concat cache) s0 i mix = Some (hashimoto_step (2 * r) s0 (calc_dataset_item cache) mix i) /\
  length (hashimoto_step (2 * r) s0 (calc_dataset_item cache) mix i) = 32%nat.
Proof.
  intros Hm. unfold mix_access, hashimoto_step. rewrite lookup_some by (rewrite Hm; apply Nat.mod_upper_bound; done). cbn [mbind option_bind].
  rewrite (proj2 (Z.eqb_neq _ _)), (Z.mul_comm 2 r), Z.div_mul by lia. change MIX_WORDS with 32%nat.
  change (fnv (Z.lxor (Z.of_nat i) s0) ?m) with (fnv1a (Z.lxor (Z.of_nat i) s0) m).
  pose proof (Z.mod_pos_bound (fnv1a (Z.lxor (Z.of_nat i) s0) (mix !!! (i mod 32)%nat)) r ltac:(lia)) as Hq.
  set (q := fnv1a _ _ mod r) in *. cbv zeta. rewrite (w32_small (2 * q)), (w32_small (2 * q + 1)), (Z.mul_comm q 2) by lia.
  destruct (dataset_item cache cache_rows cache_size (2 * q)) as (o1 & -> & E1).
  destruct (dataset_item cache cache_rows cache_size (2 * q + 1)) as (o2 & -> & E2). cbn [mbind option_bind]. rewrite E1. cbn [mbind option_bind].
  rewrite E2. cbn [mbind option_bind].
  assert (length (calc_dataset_item cache (2 * q) ++ calc_dataset_item cache (2 * q + 1)) = 32%nat) as Hl by (by rewrite length_app, !length_item).
  split; [|rewrite length_zip_with, Hm, Hl; done]. apply fnv_hash_zip; [done|done|]. intros k Hk. apply lookup_some. lia.
Qed.

Lemma hashimoto_light header nonce : 0 <= nonce < 2 ^ 64 ->
  HashimotoLight (128 * r) (concat cache) header nonce =
  let '(cmix, result) := hashimoto header nonce (128 * r) (calc_dataset_item cache) in Some (bytes_of cmix, result).
Proof.
  intros Hn. unfold HashimotoLight, hashimoto. change MIX_BYTES with 128. rewrite nonce_bytes by done.
  assert (w32 (128 * r / 128) = r /\ 128 * r / 64 = 2 * r) as [-> ->].
  { rewrite (Z.mul_comm 128), Z.div_mul, w32_small by lia. split; [done|]. replace (r * 128) with (2 * r * 64) by lia. apply Z.div_mul. lia. }
  set (s := Keccak512 _). destruct (seed_mix s) as [-> ->]; [apply Keccak512_bytes..|]. rewrite !some_bind.
  destruct (loop_fold (fun mix => length mix = 32%nat) (mix_access r (concat cache) (words_of s !!! 0%nat))
    (hashimoto_step (2 * r) (words_of s !!! 0%nat) (calc_dataset_item cache)) (seq 0 LOOP_ACCESSES) (words_of s ++ words_of s)) as [-> Hm].
  - intros i mix _. apply mix_access_step.
  - rewrite length_app, (length_words_of s 16) by apply Keccak512_bytes. done.
  - rewrite some_bind. change 64%nat with LOOP_ACCESSES. set (mix := foldl _ _ _) in *. clearbody mix.
    destruct (compress_mix mix Hm) as (mix' & -> & E). rewrite some_bind, store_words, E. reflexivity.
Qed.
End Hashimoto.

(** C9. Etchash is Ethash.  For every cache of fewer than 2^26 rows and every
    dataset of fewer than 2^31 rows, cache generation and the light verification
    return: they never read or write outside an array, no 32-bit product wraps,
    and their results are those of Ethash on rows, with the dataset items that a
    miner holding the full dataset has. *)
Theorem etchash_is_ethash (n : nat) (r : Z) (seed header : bytes) (nonce : Z) :
  (0 < n)%nat -> Z.of_nat n < 2 ^ 26 -> 0 < r < 2 ^ 31 -> 0 <= nonce < 2 ^ 64 ->
  exists words, GenerateCache (64 * Z.of_nat n) seed = Some words /\
    words = concat (map words_of (mkcache n seed)) /\
    HashimotoLight (128 * r) words header nonce =
      let '(cmix, result) := hashimoto header nonce (128 * r) (calc_dataset_item (map words_of (mkcache n seed))) in
      Some (bytes_of cmix, result).
Proof.
  intros H0 Hn Hr Hnonce. destruct (generate_cache n (conj H0 Hn) seed) as [E _]. eexists. split; [exact E|]. split; [done|].
  destruct (cache_words_ok n (conj H0 Hn) seed) as [H1 H2]. apply hashimoto_light; [exact H1|rewrite H2; lia|exact Hr|exact Hnonce].
Qed.

Lemma etchash_is_ethash_witness :
  exists words, GenerateCache 64 (replicate 32 0) = Some words /\ exists out, HashimotoLight 128 words (replicate 32 0) 5 = Some out.
Proof.
  destruct (etchash_is_ethash 1 1 (replicate 32 0) (replicate 32 0) 5 ltac:(lia) ltac:(lia) ltac:(lia) ltac:(lia)) as (words & E & _ & H).
  exists words. split; [exact E|]. change (128 * 1) with 128 in H. rewrite H. destruct (hashimoto _ _ _ _). eexists. reflexivity.
Defined.
