(* ===== verification/QHash.v ===== *)
(** * QHash

    [src/crypto/qhash.cpp]: the fixed-point simulation of a 16-qubit circuit that
    the seed selects.  Signed 64-bit arithmetic is checked: [None] is an overflow
    (undefined in the source) or an access outside an array.  The result: neither
    ever happens, because the sum of the squared amplitudes grows by less than one
    part in 2^13 per gate. *)

From Stdlib Require Import ZArith Lia.
From stdpp Require Import base list list_numbers numbers option.
From S2P Require Import Prelude Bytes Sha256.

Open Scope Z_scope.

Definition int64 (n : Z) : option Z := if (- 2 ^ 63 <=? n) && (n <? 2 ^ 63) then Some n else None.

(** ** The program *)

Definition Q30_ONE : Z := 2 ^ 30.
Definition Q30_HALF : Z := 2 ^ 29.
Definition NQUBITS : nat := 16.
Definition NAMP : nat := 2 ^ NQUBITS.
Definition NROUNDS : nat := 2.

Definition Q_COS : list Z :=
  [992008094; 759250125; 410903207; 0; -410903207; -759250125; -992008094; -1073741824].
Definition Q_SIN : list Z :=
  [410903207; 759250125; 992008094; 1073741824; 992008094; 759250125; 410903207; 0].

Definition Q30_Mul (a b : Z) : option Z := p ← int64 (a * b); v ← int64 (p + Q30_HALF); Some (Z.shiftr v 30).

(** Bit reversal of a 16-bit index. *)
Definition Rev16 (i : Z) : Z :=
  let i := Z.lor (Z.shiftl (Z.land i 0x5555) 1) (Z.land (Z.shiftr i 1) 0x5555) in
  let i := Z.lor (Z.shiftl (Z.land i 0x3333) 2) (Z.land (Z.shiftr i 2) 0x3333) in
  let i := Z.lor (Z.shiftl (Z.land i 0x0f0f) 4) (Z.land (Z.shiftr i 4) 0x0f0f) in
  Z.lor (Z.shiftl (Z.land i 0x00ff) 8) (Z.land (Z.shiftr i 8) 0x00ff).

(** The keystream from counter [ctr] on; a turn gives a byte at least. *)
Fixpoint keystream_loop (fuel : nat) (seed : bytes) (ctr : Z) (left_ : nat) : bytes :=
  match fuel, left_ with
  | S f, S _ =>
      let buf := sha256 (seed ++ le_bytes 4 ctr) in
      let take_ := Nat.min 32 left_ in
      take take_ buf ++ keystream_loop f seed (ctr + 1) (left_ - take_)
  | _, _ => []
  end.

Definition KeystreamBlocks (seed : bytes) (n : nat) : bytes := keystream_loop n seed 0 n.

Definition rotate_pair (c s : Z) (neg : bool) (x y : Z) : option (Z * Z) :=
  if negb neg then
    cx ← Q30_Mul c x; sy ← Q30_Mul s y; nx ← int64 (cx - sy);
    sx ← Q30_Mul s x; cy ← Q30_Mul c y; ny ← int64 (sx + cy);
    Some (nx, ny)
  else
    cx ← Q30_Mul c x; sy ← Q30_Mul s y; nx ← int64 (cx + sy);
    sx ← Q30_Mul (- s) x; cy ← Q30_Mul c y; ny ← int64 (sx + cy);
    Some (nx, ny).

(** One index of the loop of a gate on qubit [q]. *)
Definition gate_step (c s : Z) (neg : bool) (q i : nat) (amp : list Z) : option (list Z) :=
  if Z.testbit (Z.of_nat i) (Z.of_nat q) then Some amp else
  let j := Z.to_nat (Z.lor (Z.of_nat i) (2 ^ Z.of_nat q)) in
  x ← amp !! i;
  y ← amp !! j;
  '(nx, ny) ← rotate_pair c s neg x y;
  Some (<[j := ny]> (<[i := nx]> amp)).

Definition gate (kr : bytes) (q : nat) (amp : list Z) : option (list Z) :=
  b ← kr !! q;
  c ← Q_COS !! Z.to_nat (Z.land b 7);
  s ← Q_SIN !! Z.to_nat (Z.land b 7);
  loop (seq 0 NAMP) (gate_step c s (negb (Z.shiftr b 7 =? 0)) q) amp.

(** [std::swap(amp[i], amp[j])]. *)
Definition swap (i j : nat) (amp : list Z) : option (list Z) :=
  x ← amp !! i; y ← amp !! j; Some (<[j := x]> (<[i := y]> amp)).

Definition cnot_step (q t : Z) (i : nat) (amp : list Z) : option (list Z) :=
  if Z.testbit (Z.of_nat i) q && negb (Z.testbit (Z.of_nat i) t)
  then swap i (Z.to_nat (Z.lxor (Z.of_nat i) (2 ^ t))) amp
  else Some amp.

Definition cnot (offset : Z) (q : nat) (amp : list Z) : option (list Z) :=
  let t := Z.land (Z.of_nat q + 1 + offset) 15 in
  if t =? Z.of_nat q then Some amp else loop (seq 0 NAMP) (cnot_step (Z.of_nat q) t) amp.

Definition reverse_step (i : nat) (amp : list Z) : option (list Z) :=
  let j := Rev16 (Z.of_nat i) in
  if Z.of_nat i <? j then swap i (Z.to_nat j) amp else Some amp.

Definition circuit_round (key : bytes) (r : nat) (amp : list Z) : option (list Z) :=
  let kr := drop (r * (NQUBITS + 1)) key in
  amp ← loop (seq 0 NQUBITS) (gate kr) amp;
  b ← kr !! NQUBITS;
  amp ← loop (seq 0 NQUBITS) (cnot (Z.land b 15)) amp;
  loop (seq 0 NAMP) reverse_step amp.

(** The state vector at the end of the circuit. *)
Definition evolve (seed : bytes) : option (list Z) :=
  let key := KeystreamBlocks seed (NROUNDS * (NQUBITS + 1)) in
  loop (seq 0 NROUNDS) (circuit_round key) (<[0%nat := Q30_ONE]> (replicate NAMP 0)).

Definition fold_step (amp : list Z) (i : nat) (acc : list Z) : option (list Z) :=
  let k := Z.to_nat (Z.land (Z.of_nat i) 63) in
  a ← amp !! i; c ← acc !! k; v ← int64 (c + a); Some (<[k := v]> acc).

Definition QHashFromSeed (seed : bytes) : option bytes :=
  amp ← evolve seed;
  acc ← loop (seq 0 NAMP) (fold_step amp) (replicate 64 0);
  Some (sha256d (concat (map (fun a => le_bytes 8 (a mod 2 ^ 64)) acc))).

(** ** Weighted sums of squares *)

Fixpoint wsum (w : nat -> Z) (s : nat) (v : list Z) : Z :=
  match v with [] => 0 | a :: v => w s * (a * a) + wsum w (S s) v end.

Lemma wsum_insert w s v i a b : v !! i = Some a -> wsum w s (<[i := b]> v) = wsum w s v + w (s + i)%nat * (b * b - a * a).
Proof.
  revert s i. induction v as [|x v IH]; intros s [|i] H; [done..| |].
  - injection H as ->. cbn [insert list_insert wsum]. rewrite Nat.add_0_r. lia.
  - change (<[S i := b]> (x :: v)) with (x :: <[i := b]> v). cbn [wsum]. rewrite (IH (S s) i H), Nat.add_succ_r. cbn [plus]. lia.
Qed.

Lemma wsum_add w w' s v : wsum (fun j => w j + w' j) s v = wsum w s v + wsum w' s v.
Proof. revert s. induction v as [|x v IH]; intros s; cbn [wsum]; [done|]. rewrite IH. lia. Qed.

Lemma wsum_ext w w' s v : (forall j, (s <= j < s + length v)%nat -> w j = w' j) -> wsum w s v = wsum w' s v.
Proof.
  revert s. induction v as [|x v IH]; intros s H; cbn [wsum]; [done|]. rewrite (H s), (IH (S s)); [done| |cbn [length]; lia].
  intros j Hj. apply H. cbn [length]. lia.
Qed.

Lemma wsum_scale c s v : wsum (fun _ => c) s v = c * wsum (fun _ => 1) s v.
Proof. revert s. induction v as [|x v IH]; intros s; cbn [wsum]; [lia|]. rewrite IH. lia. Qed.

(** The weight at one index. *)
Lemma wsum_at c s v i a : v !! i = Some a -> wsum (fun j => if bool_decide (j = (s + i)%nat) then c else 0) s v = c * (a * a).
Proof.
  intros H. assert (wsum (fun j => if bool_decide (j = (s + i)%nat) then c else 0) s (<[i := 0]> v) = 0) as H0.
  { clear H. revert i. induction v as [|x v IH] in s |- *; intros i; [done|]. destruct i as [|i].
    - cbn [insert list_insert wsum]. rewrite (wsum_ext _ (fun _ => 0)), wsum_scale by (intros j Hj; rewrite bool_decide_false by lia; done). lia.
    - change (<[S i := 0]> (x :: v)) with (x :: <[i := 0]> v). cbn [wsum]. rewrite bool_decide_false by lia. specialize (IH (S s) i). rewrite Nat.add_succ_r. cbn [plus] in IH. lia. }
  rewrite (wsum_insert _ s v i a 0 H), bool_decide_true in H0 by done. lia.
Qed.

Lemma wsum_bound d w s v i a : 0 <= d -> (forall j, d <= w j) -> v !! i = Some a -> d * (a * a) <= wsum w s v.
Proof.
  intros Hd Hw. assert (forall s v, 0 <= wsum w s v) as Hp.
  { intros s' v'. revert s'. induction v' as [|x v' IH]; intros s'; cbn [wsum]; [lia|]. specialize (IH (S s')). specialize (Hw s'). nia. }
  revert s i. induction v as [|x v IH]; intros s [|i] H; [done..| |]; cbn [wsum].
  - injection H as ->. specialize (Hw s). specialize (Hp (S s) v). nia.
  - specialize (IH (S s) i H). specialize (Hw s). nia.
Qed.

(** ** One rotation *)

Lemma int64_some n : - 2 ^ 63 <= n < 2 ^ 63 -> int64 n = Some n.
Proof. intros H. unfold int64. by rewrite (proj2 (Z.leb_le _ _)), (proj2 (Z.ltb_lt _ _)) by lia. Qed.

(** The product is off by half a unit at most. *)
Lemma Q30_Mul_round a b : - 2 ^ 30 <= a <= 2 ^ 30 -> - 2 ^ 31 < b < 2 ^ 31 ->
  exists v e, Q30_Mul a b = Some v /\ 2 ^ 30 * v = a * b + e /\ - 2 ^ 29 <= e <= 2 ^ 29 /\ - 2 ^ 32 <= v <= 2 ^ 32.
Proof.
  intros Ha Hb. assert (- 2 ^ 61 <= a * b <= 2 ^ 61) as Hp by nia. unfold Q30_Mul, Q30_HALF.
  rewrite (int64_some (a * b)), some_bind, int64_some, some_bind by lia. rewrite Z.shiftr_div_pow2 by lia.
  pose proof (Z.div_mod (a * b + 2 ^ 29) (2 ^ 30) ltac:(lia)). pose proof (Z.mod_pos_bound (a * b + 2 ^ 29) (2 ^ 30) ltac:(lia)).
  eexists _, (2 ^ 30 * ((a * b + 2 ^ 29) / 2 ^ 30) - a * b). split; [done|]. lia.
Qed.

(** Growth of the squares at a pair: [grow_n / grow_d], and a constant for rounding. *)
Definition grow_d : Z := 2 ^ 43.
Definition grow_n : Z := (2 ^ 14 + 1) * (2 ^ 29 + 1).
Definition grow_c : Z := (2 ^ 14 + 1) * 2 ^ 44.

Definition unit_vector (c s : Z) : Prop := - 2 ^ 30 <= c <= 2 ^ 30 /\ - 2 ^ 30 <= s <= 2 ^ 30 /\ c * c + s * s <= 2 ^ 60 + 2 ^ 31.

Lemma square_error a e : 2 ^ 14 * ((a + e) * (a + e)) <= (2 ^ 14 + 1) * (a * a) + (2 ^ 14 + 1) * 2 ^ 14 * (e * e).
Proof. pose proof (Z.square_nonneg (a - 2 ^ 14 * e)). lia. Qed.

Lemma pair_growth c s x y nx ny e1 e2 : unit_vector c s ->
  2 ^ 30 * nx = c * x - s * y + e1 -> 2 ^ 30 * ny = s * x + c * y + e2 -> - 2 ^ 30 <= e1 <= 2 ^ 30 -> - 2 ^ 30 <= e2 <= 2 ^ 30 ->
  grow_d * (nx * nx + ny * ny) <= grow_n * (x * x + y * y) + grow_c.
Proof.
  intros (_ & _ & Hu) H1 H2 He1 He2. pose proof (square_error (c * x - s * y) e1) as S1. pose proof (square_error (s * x + c * y) e2) as S2.
  rewrite <- H1 in S1. rewrite <- H2 in S2.
  assert (e1 * e1 <= 2 ^ 60) by nia. assert (e2 * e2 <= 2 ^ 60) by nia.
  assert ((c * x - s * y) * (c * x - s * y) + (s * x + c * y) * (s * x + c * y) = (c * c + s * s) * (x * x + y * y)) as Ei by ring.
  assert ((c * c + s * s) * (x * x + y * y) <= (2 ^ 60 + 2 ^ 31) * (x * x + y * y)) as Hm by (apply Z.mul_le_mono_nonneg_r; [nia|exact Hu]).
  set (q := x * x + y * y) in *. set (m := nx * nx + ny * ny).
  replace (2 ^ 30 * nx * (2 ^ 30 * nx)) with (2 ^ 60 * (nx * nx)) in S1 by ring.
  replace (2 ^ 30 * ny * (2 ^ 30 * ny)) with (2 ^ 60 * (ny * ny)) in S2 by ring.
  assert (2 ^ 31 * (grow_d * m) <= 2 ^ 31 * (grow_n * q + grow_c)) as Hf; [|lia]. unfold grow_d, grow_n, grow_c, m. lia.
Qed.

Lemma rotate_pair_ok c s neg x y : unit_vector c s -> - 2 ^ 31 < x < 2 ^ 31 -> - 2 ^ 31 < y < 2 ^ 31 ->
  exists nx ny, rotate_pair c s neg x y = Some (nx, ny) /\ grow_d * (nx * nx + ny * ny) <= grow_n * (x * x + y * y) + grow_c.
Proof.
  intros Hu Hx Hy. pose proof Hu as (Hc & Hs & _). assert (- 2 ^ 30 <= - s <= 2 ^ 30) as Hs' by lia. unfold rotate_pair.
  destruct (Q30_Mul_round c x Hc Hx) as (cx & e1 & -> & E1 & B1 & V1). destruct (Q30_Mul_round s y Hs Hy) as (sy & e2 & -> & E2 & B2 & V2).
  destruct (Q30_Mul_round c y Hc Hy) as (cy & e3 & -> & E3 & B3 & V3).
  destruct (Q30_Mul_round s x Hs Hx) as (sx & e4 & -> & E4 & B4 & V4).
  destruct (Q30_Mul_round (- s) x Hs' Hx) as (sx' & e4' & -> & E4' & B4' & V4').
  destruct neg; cbn [negb]; rewrite !some_bind, int64_some, !some_bind, int64_some, some_bind by lia; do 2 eexists; (split; [done|]).
  - apply (pair_growth c (- s) x y _ _ (e1 + e2) (e4' + e3)); [|lia..]. unfold unit_vector in *. lia.
  - apply (pair_growth c s x y _ _ (e1 - e2) (e4 + e3)); [done|lia..].
Qed.

(** The tables hold unit vectors. *)
Lemma table_unit k : (k < 8)%nat -> exists c s, Q_COS !! k = Some c /\ Q_SIN !! k = Some s /\ unit_vector c s.
Proof.
  intros Hk. unfold unit_vector. do 8 (destruct k as [|k]; [do 2 eexists; repeat split; vm_compute; congruence|]). lia.
Qed.

(** ** Gates *)

Lemma NAMP_Z : Z.of_nat NAMP = 2 ^ 16.
Proof. exact (Nat2Z.inj_pow 2 NQUBITS). Qed.
#[local] Opaque NAMP.

Lemma lor_below n a b : 0 <= n -> 0 <= a < 2 ^ n -> 0 <= b < 2 ^ n -> 0 <= Z.lor a b < 2 ^ n.
Proof.
  intros Hn Ha Hb. split; [apply Z.lor_nonneg; lia|]. destruct (Z.eq_dec (Z.lor a b) 0) as [->|H0]; [lia|].
  assert (0 <= Z.lor a b) by (apply Z.lor_nonneg; lia).
  apply Z.log2_lt_pow2; [lia|]. rewrite Z.log2_lor by lia.
  apply Z.max_lub_lt; (destruct (Z.eq_dec a 0) as [->|]; destruct (Z.eq_dec b 0) as [->|]; try (rewrite Z.lor_0_l in H0; done);
    first [apply Z.log2_lt_pow2; lia|rewrite (Z.log2_nonpos 0) by lia; destruct (Z.eq_dec n 0) as [->|]; cbn in *; lia]).
Qed.

(** The two indices of a pair: [i] without bit [q], and the same with it. *)
Section Pair.
Context (q : Z).
Hypothesis q_range : 0 <= q < 16.
Let clear (k : Z) : Z := Z.ldiff k (2 ^ q).

Lemma clear_bit k : Z.testbit (clear k) q = false.
Proof. unfold clear. rewrite Z.ldiff_spec, Z.pow2_bits_true by lia. apply andb_false_r. Qed.

Lemma clear_id i : Z.testbit i q = false -> clear i = i.
Proof.
  intros H. apply Z.bits_inj'. intros n Hn. unfold clear. rewrite Z.ldiff_spec, Z.pow2_bits_eqb by lia.
  destruct (Z.eqb_spec q n) as [<-|]; [by rewrite H|apply andb_true_r].
Qed.

Lemma land_qubit i : Z.testbit i q = false -> Z.land i (2 ^ q) = 0.
Proof.
  intros H. apply Z.bits_inj'. intros n Hn. rewrite Z.land_spec, Z.pow2_bits_eqb, Z.bits_0 by lia.
  destruct (Z.eqb_spec q n) as [<-|]; [by rewrite H|apply andb_false_r].
Qed.

Lemma set_bit i : Z.testbit i q = false -> Z.lor i (2 ^ q) = i + 2 ^ q.
Proof. intros H. symmetry. apply Z.add_nocarry_lor, land_qubit, H. Qed.

Lemma flip_bit i : 0 <= i < 2 ^ 16 -> Z.testbit i q = false -> i < Z.lxor i (2 ^ q) < 2 ^ 16.
Proof.
  intros Hi H. assert (0 < 2 ^ q < 2 ^ 16) by (split; [apply Z.pow_pos_nonneg|apply Z.pow_lt_mono_r]; lia).
  rewrite Z.lxor_lor by (by apply land_qubit). pose proof (lor_below 16 i (2 ^ q) ltac:(lia) Hi ltac:(lia)). rewrite set_bit in * by done. lia.
Qed.

Lemma clear_set i : Z.testbit i q = false -> clear (Z.lor i (2 ^ q)) = i.
Proof.
  intros H. apply Z.bits_inj'. intros n Hn. unfold clear. rewrite Z.ldiff_spec, Z.lor_spec, Z.pow2_bits_eqb by lia.
  destruct (Z.eqb_spec q n) as [<-|]; [by rewrite H|]. by rewrite orb_false_r, andb_true_r.
Qed.

Lemma clear_inv k i : clear k = i -> k = i \/ k = Z.lor i (2 ^ q).
Proof.
  intros <-. destruct (Z.testbit k q) eqn:E; [right|left; symmetry; by apply clear_id].
  apply Z.bits_inj'. intros n Hn. unfold clear. rewrite Z.lor_spec, Z.ldiff_spec, Z.pow2_bits_eqb by lia.
  destruct (Z.eqb_spec q n) as [<-|]; [by rewrite E|]. by rewrite orb_false_r, andb_true_r.
Qed.

Lemma clear_le k : clear k <= k.
Proof.
  pose proof (Z.pow_pos_nonneg 2 q ltac:(lia) ltac:(lia)). destruct (clear_inv k (clear k) eq_refl) as [E|E]; [lia|].
  rewrite set_bit in E by apply clear_bit. lia.
Qed.

(** The weights when the loop is at index [i]: pairs below are done. *)
Definition weight (i j : nat) : Z := if clear (Z.of_nat j) <? Z.of_nat i then grow_d else grow_n.

Lemma weight_skip i j : Z.testbit (Z.of_nat i) q = true -> weight (S i) j = weight i j.
Proof.
  intros H. assert (clear (Z.of_nat j) <> Z.of_nat i) as Hne by (intros E; pose proof (clear_bit (Z.of_nat j)); congruence).
  unfold weight. destruct (Z.ltb_spec (clear (Z.of_nat j)) (Z.of_nat (S i))); destruct (Z.ltb_spec (clear (Z.of_nat j)) (Z.of_nat i)); (done || lia).
Qed.

Lemma weight_step i k j : Z.testbit (Z.of_nat i) q = false -> Z.of_nat k = Z.lor (Z.of_nat i) (2 ^ q) ->
  weight (S i) j = weight i j + ((if bool_decide (j = i) then grow_d - grow_n else 0) + (if bool_decide (j = k) then grow_d - grow_n else 0)).
Proof.
  intros H Hk. pose proof (set_bit _ H) as Hs. pose proof (Z.pow_pos_nonneg 2 q ltac:(lia) ltac:(lia)) as H2. unfold weight.
  destruct (decide (j = i)) as [->|Hi]; [|destruct (decide (j = k)) as [->|Hj]].
  - rewrite clear_id, bool_decide_true, bool_decide_false, (proj2 (Z.ltb_lt _ _)), (proj2 (Z.ltb_ge _ _)) by (done || lia). lia.
  - rewrite Hk, clear_set, bool_decide_false, bool_decide_true, (proj2 (Z.ltb_lt _ _)), (proj2 (Z.ltb_ge _ _)) by (done || lia). lia.
  - rewrite !bool_decide_false by done. assert (clear (Z.of_nat j) <> Z.of_nat i) as Hne by (intros E; apply clear_inv in E as [E|E]; lia).
    destruct (Z.ltb_spec (clear (Z.of_nat j)) (Z.of_nat (S i))); destruct (Z.ltb_spec (clear (Z.of_nat j)) (Z.of_nat i)); lia.
Qed.
End Pair.

(** ** The circuit *)

Definition norm (v : list Z) : Z := wsum (fun _ => 1) 0 v.

(** The state vector after [k] gates. *)
Definition amps (k : Z) (v : list Z) : Prop := length v = NAMP /\ norm v <= 2 ^ 60 + k * 2 ^ 47.

Lemma small_square a : a * a <= 2 ^ 60 + 2 ^ 53 -> - 2 ^ 31 < a < 2 ^ 31.
Proof. nia. Qed.

Lemma weight_low q i j : grow_d <= weight q i j.
Proof. unfold weight. case_match; vm_compute; congruence. Qed.

Section Gate.
Context (c s : Z) (neg : bool) (q : nat) (n0 k : Z).
Hypothesis unit_cs : unit_vector c s.
Hypothesis q_range : (q < NQUBITS)%nat.
Hypothesis k_range : 0 <= k < 32.
Hypothesis n0_range : n0 <= 2 ^ 60 + k * 2 ^ 47.

Let Q : 0 <= Z.of_nat q < 16.
Proof. unfold NQUBITS in q_range. lia. Qed.

Definition gate_inv (i : nat) (v : list Z) : Prop :=
  length v = NAMP /\ wsum (weight (Z.of_nat q) i) 0 v <= grow_n * n0 + Z.of_nat i * grow_c.

Lemma gate_inv_small i v j a : gate_inv i v -> (i <= NAMP)%nat -> v !! j = Some a -> - 2 ^ 31 < a < 2 ^ 31.
Proof.
  intros [_ Hw] Hi Ha. apply small_square. pose proof NAMP_Z.
  pose proof (wsum_bound grow_d (weight (Z.of_nat q) i) 0 v j a ltac:(vm_compute; congruence) (weight_low _ _) Ha) as Hb.
  unfold grow_d, grow_n, grow_c in *. lia.
Qed.

Lemma gate_step_inv i v : (i < NAMP)%nat -> gate_inv i v ->
  exists v', gate_step c s neg q i v = Some v' /\ gate_inv (S i) v'.
Proof.
  intros Hi Hinv. pose proof Hinv as [Hl Hw]. pose proof NAMP_Z as HN. unfold gate_step.
  destruct (Z.testbit (Z.of_nat i) (Z.of_nat q)) eqn:Eb.
  - exists v. split; [done|]. split; [done|]. rewrite (wsum_ext _ (weight (Z.of_nat q) i)) by (intros; by apply weight_skip).
    assert (0 <= grow_c) by (vm_compute; congruence). lia.
  - pose proof (set_bit _ Q _ Eb) as Es. assert (2 ^ Z.of_nat q < 2 ^ 16) as Hq by (apply Z.pow_lt_mono_r; lia).
    pose proof (lor_below 16 (Z.of_nat i) (2 ^ Z.of_nat q) ltac:(lia) ltac:(lia) ltac:(lia)) as Hlo.
    set (j := Z.to_nat (Z.lor (Z.of_nat i) (2 ^ Z.of_nat q))). assert (Z.of_nat j = Z.lor (Z.of_nat i) (2 ^ Z.of_nat q)) as Ej by lia.
    assert (i <> j) as Hij by lia.
    pose proof (lookup_some v i ltac:(lia)) as Hx. pose proof (lookup_some v j ltac:(lia)) as Hy.
    set (x := v !!! i) in *. set (y := v !!! j) in *. rewrite Hx, some_bind, Hy, some_bind.
    destruct (rotate_pair_ok c s neg x y unit_cs) as (nx & ny & -> & Hg); [eapply gate_inv_small; eauto with lia..|].
    rewrite some_bind. eexists. split; [done|]. split; [by rewrite !length_insert|].
    rewrite (wsum_insert _ 0 _ j y), (wsum_insert _ 0 _ i x) by (rewrite ?list_lookup_insert_ne; done). cbn [plus].
    rewrite (wsum_ext _ _ 0 v (fun j' _ => weight_step _ Q i j j' Eb Ej)), !wsum_add.
    pose proof (wsum_at (grow_d - grow_n) 0 v i x Hx) as A1. pose proof (wsum_at (grow_d - grow_n) 0 v j y Hy) as A2. cbn [plus] in A1, A2.
    rewrite A1, A2.
    assert (weight (Z.of_nat q) (S i) i = grow_d) as -> by (unfold weight; rewrite (clear_id _ Q) by done; by rewrite (proj2 (Z.ltb_lt _ _)) by lia).
    assert (weight (Z.of_nat q) (S i) j = grow_d) as -> by (unfold weight; rewrite Ej, (clear_set _ Q) by done; by rewrite (proj2 (Z.ltb_lt _ _)) by lia).
    lia.
Qed.

Lemma gate_loop v : length v = NAMP -> norm v = n0 ->
  exists v', loop (seq 0 NAMP) (gate_step c s neg q) v = Some v' /\ amps (k + 1) v'.
Proof.
  intros Hl Hn. destruct (loop_inv gate_inv (gate_step c s neg q) NAMP 0 v) as (v' & E & Hl' & Hw).
  - intros i a Hi. apply gate_step_inv. lia.
  - split; [done|]. rewrite (wsum_ext _ (fun _ => grow_n)), wsum_scale, <- Hn; [unfold norm; lia|].
    intros j _. unfold weight. rewrite (proj2 (Z.ltb_ge _ _)); [done|]. apply Z.ldiff_nonneg. lia.
  - exists v'. split; [done|]. split; [done|]. pose proof NAMP_Z as HN. cbn [plus] in Hw.
    rewrite (wsum_ext _ (fun _ => grow_d)), wsum_scale in Hw.
    + fold (norm v') in Hw. unfold grow_d, grow_n, grow_c in *. lia.
    + intros j Hj. unfold weight. rewrite (proj2 (Z.ltb_lt _ _)); [done|].
      pose proof (clear_le _ Q (Z.of_nat j)). lia.
Qed.
End Gate.

Lemma swap_ok i j k v : i <> j -> (i < NAMP)%nat -> (j < NAMP)%nat -> amps k v -> exists v', swap i j v = Some v' /\ amps k v'.
Proof.
  intros Hij Hi Hj [Hl Hn]. unfold swap. rewrite (lookup_some v i), some_bind, (lookup_some v j), some_bind by lia.
  eexists. split; [done|]. split; [by rewrite !length_insert|]. unfold norm.
  rewrite (wsum_insert _ 0 _ j (v !!! j)), (wsum_insert _ 0 _ i (v !!! i))
    by (rewrite ?list_lookup_insert_ne by done; apply lookup_some; lia). unfold norm in Hn. lia.
Qed.

Lemma cnot_ok offset q k v : amps k v -> exists v', cnot offset q v = Some v' /\ amps k v'.
Proof.
  intros Hv. unfold cnot. set (t := Z.land _ 15).
  assert (0 <= t < 16) as Ht by (unfold t; change 15 with (Z.ones 4); rewrite Z.land_ones by lia; apply Z.mod_pos_bound; lia).
  destruct (t =? Z.of_nat q); [eauto|]. destruct (loop_inv (fun _ => amps k) (cnot_step (Z.of_nat q) t) NAMP 0 v) as (v' & E & H); [|done|eauto].
  intros i a Hi Ha. unfold cnot_step. destruct (Z.testbit _ _ && negb (Z.testbit _ t)) eqn:Eb; [|eauto].
  apply andb_true_iff in Eb as [_ Eb%negb_true_iff]. pose proof NAMP_Z. pose proof (flip_bit t Ht (Z.of_nat i) ltac:(lia) Eb).
  apply swap_ok; [lia..|done].
Qed.

Lemma Rev16_range i : 0 <= Rev16 i < 2 ^ 16.
Proof.
  unfold Rev16. set (x := Z.lor _ (Z.land (Z.shiftr _ 4) 0x0f0f)). change 0x00ff with (Z.ones 8). rewrite !Z.land_ones, Z.shiftl_mul_pow2 by lia.
  pose proof (Z.mod_pos_bound x (2 ^ 8)). pose proof (Z.mod_pos_bound (Z.shiftr x 8) (2 ^ 8)). apply lor_below; lia.
Qed.

Lemma reverse_ok k v : amps k v -> exists v', loop (seq 0 NAMP) reverse_step v = Some v' /\ amps k v'.
Proof.
  intros Hv. destruct (loop_inv (fun _ => amps k) reverse_step NAMP 0 v) as (v' & E & H); [|done|eauto].
  intros i a Hi Ha. unfold reverse_step. pose proof (Rev16_range (Z.of_nat i)). pose proof NAMP_Z.
  destruct (Z.ltb_spec (Z.of_nat i) (Rev16 (Z.of_nat i))); [|eauto]. apply swap_ok; [lia..|done].
Qed.

Lemma gate_ok kr q k v : (NQUBITS < length kr)%nat -> (q < NQUBITS)%nat -> 0 <= k < 32 -> amps k v ->
  exists v', gate kr q v = Some v' /\ amps (k + 1) v'.
Proof.
  intros Hkr Hq Hk [Hl Hn]. unfold gate. rewrite (lookup_some kr q), some_bind by lia. set (b := kr !!! q).
  assert (Z.to_nat (Z.land b 7) < 8)%nat as Hb
    by (change 7 with (Z.ones 3); rewrite Z.land_ones by lia; pose proof (Z.mod_pos_bound b (2 ^ 3)); lia).
  destruct (table_unit _ Hb) as (c & s & -> & -> & Hu). rewrite !some_bind. by apply (gate_loop c s _ q (norm v) k).
Qed.

Lemma round_ok key r k v : length key = (NROUNDS * (NQUBITS + 1))%nat -> (r < NROUNDS)%nat -> 0 <= k <= 16 -> amps k v ->
  exists v', circuit_round key r v = Some v' /\ amps (k + 16) v'.
Proof.
  intros Hkey Hr Hk Hv. unfold circuit_round. set (kr := drop _ key).
  assert (NQUBITS < length kr)%nat as Hkr by (unfold kr, NQUBITS, NROUNDS in *; rewrite length_drop; lia).
  destruct (loop_inv (fun i => amps (k + Z.of_nat i)) (gate kr) NQUBITS 0 v) as (v1 & -> & H1).
  { intros i a Hi Ha. destruct (gate_ok kr i (k + Z.of_nat i) a Hkr ltac:(lia) ltac:(unfold NQUBITS in *; lia) Ha) as (a' & E & Ha').
    exists a'. split; [done|]. by replace (k + Z.of_nat (S i)) with (k + Z.of_nat i + 1) by lia. }
  { by rewrite Z.add_0_r. }
  rewrite some_bind, (lookup_some kr NQUBITS), some_bind by done. change (k + Z.of_nat (0 + NQUBITS)) with (k + 16) in H1.
  destruct (loop_inv (fun _ => amps (k + 16)) (cnot (Z.land (kr !!! NQUBITS) 15)) NQUBITS 0 v1) as (v2 & -> & H2); [|done|].
  { intros i a _. apply cnot_ok. }
  rewrite some_bind. by apply reverse_ok.
Qed.

Lemma length_keystream fuel seed ctr n : (n <= fuel)%nat -> length (keystream_loop fuel seed ctr n) = n.
Proof.
  revert ctr n. induction fuel as [|fuel IH]; intros ctr [|n] Hn; [done|lia|done|]. cbn [keystream_loop].
  rewrite length_app, IH, length_take_le by (rewrite ?length_sha256; lia). lia.
Qed.

Lemma evolve_ok seed : exists v, evolve seed = Some v /\ amps 32 v.
Proof.
  unfold evolve. set (key := KeystreamBlocks _ _). assert (length key = (NROUNDS * (NQUBITS + 1))%nat) as Hk by (by apply length_keystream).
  pose proof NAMP_Z. destruct (loop_inv (fun i => amps (16 * Z.of_nat i)) (circuit_round key) NROUNDS 0 (<[0%nat := Q30_ONE]> (replicate NAMP 0)))
    as (v & E & Hv); [| |exists v; split; [exact E|exact Hv]].
  - intros r a Hr Ha. destruct (round_ok key r (16 * Z.of_nat r) a Hk) as (a' & E & Ha'); [lia|unfold NROUNDS in *; lia|done|].
    exists a'. split; [done|]. by replace (16 * Z.of_nat (S r)) with (16 * Z.of_nat r + 16) by lia.
  - split; [by rewrite length_insert, length_replicate|]. unfold norm.
    rewrite (wsum_insert _ 0 _ 0 0) by (apply lookup_replicate_2; lia).
    assert (forall n s, wsum (fun _ => 1) s (replicate n 0) = 0) as -> by (induction n as [|n IH]; intros s; cbn; [done|by rewrite IH]).
    unfold Q30_ONE. lia.
Qed.

(** Every amplitude is within 1.002 units of zero. *)
Lemma amps_small k v i a : 0 <= k <= 32 -> amps k v -> v !! i = Some a -> a * a <= 2 ^ 60 + 2 ^ 52.
Proof.
  intros Hk [_ Hn] Ha. pose proof (wsum_bound 1 (fun _ => 1) 0 v i a ltac:(lia) ltac:(intros; lia) Ha) as Hb. unfold norm in Hn. lia.
Qed.

Lemma fold_ok v : amps 32 v -> exists acc, loop (seq 0 NAMP) (fold_step v) (replicate 64 0) = Some acc /\ length acc = 64%nat.
Proof.
  intros Hv. pose proof NAMP_Z.
  destruct (loop_inv (fun i acc => length acc = 64%nat /\ Forall (fun c => - (Z.of_nat i * 2 ^ 31) <= c <= Z.of_nat i * 2 ^ 31) acc)
    (fold_step v) NAMP 0 (replicate 64 0)) as (acc & E & Hl & _); [| |eauto].
  - intros i acc Hi [Hl Hb]. unfold fold_step. pose proof (lookup_some v i ltac:(destruct Hv; lia)) as Ha.
    set (x := v !!! i) in *. pose proof (amps_small 32 v i x ltac:(lia) Hv Ha) as Hs.
    assert (- 2 ^ 31 < x < 2 ^ 31) by (apply small_square; lia). rewrite Ha, some_bind.
    set (k := Z.to_nat (Z.land (Z.of_nat i) 63)).
    assert (k < 64)%nat by (unfold k; change 63 with (Z.ones 6); rewrite Z.land_ones by lia; pose proof (Z.mod_pos_bound (Z.of_nat i) (2 ^ 6)); lia).
    pose proof (lookup_some acc k ltac:(lia)) as Hc. pose proof (Forall_lookup_1 _ _ _ _ Hb Hc) as Hcb. cbn beta in Hcb.
    rewrite Hc, some_bind, int64_some, some_bind by lia. eexists. split; [done|]. split; [by rewrite length_insert|].
    apply Forall_insert; [|lia]. revert Hb. apply List.Forall_impl. intros; lia.
  - split; [done|]. apply Forall_replicate. lia.
Qed.

Lemma qhash_returns seed : exists out, QHashFromSeed seed = Some out.
Proof.
  destruct (evolve_ok seed) as (amp & E & Ha). destruct (fold_ok amp Ha) as (acc & Ef & _).
  unfold QHashFromSeed. rewrite E, some_bind, Ef, some_bind. eauto.
Qed.

(** C20. The circuit never overflows.  For every seed the simulation returns: no
    64-bit operation overflows, no index leaves the state vector, the squared
    amplitudes add up to less than 1 + 2^-8 at the end (so each amplitude is
    within 1.002 units, where the source promises about 1.04), and the digest has
    32 bytes. *)
Theorem qhash_no_overflow seed :
  exists amp out, evolve seed = Some amp /\ QHashFromSeed seed = Some out /\
    length amp = NAMP /\ norm amp <= Q30_ONE * Q30_ONE + 2 ^ 52 /\
    (forall i a, amp !! i = Some a -> 1000 * Z.abs a <= 1002 * Q30_ONE) /\
    length out = 32%nat /\ Forall is_byte out.
Proof.
  destruct (evolve_ok seed) as (amp & E & Ha). destruct (fold_ok amp Ha) as (acc & Ef & _). eexists amp, _. split; [done|].
  split; [unfold QHashFromSeed; by rewrite E, some_bind, Ef, some_bind|]. pose proof Ha as [Hl Hn].
  split; [done|]. split; [unfold Q30_ONE; lia|]. split; [|split; [apply length_sha256|apply sha256_byte]].
  intros i a Hi. pose proof (amps_small 32 amp i a ltac:(lia) Ha Hi). unfold Q30_ONE. nia.
Qed.
