(* ===== verification/PowAlgo.v ===== *)
(** * The choice of the proof-of-work algorithm

    [GetPowAlgoForHeader], the Etchash and QHash checks with the shared cache of
    light-verification tables ([src/pow.cpp]), and the three places that judge a
    header: [CheckBlockHeader], the context-free part of [CheckBlock] and
    [HasValidProofOfWork] ([src/validation.cpp]).  The table cache is threaded
    through; [None] is undefined behaviour or an exception. *)

From Stdlib Require Import ZArith Lia.
From stdpp Require Import base gmap list numbers option.
From S2P Require Import Prelude Bytes Sha256 Libs Consensus Compact BlockIndex PowTarget PowTargetFacts LruCache EtchashSize Keccak Etchash QHash.

Open Scope Z_scope.

Inductive PowAlgo := RandomX | Etchash | QHash.

Definition GetPowAlgoForHeader (nHeight version : Z) (params : Params) : option PowAlgo :=
  if negb (second_algo version) then Some RandomX
  else if nHeight <? 0 then None
  else if nHeight <? nDualAlgoActivationHeight params then Some RandomX
  else Some (if fDualAlgoEtchash params then Etchash else QHash).

(** ** Etchash *)

Definition GetEtchashEpoch (nHeight : Z) (params : Params) : option Z :=
  let act := nDualAlgoActivationHeight params in
  if (nHeight <? 0) || (nHeight <? act) then Some (-1)
  else if nEtchashEpochLength params =? 0 then None
  else Some (Z.quot (nHeight - act) (nEtchashEpochLength params)).

Definition GetEtchashSeedHash (nHeight : Z) (params : Params) : option bytes :=
  epoch ← GetEtchashEpoch nHeight params;
  Some (if epoch <? 0 then null256 else SeedForEpoch epoch).

(** [g_etchash_caches]: size and words by epoch. *)
Abbreviation etchash_caches := (LRUCache (Z * list Z)).

(** Turns enough for both size loops. *)
Definition size_turns (epoch : Z) : nat := Z.to_nat (2 ^ 22 + 2 ^ 15 * epoch).

(** The lock is held throughout. *)
Definition GetEtchashCache (g : etchash_caches) (epoch : Z) (seed : bytes) : option (etchash_caches * (Z * list Z)) :=
  if lru_contains g epoch then lru_get g epoch
  else
    size ← CalcCacheSize (size_turns epoch) epoch;
    words ← GenerateCache size seed;
    Some (lru_insert g epoch (size, words), (size, words)).

Definition without_nonce (h : CBlockHeader) : CBlockHeader :=
  Header (nVersion h) (hashPrevBlock h) (hashMerkleRoot h) (nTime h) (nBits h) 0 (h_hashRandomX h).

(** Is the 32-byte result above the target, in the byte order of the height? *)
Definition above_target (params : Params) (nHeight nb : Z) (h : bytes) : bool :=
  c_target (SetCompact nb) <?
  UintToArith256 (if nEtchashBigEndianHeight params <=? nHeight then rev h else h).

(** [out] says whether the caller passed an output pointer; the result is the
    verdict and what was written through it. *)
Definition CheckProofOfWorkEtchash (g : etchash_caches) (block : CBlockHeader) (nHeight : Z) (params : Params)
    (mode : POWVerifyMode) (out : bool) : option (etchash_caches * (bool * option bytes)) :=
  let ret g (b : bool) h := Some (g, (b, if out then h else None)) in
  if IsNull (hashPrevBlock block) then ret g true (Some (h_hashRandomX block)) else
  if negb (target_in_range (nBits block) params) then ret g false None else
  epoch ← GetEtchashEpoch nHeight params;
  if epoch <? 0 then ret g false None else
  let above := above_target params nHeight (nBits block) in
  if bool_decide (mode = POW_VERIFY_COMMITMENT_ONLY) then
    ret g (negb (IsNull (h_hashRandomX block)) && negb (above (h_hashRandomX block))) None
  else
    '(g, cache) ← GetEtchashCache g epoch (SeedForEpoch epoch);
    dataset_size ← CalcDatasetSize (size_turns epoch) epoch;
    let header_hash := Keccak256 (SerializeRandomXHeader (without_nonce block)) in
    '(_, result) ← HashimotoLight dataset_size (snd cache) header_hash (nNonce block);
    if negb (bool_decide (mode = POW_VERIFY_MINING)) &&
       (IsNull (h_hashRandomX block) || negb (bool_decide (result = h_hashRandomX block)))
    then ret g false (Some result)
    else ret g (negb (above result)) (Some result).

(** ** QHash *)

Definition CheckProofOfWorkQHash (block : CBlockHeader) (params : Params) (mode : POWVerifyMode) (out : bool)
    : option (bool * option bytes) :=
  let ret (b : bool) h := Some (b, if out then h else None) in
  if IsNull (hashPrevBlock block) then ret true (Some (h_hashRandomX block)) else
  if negb (target_in_range (nBits block) params) then ret false None else
  qhash ← QHashFromSeed (sha256d (SerializeRandomXHeader block));
  if negb (bool_decide (mode = POW_VERIFY_MINING)) &&
     (IsNull (h_hashRandomX block) || negb (bool_decide (qhash = h_hashRandomX block)))
  then ret false (Some qhash)
  else ret (negb (c_target (SetCompact (nBits block)) <? UintToArith256 qhash)) (Some qhash).

(** ** Judging headers *)

Section Headers.
Context {R : RandomXRef} (have_vm : Z -> bool) (params : Params).

(** The verdict of the RandomX check without an output pointer. *)
Definition randomx_verdict (block : CBlockHeader) (mode : POWVerifyMode) (prevBlockTime : Z) : option bool :=
  match CheckProofOfWorkRandomX have_vm block params mode false prevBlockTime with
  | Ok (b, _) => Some b
  | Throw _ => None
  end.

Definition CheckBlockHeader (g : etchash_caches) (block : CBlockHeader) (fCheckPOW : bool) (pindexPrev : option CBlockIndex)
    : option (etchash_caches * bool) :=
  if negb fCheckPOW then Some (g, true) else
  let nHeight := match pindexPrev with Some b => nHeight b + 1 | None => -1 end in
  match GetPowAlgoForHeader nHeight (nVersion block) params with
  | Some Etchash => '(g, (ok, _)) ← CheckProofOfWorkEtchash g block nHeight params POW_VERIFY_FULL false; Some (g, ok)
  | Some QHash => '(ok, _) ← CheckProofOfWorkQHash block params POW_VERIFY_FULL false; Some (g, ok)
  | Some RandomX | None =>
      let prevBlockTime := match pindexPrev with Some b => i_nTime b | None => 0 end in
      ok ← randomx_verdict block POW_VERIFY_FULL prevBlockTime; Some (g, ok)
  end.

(** The proof-of-work part of [CheckBlock]. *)
Definition CheckBlock_pow (g : etchash_caches) (g_isRandomX : bool) (block : CBlockHeader) (fCheckPOW : bool) (nHeight : Z)
    : option (etchash_caches * bool) :=
  let randomx := ok ← randomx_verdict block POW_VERIFY_COMMITMENT_ONLY 0; Some (g, ok) in
  if negb g_isRandomX then CheckBlockHeader g block fCheckPOW None
  else if negb fCheckPOW then Some (g, true)
  else if second_algo (nVersion block) then
    match GetPowAlgoForHeader nHeight (nVersion block) params with
    | Some Etchash => '(g, (ok, _)) ← CheckProofOfWorkEtchash g block nHeight params POW_VERIFY_COMMITMENT_ONLY false; Some (g, ok)
    | Some QHash => '(ok, _) ← CheckProofOfWorkQHash block params POW_VERIFY_COMMITMENT_ONLY false; Some (g, ok)
    | None =>
        if fDualAlgoEtchash params then Some (g, true) else
        '(ok, _) ← CheckProofOfWorkQHash block params POW_VERIFY_COMMITMENT_ONLY false;
        if ok : bool then Some (g, true) else randomx
    | Some RandomX => randomx
    end
  else randomx.

Fixpoint HasValidProofOfWork (g : etchash_caches) (headers : list CBlockHeader) (nHeight : Z) : option (etchash_caches * bool) :=
  match headers with
  | [] => Some (g, true)
  | header :: headers =>
      '(g, ok) ← (match GetPowAlgoForHeader nHeight (nVersion header) params with
        | None => Some (g, true)
        | Some Etchash => '(g, (ok, _)) ← CheckProofOfWorkEtchash g header nHeight params POW_VERIFY_FULL false; Some (g, ok)
        | Some QHash => '(ok, _) ← CheckProofOfWorkQHash header params POW_VERIFY_COMMITMENT_ONLY false; Some (g, ok)
        | Some RandomX => ok ← randomx_verdict header POW_VERIFY_COMMITMENT_ONLY 0; Some (g, ok)
        end);
      if ok : bool then HasValidProofOfWork g headers (if 0 <=? nHeight then nHeight + 1 else nHeight) else Some (g, false)
  end.
End Headers.

#[local] Opaque Keccak256 Keccak512 HashimotoLight GenerateCache CalcCacheSize CalcDatasetSize QHashFromSeed.

(** ** The table cache *)

(** The table of an epoch, computed anew. *)
Definition table (epoch : Z) : option (Z * list Z) :=
  size ← CalcCacheSize (size_turns epoch) epoch;
  words ← GenerateCache size (SeedForEpoch epoch);
  Some (size, words).

Definition caches_ok (g : etchash_caches) : Prop := forall e v, m_map g !! e = Some v -> table e = Some v.

Lemma caches_new n : caches_ok (lru_new n).
Proof. intros e v H. unfold lru_new in H. cbn [m_map] in H. by rewrite lookup_empty in H. Qed.

Lemma get_table g e v : caches_ok g -> table e = Some v ->
  exists g', GetEtchashCache g e (SeedForEpoch e) = Some (g', v) /\ caches_ok g'.
Proof.
  intros Hg Ht. unfold GetEtchashCache, lru_contains, lru_get. case_bool_decide as Hin.
  - destruct Hin as [x Hx]. rewrite Hx. assert (x = v) as -> by (specialize (Hg e x Hx); congruence).
    eexists. split; [reflexivity|]. exact Hg.
  - pose proof Ht as Hv. unfold table in Ht. apply bind_Some in Ht as (size & Es & Ht). apply bind_Some in Ht as (words & Ew & [= <-]).
    rewrite Es, some_bind, Ew, some_bind. eexists. split; [reflexivity|].
    intros e' x H. apply insert_lookup in H as [[-> ->]|H]; [exact Hv|by apply Hg].
Qed.

(** The cache stays sound whatever is asked of it. *)
Lemma get_kept g e g' v : caches_ok g -> GetEtchashCache g e (SeedForEpoch e) = Some (g', v) -> caches_ok g'.
Proof.
  intros Hg. unfold GetEtchashCache, lru_contains, lru_get. case_bool_decide.
  - intros (x & _ & [= <- _])%bind_Some. exact Hg.
  - intros (size & Es & (words & Ew & [= <- _])%bind_Some)%bind_Some e' x Hx.
    apply insert_lookup in Hx as [[-> ->]|Hx]; [|by apply Hg]. unfold table. by rewrite Es, some_bind, Ew, some_bind.
Qed.

Lemma some_fst {A B} (a a' : A) (b b' : B) : Some (a, b) = Some (a', b') -> a = a'.
Proof. by intros [= ->]. Qed.

Lemma etchash_kept g block h params mode out g' r :
  caches_ok g -> CheckProofOfWorkEtchash g block h params mode out = Some (g', r) -> caches_ok g'.
Proof.
  intros Hg. unfold CheckProofOfWorkEtchash. destruct (IsNull (hashPrevBlock block)); [by intros <-%some_fst|].
  destruct (negb _); [by intros <-%some_fst|]. intros (e & _ & H)%bind_Some. revert H. destruct (e <? 0); [by intros <-%some_fst|].
  destruct (bool_decide (mode = POW_VERIFY_COMMITMENT_ONLY)); [by intros <-%some_fst|].
  intros ([g1 v] & E & H)%bind_Some. apply get_kept in E; [|exact Hg].
  apply bind_Some in H as (ds & _ & H). apply bind_Some in H as ([d res] & _ & H).
  destruct (negb (bool_decide (mode = POW_VERIFY_MINING)) && _); apply some_fst in H as <-; exact E.
Qed.

Lemma header_kept {R : RandomXRef} have_vm params g block check prev g' ok :
  caches_ok g -> CheckBlockHeader have_vm params g block check prev = Some (g', ok) -> caches_ok g'.
Proof.
  intros Hg. unfold CheckBlockHeader. destruct (negb check); [by intros [= <- _]|].
  destruct (GetPowAlgoForHeader _ _ _) as [[]|]; intros (r & E & H)%bind_Some; [|destruct r as [g1 [b o]]|destruct r|]; injection H as <- _; try done.
  by eapply etchash_kept.
Qed.

(** ** Sizes *)

(** Epochs below this bound keep every table index within 32 bits. *)
Definition MAX_EPOCH : Z := 32000.

Lemma epoch_sizes e : 0 <= e < MAX_EPOCH ->
  (exists n, CalcCacheSize (size_turns e) e = Some (64 * Z.of_nat n) /\ (0 < n)%nat /\ Z.of_nat n < 2 ^ 26) /\
  (exists r, CalcDatasetSize (size_turns e) e = Some (128 * r) /\ 0 < r < 2 ^ 31).
Proof.
  unfold MAX_EPOCH, size_turns. intros He. split.
  - destruct (shrink_ends HASH_BYTES (2 ^ 17 + 2 ^ 10 * e - 2)) as (j & Hj & _ & _ & Hs); unfold HASH_BYTES in *; [lia..|].
    specialize (Hs (Z.to_nat (2 ^ 22 + 2 ^ 15 * e)) ltac:(lia)).
    exists (Z.to_nat (2 * (2 ^ 17 + 2 ^ 10 * e - 2 - j) + 3)). split; [|lia].
    with_strategy transparent [CalcCacheSize] unfold CalcCacheSize. unfold HASH_BYTES, CACHE_INIT_BYTES, CACHE_GROWTH_BYTES, w64.
    rewrite Z.mod_small by lia. replace (2 ^ 24 + 2 ^ 17 * e - 64) with ((2 * (2 ^ 17 + 2 ^ 10 * e - 2) + 3) * 64) by lia.
    rewrite Hs. f_equal. lia.
  - destruct (shrink_ends MIX_BYTES (2 ^ 22 + 2 ^ 15 * e - 2)) as (j & Hj & _ & _ & Hs); unfold MIX_BYTES in *; [lia..|].
    specialize (Hs (Z.to_nat (2 ^ 22 + 2 ^ 15 * e)) ltac:(lia)).
    exists (2 * (2 ^ 22 + 2 ^ 15 * e - 2 - j) + 3). split; [|lia].
    with_strategy transparent [CalcDatasetSize] unfold CalcDatasetSize. unfold MIX_BYTES, DATASET_INIT_BYTES, DATASET_GROWTH_BYTES, w64.
    rewrite Z.mod_small by lia. replace (2 ^ 30 + 2 ^ 23 * e - 128) with ((2 * (2 ^ 22 + 2 ^ 15 * e - 2) + 3) * 128) by lia.
    rewrite Hs. f_equal. lia.
Qed.

(** ** What the checks decide *)

(** [result] is the Ethash result of the header under the tables of the epoch. *)
Definition is_etchash (e : Z) (block : CBlockHeader) (result : bytes) : Prop :=
  exists n r, CalcCacheSize (size_turns e) e = Some (64 * Z.of_nat n) /\ CalcDatasetSize (size_turns e) e = Some (128 * r) /\
    result = snd (hashimoto (Keccak256 (SerializeRandomXHeader (without_nonce block))) (nNonce block) (128 * r)
                    (calc_dataset_item (map words_of (mkcache n (SeedForEpoch e))))).

(** The table and the light verification of an epoch. *)
Lemma epoch_hash e block : 0 <= e < MAX_EPOCH -> is_u32 (nNonce block) ->
  exists v ds digest result, table e = Some v /\ CalcDatasetSize (size_turns e) e = Some ds /\
    HashimotoLight ds (snd v) (Keccak256 (SerializeRandomXHeader (without_nonce block))) (nNonce block) = Some (digest, result) /\
    is_etchash e block result.
Proof.
  intros He Hn. destruct (epoch_sizes e He) as [(n & En & Hn0 & Hn1) (r & Er & Hr)].
  destruct (generate_cache n (conj Hn0 Hn1) (SeedForEpoch e)) as [Eg _]. destruct (cache_words_ok n (conj Hn0 Hn1) (SeedForEpoch e)) as [Hw1 Hw2].
  pose proof (hashimoto_light (map words_of (mkcache n (SeedForEpoch e))) r Hw1 ltac:(rewrite Hw2; lia) Hr
    (Keccak256 (SerializeRandomXHeader (without_nonce block))) (nNonce block) ltac:(unfold is_u32 in Hn; lia)) as Hh.
  destruct (hashimoto _ _ _ _) as [cmix result] eqn:Eh. exists (64 * Z.of_nat n, concat (map words_of (mkcache n (SeedForEpoch e)))), (128 * r), (bytes_of cmix), result.
  split; [unfold table; rewrite En, some_bind, Eg, some_bind; reflexivity|]. split; [exact Er|]. split; [exact Hh|].
  exists n, r. split; [exact En|]. split; [exact Er|]. rewrite Eh. reflexivity.
Qed.

Lemma etchash_full params block height e :
  0 <= e < MAX_EPOCH -> is_u32 (nNonce block) -> GetEtchashEpoch height params = Some e -> IsNull (hashPrevBlock block) = false ->
  exists result, is_etchash e block result /\ forall g, caches_ok g -> exists g', caches_ok g' /\
    CheckProofOfWorkEtchash g block height params POW_VERIFY_FULL false =
      Some (g', (target_in_range (nBits block) params && negb (IsNull (h_hashRandomX block)) && bool_decide (result = h_hashRandomX block) &&
                 negb (above_target params height (nBits block) result), None)).
Proof.
  intros He Hn Ee Hp. destruct (epoch_hash e block He Hn) as (v & ds & digest & result & Ht & Ed & Eh & Hr). exists result. split; [exact Hr|].
  intros g Hg. unfold CheckProofOfWorkEtchash. rewrite Hp. destruct (target_in_range _ _); cbn [negb andb]; [|exists g; split; [exact Hg|reflexivity]].
  rewrite Ee, some_bind. rewrite (proj2 (Z.ltb_ge _ _)) by lia. rewrite bool_decide_false by done.
  destruct (get_table g e v Hg Ht) as (g' & Eg & Hg'). exists g'. split; [exact Hg'|].
  rewrite Eg, some_bind, Ed, some_bind, Eh, some_bind. rewrite bool_decide_false by done.
  destruct (IsNull (h_hashRandomX block)); [reflexivity|]. case_bool_decide; reflexivity.
Qed.

(** A header that the full verification accepts on top of [b]. *)
Definition accepted {R : RandomXRef} (have_vm : Z -> bool) (params : Params) (b : CBlockIndex) (h : CBlockHeader) : Prop :=
  exists g g', caches_ok g /\ CheckBlockHeader have_vm params g h true (Some b) = Some (g', true).

Section Judged.
Context {R : RandomXRef} (have_vm : Z -> bool) (params : Params).
Hypothesis epoch_length : 0 < nEtchashEpochLength params.
Hypothesis activation : 0 <= nDualAlgoActivationHeight params.

(** Heights of the epochs considered. *)
Definition height_ok (h : Z) : Prop := h < nDualAlgoActivationHeight params + MAX_EPOCH * nEtchashEpochLength params.

Lemma etchash_epoch_range h : height_ok h -> nDualAlgoActivationHeight params <= h ->
  exists e, GetEtchashEpoch h params = Some e /\ 0 <= e < MAX_EPOCH.
Proof.
  unfold height_ok. intros Hh Ha. unfold GetEtchashEpoch. rewrite !(proj2 (Z.ltb_ge _ _)) by lia. cbn [orb].
  rewrite (proj2 (Z.eqb_neq _ _)) by lia. eexists. split; [done|]. rewrite Z.quot_div_nonneg by lia.
  split; [apply Z.div_pos; lia|apply Z.div_lt_upper_bound; lia].
Qed.

Lemma etchash_same block h : height_ok h -> nDualAlgoActivationHeight params <= h -> is_u32 (nNonce block) ->
  exists verdict, (forall g, caches_ok g -> exists g', caches_ok g' /\
      CheckProofOfWorkEtchash g block h params POW_VERIFY_FULL false = Some (g', (verdict, None))) /\
    (verdict = true -> forall g, CheckProofOfWorkEtchash g block h params POW_VERIFY_COMMITMENT_ONLY false = Some (g, (true, None))).
Proof.
  intros Hh Ha Hn. destruct (etchash_epoch_range h Hh Ha) as (e & Ee & He). destruct (IsNull (hashPrevBlock block)) eqn:Ep.
  - exists true. unfold CheckProofOfWorkEtchash. rewrite Ep. split; [intros g Hg; by exists g|done].
  - destruct (etchash_full params block h e He Hn Ee Ep) as (result & _ & Hf). eexists. split; [exact Hf|].
    intros (((H1 & H2)%andb_true_iff & H3)%andb_true_iff & H4)%andb_true_iff g. apply bool_decide_eq_true_1 in H3. subst result.
    unfold CheckProofOfWorkEtchash. rewrite Ep, H1. cbn [negb]. rewrite Ee, some_bind, (proj2 (Z.ltb_ge _ _)), bool_decide_true by (done || lia).
    rewrite H2, H4. done.
Qed.

Lemma qhash_modes block : CheckProofOfWorkQHash block params POW_VERIFY_COMMITMENT_ONLY false = CheckProofOfWorkQHash block params POW_VERIFY_FULL false.
Proof. unfold CheckProofOfWorkQHash. by rewrite !bool_decide_false by done. Qed.

Lemma qhash_total block : exists r, CheckProofOfWorkQHash block params POW_VERIFY_COMMITMENT_ONLY false = Some r.
Proof.
  unfold CheckProofOfWorkQHash. destruct (IsNull (hashPrevBlock block)); [eauto|]. destruct (negb _); [eauto|].
  destruct (qhash_returns (sha256d (SerializeRandomXHeader block))) as (out & ->). rewrite some_bind. destruct (_ && _); eauto.
Qed.

Lemma randomx_precheck vm block t : randomx_verdict vm params block POW_VERIFY_FULL t = Some true ->
  randomx_verdict have_vm params block POW_VERIFY_COMMITMENT_ONLY 0 = Some true.
Proof.
  unfold randomx_verdict, CheckProofOfWorkRandomX. rewrite !bool_decide_false by done. cbn [negb andb].
  destruct (fPowRandomX params); cbn [negb]; [|done]. destruct (IsNull (hashPrevBlock block)); [done|].
  destruct (target_in_range _ _); cbn [negb]; [|done].
  destruct (IsNull (h_hashRandomX block) || _); [done|]. intros _. reflexivity.
Qed.

(** The full verification returns, and its verdict does not depend on the cache. *)
Lemma header_total b h : is_u32 (nNonce h) -> height_ok (nHeight b + 1) ->
  exists verdict, forall g, caches_ok g -> exists g', CheckBlockHeader have_vm params g h true (Some b) = Some (g', verdict).
Proof.
  intros Hn Hh. unfold CheckBlockHeader. cbn [negb]. unfold GetPowAlgoForHeader.
  assert (exists v, randomx_verdict have_vm params h POW_VERIFY_FULL (i_nTime b) = Some v) as [v Hv].
  { unfold randomx_verdict, CheckProofOfWorkRandomX. rewrite !bool_decide_false by done. rewrite andb_false_r. cbn [negb andb].
    repeat match goal with |- context [if ?c then _ else _] => destruct c end; eauto. }
  assert (exists verdict, forall g : etchash_caches, caches_ok g -> exists g',
    (randomx_verdict have_vm params h POW_VERIFY_FULL (i_nTime b) ≫= fun ok => Some (g, ok)) = Some (g', verdict)) as Hrx.
  { exists v. intros g _. exists g. by rewrite Hv, some_bind. }
  destruct (negb (second_algo (nVersion h))); [exact Hrx|]. destruct (nHeight b + 1 <? 0); [exact Hrx|].
  destruct (Z.ltb_spec (nHeight b + 1) (nDualAlgoActivationHeight params)) as [|Ha]; [exact Hrx|]. clear Hrx. destruct (fDualAlgoEtchash params).
  - destruct (etchash_same h (nHeight b + 1) Hh Ha Hn) as (verdict & He & _). exists verdict. intros g Hg.
    destruct (He g Hg) as (g' & _ & ->). exists g'. by rewrite some_bind.
  - destruct (qhash_total h) as [[ok o] E]. rewrite qhash_modes in E. exists ok. intros g _. exists g. by rewrite E, some_bind.
Qed.

(** For RandomX, acceptance is the verdict of its check. *)
Lemma accepted_randomx vm b h : GetPowAlgoForHeader (nHeight b + 1) (nVersion h) params = Some RandomX ->
  accepted vm params b h <-> randomx_verdict vm params h POW_VERIFY_FULL (i_nTime b) = Some true.
Proof.
  intros Ha. unfold accepted, CheckBlockHeader. cbn [negb]. rewrite Ha. split.
  - intros (g & g' & _ & (ok & E & [= _ ->])%bind_Some). exact E.
  - intros E. exists (lru_new 2), (lru_new 2). split; [apply caches_new|]. by rewrite E, some_bind.
Qed.

Lemma accepted_prechecks vm b h g : accepted vm params b h -> is_u32 (nNonce h) -> height_ok (nHeight b + 1) -> 0 <= nHeight b -> caches_ok g ->
  (exists g', caches_ok g' /\ forall hs, HasValidProofOfWork have_vm params g (h :: hs) (nHeight b + 1) =
     HasValidProofOfWork have_vm params g' hs (nHeight b + 2)) /\
  CheckBlock_pow have_vm params g true h true (nHeight b + 1) = Some (g, true) /\
  CheckBlock_pow have_vm params g true h true (-1) = Some (g, true).
Proof.
  intros (g0 & g1 & Hg0 & Hc) Hn Hh Hb Hg. unfold CheckBlockHeader in Hc. cbn [negb] in Hc. cbn [HasValidProofOfWork].
  rewrite (proj2 (Z.leb_le 0 (nHeight b + 1))) by lia. replace (nHeight b + 1 + 1) with (nHeight b + 2) by lia.
  unfold CheckBlock_pow. cbn [negb]. unfold GetPowAlgoForHeader in *.
  destruct (second_algo (nVersion h)) eqn:Es; cbn [negb] in *.
  - rewrite (proj2 (Z.ltb_ge (nHeight b + 1) 0)) in * by lia. change (-1 <? 0) with true. cbv iota.
    destruct (Z.ltb_spec (nHeight b + 1) (nDualAlgoActivationHeight params)) as [Hlt|Hge].
    + apply bind_Some in Hc as (ok & Hc & [= <- ->]). apply randomx_precheck in Hc. rewrite Hc, !some_bind.
      split; [exists g; split; [exact Hg|reflexivity]|]. split; [reflexivity|]. destruct (fDualAlgoEtchash params); [reflexivity|].
      destruct (qhash_total h) as [[[] o] ->]; rewrite some_bind; reflexivity.
    + destruct (fDualAlgoEtchash params).
      * destruct (etchash_same h (nHeight b + 1) Hh Hge Hn) as (verdict & Hv & Hp). destruct (Hv g0 Hg0) as (g0' & _ & E0). rewrite E0, some_bind in Hc.
        injection Hc as _ ->. destruct (Hv g Hg) as (g' & Hg' & E). rewrite E, (Hp eq_refl g), !some_bind.
        split; [exists g'; split; [exact Hg'|reflexivity]|]. split; reflexivity.
      * rewrite qhash_modes. apply bind_Some in Hc as ([ok o] & Hc & [= <- ->]). rewrite Hc, !some_bind.
        split; [exists g; split; [exact Hg|reflexivity]|]. split; reflexivity.
  - apply bind_Some in Hc as (ok & Hc & [= <- ->]). apply randomx_precheck in Hc. rewrite Hc, !some_bind.
    split; [exists g; split; [exact Hg|reflexivity]|]. split; reflexivity.
Qed.
(** C15. The cheap checks never refuse a valid header.  If the full verification
    accepts each header of a batch on its parent, the batch passes the pre-check
    of [HasValidProofOfWork] from any state of the table cache and for any
    available RandomX machines, and each header passes the context-free check of
    [CheckBlock] whether its height is given or unknown. *)
Theorem precheck_admits_valid hs start g :
  0 < start -> height_ok (start + Z.of_nat (length hs)) -> caches_ok g ->
  (forall i b h, hs !! i = Some (b, h) ->
     nHeight b + 1 = start + Z.of_nat i /\ is_u32 (nNonce h) /\ exists vm, accepted vm params b h) ->
  (exists g', HasValidProofOfWork have_vm params g (map snd hs) start = Some (g', true) /\ caches_ok g') /\
  (forall i b h, hs !! i = Some (b, h) ->
     CheckBlock_pow have_vm params g true h true (start + Z.of_nat i) = Some (g, true) /\
     CheckBlock_pow have_vm params g true h true (-1) = Some (g, true)).
Proof.
  intros Hs Hh Hg Hhs. split.
  - revert start g Hs Hh Hg Hhs. induction hs as [|[b h] hs IH]; intros start g Hs Hh Hg Hhs; [by exists g|].
    destruct (Hhs 0%nat b h eq_refl) as (Hb & Hn & vm & Ha). unfold height_ok in Hh. cbn [length] in Hh.
    destruct (accepted_prechecks vm b h g Ha Hn) as [(g' & Hg' & E) _]; [unfold height_ok; lia|lia|done|].
    replace start with (nHeight b + 1) by lia. cbn [map snd]. rewrite E. replace (nHeight b + 2) with (start + 1) by lia.
    apply IH; [lia|unfold height_ok; lia|done|]. intros i b' h' Ei. destruct (Hhs (S i) b' h' Ei) as (Hb' & Hr). split; [lia|exact Hr].
  - intros i b h Ei. destruct (Hhs i b h Ei) as (Hb & Hn & vm & Ha). apply lookup_lt_Some in Ei. rewrite <- Hb.
    apply (accepted_prechecks vm b h g Ha Hn); [unfold height_ok in *; lia|lia|done].
Qed.

(** For the second algorithm the pre-check is as strict as the full verification. *)
Theorem precheck_exact b h g g' : second_algo (nVersion h) = true -> nDualAlgoActivationHeight params <= nHeight b + 1 -> 0 <= nHeight b ->
  is_u32 (nNonce h) -> height_ok (nHeight b + 1) -> caches_ok g ->
  HasValidProofOfWork have_vm params g [h] (nHeight b + 1) = Some (g', true) -> accepted have_vm params b h.
Proof.
  intros Hs Ha Hb Hn Hh Hg H. cbn [HasValidProofOfWork] in H. unfold accepted, CheckBlockHeader. cbn [negb]. unfold GetPowAlgoForHeader in *.
  rewrite Hs in *. cbn [negb] in *. rewrite !(proj2 (Z.ltb_ge (nHeight b + 1) _)) in * by lia. exists g.
  apply bind_Some in H as ([g1 ok] & H & Hk). destruct ok; [|done]. exists g1. split; [exact Hg|]. destruct (fDualAlgoEtchash params).
  - exact H.
  - rewrite qhash_modes in H. exact H.
Qed.

(** For RandomX it reads only the commitment: a header whose claimed hash is wrong
    passes it and is refused by the full verification. *)
Theorem precheck_trusts_commitment b h g : second_algo (nVersion h) = false -> fPowRandomX params = true ->
  IsNull (hashPrevBlock h) = false -> target_in_range (nBits h) params = true -> IsNull (h_hashRandomX h) = false ->
  UintToArith256 (GetRandomXCommitment h None) <= c_target (SetCompact (nBits h)) ->
  h_hashRandomX h <> rx_hash (GetSeedHash (verify_epoch h params (i_nTime b))) (SerializeRandomXHeader h) ->
  HasValidProofOfWork have_vm params g [h] (nHeight b + 1) = Some (g, true) /\
  CheckBlockHeader have_vm params g h true (Some b) = Some (g, false).
Proof.
  intros Hs Hx Hp Ht Hn Hc Hne. cbn [HasValidProofOfWork]. unfold CheckBlockHeader. cbn [negb]. unfold GetPowAlgoForHeader. rewrite Hs. cbn [negb].
  assert (randomx_verdict have_vm params h POW_VERIFY_COMMITMENT_ONLY 0 = Some true /\
          randomx_verdict have_vm params h POW_VERIFY_FULL (i_nTime b) = Some false) as [-> ->]; [|done].
  unfold randomx_verdict, CheckProofOfWorkRandomX. rewrite Hx, Hp, Ht, Hn, !bool_decide_false by done. cbn [negb andb orb].
  rewrite (proj2 (Z.ltb_ge _ _)) by lia. split; [done|]. by destruct (have_vm _).
Qed.
End Judged.

(** ** A concrete batch *)

(** A hash that ignores its input, with commitments below every target. *)
Definition ex_rx : RandomXRef := {| rx_hash := fun _ _ => replicate 32 7; rx_commitment := fun _ _ => null256 |}.

Definition ex_header (prev : bytes) (bits : Z) : CBlockHeader := Header 0x20000000 prev null256 9 bits 0 (replicate 32 7).

Lemma ex_header_check prev bits g b : 0 <= bits -> target_in_range bits ex_dual = true ->
  CheckBlockHeader (R := ex_rx) (fun _ => true) ex_dual g (ex_header prev bits) true (Some b) = Some (g, true).
Proof.
  intros Hb Ht. unfold CheckBlockHeader. cbn [negb].
  replace (GetPowAlgoForHeader (nHeight b + 1) (nVersion (ex_header prev bits)) ex_dual) with (Some RandomX) by reflexivity.
  unfold randomx_verdict, CheckProofOfWorkRandomX. change (nBits (ex_header prev bits)) with bits. rewrite Ht.
  destruct (IsNull (hashPrevBlock (ex_header prev bits))); [done|]. rewrite !bool_decide_false by done. cbn [negb andb fPowRandomX ex_dual with_act rcpu_main].
  change (IsNull (h_hashRandomX (ex_header prev bits))) with false. change (UintToArith256 (GetRandomXCommitment (ex_header prev bits) None)) with 0.
  unfold target_in_range in Ht. rewrite (proj2 (Z.ltb_ge _ _)) by (pose proof (SetCompact_below bits Hb); lia). done.
Qed.

Lemma ex_header_accepted prev bits b : 0 <= bits -> target_in_range bits ex_dual = true -> accepted (R := ex_rx) (fun _ => true) ex_dual b (ex_header prev bits).
Proof. intros Hb Ht. exists (lru_new 2), (lru_new 2). split; [apply caches_new|by apply ex_header_check]. Qed.

Lemma precheck_admits_valid_witness :
  exists g, HasValidProofOfWork (R := ex_rx) (fun _ => false) ex_dual (lru_new 2) [ex_header null256 0x1e3ffffc; ex_header (replicate 32 1) 0x1e3ffffc] 1 = Some (g, true).
Proof.
  destruct (precheck_admits_valid (R := ex_rx) (fun _ => false) ex_dual ltac:(cbn; lia) ltac:(cbn; lia)
    [(ex_root, ex_header null256 0x1e3ffffc); (ex_tip, ex_header (replicate 32 1) 0x1e3ffffc)] 1 (lru_new 2)) as [(g & H & _) _].
  - lia.
  - unfold height_ok, MAX_EPOCH. cbn. lia.
  - apply caches_new.
  - intros [|[|i]] b h; cbn [lookup list_lookup]; [intros [= <- <-]..|done].
    + split; [reflexivity|]. split; [unfold is_u32; cbn; lia|]. exists (fun _ => true). apply ex_header_accepted; [lia|reflexivity].
    + split; [reflexivity|]. split; [unfold is_u32; cbn; lia|]. exists (fun _ => true). apply ex_header_accepted; [lia|reflexivity].
  - exists g. exact H.
Defined.
