(* ===== verification/HeaderAccept.v ===== *)
(** * Accepting headers

    [ChainstateManager::AcceptBlockHeader] and [ProcessNewBlockHeaders]
    ([src/validation.cpp]) with the checks they call: the contextual rules
    ([ContextualCheckBlockHeader], the median time of [src/chain.h], the last
    checkpoint), the proof of work of [PowAlgo], the failed blocks and the block
    index.  The file follows every state the index can reach and shows that each
    header in it was justified by real work at the difficulty of its algorithm.

    [nStatus] of an entry is kept beside the index, by address.  The log and the
    set of entries waiting to be written to disk are left out. *)

From Stdlib Require Import ZArith Lia Bool String.
From stdpp Require Import base list numbers option sorting.
From S2P Require Import Prelude Bytes JsNum JsStr JsValue Sha256 Libs Consensus Compact BlockIndex PowTarget PowTargetFacts LruCache EtchashSize Keccak Etchash QHash PowAlgo.

Open Scope Z_scope.

(** ** Verdicts *)

Inductive BlockValidationResult :=
  | BLOCK_RESULT_UNSET | BLOCK_CONSENSUS | BLOCK_RECENT_CONSENSUS_CHANGE | BLOCK_CACHED_INVALID | BLOCK_INVALID_HEADER
  | BLOCK_MUTATED | BLOCK_MISSING_PREV | BLOCK_INVALID_PREV | BLOCK_TIME_FUTURE | BLOCK_CHECKPOINT | BLOCK_HEADER_LOW_WORK.

(** [true], or [state.Invalid] with its result and reject reason. *)
Inductive verdict := Accepted | Rejected (result : BlockValidationResult) (reason : jstr).

(** ** Parameters and state *)

(** What header validation reads of the chain parameters; checkpoints by
    increasing height. *)
Record ChainParams := MkChain {
  consensus : Params;
  hashGenesisBlock : bytes;
  BIP34Height : Z;
  BIP65Height : Z;
  BIP66Height : Z;
  checkpoints_enabled : bool;
  mapCheckpoints : list (Z * bytes);
}.

Definition BLOCK_VALID_TREE : Z := 2.
Definition BLOCK_VALID_SCRIPTS : Z := 5.
Definition BLOCK_VALID_MASK : Z := 7.
Definition BLOCK_FAILED_VALID : Z := 32.
Definition BLOCK_FAILED_CHILD : Z := 64.
Definition BLOCK_FAILED_MASK : Z := Z.lor BLOCK_FAILED_VALID BLOCK_FAILED_CHILD.

(** [m_failed_blocks] in the order of the set. *)
Record ChainstateManager := Chainman {
  m_block_index : block_map;
  nStatus : list Z;
  m_best_header : option nat;
  m_failed_blocks : list nat;
  g_etchash_caches : etchash_caches;
}.

Definition failed (status : Z) : bool := negb (Z.land status BLOCK_FAILED_MASK =? 0).

Definition IsValid (status nUpTo : Z) : bool :=
  if failed status then false else nUpTo <=? Z.land status BLOCK_VALID_MASK.

(** ** Contextual rules *)

Definition nMedianTimeSpan : nat := 11.

(** The times of at most [n] entries from [p] back. *)
Fixpoint past_times (n : nat) (m : block_map) (p : option nat) : option (list Z) :=
  match n, p with
  | S n, Some q => b ← index m q; l ← past_times n m (pprev b); Some (i_nTime b :: l)
  | _, _ => Some []
  end.

Definition GetMedianTimePast (m : block_map) (p : nat) : option Z :=
  l ← past_times nMedianTimeSpan m (Some p);
  merge_sort Z.le l !! (length l / 2)%nat.

Definition GetLastCheckpoint (m : block_map) (checkpoints : list (Z * bytes)) : option CBlockIndex :=
  p ← head (omap (fun c => find_hash (snd c) m) (rev checkpoints));
  index m p.

(** [strprintf] of "bad-version(0x%08x)". *)
Definition bad_version (version : Z) : jstr := js "bad-version(0x" ++ to_hex (rev (le_bytes 4 (u32 version))) ++ js ")".

(** [DeploymentActiveAfter] of a buried deployment. *)
Definition DeploymentActiveAfter (prev : CBlockIndex) (deploymentHeight : Z) : bool := deploymentHeight <=? nHeight prev + 1.

Section Accept.
Context {R : RandomXRef} (have_vm : Z -> bool) (g_isRandomX : bool) (cp : ChainParams).

(** [now] is the node clock in nanoseconds. *)
Definition ContextualCheckBlockHeader (m : block_map) (pindexPrev : nat) (block : CBlockHeader) (now : Z) : option verdict :=
  prev ← index m pindexPrev;
  let height := nHeight prev + 1 in
  bits ← GetNextWorkRequired g_isRandomX m pindexPrev (Some block) (consensus cp);
  if negb (nBits block =? bits) then Some (Rejected BLOCK_INVALID_HEADER (js "bad-diffbits")) else
  if checkpoints_enabled cp &&
     match GetLastCheckpoint m (mapCheckpoints cp) with Some pcheckpoint => height <? nHeight pcheckpoint | None => false end
  then Some (Rejected BLOCK_CHECKPOINT (js "bad-fork-prior-to-checkpoint")) else
  median ← GetMedianTimePast m pindexPrev;
  if nTime block <=? median then Some (Rejected BLOCK_INVALID_HEADER (js "time-too-old")) else
  if now + MAX_FUTURE_BLOCK_TIME * 10 ^ 9 <? nTime block * 10 ^ 9 then Some (Rejected BLOCK_TIME_FUTURE (js "time-too-new")) else
  if ((nVersion block <? 2) && DeploymentActiveAfter prev (BIP34Height cp)) ||
     ((nVersion block <? 3) && DeploymentActiveAfter prev (BIP66Height cp)) ||
     ((nVersion block <? 4) && DeploymentActiveAfter prev (BIP65Height cp))
  then Some (Rejected BLOCK_INVALID_HEADER (bad_version (nVersion block)))
  else Some Accepted.

(** ** Failed blocks *)

(** The first failed block that is an ancestor of [p]. *)
Fixpoint failed_ancestor (m : block_map) (p : nat) (l : list nat) : option (option nat) :=
  match l with
  | [] => Some None
  | failedit :: l =>
      f ← index m failedit;
      anc ← GetAncestor m p (nHeight f);
      if bool_decide (anc = Some failedit) then Some (Some failedit) else failed_ancestor m p l
  end.

(** The walk that marks the descendants of [failedit] down from [p]. *)
Fixpoint mark_failed (fuel : nat) (m : block_map) (status : list Z) (invalid_walk failedit : nat) : option (list Z) :=
  if bool_decide (invalid_walk = failedit) then Some status else
  match fuel with
  | O => None
  | S f =>
      b ← index m invalid_walk;
      r ← pprev b;
      mark_failed f m (alter (fun s => Z.lor s BLOCK_FAILED_CHILD) invalid_walk status) r failedit
  end.

(** ** Accepting one header *)

Definition high_hash : verdict := Rejected BLOCK_INVALID_HEADER (js "high-hash").

Definition with_caches (cm : ChainstateManager) (g : etchash_caches) : ChainstateManager :=
  Chainman (m_block_index cm) (nStatus cm) (m_best_header cm) (m_failed_blocks cm) g.
Definition with_status (cm : ChainstateManager) (status : list Z) : ChainstateManager :=
  Chainman (m_block_index cm) status (m_best_header cm) (m_failed_blocks cm) (g_etchash_caches cm).

(** [BlockManager::AddToBlockIndex]; a new entry is valid up to the tree. *)
Definition add_header (cm : ChainstateManager) (block : CBlockHeader) : option (ChainstateManager * nat) :=
  '(m, p, best) ← AddToBlockIndex (nDualAlgoActivationHeight (consensus cp)) (m_block_index cm) block (m_best_header cm);
  let status := match find_hash (GetHash block) (m_block_index cm) with
                | Some _ => nStatus cm
                | None => nStatus cm ++ [BLOCK_VALID_TREE]
                end in
  Some (Chainman m status best (m_failed_blocks cm) (g_etchash_caches cm), p).

(** The checks of a header that is neither known nor the genesis block. *)
Definition check_new_header (cm : ChainstateManager) (block : CBlockHeader) (now : Z) : option (ChainstateManager * verdict) :=
  let m := m_block_index cm in
  match find_hash (hashPrevBlock block) m with
  | None => Some (cm, Rejected BLOCK_MISSING_PREV (js "prev-blk-not-found"))
  | Some pindexPrev =>
      prev ← index m pindexPrev;
      prevStatus ← nStatus cm !! pindexPrev;
      if failed prevStatus then Some (cm, Rejected BLOCK_INVALID_PREV (js "bad-prevblk")) else
      '(g, ok) ← (if g_isRandomX then Some (g_etchash_caches cm, true)
                  else CheckBlockHeader have_vm (consensus cp) (g_etchash_caches cm) block true None);
      let cm := with_caches cm g in
      if negb ok then Some (cm, high_hash) else
      v ← ContextualCheckBlockHeader m pindexPrev block now;
      match v with Rejected _ _ => Some (cm, v) | Accepted =>
        '(g, ok) ← (if g_isRandomX then CheckBlockHeader have_vm (consensus cp) (g_etchash_caches cm) block true (Some prev)
                    else Some (g_etchash_caches cm, true));
        let cm := with_caches cm g in
        if negb ok then Some (cm, high_hash) else
        if IsValid prevStatus BLOCK_VALID_SCRIPTS then Some (cm, Accepted) else
        anc ← failed_ancestor m pindexPrev (m_failed_blocks cm);
        match anc with
        | None => Some (cm, Accepted)
        | Some failedit =>
            s ← nStatus cm !! failedit;
            if Z.land s BLOCK_FAILED_VALID =? 0 then None else
            status ← mark_failed (S pindexPrev) m (nStatus cm) pindexPrev failedit;
            Some (with_status cm status, Rejected BLOCK_INVALID_PREV (js "bad-prevblk"))
        end
      end
  end.

(** The new state, what was written through [ppindex], and the verdict. *)
Definition AcceptBlockHeader (cm : ChainstateManager) (block : CBlockHeader) (min_pow_checked : bool) (now : Z)
    : option (ChainstateManager * option nat * verdict) :=
  let hash := GetHash block in
  let finish cm :=
    if negb min_pow_checked then Some (cm, None, Rejected BLOCK_HEADER_LOW_WORK (js "too-little-chainwork"))
    else '(cm, pindex) ← add_header cm block; Some (cm, Some pindex, Accepted) in
  if bool_decide (hash = hashGenesisBlock cp) then finish cm
  else match find_hash hash (m_block_index cm) with
  | Some pindex =>
      s ← nStatus cm !! pindex;
      Some (cm, Some pindex, if failed s then Rejected BLOCK_CACHED_INVALID (js "duplicate") else Accepted)
  | None =>
      '(cm, v) ← check_new_header cm block now;
      match v with Accepted => finish cm | Rejected _ _ => Some (cm, None, v) end
  end.

(** [ProcessNewBlockHeaders]: the clock is read for each header. *)
Fixpoint ProcessNewBlockHeaders (cm : ChainstateManager) (headers : list (CBlockHeader * Z)) (min_pow_checked : bool)
    (ppindex : option nat) : option (ChainstateManager * option nat * verdict) :=
  match headers with
  | [] => Some (cm, ppindex, Accepted)
  | (header, now) :: headers =>
      '(cm, pindex, v) ← AcceptBlockHeader cm header min_pow_checked now;
      match v with
      | Rejected _ _ => Some (cm, ppindex, v)
      | Accepted => ProcessNewBlockHeaders cm headers min_pow_checked pindex
      end
  end.
End Accept.

(** ** Growing tables *)

(** A query of the table that a larger table answers alike. *)
Section Grow.
Context (m m' : block_map).
Hypothesis grown : m `prefix_of` m'.

Definition stable {A} (f : block_map -> option A) : Prop := forall x, f m = Some x -> f m' = Some x.

Lemma stable_const {A} (r : option A) : stable (fun _ => r).
Proof. intros x H. exact H. Qed.

Lemma stable_bind {A B} (f : block_map -> option A) (g : block_map -> A -> option B) :
  stable f -> (forall a, stable (fun m => g m a)) -> stable (fun m => f m ≫= g m).
Proof. intros Hf Hg x (a & Ha & Hx)%bind_Some. apply bind_Some. exists a. split; [by apply Hf|by apply Hg]. Qed.

Lemma stable_index p : stable (fun m => index m p).
Proof.
  intros b. unfold index. destruct grown as [k ->]. destruct (m !! p) as [e|] eqn:E; [|done]. by rewrite (lookup_app_l_Some _ _ _ _ E).
Qed.

Lemma stable_find h : stable (find_hash h).
Proof.
  destruct grown as [k E]. unfold stable. rewrite E. clear E grown.
  induction m as [|[k' b] l IH]; intros p; cbn [find_hash app]; [done|].
  case_bool_decide; [done|]. destruct (find_hash h l) as [q|]; [|done]. by rewrite (IH q eq_refl).
Qed.

Ltac stable :=
  repeat match goal with
  | |- stable (fun m => if ?e then _ else _) => destruct e
  | |- stable (fun m => match ?e with Some _ => _ | None => _ end) => destruct e
  | |- stable (fun m => _ ≫= _) => apply stable_bind; [|intros ?]
  | |- stable (fun m => index m _) => apply stable_index
  | H : forall _, _ |- stable _ => apply H
  | |- stable (fun _ => ?r) => apply (stable_const r)
  end.

Lemma stable_walk fuel p w h : stable (fun m => walk fuel m p w h).
Proof. revert p w. induction fuel as [|f IH]; intros p w; cbn [walk]; stable. Qed.

Lemma stable_ancestor p h : stable (fun m => GetAncestor m p h).
Proof. pose proof stable_walk. unfold GetAncestor. stable. Qed.

Lemma stable_count fuel p act n : stable (fun m => count_back fuel m p act n).
Proof. revert p n. induction fuel as [|f IH]; intros p n; cbn [count_back]; stable. Qed.

Lemma stable_regular fuel q i l : stable (fun m => last_regular fuel m q i l).
Proof. revert q. induction fuel as [|f IH]; intros q; cbn [last_regular]; stable. Qed.

(** The required work on top of an entry never changes. *)
Lemma stable_work rx p pblock params : stable (fun m => GetNextWorkRequired rx m p pblock params).
Proof.
  pose proof stable_ancestor. pose proof stable_count. pose proof stable_regular.
  unfold GetNextWorkRequired, GetDualAlgoWorkRequired, GetNextASERTWorkRequired. cbv zeta. stable.
Qed.

(** Neither does its median time. *)
Lemma stable_median p : stable (fun m => GetMedianTimePast m p).
Proof.
  assert (forall n q, stable (fun m => past_times n m q)) as H by (induction n as [|n IH]; intros q; cbn [past_times]; stable).
  unfold GetMedianTimePast. stable.
Qed.
End Grow.

(** ** The states of the index *)

Definition genuinely_failed (status : list Z) (q : nat) : Prop := exists s, status !! q = Some s /\ Z.land s BLOCK_FAILED_VALID <> 0.

Section Reach.
Context {R : RandomXRef} (cp : ChainParams).

(** From the empty index: the genesis block is loaded, headers are offered, and
    the rest of the node marks entries, moves the best header (after an invalid
    block, to the tip of the active chain) and verifies other headers. *)
Inductive reach : ChainstateManager -> Prop :=
  | reach_start : reach (Chainman [] [] None [] (lru_new 2))
  | reach_genesis cm genesis cm' p :
      reach cm -> header_ok genesis -> GetHash genesis = hashGenesisBlock cp -> add_header cp cm genesis = Some (cm', p) -> reach cm'
  | reach_header cm have_vm block min_pow_checked now cm' ppindex v :
      reach cm -> header_ok block ->
      AcceptBlockHeader have_vm true cp cm block min_pow_checked now = Some (cm', ppindex, v) -> reach cm'
  | reach_other cm status best fails g :
      reach cm -> length status = length (nStatus cm) -> (forall h, best = Some h -> is_Some (index (m_block_index cm) h)) ->
      Forall (genuinely_failed status) fails -> caches_ok g ->
      reach (Chainman (m_block_index cm) status best fails g).

(** Why the entry [e] of [block] may extend its parent [b]. *)
Record justified (m : block_map) (block : CBlockHeader) (e : CBlockIndex) (r : nat) (b : CBlockIndex) : Prop := {
  j_fields : i_nVersion e = nVersion block /\ i_nTime e = nTime block /\ i_nBits e = nBits block;
  j_prev : pprev e = Some r /\ find_hash (hashPrevBlock block) m = Some r /\ index m r = Some b;
  j_bits : GetNextWorkRequired true m r (Some block) (consensus cp) = Some (nBits block);
  j_median : exists median, GetMedianTimePast m r = Some median /\ median < nTime block;
  j_work : exists have_vm, accepted have_vm (consensus cp) b block;
}.

Definition entry_justified (m : block_map) (k : bytes) (e : CBlockIndex) : Prop :=
  exists block, header_ok block /\ GetHash block = k /\ (k = hashGenesisBlock cp \/ exists r b, justified m block e r b).

Record inv (cm : ChainstateManager) : Prop := {
  inv_built : built (nDualAlgoActivationHeight (consensus cp)) (m_block_index cm) (m_best_header cm);
  inv_status : length (nStatus cm) = length (m_block_index cm);
  inv_failed : Forall (genuinely_failed (nStatus cm)) (m_failed_blocks cm);
  inv_caches : caches_ok (g_etchash_caches cm);
  inv_entries : forall p k e, m_block_index cm !! p = Some (k, e) -> entry_justified (m_block_index cm) k e;
}.

Lemma justified_grow m m' k e : m `prefix_of` m' -> entry_justified m k e -> entry_justified m' k e.
Proof.
  intros Hp (block & Hok & Hk & [H|(r & b & [Hf (Hr & Hfind & Hb) Hbits (t & Ht & Hlt) Hw])]); exists block; (split; [done|]; split; [done|]); [by left|right].
  exists r, b. split; [done| |by apply (stable_work _ _ Hp)| |done].
  - split; [done|]. split; [by apply (stable_find _ _ Hp)|by apply (stable_index _ _ Hp)].
  - exists t. split; [by apply (stable_median _ _ Hp)|done].
Qed.

(** *** Marking failed descendants *)

Lemma mark_kept fuel m status p f status' : mark_failed fuel m status p f = Some status' ->
  length status' = length status /\ forall q, genuinely_failed status q -> genuinely_failed status' q.
Proof.
  revert status p. induction fuel as [|n IH]; intros status p; cbn [mark_failed]; (case_bool_decide as Hne; [by intros [= <-]|]); [done|].
  intros (b & _ & (r & _ & H)%bind_Some)%bind_Some. destruct (IH _ _ H) as [Hl Hg]. rewrite length_alter in Hl. split; [done|].
  intros q (s & Es & Hs). apply Hg. unfold genuinely_failed. rewrite list_lookup_alter. case_decide as Eq; [|by eauto].
  subst q. rewrite Es. eexists. split; [reflexivity|]. unfold BLOCK_FAILED_CHILD, BLOCK_FAILED_VALID in *.
  rewrite Z.land_lor_distr_l, Z.lor_0_r. exact Hs.
Qed.

(** *** Adding an entry *)

Lemma add_new act m block best m' p best' :
  find_hash (GetHash block) m = None -> AddToBlockIndex act m block best = Some (m', p, best') ->
  exists e, m' = m ++ [(GetHash block, e)] /\ p = length m /\ pprev e = find_hash (hashPrevBlock block) m /\
    i_nVersion e = nVersion block /\ i_nTime e = nTime block /\ i_nBits e = nBits block.
Proof.
  intros Hn. unfold AddToBlockIndex. rewrite Hn. intros (s & _ & [= <- <- _])%bind_Some. eexists. split; [reflexivity|]. done.
Qed.

Lemma add_header_cases cm block cm' p : add_header cp cm block = Some (cm', p) ->
  (find_hash (GetHash block) (m_block_index cm) = Some p /\ cm' = cm) \/
  exists e, find_hash (GetHash block) (m_block_index cm) = None /\ p = length (m_block_index cm) /\
    m_block_index cm' = m_block_index cm ++ [(GetHash block, e)] /\ nStatus cm' = nStatus cm ++ [BLOCK_VALID_TREE] /\
    m_failed_blocks cm' = m_failed_blocks cm /\ g_etchash_caches cm' = g_etchash_caches cm /\
    pprev e = find_hash (hashPrevBlock block) (m_block_index cm) /\ i_nVersion e = nVersion block /\ i_nTime e = nTime block /\ i_nBits e = nBits block.
Proof.
  unfold add_header. intros ([[m q] best] & E & H)%bind_Some. destruct (find_hash (GetHash block) (m_block_index cm)) as [x|] eqn:Ef.
  - unfold AddToBlockIndex in E. rewrite Ef in E. injection E as <- <- <-. injection H as <- <-. left. by destruct cm.
  - destruct (add_new _ _ _ _ _ _ _ Ef E) as (e & -> & -> & He). injection H as <- <-. right. by exists e.
Qed.

(** Adding a header keeps the invariant if the new entry is justified. *)
Lemma add_inv cm block cm' p : inv cm -> header_ok block -> add_header cp cm block = Some (cm', p) ->
  (find_hash (GetHash block) (m_block_index cm) = None ->
   forall e, pprev e = find_hash (hashPrevBlock block) (m_block_index cm) -> i_nVersion e = nVersion block -> i_nTime e = nTime block -> i_nBits e = nBits block ->
   entry_justified (m_block_index cm) (GetHash block) e) ->
  inv cm'.
Proof.
  intros [Hb Hs Hf Hc He] Hok E Hj. destruct (add_header_cases _ _ _ _ E) as [[_ ->]|(e & Hn & -> & Em & Est & Efl & Eg & Hp & Hv & Ht & Hbits)]; [done|].
  assert (m_block_index cm `prefix_of` m_block_index cm') as Hpre by (rewrite Em; by apply prefix_app_r).
  split.
  - unfold add_header in E. apply bind_Some in E as ([[m q] best] & E & H). apply some_fst in H as <-. by eapply built_add.
  - rewrite Em, Est, !length_app. cbn [length]. lia.
  - rewrite Efl, Est. revert Hf. apply List.Forall_impl. intros q (s & Eq & Hq). exists s. by rewrite (lookup_app_l_Some _ _ _ _ Eq).
  - by rewrite Eg.
  - intros q k e' Eq. apply (justified_grow _ _ _ _ Hpre). rewrite Em in Eq. apply lookup_app_Some in Eq as [Eq|[_ Eq]]; [by eapply He|].
    apply list_lookup_singleton_Some in Eq as [_ [= <- <-]]. by apply Hj.
Qed.

(** *** Checking a header *)

Lemma contextual_accepted m r block now : ContextualCheckBlockHeader true cp m r block now = Some Accepted ->
  GetNextWorkRequired true m r (Some block) (consensus cp) = Some (nBits block) /\
  exists median, GetMedianTimePast m r = Some median /\ median < nTime block.
Proof.
  unfold ContextualCheckBlockHeader. intros (prev & _ & (bits & Eb & H)%bind_Some)%bind_Some. revert H.
  destruct (Z.eqb_spec (nBits block) bits) as [->|]; [|done]. cbn [negb]. destruct (_ && _); [done|].
  intros (median & Em & H)%bind_Some. split; [done|]. exists median. split; [done|]. revert H. by destruct (Z.leb_spec (nTime block) median).
Qed.

(** What the checks of a new header change, and what passing them means. *)
Lemma check_new_inv have_vm cm block now cm' v :
  inv cm -> check_new_header have_vm true cp cm block now = Some (cm', v) ->
  (inv cm' /\ m_block_index cm' = m_block_index cm /\ m_best_header cm' = m_best_header cm) /\
  (v = Accepted -> exists r b, find_hash (hashPrevBlock block) (m_block_index cm) = Some r /\ index (m_block_index cm) r = Some b /\
    GetNextWorkRequired true (m_block_index cm) r (Some block) (consensus cp) = Some (nBits block) /\
    (exists median, GetMedianTimePast (m_block_index cm) r = Some median /\ median < nTime block) /\
    accepted have_vm (consensus cp) b block).
Proof.
  intros [Hb Hs Hf Hc He]. unfold check_new_header. destruct (find_hash (hashPrevBlock block) (m_block_index cm)) as [r|] eqn:Er; [|by intros [= <- <-]].
  intros (b & Eb & (s & Es & H)%bind_Some)%bind_Some. revert H. destruct (failed s); [by intros [= <- <-]|].
  cbn [mbind option_bind negb m_block_index nStatus m_failed_blocks g_etchash_caches with_caches]. intros (v' & Ev & H)%bind_Some.
  destruct v' as [|]; [|by injection H as <- <-]. apply contextual_accepted in Ev as [Hbits Hmedian]. apply bind_Some in H as ([g ok] & Eg & H).
  assert (caches_ok g) as Hg by (by eapply header_kept). destruct ok; cbn [negb] in H; [|by injection H as <- <-].
  assert (accepted have_vm (consensus cp) b block) as Hw by (by exists (g_etchash_caches cm), g).
  assert (inv (with_caches cm g)) as Hi by done.
  destruct (IsValid s BLOCK_VALID_SCRIPTS); [injection H as <- <-; split; [done|]; intros _; by exists r, b|].
  apply bind_Some in H as (anc & _ & H). destruct anc as [f|]; [|injection H as <- <-; split; [done|]; intros _; by exists r, b].
  cbn [nStatus with_caches] in H. apply bind_Some in H as (sf & _ & H). destruct (_ =? 0); [done|].
  apply bind_Some in H as (status & Em & H). injection H as <- <-. destruct (mark_kept _ _ _ _ _ _ Em) as [Hl Hk].
  split; [|done]. split; [|done]. split; cbn; [done|by rewrite Hl|revert Hf; apply List.Forall_impl, Hk|done|done].
Qed.

Lemma accept_inv have_vm cm block mpc now cm' ppindex v :
  inv cm -> header_ok block -> AcceptBlockHeader have_vm true cp cm block mpc now = Some (cm', ppindex, v) -> inv cm'.
Proof.
  intros Hi Hok. unfold AcceptBlockHeader. case_bool_decide as Hgen.
  - destruct mpc; cbn [negb]; [|by intros [= <- _ _]]. intros ([cm1 p] & E & [= <- _ _])%bind_Some.
    eapply add_inv; [done..|]. intros _ e _ _ _ _. exists block. by auto.
  - destruct (find_hash (GetHash block) (m_block_index cm)) as [p|] eqn:Ef; [by intros (s & _ & [= <- _ _])%bind_Some|].
    intros ([cm1 v1] & E & H)%bind_Some. destruct (check_new_inv _ _ _ _ _ _ Hi E) as [(Hi1 & Em & _) Hv].
    destruct v1; [|by injection H as <- _ _]. destruct mpc; cbn [negb] in H; [|by injection H as <- _ _].
    apply bind_Some in H as ([cm2 p] & E2 & [= <- _ _]). eapply add_inv; [done..|]. rewrite Em. intros _ e Hp He1 He2 He3.
    destruct (Hv eq_refl) as (r & b & Er & Eb & Hbits & Hmed & Hw). exists block. split; [done|]. split; [done|]. right. exists r, b.
    split; [done|by rewrite Hp|done|done|by exists have_vm].
Qed.

Lemma reach_inv cm : reach cm -> inv cm.
Proof.
  induction 1 as [|cm genesis cm' p _ IH Hok Hg E|cm have_vm block mpc now cm' pp v _ IH Hok E|cm status best fails g _ [Hb Hs Hf Hc He] Hl Hbest Hfails Hg].
  - split; [apply built_nil|done|done|apply caches_new|done].
  - eapply add_inv; [done..|]. intros _ e _ _ _ _. exists genesis. by auto.
  - by eapply accept_inv.
  - split; cbn; [by eapply built_reset|lia|done|done|done].
Qed.
End Reach.

(** ** The work behind the index *)

Section Work.
Context {R : RandomXRef} (params : Params).
Hypothesis params_ok : pow_params_ok params.
Hypothesis epoch_length : 0 < nEtchashEpochLength params.
Hypothesis retargets : fPowNoRetargeting params = false /\ fPowAllowMinDifficultyBlocks params = false.
Hypothesis algorithms : fPowRandomX params = true /\ fDualAlgoEtchash params = true.

Let act := nDualAlgoActivationHeight params.





End Work.

(** ** When a header is accepted *)

Section Spec.
Context {R : RandomXRef} (cp : ChainParams) (anchor : ASERTAnchor).
Let params := consensus cp.
Hypothesis params_ok : pow_params_ok params.
Hypothesis epoch_length : 0 < nEtchashEpochLength params.
Hypothesis asert_from_start : asertAnchorParams params = Some anchor /\ anchor_ok params anchor /\ a_nHeight anchor = 0 /\ nASERTActivationHeight params <= 1.

(** The rules of the context, on top of the entry [b] at [r]. *)
Record context_ok (m : block_map) (r : nat) (b : CBlockIndex) (block : CBlockHeader) (now : Z) : Prop := {
  c_bits : GetNextWorkRequired true m r (Some block) params = Some (nBits block);
  c_checkpoint : checkpoints_enabled cp = true -> forall c, GetLastCheckpoint m (mapCheckpoints cp) = Some c -> nHeight c <= nHeight b + 1;
  c_median : exists median, GetMedianTimePast m r = Some median /\ median < nTime block;
  c_future : nTime block * 10 ^ 9 <= now + MAX_FUTURE_BLOCK_TIME * 10 ^ 9;
  c_version : (BIP34Height cp <= nHeight b + 1 -> 2 <= nVersion block) /\ (BIP66Height cp <= nHeight b + 1 -> 3 <= nVersion block) /\
              (BIP65Height cp <= nHeight b + 1 -> 4 <= nVersion block);
}.

(** A header may extend the index: its parent is there and not failed, the
    context and the work are right, and no failed block is known below a parent
    that is not fully validated. *)
Definition acceptable (have_vm : Z -> bool) (cm : ChainstateManager) (block : CBlockHeader) (now : Z) : Prop :=
  exists r b s, find_hash (hashPrevBlock block) (m_block_index cm) = Some r /\ index (m_block_index cm) r = Some b /\
    nStatus cm !! r = Some s /\ failed s = false /\ context_ok (m_block_index cm) r b block now /\ accepted have_vm params b block /\
    (IsValid s BLOCK_VALID_SCRIPTS = true \/ Forall (fun f => f ∉ chain (m_block_index cm) r) (m_failed_blocks cm)).

Section Index.
Context (cm : ChainstateManager).
Hypothesis cm_inv : inv cp cm.
Hypothesis index_small : Z.of_nat (length (m_block_index cm)) < 2 ^ 31.
Hypothesis index_epochs : height_ok params (Z.of_nat (length (m_block_index cm))).

Let m := m_block_index cm.
Let act := nDualAlgoActivationHeight params.
Let m_built : built act m (m_best_header cm) := inv_built cp cm cm_inv.
Let m_wf : wf act m := built_wf _ _ _ m_built.

Lemma height_below r b : index m r = Some b -> 0 <= nHeight b < Z.of_nat (length m).
Proof.
  intros Eb. pose proof (height_nonneg act m m_wf r b Eb). pose proof (index_lt _ _ _ Eb).
  enough (nHeight b <= Z.of_nat r) by lia. revert Eb. apply (chain_ind act m m_wf (fun r b => nHeight b <= Z.of_nat r)); [intros; lia|].
  intros q c x cx Ec Ex _ Hc IH. destruct (parent_ok act m m_wf q c x Ec Ex) as [Hx _]. lia.
Qed.

Lemma work_total r b block : index m r = Some b ->
  exists bits, GetNextWorkRequired true m r (Some block) params = Some bits /\ valid_bits params bits.
Proof.
  intros Eb. pose proof (height_below r b Eb) as Hh. destruct asert_from_start as (Ha & Hok & H0 & Hact).
  apply (required_work params m _ r b params_ok m_built Eb ltac:(fold m in index_small; lia) true anchor block Ha Hok); lia.
Qed.

Lemma past_times_total n q : match q with Some r => is_Some (index m r) | None => True end ->
  exists l, past_times n m q = Some l /\ (q <> None -> (0 < n)%nat -> (0 < length l)%nat).
Proof.
  revert q. induction n as [|n IH]; intros q Hq; cbn [past_times]; [exists []; split; [done|lia]|].
  destruct q as [r|]; [|by exists []]. destruct Hq as [b Eb]. rewrite Eb, some_bind.
  destruct (IH (pprev b)) as (l & -> & _).
  { destruct (pprev b) as [x|] eqn:Ex; [|done]. destruct (parent_ok act m m_wf r b x Eb Ex) as (_ & bx & -> & _). by eexists. }
  rewrite some_bind. eexists. split; [reflexivity|]. cbn [length]. lia.
Qed.

Lemma median_total r b : index m r = Some b -> exists t, GetMedianTimePast m r = Some t.
Proof.
  intros Eb. unfold GetMedianTimePast. destruct (past_times_total nMedianTimeSpan (Some r)) as (l & -> & Hl); [by eexists|]. rewrite some_bind.
  apply lookup_lt_is_Some. rewrite (Permutation_length (merge_sort_Permutation Z.le l)). apply Nat.div_lt; [|lia]. apply Hl; [done|]. unfold nMedianTimeSpan. lia.
Qed.

Lemma contextual_spec r b block now : index m r = Some b ->
  exists v, ContextualCheckBlockHeader true cp m r block now = Some v /\ (v = Accepted <-> context_ok m r b block now).
Proof.
  intros Eb. destruct (work_total r b block Eb) as (bits & Ebits & _). destruct (median_total r b Eb) as [t Et].
  unfold ContextualCheckBlockHeader. fold params. rewrite Eb, some_bind, Ebits, some_bind.
  destruct (Z.eqb_spec (nBits block) bits) as [Hb|Hb]; cbn [negb].
  2: { eexists. split; [reflexivity|]. split; [done|]. intros [H _ _ _ _]. congruence. }
  subst bits. destruct (checkpoints_enabled cp && _) eqn:Ec.
  { eexists. split; [reflexivity|]. split; [done|]. intros [_ H _ _ _]. apply andb_true_iff in Ec as [E1 E2].
    destruct (GetLastCheckpoint m (mapCheckpoints cp)) as [c|]; [|done]. specialize (H E1 c eq_refl). lia. }
  rewrite Et, some_bind. destruct (Z.leb_spec (nTime block) t) as [Ht|Ht].
  { eexists. split; [reflexivity|]. split; [done|]. intros [_ _ (t' & Et' & H) _ _]. rewrite Et in Et'. injection Et' as <-. lia. }
  destruct (Z.ltb_spec (now + MAX_FUTURE_BLOCK_TIME * 10 ^ 9) (nTime block * 10 ^ 9)) as [Hf|Hf].
  { eexists. split; [reflexivity|]. split; [done|]. intros [_ _ _ H _]. lia. }
  unfold DeploymentActiveAfter. destruct (_ || _ || _) eqn:Ev.
  { eexists. split; [reflexivity|]. split; [done|]. intros [_ _ _ _ (H1 & H2 & H3)]. lia. }
  eexists. split; [reflexivity|]. split; [intros _|done]. split; [done| |by exists t|done|lia].
  intros E1 c E2. rewrite E1, E2 in Ec. cbn [andb] in Ec. lia.
Qed.
(** An entry is the ancestor at its height exactly if it is on the chain. *)
Lemma ancestor_iff r b f e : index m r = Some b -> index m f = Some e ->
  exists o, GetAncestor m r (nHeight e) = Some o /\ (o = Some f <-> f ∈ chain m r).
Proof.
  intros Eb Ee. rewrite (GetAncestor_ok act m m_wf r b _ Eb). eexists. split; [reflexivity|]. split.
  - destruct (_ || _); [done|]. apply list_elem_of_lookup_2.
  - intros (i & Hi)%list_elem_of_lookup_1. destruct (chain_suffix act m m_wf r b Eb i f Hi) as (_ & e' & Ee' & Hh).
    rewrite Ee in Ee'. injection Ee' as <-. pose proof (height_below f e Ee). rewrite !(proj2 (Z.ltb_ge _ _)) by lia. cbn [orb].
    replace (Z.to_nat (nHeight b - nHeight e)) with i by lia. done.
Qed.

Lemma failed_index f : f ∈ m_failed_blocks cm -> genuinely_failed (nStatus cm) f /\ is_Some (index m f).
Proof.
  intros Hf. pose proof (proj1 (Forall_forall _ _) (inv_failed cp cm cm_inv) f Hf) as Hg. split; [done|].
  destruct Hg as (s & Es & _). apply lookup_lt_Some in Es. rewrite (inv_status cp cm cm_inv) in Es.
  unfold index. fold m in Es. apply lookup_lt_is_Some in Es as [x ->]. by eexists.
Qed.

Lemma failed_ancestor_spec r b l : index m r = Some b -> (forall f, f ∈ l -> is_Some (index m f)) ->
  exists o, failed_ancestor m r l = Some o /\
    match o with Some f => f ∈ l /\ f ∈ chain m r | None => Forall (fun f => f ∉ chain m r) l end.
Proof.
  intros Eb. induction l as [|f l IH]; intros Hl; cbn [failed_ancestor]; [by exists None|].
  destruct (Hl f) as [e Ee]; [by left|]. rewrite Ee, some_bind. destruct (ancestor_iff r b f e Eb Ee) as (o & -> & Ho). rewrite some_bind.
  case_bool_decide as Hc.
  - exists (Some f). split; [done|]. split; [by left|by apply Ho].
  - destruct IH as (o' & E & H); [intros x Hx; apply Hl; by right|]. exists o'. split; [exact E|].
    destruct o' as [x|]; [split; [right; apply H|apply H]|constructor; [tauto|exact H]].
Qed.

Lemma mark_total fuel status r b f : (r < fuel)%nat -> index m r = Some b -> f ∈ chain m r -> exists status', mark_failed fuel m status r f = Some status'.
Proof.
  revert status r b. induction fuel as [|n IH]; intros status r b Hr Eb Hf; [lia|]. cbn [mark_failed]. case_bool_decide as Hne; [by eauto|].
  rewrite (chain_step act m m_wf r b Eb) in Hf. apply elem_of_cons in Hf as [->|Hf]; [done|].
  rewrite Eb, some_bind. destruct (pprev b) as [x|] eqn:Ex; [|by apply elem_of_nil in Hf].
  destruct (parent_ok act m m_wf r b x Eb Ex) as (Hx & bx & Ebx & _). rewrite some_bind. eapply IH; [lia|done|done].
Qed.

Lemma acceptable_iff have_vm block now r b s :
  find_hash (hashPrevBlock block) m = Some r -> index m r = Some b -> nStatus cm !! r = Some s ->
  acceptable have_vm cm block now <->
  failed s = false /\ context_ok m r b block now /\ accepted have_vm params b block /\
  (IsValid s BLOCK_VALID_SCRIPTS = true \/ Forall (fun f => f ∉ chain m r) (m_failed_blocks cm)).
Proof.
  intros Er Eb Es. unfold acceptable. fold m. split; [|by intros H; exists r, b, s].
  intros (r' & b' & s' & Er' & Eb' & Es' & H). rewrite Er in Er'. injection Er' as <-. rewrite Eb in Eb'. injection Eb' as <-.
  rewrite Es in Es'. injection Es' as <-. exact H.
Qed.

(** The checks of a new header return, and pass exactly if it is acceptable. *)
Lemma check_new_spec have_vm block now : header_ok block ->
  exists cm' v, check_new_header have_vm true cp cm block now = Some (cm', v) /\ (v = Accepted <-> acceptable have_vm cm block now).
Proof.
  intros Hok. unfold check_new_header. fold m params. destruct (find_hash (hashPrevBlock block) m) as [r|] eqn:Er.
  2: { do 2 eexists. split; [reflexivity|]. split; [done|]. unfold acceptable. fold m. rewrite Er. by intros (r & b & s & [=] & _). }
  destruct (find_hash_index _ _ _ Er) as [b Eb]. rewrite Eb, some_bind.
  assert (is_Some (nStatus cm !! r)) as [s Es] by (apply lookup_lt_is_Some; rewrite (inv_status cp cm cm_inv); by eapply index_lt).
  setoid_rewrite (acceptable_iff have_vm block now r b s Er Eb Es). rewrite Es, some_bind.
  destruct (failed s); [do 2 eexists; split; [reflexivity|]; by split; [|intros [? _]]|].
  rewrite some_bind. cbn [negb]. destruct (contextual_spec r b block now Eb) as (v & -> & Hv). rewrite some_bind.
  destruct v as [|res reason]; [|do 2 eexists; split; [reflexivity|]; split; [done|]; intros (_ & Hc & _); by apply Hv].
  pose proof (proj1 Hv eq_refl) as Hc. destruct Hok as (_ & _ & _ & _ & _ & Hn & _). pose proof (height_below r b Eb) as Hh.
  destruct (header_total have_vm params epoch_length ltac:(destruct params_ok; lia) b block Hn) as [ok Hok].
  { unfold height_ok in *. fold m in index_epochs. lia. }
  pose proof (inv_caches cp cm cm_inv) as Hg. destruct (Hok _ Hg) as (g & Eg). cbn [g_etchash_caches with_caches]. rewrite Eg, some_bind.
  destruct ok; cbn [negb].
  2: { do 2 eexists. split; [reflexivity|]. split; [done|]. intros (_ & _ & (g0 & g1 & Hg0 & E0) & _).
       destruct (Hok g0 Hg0) as (g2 & E2). rewrite E2 in E0. discriminate. }
  assert (accepted have_vm params b block) as Hw by (by exists (g_etchash_caches cm), g).
  destruct (IsValid s BLOCK_VALID_SCRIPTS); [do 2 eexists; split; [reflexivity|]; by split; [by auto|]|].
  cbn [m_failed_blocks with_caches nStatus].
  destruct (failed_ancestor_spec r b (m_failed_blocks cm) Eb) as (o & -> & Ho); [intros f Hf; by apply failed_index|]. rewrite some_bind.
  destruct o as [f|]; [|do 2 eexists; split; [reflexivity|]; by split; [by auto|]]. destruct Ho as [Hf Hchain].
  destruct (failed_index f Hf) as [(sf & Esf & Hsf) _]. rewrite Esf, some_bind, (proj2 (Z.eqb_neq _ 0) Hsf).
  destruct (mark_total (S r) (nStatus cm) r b f ltac:(lia) Eb Hchain) as (status & ->). rewrite some_bind.
  do 2 eexists. split; [reflexivity|]. split; [done|]. intros (_ & _ & _ & [|H]); [done|].
  by apply (proj1 (Forall_forall _ _) H f Hf) in Hchain.
Qed.
End Index.

(** The verdict a header deserves. *)
Definition admissible (have_vm : Z -> bool) (cm : ChainstateManager) (block : CBlockHeader) (min_pow_checked : bool) (now : Z) : Prop :=
  if bool_decide (GetHash block = hashGenesisBlock cp) then min_pow_checked = true
  else match find_hash (GetHash block) (m_block_index cm) with
       | Some p => exists s, nStatus cm !! p = Some s /\ failed s = false
       | None => min_pow_checked = true /\ acceptable have_vm cm block now
       end.

Definition room (cm : ChainstateManager) (n : Z) : Prop :=
  Z.of_nat (length (m_block_index cm)) + n < 2 ^ 31 /\ height_ok params (Z.of_nat (length (m_block_index cm)) + n).

Definition known (cm : ChainstateManager) (block : CBlockHeader) : Prop := is_Some (find_hash (GetHash block) (m_block_index cm)).

(** The index with at most one entry more, which contains the header. *)
Definition indexed (cm cm' : ChainstateManager) (block : CBlockHeader) (ppindex : option nat) : Prop :=
  m_block_index cm `prefix_of` m_block_index cm' /\ (length (m_block_index cm') <= S (length (m_block_index cm)))%nat /\
  exists p, ppindex = Some p /\ find_hash (GetHash block) (m_block_index cm') = Some p.

Lemma find_hash_snoc h (l : block_map) e : find_hash h l = None -> find_hash h (l ++ [(h, e)]) = Some (length l).
Proof.
  induction l as [|[k b] l IH]; cbn [find_hash app length]; [by rewrite bool_decide_true|]. case_bool_decide; [done|].
  destruct (find_hash h l); [done|]. intros _. by rewrite IH.
Qed.

Lemma add_header_total cm block : inv cp cm -> exists cm' p, add_header cp cm block = Some (cm', p) /\ indexed cm cm' block (Some p).
Proof.
  intros Hi. destruct (add_wf _ _ block (m_best_header cm) (built_wf _ _ _ (inv_built cp cm Hi))) as (m' & p & best & E & _).
  eassert (add_header cp cm block = Some (_, p)) as Ea by (unfold add_header; by rewrite E, some_bind).
  do 2 eexists. split; [exact Ea|]. unfold indexed. destruct (add_header_cases cp _ _ _ _ Ea) as [[Ef ->]|(e & Hn & Hp & Em & _)].
  - split; [done|]. split; [lia|]. by exists p.
  - rewrite Em. split; [by apply prefix_app_r|]. split; [rewrite length_app; cbn [length]; lia|]. exists p. split; [done|].
    rewrite Hp. by apply find_hash_snoc.
Qed.

Lemma accept_cases have_vm cm block mpc now : inv cp cm -> room cm 0 -> header_ok block ->
  exists cm' ppindex v, AcceptBlockHeader have_vm true cp cm block mpc now = Some (cm', ppindex, v) /\
    (v = Accepted <-> admissible have_vm cm block mpc now) /\
    match v with
    | Accepted => indexed cm cm' block ppindex
    | Rejected _ _ => m_block_index cm' = m_block_index cm /\ m_best_header cm' = m_best_header cm
    end.
Proof.
  intros Hi [Hr1 Hr2] Hok. rewrite Z.add_0_r in Hr1, Hr2. unfold AcceptBlockHeader, admissible. case_bool_decide as Hg.
  - destruct mpc; cbn [negb]; [|by do 3 eexists]. destruct (add_header_total cm block Hi) as (cm' & p & -> & Hx). rewrite some_bind. by do 3 eexists.
  - destruct (find_hash (GetHash block) (m_block_index cm)) as [p|] eqn:Ef.
    + assert (is_Some (nStatus cm !! p)) as [s Es].
      { apply lookup_lt_is_Some. rewrite (inv_status cp cm Hi). destruct (find_hash_index _ _ _ Ef) as [b Eb]. by eapply index_lt. }
      rewrite Es, some_bind. do 3 eexists. split; [reflexivity|]. destruct (failed s) eqn:Efs.
      * split; [|done]. split; [done|]. intros (s' & [= <-] & ?). congruence.
      * split; [split; [intros _; by exists s|done]|]. unfold indexed. rewrite Ef. split; [done|]. split; [lia|]. by exists p.
    + destruct (check_new_spec cm Hi Hr1 Hr2 have_vm block now Hok) as (cm1 & v & E & Hv). rewrite E, some_bind.
      destruct (check_new_inv cp have_vm cm block now cm1 v Hi E) as [(Hi1 & Em & Ebest) _].
      destruct v as [|res reason]; [|do 3 eexists; split; [reflexivity|]; split; [split; [done|tauto]|done]].
      destruct mpc; cbn [negb]; [|do 3 eexists; split; [reflexivity|]; split; [split; [done|intros [? _]; done]|done]].
      destruct (add_header_total cm1 block Hi1) as (cm2 & p & -> & Hx). rewrite some_bind. do 3 eexists. split; [reflexivity|].
      split; [tauto|]. unfold indexed in *. by rewrite Em in Hx.
Qed.
End Spec.

(** ** Properties *)

Section Properties.
Context {R : RandomXRef} (cp : ChainParams).
Let params := consensus cp.
Let act := nDualAlgoActivationHeight params.
Hypothesis params_ok : pow_params_ok params.
Hypothesis epoch_length : 0 < nEtchashEpochLength params.


Context (anchor : ASERTAnchor).
Hypothesis asert_from_start : asertAnchorParams params = Some anchor /\ anchor_ok params anchor /\ a_nHeight anchor = 0 /\ nASERTActivationHeight params <= 1.

(** C8. What accepting a header does.  On a network with ASERT from the start, in
    every state the index can reach with room for one more entry, offering any
    header returns without a failed assertion.  It is accepted exactly if it is
    known and not marked failed, or new with a parent that is known and not
    failed, the required bits, a time between the median and two hours ahead, a
    current version, full proof of work, no fork before the last checkpoint and
    no failed block below an unvalidated parent, and the caller has checked the
    minimum work.  An accepted header is in the index, at the address returned,
    and a rejected one changes neither the index nor the best header. *)
Theorem accept_header_spec have_vm cm block min_pow_checked now :
  reach cp cm -> room cp cm 0 -> header_ok block ->
  exists cm' ppindex v, AcceptBlockHeader have_vm true cp cm block min_pow_checked now = Some (cm', ppindex, v) /\
    (v = Accepted <-> admissible cp have_vm cm block min_pow_checked now) /\
    match v with
    | Accepted => indexed cm cm' block ppindex
    | Rejected _ _ => m_block_index cm' = m_block_index cm /\ m_best_header cm' = m_best_header cm
    end.
Proof. intros Hr. apply (accept_cases cp anchor params_ok epoch_length asert_from_start). by apply reach_inv. Qed.

(** C23. No work is computed for a header that does not fit.  In every state the
    index can reach, a new header whose parent is unknown or that breaks a rule of
    the context (bits, checkpoint, time, version) is rejected without touching
    any state, the table cache included, and with a verdict that no RandomX
    function and no machine takes part in. *)
Theorem no_work_before_context cm block min_pow_checked now :
  reach cp cm -> room cp cm 0 -> GetHash block <> hashGenesisBlock cp -> find_hash (GetHash block) (m_block_index cm) = None ->
  (forall r b, find_hash (hashPrevBlock block) (m_block_index cm) = Some r -> index (m_block_index cm) r = Some b ->
     ~ context_ok cp (m_block_index cm) r b block now) ->
  exists res reason, forall (R' : RandomXRef) have_vm,
    AcceptBlockHeader (R := R') have_vm true cp cm block min_pow_checked now = Some (cm, None, Rejected res reason).
Proof.
  intros Hr [Hr1 Hr2] Hg Hn Hc. rewrite Z.add_0_r in Hr1, Hr2. pose proof (reach_inv cp cm Hr) as Hi.
  enough (exists res reason, forall (R' : RandomXRef) have_vm, check_new_header (R := R') have_vm true cp cm block now = Some (cm, Rejected res reason)) as (res & reason & H).
  { exists res, reason. intros R' vm. unfold AcceptBlockHeader. rewrite bool_decide_false by done. by rewrite Hn, H, some_bind. }
  unfold check_new_header. destruct (find_hash (hashPrevBlock block) (m_block_index cm)) as [r|] eqn:Er; [|by eauto].
  destruct (find_hash_index _ _ _ Er) as [b Eb].
  assert (is_Some (nStatus cm !! r)) as [s Es] by (apply lookup_lt_is_Some; rewrite (inv_status cp cm Hi); by eapply index_lt).
  destruct (contextual_spec cp anchor params_ok asert_from_start cm Hi Hr1 r b block now Eb) as ([|res reason] & Ev & Hv).
  { by destruct (Hc r b eq_refl Eb (proj1 Hv eq_refl)). }
  destruct (failed s) eqn:Ef.
  - do 2 eexists. intros R' vm. rewrite Eb, some_bind, Es, some_bind, Ef. reflexivity.
  - exists res, reason. intros R' vm. rewrite Eb, some_bind, Es, some_bind, Ef, some_bind. cbn [negb]. rewrite Ev, some_bind. by destruct cm.
Qed.

Lemma known_grow cm cm' block : m_block_index cm `prefix_of` m_block_index cm' -> known cm block -> known cm' block.
Proof. intros Hp [q Hq]. exists q. by apply (stable_find _ _ Hp). Qed.

(** The address a batch leaves in [ppindex]: that of its last header. *)
Definition last_address (m : block_map) (headers : list (CBlockHeader * Z)) (ppindex pp : option nat) : Prop :=
  match last headers with Some (h, _) => find_hash (GetHash h) m = pp | None => pp = ppindex end.

Lemma last_address_cons m m' h now q hs ppindex pp : m `prefix_of` m' -> find_hash (GetHash h) m = Some q ->
  last_address m' hs (Some q) pp -> last_address m' ((h, now) :: hs) ppindex pp.
Proof.
  intros Hp Hq. unfold last_address. rewrite last_cons. destruct (last hs) as [x|]; [done|]. intros ->. by apply (stable_find _ _ Hp).
Qed.

(** C28. A batch of headers is taken in order.  On a network with ASERT from the
    start, from every state the index can reach with room for the batch,
    [ProcessNewBlockHeaders] returns in a state the index can reach, with every
    old entry kept.  If it succeeds, all headers are in the index and the
    address returned is that of the last.  If not, the batch splits at one
    header: those before it are accepted, as a batch of their own would be, and
    are in the index, and the address returned is that of the last of them; the
    header itself is not admissible in the state they lead to,
    [AcceptBlockHeader] rejects it there, its verdict is the result and the
    index is left as it was; the headers after it are not looked at. *)
Theorem process_headers have_vm headers cm min_pow_checked ppindex :
  reach cp cm -> room cp cm (Z.of_nat (length headers)) -> Forall (fun x => header_ok (fst x)) headers ->
  exists cm' pp v, ProcessNewBlockHeaders have_vm true cp cm headers min_pow_checked ppindex = Some (cm', pp, v) /\
    reach cp cm' /\ m_block_index cm `prefix_of` m_block_index cm' /\
    match v with
    | Accepted => Forall (fun x => known cm' (fst x)) headers /\ last_address (m_block_index cm') headers ppindex pp
    | Rejected _ _ => exists before bad now after cm1,
        headers = before ++ (bad, now) :: after /\
        ProcessNewBlockHeaders have_vm true cp cm before min_pow_checked ppindex = Some (cm1, pp, Accepted) /\
        Forall (fun x => known cm1 (fst x)) before /\ last_address (m_block_index cm1) before ppindex pp /\
        ~ admissible cp have_vm cm1 bad min_pow_checked now /\
        (exists q, AcceptBlockHeader have_vm true cp cm1 bad min_pow_checked now = Some (cm', q, v)) /\
        m_block_index cm' = m_block_index cm1
    end.
Proof.
  revert cm ppindex. induction headers as [|[h now] hs IH]; intros cm ppindex Hr Hroom Hok; cbn [ProcessNewBlockHeaders].
  { do 3 eexists. split; [reflexivity|]. by auto. }
  apply Forall_cons in Hok as [Hh Hok]. destruct Hroom as [Hm1 Hm2]. cbn [length] in Hm1, Hm2.
  destruct (accept_cases cp anchor params_ok epoch_length asert_from_start have_vm cm h min_pow_checked now) as (cm1 & pp1 & v & E & Ha & Hv);
    [by apply reach_inv|split; [lia|unfold height_ok in *; lia]|done|].
  assert (reach cp cm1) as Hr1 by (by eapply reach_header). rewrite E, some_bind. destruct v as [|res reason].
  2: { destruct Hv as [Em _]. do 3 eexists. split; [reflexivity|]. split; [done|]. rewrite Em. split; [done|].
       exists [], h, now, hs, cm. split_and!; [done..|by intros [=]%Ha|by eexists|done]. }
  destruct Hv as (Hp & Hl & q & -> & Hq). destruct (IH cm1 (Some q) Hr1) as (cm2 & pp & v & E2 & Hr2 & Hp2 & Hv); [|done|].
  { split; [lia|unfold height_ok in *; lia]. }
  assert (known cm1 h) as Hk by (by exists q).
  rewrite E2. do 3 eexists. split; [reflexivity|]. split; [done|]. split; [by etrans|]. destruct v as [|res reason].
  - destruct Hv as [Hall Hlast]. split; [constructor; [by eapply known_grow|done]|]. by eapply last_address_cons.
  - destruct Hv as (before & bad & t & after & cm3 & -> & E3 & Hall & Hlast & Hadm & Hacc & Em). exists ((h, now) :: before), bad, t, after, cm3.
    assert (m_block_index cm1 `prefix_of` m_block_index cm3) as Hp3 by (by rewrite <- Em).
    split; [done|]. split; [cbn [ProcessNewBlockHeaders]; by rewrite E, some_bind|].
    split; [constructor; [by eapply known_grow|done]|]. split; [by eapply last_address_cons|done].
Qed.
End Properties.

(** ** A concrete index *)

(** The main network activated at height 1, on the genesis block of the examples. *)
Definition ex_chain : ChainParams := MkChain ex_dual (GetHash ex_genesis) 1 1 1 true [].

Definition ex_bits : Z := 505408622.
Definition ex_block : CBlockHeader := ex_header (GetHash ex_genesis) ex_bits.

Definition ex_loaded : ChainstateManager := Chainman [(GetHash ex_genesis, ex_root)] [BLOCK_VALID_TREE] (Some 0%nat) [] (lru_new 2).


Lemma ex_block_ok : header_ok ex_block.
Proof.
  assert (is_u256 null256) as H0 by (split; [done|]; apply Forall_replicate; unfold is_byte; lia).
  assert (is_u256 (replicate 32 7)) as H7 by (split; [done|]; apply Forall_replicate; unfold is_byte; lia).
  assert (is_u256 (GetHash ex_genesis)) as H2 by (split; [apply length_sha256|apply sha256_byte]).
  assert (is_u32 9 /\ is_u32 ex_bits /\ is_u32 0) as (T9 & Tb & T0) by (unfold is_u32, ex_bits; lia).
  split; [cbn [nVersion ex_block ex_header]; lia|]. exact (conj H2 (conj H0 (conj T9 (conj Tb (conj T0 H7))))).
Qed.

Lemma ex_reach_loaded : reach (R := ex_rx) ex_chain ex_loaded.
Proof.
  destruct ex_headers_ok as [H0 _]. eapply (reach_genesis (R := ex_rx) ex_chain _ ex_genesis ex_loaded 0%nat); [apply reach_start|done|done|].
  unfold add_header. cbn [m_block_index m_best_header nStatus find_hash].
  change (nDualAlgoActivationHeight (consensus ex_chain)) with 1. rewrite ex_add_genesis, some_bind. reflexivity.
Qed.



#[local] Opaque GetHash.




Lemma ex_anchor : asertAnchorParams ex_dual = Some (MkAnchor 0 0x1e3ffffc 1788566400) /\ anchor_ok ex_dual (MkAnchor 0 0x1e3ffffc 1788566400) /\ 0 = 0 /\ nASERTActivationHeight ex_dual <= 1.
Proof. split; [done|]. destruct main_anchor_ok as [H1 H2 H3]. split; [exact (Build_anchor_ok ex_dual _ H1 H2 H3)|]. split; [done|]. cbn. lia. Qed.


Lemma accept_header_spec_witness : exists r, AcceptBlockHeader (R := ex_rx) (fun _ => false) true ex_chain ex_loaded ex_block true 0 = Some r.
Proof.
  destruct (accept_header_spec (R := ex_rx) ex_chain ex_dual_ok ltac:(cbn; lia) _ ex_anchor (fun _ => false) ex_loaded ex_block true 0
    ex_reach_loaded ltac:(split; unfold height_ok, MAX_EPOCH; cbn; lia) ex_block_ok) as (cm & pp & v & H & _).
  eexists. exact H.
Defined.

Lemma process_headers_witness : exists r, ProcessNewBlockHeaders (R := ex_rx) (fun _ => true) true ex_chain ex_loaded [(ex_block, 0)] true None = Some r.
Proof.
  destruct (process_headers (R := ex_rx) ex_chain ex_dual_ok ltac:(cbn; lia) _ ex_anchor (fun _ => true) [(ex_block, 0)] ex_loaded true None
    ex_reach_loaded ltac:(split; unfold height_ok, MAX_EPOCH; cbn; lia) ltac:(apply Forall_singleton; exact ex_block_ok)) as (cm & pp & v & H & _).
  eexists. exact H.
Defined.

(** A header on an unknown parent. *)
Definition ex_orphan : CBlockHeader := ex_header (replicate 32 5) ex_bits.

Lemma ex_orphan_new : bool_decide (GetHash ex_orphan = GetHash ex_genesis) = false /\ find_hash (GetHash ex_orphan) (m_block_index ex_loaded) = None /\
  find_hash (hashPrevBlock ex_orphan) (m_block_index ex_loaded) = None.
Proof. vm_compute. done. Qed.

Lemma no_work_before_context_witness : exists res reason,
  AcceptBlockHeader (R := ex_rx) (fun _ => true) true ex_chain ex_loaded ex_orphan true 0 = Some (ex_loaded, None, Rejected res reason).
Proof.
  destruct ex_orphan_new as (H1 & H2 & H3).
  destruct (no_work_before_context (R := ex_rx) ex_chain ex_dual_ok _ ex_anchor ex_loaded ex_orphan true 0
    ex_reach_loaded ltac:(split; unfold height_ok, MAX_EPOCH; cbn; lia) (bool_decide_eq_false_1 _ H1) H2) as (res & reason & H).
  - intros r b Er. rewrite H3 in Er. discriminate Er.
  - exists res, reason. exact (H ex_rx (fun _ => true)).
Defined.
