(* ===== verification/ProxyRate.v ===== *)
(** * Stratum proxy: the submit rate limiter

    [rateLimitedSubmit] of [contrib/admin/current_proxy.js] keeps two queues of
    acceptance times, one for the process and one per connection.  The abstract
    specification keeps the whole history of accepted submits and counts the
    ones inside the windows; under a clock that does not go back the two decide
    alike, and no window ever holds more than its budget. *)

From Stdlib Require Import ZArith Lia Bool.
From stdpp Require Import base list numbers option.
From S2P Require Import Prelude.

Open Scope Z_scope.

Definition SUBMIT_RATE_WINDOW_MS : Z := 1000.
Definition SUBMIT_RATE_MAX_GLOBAL : nat := 40.
Definition PEER_SUBMIT_WINDOW_MS : Z := 5000.
Definition PEER_SUBMIT_MAX : nat := 100.

(** [while (times.length && now - times[0] >= window) times.shift()]. *)
Fixpoint shift_expired (window now : Z) (times : list Z) : list Z :=
  match times with
  | t :: r => if window <=? now - t then shift_expired window now r else times
  | [] => []
  end.

(** The verdict ([true] is "limited") and the two queues afterwards. *)
Definition rateLimitedSubmit (now : Z) (globalSubmitTimes peerTimes : list Z)
    : bool * list Z * list Z :=
  let g := shift_expired SUBMIT_RATE_WINDOW_MS now globalSubmitTimes in
  if (SUBMIT_RATE_MAX_GLOBAL <=? length g)%nat then (true, g, peerTimes)
  else
    let p := shift_expired PEER_SUBMIT_WINDOW_MS now peerTimes in
    if (PEER_SUBMIT_MAX <=? length p)%nat then (true, g, p)
    else (false, g ++ [now], p ++ [now]).

(** ** Facts about one call *)

Lemma shift_expired_length w now l : (length (shift_expired w now l) <= length l)%nat.
Proof. induction l as [|t l IH]; cbn; [lia|]. case_match; cbn; lia. Qed.

Lemma rateLimitedSubmit_bounds now g p b g' p' :
  rateLimitedSubmit now g p = (b, g', p') ->
  (length g <= SUBMIT_RATE_MAX_GLOBAL)%nat -> (length p <= PEER_SUBMIT_MAX)%nat ->
  (length g' <= SUBMIT_RATE_MAX_GLOBAL)%nat /\ (length p' <= PEER_SUBMIT_MAX)%nat.
Proof.
  unfold rateLimitedSubmit. intros H Hg Hp.
  pose proof (shift_expired_length SUBMIT_RATE_WINDOW_MS now g).
  pose proof (shift_expired_length PEER_SUBMIT_WINDOW_MS now p).
  repeat case_match; simplify_eq; rewrite ?length_app; cbn [length];
    repeat match goal with H : (_ <=? _)%nat = false |- _ => apply Nat.leb_gt in H end; lia.
Qed.

(** ** The sliding-window specification *)

Abbreviation accepted := (Z * nat)%type.

Definition recent (window now t : Z) : bool := now - t <? window.

Definition spec_limited (hist : list accepted) (now : Z) (peer : nat) : bool :=
  (SUBMIT_RATE_MAX_GLOBAL <=?
     length (List.filter (fun a => recent SUBMIT_RATE_WINDOW_MS now (fst a)) hist))%nat ||
  (PEER_SUBMIT_MAX <=?
     length (List.filter (fun a => recent PEER_SUBMIT_WINDOW_MS now (fst a) && (snd a =? peer)%nat) hist))%nat.

Fixpoint spec_run (hist : list accepted) (calls : list accepted) : list bool * list accepted :=
  match calls with
  | [] => ([], hist)
  | (now, peer) :: r =>
      let b := spec_limited hist now peer in
      let '(bs, h) := spec_run (if b then hist else hist ++ [(now, peer)]) r in
      (b :: bs, h)
  end.

(** ** The implementation on a sequence of calls *)

Record limiter := Limiter { l_global : list Z; l_peers : nat -> list Z }.

Definition limiter0 : limiter := {| l_global := []; l_peers := fun _ => [] |}.

Definition call1 (s : limiter) (now : Z) (peer : nat) : bool * limiter :=
  let '(b, g, p) := rateLimitedSubmit now (l_global s) (l_peers s peer) in
  (b, {| l_global := g; l_peers := fun q => if (q =? peer)%nat then p else l_peers s q |}).

Fixpoint impl_run (s : limiter) (calls : list accepted) : list bool :=
  match calls with
  | [] => []
  | (now, peer) :: r => let '(b, s') := call1 s now peer in b :: impl_run s' r
  end.

(** The clock does not go back: every call is at or after [t]. *)
Fixpoint monotone (t : Z) (calls : list accepted) : Prop :=
  match calls with
  | [] => True
  | (now, _) :: r => t <= now /\ monotone now r
  end.

(** ** Simulation *)

(** Times in ascending order, none after [t]. *)
Fixpoint ascending (l : list Z) : Prop :=
  match l with
  | x :: r => Forall (fun y => x <= y) r /\ ascending r
  | [] => True
  end.

Lemma ascending_app l t : ascending l -> Forall (fun x => x <= t) l -> ascending (l ++ [t]).
Proof.
  induction l as [|x l IH]; cbn; [auto|]. intros [H1 H2] Hf. inversion_clear Hf.
  split; [apply Forall_app; split; [done|by constructor]|auto].
Qed.

(** On ascending times, dropping the expired prefix keeps exactly the recent ones. *)
Lemma shift_expired_filter w now l :
  ascending l -> shift_expired w now l = List.filter (recent w now) l.
Proof.
  induction l as [|x l IH]; cbn; [done|]. intros [Hx Hl]. unfold recent at 1.
  destruct (Z.leb_spec w (now - x)), (Z.ltb_spec (now - x) w); try lia; [auto|].
  f_equal. rewrite List.forallb_filter_id; [done|].
  apply forallb_forall. intros y Hy. unfold recent.
  eapply List.Forall_forall in Hx; [|done]. lia.
Qed.

Lemma filter_filter {A} (P Q : A -> bool) (l : list A) :
  List.filter P (List.filter Q l) = List.filter (fun a => P a && Q a) l.
Proof. induction l as [|x l IH]; cbn; [done|]. destruct (Q x), (P x) eqn:E; cbn; rewrite ?E; congruence. Qed.

Lemma filter_recent_later w t now l :
  t <= now -> List.filter (recent w now) (List.filter (recent w t) l) = List.filter (recent w now) l.
Proof.
  intros Ht. rewrite filter_filter. apply filter_ext. intros x. unfold recent.
  destruct (Z.ltb_spec (now - x) w), (Z.ltb_spec (t - x) w); cbn; lia.
Qed.

Lemma filter_length_map {A B} (f : A -> B) (P : B -> bool) (l : list A) :
  length (List.filter P (map f l)) = length (List.filter (fun a => P (f a)) l).
Proof. induction l as [|x l IH]; cbn; [done|]. destruct (P (f x)); cbn; lia. Qed.

Definition peer_times (peer : nat) (hist : list accepted) : list Z :=
  map fst (List.filter (fun a => (snd a =? peer)%nat) hist).

(** The queues hold the history's times up to entries that have expired by
    [t], the time of the latest call. *)
Record sim (t : Z) (s : limiter) (hist : list accepted) : Prop := {
  sim_global : forall now, t <= now ->
    List.filter (recent SUBMIT_RATE_WINDOW_MS now) (l_global s) =
    List.filter (recent SUBMIT_RATE_WINDOW_MS now) (map fst hist);
  sim_peer : forall p now, t <= now ->
    List.filter (recent PEER_SUBMIT_WINDOW_MS now) (l_peers s p) =
    List.filter (recent PEER_SUBMIT_WINDOW_MS now) (peer_times p hist);
  sim_asc_global : ascending (l_global s) /\ Forall (fun x => x <= t) (l_global s);
  sim_asc_peer : forall p, ascending (l_peers s p) /\ Forall (fun x => x <= t) (l_peers s p);
}.

Lemma ascending_filter (P : Z -> bool) l : ascending l -> ascending (List.filter P l).
Proof.
  induction l as [|x l IH]; cbn; [done|]. intros [Hx Hl]. destruct (P x); cbn; [|auto].
  split; [|auto]. rewrite List.Forall_forall in *. intros y [Hy _]%filter_In. by apply Hx.
Qed.

Lemma Forall_filter_le (P : Z -> bool) l (Q : Z -> Prop) : Forall Q l -> Forall Q (List.filter P l).
Proof. rewrite !List.Forall_forall. intros H y [Hy _]%filter_In. by apply H. Qed.

Lemma Forall_le_weaken (l : list Z) t t' : t <= t' -> Forall (fun x => x <= t) l -> Forall (fun x => x <= t') l.
Proof. intros H. apply Forall_impl. lia. Qed.

(** The decision of one call is the specification's. *)
Lemma sim_decides t s hist now peer :
  sim t s hist -> t <= now -> fst (call1 s now peer) = spec_limited hist now peer.
Proof.
  intros [Hg Hp [Ag _] Ap] Ht. specialize (Ap peer) as [Ap _].
  unfold call1, rateLimitedSubmit, spec_limited.
  rewrite !shift_expired_filter, Hg, Hp by done. unfold peer_times.
  rewrite !filter_length_map, filter_filter.
  match goal with |- context [if ?b then _ else _] => destruct b end; cbn; [done|].
  by match goal with |- context [if ?b then _ else _] => destruct b end.
Qed.

(** What one call does to the queues: they are cut to the recent times, and an
    accepted call adds its own time to both. *)
Lemma call1_queues s now peer b s' :
  call1 s now peer = (b, s') -> ascending (l_global s) -> ascending (l_peers s peer) ->
  let g := List.filter (recent SUBMIT_RATE_WINDOW_MS now) (l_global s) in
  let p := List.filter (recent PEER_SUBMIT_WINDOW_MS now) (l_peers s peer) in
  (forall q, q <> peer -> l_peers s' q = l_peers s q) /\
  (b = true -> l_global s' = g /\ (l_peers s' peer = p \/ l_peers s' peer = l_peers s peer)) /\
  (b = false -> l_global s' = g ++ [now] /\ l_peers s' peer = p ++ [now]).
Proof.
  unfold call1, rateLimitedSubmit. intros H Ag Ap. rewrite !shift_expired_filter in H by done.
  repeat case_match; simplify_eq; cbn; rewrite ?Nat.eqb_refl;
    (split; [intros q Hq; by rewrite (proj2 (Nat.eqb_neq q peer))|]); split; intros; try done; auto.
Qed.

Lemma recent_now w now : 0 < w -> recent w now now = true.
Proof. unfold recent. intros. rewrite Z.sub_diag. by apply Z.ltb_lt. Qed.

Lemma sim_step t s hist now peer b s' :
  sim t s hist -> t <= now -> call1 s now peer = (b, s') ->
  sim now s' (if b then hist else hist ++ [(now, peer)]).
Proof.
  intros [Hg Hp [Ag Bg] ABp] Ht Hc. pose proof (ABp peer) as [Ap Bp].
  pose proof (call1_queues _ _ _ _ _ Hc Ag Ap) as (Ho & Htrue & Hfalse).
  pose proof (Forall_le_weaken _ _ _ Ht Bg) as Bg'. pose proof (Forall_le_weaken _ _ _ Ht Bp) as Bp'.
  assert (forall q, q <> peer -> ascending (l_peers s' q) /\ Forall (fun x => x <= now) (l_peers s' q)) as Hother.
  { intros q Hq. rewrite Ho by done. destruct (ABp q). split; [done|by eapply Forall_le_weaken]. }
  destruct b.
  - destruct (Htrue eq_refl) as [Eg Ep]. split.
    + intros n Hn. rewrite Eg, filter_recent_later by lia. apply Hg. lia.
    + intros q n Hn. destruct (decide (q = peer)) as [->|]; [|rewrite Ho by done; apply Hp; lia].
      destruct Ep as [->| ->]; rewrite ?filter_recent_later by lia; apply Hp; lia.
    + rewrite Eg. split; [by apply ascending_filter|by apply Forall_filter_le].
    + intros q. destruct (decide (q = peer)) as [->|]; [|auto].
      destruct Ep as [->| ->]; [split; [by apply ascending_filter|by apply Forall_filter_le]|done].
  - destruct (Hfalse eq_refl) as [Eg Ep]. split.
    + intros n Hn. rewrite Eg, map_app, !List.filter_app, filter_recent_later, Hg by lia. done.
    + intros q n Hn. unfold peer_times. rewrite List.filter_app, map_app, List.filter_app.
      destruct (decide (q = peer)) as [->|Hne].
      * rewrite Ep, List.filter_app, filter_recent_later, Hp by lia. cbn. by rewrite Nat.eqb_refl.
      * rewrite Ho, Hp by (done || lia). cbn. rewrite (proj2 (Nat.eqb_neq peer q)) by done.
        cbn. by rewrite app_nil_r.
    + rewrite Eg. split; [apply ascending_app|apply Forall_app; split; [|by repeat constructor]];
        auto using ascending_filter, Forall_filter_le.
    + intros q. destruct (decide (q = peer)) as [->|]; [|auto]. rewrite Ep.
      split; [apply ascending_app|apply Forall_app; split; [|by repeat constructor]];
        auto using ascending_filter, Forall_filter_le.
Qed.

Lemma impl_run_sim t s hist calls :
  sim t s hist -> monotone t calls -> impl_run s calls = fst (spec_run hist calls).
Proof.
  revert t s hist; induction calls as [|[now peer] calls IH]; intros t s hist Hs Hm; [done|].
  cbn in Hm. destruct Hm as [Ht Hm]. cbn.
  pose proof (sim_decides _ _ _ _ peer Hs Ht) as Hd. destruct (call1 s now peer) as [b s'] eqn:Hc.
  cbn in Hd. subst b. rewrite (IH now s' _ (sim_step _ _ _ _ _ _ _ Hs Ht Hc) Hm).
  by destruct (spec_run _ calls).
Qed.

Lemma sim0 t : sim t limiter0 [].
Proof. split; cbn; auto. Qed.

(** The specification never lets a window exceed its budget. *)
Definition in_span (w t : Z) (a : accepted) : bool := (t <=? fst a) && (fst a <? t + w).

Definition budget (w : Z) (n : nat) (P : accepted -> bool) (hist : list accepted) : Prop :=
  forall t, (length (List.filter (fun a => in_span w t a && P a) hist) <= n)%nat.

Lemma budget_snoc w n P hist now peer :
  Forall (fun a => fst a <= now) hist -> budget w n P hist ->
  (P (now, peer) = true ->
     length (List.filter (fun a => recent w now (fst a) && P a) hist) < n)%nat ->
  budget w n P (hist ++ [(now, peer)]).
Proof.
  intros Hle Hb Hn t. rewrite List.filter_app, length_app. specialize (Hb t).
  cbn [List.filter]. destruct (P (now, peer)) eqn:HP; [|rewrite andb_false_r; cbn [length]; lia].
  rewrite andb_true_r. unfold in_span at 2; cbn [fst].
  destruct (Z.leb_spec t now), (Z.ltb_spec now (t + w)); cbn [andb length]; try lia.
  specialize (Hn eq_refl). enough (length (List.filter (fun a => in_span w t a && P a) hist) <=
    length (List.filter (fun a => recent w now (fst a) && P a) hist))%nat by lia.
  clear Hb Hn. induction Hle as [|[x q] hist Hx _ IH]; cbn; [lia|]. unfold in_span, recent in *. cbn in *.
  destruct (Z.leb_spec t x), (Z.ltb_spec x (t + w)), (Z.ltb_spec (now - x) w), (P (x, q)); cbn; lia.
Qed.

Definition any_peer (a : accepted) : bool := true.
Definition of_peer (p : nat) (a : accepted) : bool := (snd a =? p)%nat.

Lemma spec_run_snd hist now peer calls :
  snd (spec_run hist ((now, peer) :: calls)) =
  snd (spec_run (if spec_limited hist now peer then hist else hist ++ [(now, peer)]) calls).
Proof. cbn. by destruct (spec_run _ calls). Qed.

Lemma spec_run_budgets calls t hist :
  monotone t calls -> Forall (fun a => fst a <= t) hist ->
  budget SUBMIT_RATE_WINDOW_MS SUBMIT_RATE_MAX_GLOBAL any_peer hist ->
  (forall p, budget PEER_SUBMIT_WINDOW_MS PEER_SUBMIT_MAX (of_peer p) hist) ->
  budget SUBMIT_RATE_WINDOW_MS SUBMIT_RATE_MAX_GLOBAL any_peer (snd (spec_run hist calls)) /\
  (forall p, budget PEER_SUBMIT_WINDOW_MS PEER_SUBMIT_MAX (of_peer p) (snd (spec_run hist calls))).
Proof.
  revert t hist; induction calls as [|[now peer] calls IH]; intros t hist Hm Hle Hg Hp; [done|].
  cbn in Hm. destruct Hm as [Ht Hm].
  assert (Forall (fun a => fst a <= now) hist) as Hle' by (revert Hle; apply Forall_impl; cbn; intros; lia).
  rewrite spec_run_snd.
  destruct (spec_limited hist now peer) eqn:Hlim; [by apply (IH now)|].
  unfold spec_limited in Hlim. apply orb_false_iff in Hlim as [H1%Nat.leb_gt H2%Nat.leb_gt].
  apply (IH now); [done|apply Forall_app; split; [done|by repeat constructor]| |].
  - apply budget_snoc; [done..|]. intros _. erewrite filter_ext; [exact H1|]. intros a. apply andb_true_r.
  - intros p. apply budget_snoc; [done|apply Hp|]. unfold of_peer. cbn. intros ->%Nat.eqb_eq. done.
Qed.

(** ** Properties *)

(** The calls a run of verdicts let through. *)
Fixpoint accepts (calls : list accepted) (bs : list bool) : list accepted :=
  match calls, bs with
  | a :: r, b :: bs => if b then accepts r bs else a :: accepts r bs
  | _, _ => []
  end.

Lemma spec_run_accepts hist calls :
  snd (spec_run hist calls) = hist ++ accepts calls (fst (spec_run hist calls)).
Proof.
  revert hist; induction calls as [|[now peer] calls IH]; intros hist; cbn; [by rewrite app_nil_r|].
  specialize (IH (if spec_limited hist now peer then hist else hist ++ [(now, peer)])).
  destruct (spec_run _ calls) as [bs h]; cbn in *. rewrite IH.
  destruct (spec_limited hist now peer); [done|]. by rewrite <- app_assoc.
Qed.

(** C21. Refinement of the rate limiter.  For every sequence of submits by any
    connections at times that do not go back (the code reads [Date.now()], which
    can), the two queues of [rateLimitedSubmit] give exactly the verdicts of the
    sliding-window specification over the full history: a submit is limited iff
    40 submits were accepted in the last 1000 ms, or 100 of the same connection
    in the last 5000 ms. *)
Theorem rate_limiter_refines_window (calls : list (Z * nat)) (t : Z) :
  monotone t calls -> impl_run limiter0 calls = fst (spec_run [] calls).
Proof. intros Hm. exact (impl_run_sim t _ _ _ (sim0 t) Hm). Qed.

(** Forty-one submits in one second from one connection, then one after the
    window has passed: only the forty-first is limited. *)
Definition burst : list (Z * nat) :=
  map (fun i => (Z.of_nat i * 10, 0%nat)) (seq 0 41) ++ [(1200, 0%nat)].

Lemma rate_limiter_refines_window_witness :
  monotone 0 burst /\ impl_run limiter0 burst = fst (spec_run [] burst) /\
  fst (spec_run [] burst) = replicate 40 false ++ [true; false].
Proof.
  assert (monotone 0 burst) as Hm by (vm_compute; repeat split; discriminate).
  split; [exact Hm|split; [exact (rate_limiter_refines_window burst 0 Hm)|vm_compute; reflexivity]].
Defined.

(** When the clock is set back, the two differ: one submit at 5000, thirty-nine at
    100 and one at 1200.  The first blocks the head of the queue, so that the
    others never expire, and the last submit is limited although only one of the
    submits before it is in its window. *)
Definition set_back : list (Z * nat) := (5000, 0%nat) :: replicate 39 (100, 0%nat) ++ [(1200, 0%nat)].

Theorem clock_set_back : impl_run limiter0 set_back = replicate 40 false ++ [true] /\ fst (spec_run [] set_back) = replicate 41 false.
Proof. split; vm_compute; reflexivity. Qed.

(** The CPU bound of the limiter (S-02).  However submits arrive, if the
    clock does not go back then at most 40 of them pass in any span of 1000 ms,
    and at most 100 of one connection in any span of 5000 ms; each passed
    submit is one RandomX computation. *)
Theorem rate_limiter_window_budgets (calls : list (Z * nat)) (t0 : Z) :
  monotone t0 calls ->
  let passed := accepts calls (impl_run limiter0 calls) in
  (forall t, (length (List.filter (in_span SUBMIT_RATE_WINDOW_MS t) passed) <= SUBMIT_RATE_MAX_GLOBAL)%nat) /\
  (forall t p, (length (List.filter (fun a => in_span PEER_SUBMIT_WINDOW_MS t a && (snd a =? p)%nat) passed)
                <= PEER_SUBMIT_MAX)%nat).
Proof.
  intros Hm. cbv zeta. rewrite (impl_run_sim t0 _ [] _ (sim0 t0) Hm).
  pose proof (spec_run_budgets calls t0 [] Hm ltac:(constructor)) as Hb.
  rewrite spec_run_accepts in Hb. cbn [app] in Hb.
  destruct Hb as [H1 H2]; [intros t; cbn; lia|intros p t; cbn; lia|].
  split; [|intros t p; exact (H2 p t)].
  intros t. specialize (H1 t). erewrite filter_ext in H1; [exact H1|]. intros a. apply andb_true_r.
Qed.

Lemma rate_limiter_window_budgets_witness :
  monotone 0 burst /\
  (length (List.filter (in_span SUBMIT_RATE_WINDOW_MS 0) (accepts burst (impl_run limiter0 burst)))
     <= SUBMIT_RATE_MAX_GLOBAL)%nat.
Proof.
  assert (monotone 0 burst) as Hm by (vm_compute; repeat split; discriminate).
  split; [exact Hm|]. exact (proj1 (rate_limiter_window_budgets burst 0 Hm) 0).
Defined.
