(* ===== verification/ProxyConsensus.v ===== *)
(** * Stratum proxy: what its jobs and verdicts mean to the node

    The theorems that join the proxy's job and share functions to the node's
    consensus code: the 112-byte header, the epoch key, the verdict on a found
    block, and the three places where the proxy departs from the node. *)

From Stdlib Require Import ZArith Lia Bool String SpecFloat.
From stdpp Require Import base list numbers option.
From S2P Require Import Prelude JsNum JsNumFacts Bytes JsStr JsValue JsDecimal Sha256 Libs ProxyCodec Consensus ProxyCodecFacts.

Open Scope Z_scope.

(** ** Epochs *)

Definition epoch_seconds : Z := nRandomXEpochDuration rcpu_main.

Lemma getEpochFromTime_num t :
  is_u32 t -> getEpochFromTime (VNum (num_of_Z t)) = Ok (num_of_Z (GetEpoch t epoch_seconds)).
Proof.
  intros Ht. unfold getEpochFromTime. cbn [to_number mbind res_bind]. f_equal.
  apply floor_div_num_of_Z; [apply Ht|done].
Qed.

Lemma epoch_range t : is_u32 t -> 0 <= GetEpoch t epoch_seconds < 7102.
Proof.
  intros Ht. unfold is_u32, GetEpoch, epoch_seconds in *. cbn [rcpu_main nRandomXEpochDuration Z.eqb Z.mul Pos.mul Pos.add].
  split; [apply Z.div_pos; lia|apply Z.div_lt_upper_bound; lia].
Qed.

Lemma getEpochSeedHash_num e :
  0 <= e < 7102 -> getEpochSeedHash (num_of_Z e) = to_hex (GetSeedHash e).
Proof. intros He. unfold getEpochSeedHash, GetSeedHash. by rewrite num_to_string_int by lia. Qed.

(** ** Job creation *)

Lemma maxTarget_eq : maxTarget = 2 ^ 256 - 1.
Proof. vm_compute. reflexivity. Qed.

Lemma arith_GetHex_truthy t : truthy (VStr (arith_GetHex t)) = true.
Proof.
  pose proof (GetHex_ne _ (le_bytes_u256 t)) as H. unfold arith_GetHex.
  by destruct (GetHex (le_bytes 32 t)).
Qed.

Lemma bigint_of_arith t : 0 <= t < 2 ^ 256 -> bigint_of (VStr (arith_GetHex t)) = Ok t.
Proof.
  intros Ht. unfold arith_GetHex. rewrite bigint_of_GetHex by apply le_bytes_u256.
  unfold UintToArith256. rewrite le_value_bytes. by rewrite Z.mod_small.
Qed.

(** The share difficulty of any target is one, whatever the network's. *)
Lemma share_difficulty_one t :
  0 < t < 2 ^ 256 ->
  targetToDifficulty (VStr (arith_GetHex t)) = Ok (num_of_Z (maxTarget / t)) /\
  math_min MIN_SHARE_DIFFICULTY (num_of_Z (maxTarget / t)) = num_of_Z 1.
Proof.
  intros Ht. unfold targetToDifficulty. rewrite bigint_of_arith by lia. cbn [mbind res_bind].
  destruct (Z.eqb_spec t 0); [lia|]. rewrite maxTarget_eq, Z.quot_div_nonneg by lia. split; [done|].
  apply math_min_one. split.
  - apply Z.div_le_lower_bound; lia.
  - apply Z.div_lt_upper_bound; [lia|]. change (2 ^ 900) with (2 ^ 256 * 2 ^ 644). nia.
Qed.

Definition share_target_max : jstr := repeat_str (js "ff") 32.

Lemma target_of_one : calculateTargetFromDifficulty (num_of_Z 1) = Ok share_target_max.
Proof. vm_compute. reflexivity. Qed.

Lemma get_total v k k' x : get v k = Ok x -> exists y, get v k' = Ok y.
Proof. destruct v; cbn; try done; intros; eauto. Qed.

(** The job of a node template, field by field. *)
Definition job_of (n : Z) (tpl : val) (prev merkle : bytes) (time bits t : Z) (ht : val) : job :=
  {| job_id := dec_string n;
     blob := to_hex (SerializeRandomXHeader (proxy_header prev merkle time bits 0));
     target := VStr (arith_GetHex t); share_target := share_target_max;
     height := or_else ht (VNum zero);
     seed_hash := to_hex (GetSeedHash (GetEpoch time epoch_seconds));
     epoch := num_of_Z (GetEpoch time epoch_seconds);
     prevhash := VStr (GetHex prev); nbits := VStr (hex_fixed 8 bits);
     curtime := VNum (num_of_Z time);
     networkDifficulty := num_of_Z (maxTarget / t); shareDifficulty := num_of_Z 1;
     template := tpl |}.

Lemma createRandomXJob_ok cnt tpl prev merkle time bits t :
  template_of tpl prev merkle time bits ->
  get tpl (js "target") = Ok (VStr (arith_GetHex t)) -> 0 < t < 2 ^ 256 ->
  exists ht, get tpl (js "height") = Ok ht /\
    createRandomXJob cnt tpl = (cnt + 1, Ok (job_of (cnt + 1) tpl prev merkle time bits t ht)).
Proof.
  intros Htpl Htg Ht. pose proof Htpl as [Hp _ Hc Hb _ _ Oc _].
  destruct (get_total _ _ (js "height") _ Hp) as [ht Eh]. exists ht. split; [done|].
  unfold createRandomXJob. rewrite (job_blob_serializes _ _ _ _ _ Htpl). cbn [mbind res_bind].
  rewrite Hp, Hc, Hb. cbn [mbind res_bind]. rewrite getEpochFromTime_num by done. cbn [mbind res_bind].
  rewrite Htg. cbn [mbind res_bind]. rewrite arith_GetHex_truthy. cbn [mbind res_bind].
  destruct (share_difficulty_one t Ht) as [-> E]. cbn [mbind res_bind]. rewrite E, target_of_one. cbn [mbind res_bind].
  rewrite Eh. cbn [mbind res_bind]. rewrite getEpochSeedHash_num by (by apply epoch_range). done.
Qed.

Lemma hex_value_share_max : bigint_of (VStr share_target_max) = Ok (2 ^ 256 - 1).
Proof. vm_compute. reflexivity. Qed.

Lemma UintToArith256_range h : is_u256 h -> 0 <= UintToArith256 h < 2 ^ 256.
Proof. intros [Hl Hb]. unfold UintToArith256. pose proof (le_value_range h Hb) as H. by rewrite Hl in H. Qed.

(** The header with its hash filled in, as the node receives it in a block. *)
Definition with_hash (h : CBlockHeader) (rx : bytes) : CBlockHeader :=
  {| nVersion := nVersion h; hashPrevBlock := hashPrevBlock h; hashMerkleRoot := hashMerkleRoot h;
     nTime := nTime h; nBits := nBits h; nNonce := nNonce h; h_hashRandomX := rx |}.

Section Verdicts.
Context {L : RandomXLib} {R : RandomXRef} {Laws : RandomXLaws L R}.

(** The node's verdict on a header with the right hash is its commitment test. *)
Lemma consensus_verdict have_vm h params pt :
  let key := GetSeedHash (verify_epoch h params pt) in
  let rx := rx_hash key (SerializeRandomXHeader h) in
  fPowRandomX params = true -> IsNull (hashPrevBlock h) = false ->
  target_in_range (nBits h) params = true -> IsNull rx = false ->
  have_vm (verify_epoch h params pt) = true ->
  CheckProofOfWorkRandomX have_vm (with_hash h rx) params POW_VERIFY_FULL false pt =
  Ok (UintToArith256 (rx_commitment (SerializeRandomXHeader h) rx) <=? c_target (SetCompact (nBits h)), None).
Proof.
  intros key rx Hf Hp Ht Hrx Hvm. unfold CheckProofOfWorkRandomX.
  change (hashPrevBlock (with_hash h rx)) with (hashPrevBlock h).
  change (nBits (with_hash h rx)) with (nBits h).
  change (h_hashRandomX (with_hash h rx)) with rx.
  change (verify_epoch (with_hash h rx) params pt) with (verify_epoch h params pt).
  change (SerializeRandomXHeader (with_hash h rx)) with (SerializeRandomXHeader h).
  change (GetRandomXCommitment (with_hash h rx) None) with (rx_commitment (SerializeRandomXHeader h) rx).
  rewrite Hf, Hp, Ht, Hrx, Hvm. cbn [negb andb orb]. rewrite bool_decide_eq_false_2 by done. cbn [negb andb].
  fold key. fold rx. rewrite Z.ltb_antisym. destruct (_ <=? _); cbn [negb]; [|done].
  by rewrite bool_decide_eq_true_2.
Qed.

(** From a template and a miner's nonce and time to the proxy's decision. *)
Lemma proxy_decides cnt tpl prev merkle time bits ns ts vm key :
  template_of tpl prev merkle time bits ->
  get tpl (js "target") = Ok (VStr (arith_GetHex (c_target (SetCompact bits)))) ->
  target_in_range bits rcpu_main = true -> re_hex 8 ns = true -> re_hex 8 ts = true -> keyed vm key ->
  let hdr := proxy_header prev merkle (hex_value ts) bits (le_value (from_hex ns)) in
  let rx := rx_hash key (SerializeRandomXHeader hdr) in
  exists j h112 isValidShare,
    createRandomXJob cnt tpl = (cnt + 1, Ok j) /\
    buildHeader112 (blob j) (VStr ns) (VStr ts) = Ok (Some h112) /\
    evaluate_share (Some vm) j h112 = Ok (Evaluated (GetHex rx) isValidShare
      (UintToArith256 (rx_commitment (SerializeRandomXHeader hdr) rx) <=? c_target (SetCompact bits))).
Proof.
  intros Htpl Htg Hr Hns Hts Hk hdr rx.
  pose proof Htpl as [_ _ _ _ Op Om _ Ob]. pose proof (SetCompact_range bits Ob) as Hc.
  assert (c_target (SetCompact bits) <> 0).
  { intros E. unfold target_in_range in Hr. rewrite E in Hr. cbn in Hr. by rewrite orb_true_r in Hr. }
  destruct (createRandomXJob_ok cnt tpl prev merkle time bits _ Htpl Htg ltac:(lia)) as (ht & _ & Ej).
  pose proof (Serialize_ok prev merkle (hex_value ts) bits (le_value (from_hex ns)) Op Om) as [Hl Hb].
  do 3 eexists. split; [exact Ej|]. split; [by apply buildHeader112_serializes|].
  by apply evaluate_share_ref with (t := c_target (SetCompact bits)) (st := 2 ^ 256 - 1);
    [| | |lia| |apply hex_value_share_max].
Qed.

(** C1. From a node template to a verdict on a found block: the proxy creates a
    job, builds the 112-byte header for the miner's nonce and time, and decides
    "this is a block" exactly when the node's [CheckProofOfWorkRandomX] accepts
    that header in full mode, provided the proxy's machine is keyed to the epoch
    the node hashes under. *)
Theorem block_verdict_is_consensus cnt tpl prev merkle time bits ns ts vm have_vm pt :
  template_of tpl prev merkle time bits ->
  get tpl (js "target") = Ok (VStr (arith_GetHex (c_target (SetCompact bits)))) ->
  target_in_range bits rcpu_main = true -> IsNull prev = false ->
  re_hex 8 ns = true -> re_hex 8 ts = true ->
  let hdr := proxy_header prev merkle (hex_value ts) bits (le_value (from_hex ns)) in
  let ep := verify_epoch hdr rcpu_main pt in
  let rx := rx_hash (GetSeedHash ep) (SerializeRandomXHeader hdr) in
  keyed vm (GetSeedHash ep) -> have_vm ep = true -> IsNull rx = false ->
  exists j h112 isValidShare isBlock,
    createRandomXJob cnt tpl = (cnt + 1, Ok j) /\
    buildHeader112 (blob j) (VStr ns) (VStr ts) = Ok (Some h112) /\
    evaluate_share (Some vm) j h112 = Ok (Evaluated (GetHex rx) isValidShare isBlock) /\
    CheckProofOfWorkRandomX have_vm (with_hash hdr rx) rcpu_main POW_VERIFY_FULL false pt = Ok (isBlock, None).
Proof.
  intros Htpl Htg Hr Hp Hns Hts hdr ep rx Hk Hvm Hrx.
  destruct (proxy_decides cnt tpl prev merkle time bits ns ts vm _ Htpl Htg Hr Hns Hts Hk) as (j & h112 & valid & H1 & H2 & H3).
  exists j, h112, valid. eexists. split; [exact H1|]. split; [exact H2|]. split; [exact H3|]. by apply consensus_verdict.
Qed.

(** Every submit that the machine can hash counts as a share: the share
    target of a job is the largest 256-bit number whatever the network
    difficulty, so [isValidShare] is true for every nonce and time. *)
Theorem every_share_accepted cnt tpl prev merkle time bits t ns ts vm key :
  template_of tpl prev merkle time bits ->
  get tpl (js "target") = Ok (VStr (arith_GetHex t)) -> 0 < t < 2 ^ 256 ->
  re_hex 8 ns = true -> re_hex 8 ts = true -> keyed vm key ->
  exists j h112 rx isBlock,
    createRandomXJob cnt tpl = (cnt + 1, Ok j) /\
    buildHeader112 (blob j) (VStr ns) (VStr ts) = Ok (Some h112) /\
    evaluate_share (Some vm) j h112 = Ok (Evaluated rx true isBlock).
Proof.
  intros Htpl Htg Ht Hns Hts Hk. pose proof Htpl as [_ _ _ _ Op Om _ Ob].
  destruct (createRandomXJob_ok cnt tpl prev merkle time bits _ Htpl Htg Ht) as (ht & _ & Ej).
  pose proof (Serialize_ok prev merkle (hex_value ts) bits (le_value (from_hex ns)) Op Om) as [Hl Hb].
  do 4 eexists. split; [exact Ej|]. split; [by apply buildHeader112_serializes|].
  rewrite evaluate_share_ref with (key := key) (t := t) (st := 2 ^ 256 - 1) by
    (done || lia || apply hex_value_share_max).
  rewrite (proj2 (Z.leb_le _ (2 ^ 256 - 1))); [done|].
  pose proof (UintToArith256_range _ (rx_hash_u256 key (SerializeRandomXHeader
    (proxy_header prev merkle (hex_value ts) bits (le_value (from_hex ns)))))). lia.
Qed.

End Verdicts.

(** ** Headers *)

(** C16. A job's blob, and every header rebuilt from it for a miner's nonce and
    time, is the node's canonical 112-byte RandomX input of the header it
    stands for, in hexadecimal. *)
Theorem job_header_is_canonical cnt tpl prev merkle time bits t ns ts :
  template_of tpl prev merkle time bits ->
  get tpl (js "target") = Ok (VStr (arith_GetHex t)) -> 0 < t < 2 ^ 256 ->
  re_hex 8 ns = true -> re_hex 8 ts = true ->
  exists j h112,
    createRandomXJob cnt tpl = (cnt + 1, Ok j) /\
    from_hex (blob j) = SerializeRandomXHeader (proxy_header prev merkle time bits 0) /\
    buildHeader112 (blob j) (VStr ns) (VStr ts) = Ok (Some h112) /\
    from_hex h112 = SerializeRandomXHeader
      (proxy_header prev merkle (hex_value ts) bits (le_value (from_hex ns))) /\
    length h112 = 224%nat.
Proof.
  intros Htpl Htg Ht Hns Hts. pose proof Htpl as [_ _ _ _ Op Om _ _].
  destruct (createRandomXJob_ok cnt tpl prev merkle time bits _ Htpl Htg Ht) as (ht & _ & Ej).
  pose proof (Serialize_ok prev merkle time bits 0 Op Om) as [_ Hb].
  pose proof (Serialize_ok prev merkle (hex_value ts) bits (le_value (from_hex ns)) Op Om) as [Hl' Hb'].
  do 2 eexists. split; [exact Ej|]. split; [by apply from_to_hex|].
  split; [by apply buildHeader112_serializes|]. split; [by apply from_to_hex|].
  by rewrite length_to_hex, Hl'.
Qed.

(** C35. The proxy and the node key RandomX alike: for every 32-bit time the
    floating-point epoch of the proxy prints to the same seed string, hence the
    same 32-byte key, as the node's integer epoch. *)
Theorem epoch_key_agrees t :
  is_u32 t ->
  exists e, getEpochFromTime (VNum (num_of_Z t)) = Ok e /\
    from_hex (getEpochSeedHash e) = GetSeedHash (GetEpoch t (nRandomXEpochDuration rcpu_main)).
Proof.
  intros Ht. eexists. split; [by apply getEpochFromTime_num|].
  rewrite getEpochSeedHash_num by (by apply epoch_range). apply from_to_hex, sha256_byte.
Qed.

(** What [buildHeader112] does with any two strings: [null] unless both are
    eight hexadecimal digits, and otherwise the job's header with the time
    little-endian and the nonce lower-cased; it never throws on strings. *)
Theorem buildHeader112_total jb ns ts :
  buildHeader112 jb (VStr ns) (VStr ts) =
  Ok (if re_hex 8 ns && re_hex 8 ts
      then Some (substring jb 0 136 ++ to_hex (le_bytes 4 (hex_value ts)) ++ substring jb 144 152 ++
                 toLowerCase ns ++ zero32)
      else None).
Proof. apply buildHeader112_eq. Qed.

(** ** Transaction counts *)

Lemma to_hex_inj a b : Forall is_byte a -> Forall is_byte b -> to_hex a = to_hex b -> a = b.
Proof. intros Ha Hb E. rewrite <- (from_to_hex a), <- (from_to_hex b) by done. by rewrite E. Qed.

Lemma compactSize_bytes count :
  0 <= count < 2 ^ 32 ->
  compactSize count = to_hex (if count <? 253 then be_bytes 1 count
                              else if count <=? 65535 then 253 :: be_bytes 2 count
                              else 254 :: be_bytes 4 count).
Proof.
  intros Hc. unfold compactSize.
  destruct (Z.ltb_spec count 253); [|destruct (Z.leb_spec count 65535)].
  - rewrite padStart_toString16 by lia. apply (hex_fixed_be_bytes 1).
  - rewrite padStart_toString16 by lia. by rewrite (hex_fixed_be_bytes 2).
  - rewrite padStart_toString16 by lia. by rewrite (hex_fixed_be_bytes 4).
Qed.

Lemma be_le_2 n : 0 <= n < 65536 -> be_bytes 2 n = le_bytes 2 n <-> n mod 257 = 0.
Proof.
  intros Hn. unfold be_bytes. cbn [le_bytes rev app].
  pose proof (Z.div_mod n 256 ltac:(lia)). pose proof (Z.mod_pos_bound n 256 ltac:(lia)).
  rewrite (Z.mod_small (n / 256)) by (split; [apply Z.div_pos|apply Z.div_lt_upper_bound]; lia).
  pose proof (Z.div_mod n 257 ltac:(lia)). pose proof (Z.mod_pos_bound n 257 ltac:(lia)).
  split; intros E; [injection E as E1 E2|f_equal; [|f_equal]]; lia.
Qed.

(** The proxy's transaction count is the node's [CompactSize] only below
    253 or when the count reads the same in both byte orders: from 253 on the
    proxy writes big-endian and the node reads little-endian. *)
Theorem compactSize_vs_node count :
  0 <= count < 2 ^ 32 ->
  compactSize count = to_hex (WriteCompactSize count) <->
  count < 253 \/ (count <= 65535 /\ count mod 257 = 0) \/
  (65535 < count /\ be_bytes 4 count = le_bytes 4 count).
Proof.
  intros Hc. rewrite compactSize_bytes by done. unfold WriteCompactSize.
  destruct (Z.ltb_spec count 253) as [H|H]; [split; [by left|done]|].
  assert (forall a n v, is_byte a -> Forall is_byte (a :: le_bytes n v) /\ Forall is_byte (a :: be_bytes n v)) as Hb.
  { intros. split; constructor; auto with js. }
  destruct (Z.leb_spec count 65535) as [H1|H1].
  - pose proof (be_le_2 count ltac:(lia)) as Hp. split.
    + intros E. right; left. split; [done|]. apply Hp.
      apply to_hex_inj in E; [exact (f_equal tail E)| |]; apply Hb; unfold is_byte; lia.
    + intros [?|[[_ E]|[? _]]]; try lia. apply Hp in E. by rewrite E.
  - destruct (Z.leb_spec count 4294967295); [|lia]. split.
    + intros E. right; right. split; [done|].
      apply to_hex_inj in E; [exact (f_equal tail E)| |]; apply Hb; unfold is_byte; lia.
    + intros [?|[[? _]|[_ E]]]; try lia. by rewrite E.
Qed.

(** ** Targets from compact bits *)

Lemma be_bytes_4_split n : is_u32 n -> be_bytes 4 n = [n / 2 ^ 24] ++ be_bytes 3 n.
Proof.
  intros Hn. unfold is_u32 in Hn. unfold be_bytes. cbn [le_bytes rev app]. f_equal.
  rewrite !Z.div_div by lia. apply Z.mod_small.
  split; [apply Z.div_pos|apply Z.div_lt_upper_bound]; lia.
Qed.

Lemma bits_fields n :
  is_u32 n ->
  parseInt16 (substring (hex_fixed 8 n) 0 2) = Some (n / 2 ^ 24) /\
  parseInt16 (drop 2 (hex_fixed 8 n)) = Some (n mod 2 ^ 24).
Proof.
  intros Hn. rewrite (hex_fixed_be_bytes 4), be_bytes_4_split, to_hex_app by done.
  assert (is_byte (n / 2 ^ 24)) as Hb.
  { unfold is_u32, is_byte in *. split; [apply Z.div_pos|apply Z.div_lt_upper_bound]; lia. }
  assert (Forall is_byte [n / 2 ^ 24]) as Hb1 by (by constructor).
  rewrite substring_app_l, substring_all, drop_app_length' by done.
  rewrite !parseInt16_hex by (done || apply to_hex_is_hex; auto with js).
  rewrite !hex_value_to_hex by auto with js. rewrite be_value_single. split; [done|].
  unfold be_value, be_bytes. by rewrite rev_involutive, le_value_bytes.
Qed.

Lemma bitsToTarget_bytes n :
  is_u32 n -> let e := n / 2 ^ 24 in let m := n mod 2 ^ 24 in
  bitsToTarget (hex_fixed 8 n) =
  if (3 <=? e) && (e <? 35) then
    if e <=? 31
    then Ok (to_hex (replicate (Z.to_nat (e - 3)) 0 ++ be_bytes 4 m ++ replicate (Z.to_nat (31 - e)) 0))
    else Throw RangeError
  else Ok (to_hex (replicate 32 0)).
Proof.
  intros Hn e m. unfold bitsToTarget. destruct (bits_fields n Hn) as [-> ->]. fold e m. cbn zeta.
  pose proof (Z.mod_pos_bound n (2 ^ 24) ltac:(lia)) as Hm. fold m in Hm.
  replace ((0 <=? (e - 3) * 8) && ((e - 3) * 8 <? 256)) with ((3 <=? e) && (e <? 35));
    [|destruct (Z.leb_spec 3 e), (Z.ltb_spec e 35), (Z.leb_spec 0 ((e - 3) * 8)), (Z.ltb_spec ((e - 3) * 8) 256); lia || done].
  destruct (Z.leb_spec 3 e), (Z.ltb_spec e 35); cbn [andb mbind res_bind]; try done.
  rewrite Z.shiftr_div_pow2, Z.div_mul by lia. change (default 0 (Some m)) with m. unfold writeUInt32BE.
  destruct (Z.ltb_spec m 0), (Z.ltb_spec 4294967295 m); try lia. cbn [orb]. rewrite length_replicate.
  destruct (Z.leb_spec e 31), (Nat.ltb_spec 32 (Z.to_nat (e - 3) + 4)); try lia; [|done].
  cbn [mbind res_bind]. rewrite take_replicate, drop_replicate. do 3 f_equal; [f_equal; lia|do 2 f_equal; lia].
Qed.

Lemma le_value_zeros n : le_value (replicate n 0) = 0.
Proof. induction n as [|n IH]; [done|]. cbn [replicate le_value]. lia. Qed.

Lemma be_value_zeros n : be_value (replicate n 0) = 0.
Proof.
  unfold be_value. replace (rev (replicate n 0)) with (replicate n 0); [apply le_value_zeros|].
  rewrite rev_alt. symmetry. apply reverse_replicate.
Qed.

Lemma SetCompact_fields n :
  is_u32 n -> n mod 2 ^ 24 < 2 ^ 23 -> 3 <= n / 2 ^ 24 <= 31 ->
  c_target (SetCompact n) = n mod 2 ^ 24 * 256 ^ (n / 2 ^ 24 - 3).
Proof.
  intros Hn Hm He. unfold SetCompact. rewrite Z.shiftr_div_pow2 by lia.
  assert (Z.land n 8388607 = n mod 2 ^ 24) as ->.
  { change 8388607 with (Z.ones 23). rewrite Z.land_ones by lia.
    rewrite <- (Z.mod_small (n mod 2 ^ 24) (2 ^ 23)) by (pose proof (Z.mod_pos_bound n (2 ^ 24)); lia).
    rewrite Z.mod_mod_divide; [done|]. by exists 2. }
  set (e := n / 2 ^ 24) in *. set (m := n mod 2 ^ 24) in *.
  assert (0 <= m) by (apply Z.mod_pos_bound; lia).
  destruct (Z.leb_spec e 3); cbn [c_target].
  - replace e with 3 by lia. cbn. rewrite Z.shiftr_0_r. lia.
  - rewrite Z.shiftl_mul_pow2, Z.pow_mul_r by lia. apply Z.mod_small.
    assert (0 < 256 ^ (e - 3) <= 256 ^ 28).
    { split; [apply Z.pow_pos_nonneg; lia|apply Z.pow_le_mono_r; lia]. }
    change (2 ^ 8) with 256. change (2 ^ 256) with (2 ^ 32 * 256 ^ 28). nia.
Qed.

(** The fallback target of a template without [target] is the network's
    only for exponent 17 or an empty mantissa: the proxy puts the mantissa
    [exponent - 3] bytes from the most significant end, the node the same
    number of bytes from the least significant one. *)
Theorem bitsToTarget_vs_node n :
  is_u32 n -> let e := n / 2 ^ 24 in let m := n mod 2 ^ 24 in
  m < 2 ^ 23 -> 3 <= e <= 31 ->
  exists t, bitsToTarget (hex_fixed 8 n) = Ok t /\
    hex_value t = m * 256 ^ (31 - e) /\ c_target (SetCompact n) = m * 256 ^ (e - 3) /\
    (hex_value t = c_target (SetCompact n) <-> m = 0 \/ e = 17).
Proof.
  intros Hn e m Hm He. pose proof (Z.mod_pos_bound n (2 ^ 24) ltac:(lia)) as Hm0. fold m in Hm0.
  eexists. split; [rewrite bitsToTarget_bytes by done; fold e m;
    destruct (Z.leb_spec 3 e), (Z.ltb_spec e 35), (Z.leb_spec e 31); try lia; done|].
  rewrite SetCompact_fields by done. fold e m.
  rewrite hex_value_to_hex by (rewrite !Forall_app; repeat split; auto with js; apply Forall_replicate; unfold is_byte; lia).
  rewrite !be_value_app, !be_value_zeros, be_value_bytes, length_replicate, Z2Nat.id by lia.
  cbn [Z.mul Z.add]. rewrite Z.add_0_r. split; [done|]. split; [done|]. split.
  - intros E. destruct (Z.eq_dec m 0) as [|Hm1]; [by left|right].
    apply Z.mul_cancel_l in E; [|done]. apply Z.pow_inj_r in E; lia.
  - intros [->| ->]; done.
Qed.

(** ** A concrete template *)

Definition ex_prev : bytes := le_bytes 32 7.
Definition ex_time : Z := 1700000000.
Definition ex_bits : Z := GetCompact (powLimit rcpu_main).
Definition ex_target : Z := c_target (SetCompact ex_bits).

Definition ex_template : val :=
  VObj [(js "previousblockhash", VStr (GetHex ex_prev));
        (js "curtime", VNum (num_of_Z ex_time));
        (js "bits", VStr (hex_fixed 8 ex_bits));
        (js "target", VStr (arith_GetHex ex_target));
        (js "height", VNum (num_of_Z 101))].

Lemma ex_template_of : template_of ex_template ex_prev null256 ex_time ex_bits.
Proof.
  split; try reflexivity.
  - by right.
  - apply le_bytes_u256.
  - apply null256_bytes.
  - done.
  - done.
Qed.

Lemma ex_keyed k : keyed (L := toy_randomx) k k.
Proof. by exists k. Qed.

Lemma block_verdict_is_consensus_witness :
  exists j h112 isValidShare isBlock,
    createRandomXJob 0 ex_template = (1, Ok j) /\
    buildHeader112 (blob j) (VStr (js "0000000a")) (VStr (js "6553f100")) = Ok (Some h112) /\
    evaluate_share (L := toy_randomx)
      (Some (GetSeedHash (verify_epoch (proxy_header ex_prev null256 ex_time ex_bits (le_value [0; 0; 0; 10])) rcpu_main 0)))
      j h112 = Ok (Evaluated (GetHex
        (rx_hash (GetSeedHash (GetEpoch ex_time epoch_seconds))
           (SerializeRandomXHeader (proxy_header ex_prev null256 ex_time ex_bits (le_value [0; 0; 0; 10])))))
        isValidShare isBlock).
Proof.
  destruct (block_verdict_is_consensus (L := toy_randomx) (R := toy_reference) 0 ex_template ex_prev null256 ex_time ex_bits
              (js "0000000a") (js "6553f100") _ (fun _ => true) 0 ex_template_of
              eq_refl eq_refl eq_refl eq_refl eq_refl (ex_keyed _) eq_refl ltac:(vm_compute; reflexivity))
    as (j & h & v & b & E1 & E2 & E3 & _).
  exists j, h, v, b. split; [exact E1|]. split; [exact E2|exact E3].
Defined.

Lemma every_share_accepted_witness :
  exists j h112 rx isBlock,
    createRandomXJob 4 ex_template = (5, Ok j) /\
    buildHeader112 (blob j) (VStr (js "DEADbeef")) (VStr (js "6553f101")) = Ok (Some h112) /\
    evaluate_share (L := toy_randomx) (Some [1; 2; 3]) j h112 = Ok (Evaluated rx true isBlock).
Proof.
  exact (every_share_accepted (L := toy_randomx) (R := toy_reference) 4 ex_template ex_prev null256 ex_time ex_bits ex_target
    (js "DEADbeef") (js "6553f101") _ [1; 2; 3] ex_template_of eq_refl (conj eq_refl eq_refl) eq_refl eq_refl (ex_keyed _)).
Defined.

Lemma job_header_is_canonical_witness :
  exists j h112,
    createRandomXJob 0 ex_template = (1, Ok j) /\
    from_hex (blob j) = SerializeRandomXHeader (proxy_header ex_prev null256 ex_time ex_bits 0) /\
    buildHeader112 (blob j) (VStr (js "0000000a")) (VStr (js "6553f100")) = Ok (Some h112) /\
    from_hex h112 = SerializeRandomXHeader (proxy_header ex_prev null256 ex_time ex_bits 0x0a000000) /\
    length h112 = 224%nat.
Proof.
  exact (job_header_is_canonical 0 ex_template ex_prev null256 ex_time ex_bits ex_target
    (js "0000000a") (js "6553f100") ex_template_of eq_refl (conj eq_refl eq_refl) eq_refl eq_refl).
Defined.

Lemma epoch_key_agrees_witness :
  exists e, getEpochFromTime (VNum (num_of_Z 1700000000)) = Ok e /\
    from_hex (getEpochSeedHash e) = GetSeedHash 2810.
Proof. apply (epoch_key_agrees 1700000000). unfold is_u32. lia. Defined.

Lemma compactSize_vs_node_witness :
  compactSize 300 <> to_hex (WriteCompactSize 300) /\ compactSize 252 = to_hex (WriteCompactSize 252).
Proof.
  split.
  - intros E. apply compactSize_vs_node in E; [|lia]. vm_compute in E. destruct E as [|[[]|[]]]; done.
  - apply compactSize_vs_node; lia.
Defined.

Lemma bitsToTarget_vs_node_witness :
  exists t, bitsToTarget (hex_fixed 8 ex_bits) = Ok t /\ hex_value t <> c_target (SetCompact ex_bits).
Proof.
  destruct (bitsToTarget_vs_node ex_bits) as (t & E & _ & _ & H); [done|done|done|].
  exists t. split; [exact E|]. intros X. apply H in X. destruct X as [X|X]; vm_compute in X; congruence.
Defined.
