(* ===== verification/FoundBlocks.v ===== *)
(** * From the proxy to the node's index

    A block found through the proxy, followed to the end: the job of a template,
    the header rebuilt from a miner's nonce and time, the proxy's decision that
    it is a block, and what the node's [AcceptBlockHeader] then does with it. *)

From Stdlib Require Import ZArith Lia Bool String.
From stdpp Require Import base list numbers option.
From S2P Require Import Prelude JsNum Bytes JsStr JsValue Sha256 Libs ProxyCodec Consensus Compact BlockIndex PowTarget PowTargetFacts LruCache PowAlgo ProxyCodecFacts ProxyConsensus HeaderAccept.

Open Scope Z_scope.

Definition main_anchor : ASERTAnchor := MkAnchor 0 0x1e3ffffc 1788566400.

Lemma main_asert : asertAnchorParams rcpu_main = Some main_anchor /\ anchor_ok rcpu_main main_anchor /\ a_nHeight main_anchor = 0 /\ nASERTActivationHeight rcpu_main <= 1.
Proof. split; [done|]. split; [exact main_anchor_ok|]. split; [done|]. cbn. lia. Qed.

Section Found.
Context {L : RandomXLib} {R : RandomXRef} {Laws : RandomXLaws L R} (cp : ChainParams).
Hypothesis main_network : consensus cp = rcpu_main.

(** A header of the proxy with its hash is well formed. *)
Lemma found_header_ok prev merkle ns ts bits rx : is_u256 prev -> is_u256 merkle -> is_u32 bits -> is_u256 rx ->
  re_hex 8 ns = true -> re_hex 8 ts = true ->
  header_ok (with_hash (proxy_header prev merkle (hex_value ts) bits (le_value (from_hex ns))) rx).
Proof.
  intros Hp Hm Hb Hr [Ln Hn]%re_hex_spec [Lt Ht]%re_hex_spec. split; [cbn; lia|]. split; [exact Hp|]. split; [exact Hm|].
  split; [by apply hex8_num|]. split; [exact Hb|]. split; [|exact Hr].
  pose proof (le_value_range _ (from_hex_byte ns)) as H. rewrite length_from_hex, Ln in H by done. exact H.
Qed.

(** C2. A block the proxy finds enters the node's index.  On the main network, in
    every state the index can reach below the height limits: take a template on
    top of a known parent whose scripts are validated, with the bits and target
    the node requires there, and any nonce and time a miner sends for it such
    that the header fits its context.  Assume that the proxy's machine is keyed
    to the seed of the epoch the node verifies the header under and that the
    node has a machine for that epoch; that the header's RandomX hash is not
    null; and that the finished header is neither the genesis block nor in the
    index already.  Then the proxy decides that the share is a block exactly if
    the node accepts the header with that hash into its index. *)
Theorem found_block_accepted cnt tpl prev merkle time bits ns ts vm have_vm cm r b s now :
  reach cp cm -> room cp cm 0 ->
  template_of tpl prev merkle time bits ->
  get tpl (js "target") = Ok (VStr (arith_GetHex (c_target (SetCompact bits)))) ->
  IsNull prev = false -> re_hex 8 ns = true -> re_hex 8 ts = true ->
  find_hash prev (m_block_index cm) = Some r -> index (m_block_index cm) r = Some b ->
  nStatus cm !! r = Some s -> IsValid s BLOCK_VALID_SCRIPTS = true ->
  let hdr := proxy_header prev merkle (hex_value ts) bits (le_value (from_hex ns)) in
  let ep := verify_epoch hdr rcpu_main (i_nTime b) in
  let rx := rx_hash (GetSeedHash ep) (SerializeRandomXHeader hdr) in
  let block := with_hash hdr rx in
  keyed vm (GetSeedHash ep) -> have_vm ep = true -> IsNull rx = false ->
  GetHash block <> hashGenesisBlock cp -> find_hash (GetHash block) (m_block_index cm) = None ->
  context_ok cp (m_block_index cm) r b block now ->
  exists j h112 isValidShare isBlock cm' ppindex v,
    createRandomXJob cnt tpl = (cnt + 1, Ok j) /\
    buildHeader112 (blob j) (VStr ns) (VStr ts) = Ok (Some h112) /\
    evaluate_share (Some vm) j h112 = Ok (Evaluated (GetHex rx) isValidShare isBlock) /\
    AcceptBlockHeader have_vm true cp cm block true now = Some (cm', ppindex, v) /\
    (isBlock = true <-> v = Accepted).
Proof.
  intros Hreach Hroom Htpl Htg Hnull Hns Hts Er Eb Es Hvalid hdr ep rx block Hk Hvm Hrx Hgen Hnew Hctx.
  pose proof (reach_inv cp cm Hreach) as Hi. pose proof Htpl as [_ _ _ _ Op Om _ Ob]. pose proof Hctx as [Hbits _ _ _ _]. rewrite main_network in Hbits.
  pose proof main_params_ok as Hpar. pose proof main_asert as Has. rewrite <- main_network in Hpar, Has.
  destruct (work_total cp main_anchor Hpar Has cm Hi ltac:(destruct Hroom; lia) r b block Eb) as (bits' & Eb' & _ & Hrange & _).
  rewrite main_network in Eb', Hrange. rewrite Hbits in Eb'. injection Eb' as <-.
  destruct (proxy_decides cnt tpl prev merkle time bits ns ts vm _ Htpl Htg Hrange Hns Hts Hk) as (j & h112 & valid & H1 & H2 & H3).
  assert (header_ok block) as Hok by (by apply found_header_ok; [..|apply rx_hash_bytes| |]).
  destruct (accept_cases cp main_anchor Hpar ltac:(rewrite main_network; cbn; lia) Has have_vm cm block true now Hi Hroom Hok) as (cm' & pp & v & E & Hv & _).
  exists j, h112, valid. do 4 eexists. split; [exact H1|]. split; [exact H2|]. split; [exact H3|]. split; [exact E|]. rewrite Hv.
  pose proof (consensus_verdict have_vm hdr rcpu_main (i_nTime b) eq_refl Hnull Hrange Hrx Hvm) as Hc. fold ep rx block in Hc.
  assert (failed s = false) as Hf by (unfold IsValid in Hvalid; by destruct (failed s)).
  unfold admissible. rewrite bool_decide_false, Hnew by done. rewrite (acceptable_iff cp cm have_vm block now r b s Er Eb Es), main_network.
  rewrite (accepted_randomx rcpu_main have_vm b block eq_refl). unfold randomx_verdict. rewrite Hc. rewrite (inj_iff Some). tauto.
Qed.
End Found.

(** ** A concrete block *)

Definition f_genesis : CBlockHeader := Header 1 null256 null256 1788566400 0x1e3ffffc 0 null256.
Definition f_root : CBlockIndex := MkIndex None None 0 1 1788566400 0x1e3ffffc 1788566400 262144 0.
Definition f_chain : ChainParams := MkChain rcpu_main (GetHash f_genesis) 1 1 1 true [].
Definition f_state (status : Z) : ChainstateManager := Chainman [(GetHash f_genesis, f_root)] [status] (Some 0%nat) [] (lru_new 2).

Definition f_bits : Z := 507505788.
Definition f_time : jstr := js "6a9b5cac".
Definition f_template : val :=
  VObj [(js "previousblockhash", VStr (GetHex (GetHash f_genesis)));
        (js "curtime", VNum (num_of_Z 1788566700));
        (js "bits", VStr (hex_fixed 8 f_bits));
        (js "target", VStr (arith_GetHex (c_target (SetCompact f_bits))));
        (js "height", VNum (num_of_Z 1))].

Definition f_header : CBlockHeader := proxy_header (GetHash f_genesis) null256 (hex_value f_time) f_bits (le_value (from_hex (js "0000000a"))).
Definition f_block : CBlockHeader :=
  with_hash f_header (rx_hash (GetSeedHash (verify_epoch f_header rcpu_main (i_nTime f_root))) (SerializeRandomXHeader f_header)).

Lemma f_hashes : IsNull (GetHash f_genesis) = false /\ bool_decide (GetHash f_block = GetHash f_genesis) = false /\
  find_hash (GetHash f_block) (m_block_index (f_state BLOCK_VALID_SCRIPTS)) = None /\ IsNull (h_hashRandomX f_block) = false.
Proof. vm_compute. done. Qed.

Lemma f_genesis_ok : header_ok f_genesis.
Proof.
  assert (is_u256 null256) as H0 by apply null256_bytes.
  assert (is_u32 1788566400 /\ is_u32 0x1e3ffffc /\ is_u32 0) as (H1 & H2 & H3) by (unfold is_u32; lia).
  split; [cbn [nVersion f_genesis]; lia|]. exact (conj H0 (conj H0 (conj H1 (conj H2 (conj H3 H0))))).
Qed.

Lemma f_hash_ok : is_u256 (GetHash f_genesis).
Proof. split; [apply length_sha256|apply sha256_byte]. Qed.

#[local] Opaque GetHash.

Lemma f_reach : reach f_chain (f_state BLOCK_VALID_SCRIPTS).
Proof.
  apply (reach_other f_chain (f_state BLOCK_VALID_TREE) [BLOCK_VALID_SCRIPTS] (Some 0%nat) [] (lru_new 2)); [|done| |done|apply caches_new].
  2: by intros h [= <-].
  eapply (reach_genesis f_chain _ f_genesis _ 0%nat); [apply reach_start|exact f_genesis_ok|reflexivity|].
  unfold add_header, AddToBlockIndex. cbn [m_block_index m_best_header nStatus find_hash]. rewrite some_bind. reflexivity.
Qed.

Lemma f_template_of : template_of f_template (GetHash f_genesis) null256 1788566700 f_bits.
Proof.
  split; try reflexivity; [by right|exact f_hash_ok|apply null256_bytes|unfold is_u32; lia|unfold is_u32, f_bits; lia].
Qed.

Lemma f_context : context_ok f_chain (m_block_index (f_state BLOCK_VALID_SCRIPTS)) 0 f_root f_block 1788566700000000000.
Proof.
  assert (nTime f_block = 1788566700) as Ht by reflexivity.
  split; [reflexivity|intros _ c [=]| |rewrite Ht; unfold MAX_FUTURE_BLOCK_TIME; lia|cbn; lia].
  exists 1788566400. split; [reflexivity|]. rewrite Ht. lia.
Qed.

Lemma found_block_accepted_witness : exists isBlock cm' ppindex v,
  AcceptBlockHeader (fun _ => true) true f_chain (f_state BLOCK_VALID_SCRIPTS) f_block true 1788566700000000000 = Some (cm', ppindex, v) /\
  (isBlock = true <-> v = Accepted).
Proof.
  destruct f_hashes as (H1 & H2 & H3 & H4).
  destruct (found_block_accepted (L := toy_randomx) (R := toy_reference) f_chain eq_refl 0 f_template (GetHash f_genesis) null256 1788566700 f_bits
    (js "0000000a") f_time (GetSeedHash (verify_epoch f_header rcpu_main (i_nTime f_root))) (fun _ => true) (f_state BLOCK_VALID_SCRIPTS) 0 f_root BLOCK_VALID_SCRIPTS
    1788566700000000000 f_reach ltac:(split; unfold height_ok, MAX_EPOCH; cbn; lia) f_template_of eq_refl H1 eq_refl eq_refl) as (j & h & valid & isBlock & cm' & pp & v & _ & _ & _ & E & Hv).
  - cbn [find_hash f_state m_block_index]. rewrite bool_decide_true by reflexivity. reflexivity.
  - reflexivity.
  - reflexivity.
  - reflexivity.
  - exact (ex_keyed _).
  - reflexivity.
  - exact H4.
  - exact (bool_decide_eq_false_1 _ H2).
  - exact H3.
  - exact f_context.
  - exists isBlock, cm', pp, v. exact (conj E Hv).
Defined.
