(* ===== verification/ProxyMessages.v ===== *)
(** * Stratum proxy: outbound messages

    The response and notification builders of [contrib/admin/current_proxy.js].
    Every message is one JSON text and a newline.  The file shows that the
    receiver's line framing gives back exactly the messages that were sent. *)

From Stdlib Require Import ZArith Lia Bool String SpecFloat.
From stdpp Require Import base list numbers option.
From S2P Require Import Prelude JsNum Bytes JsStr JsValue ProxyCodec.

Open Scope Z_scope.

(** [JSON.stringify(o) + '\n'] of an object literal. *)
Definition json_line (fields : list (jstr * val)) : jstr :=
  default [] (stringify (VObj fields)) ++ [10].

Definition createXMRigLoginResponse (id : val) (extraNonce1 : jstr) (j : job) : jstr :=
  json_line
    [(js "id", id);
     (js "jsonrpc", VStr (js "2.0"));
     (js "result", VObj
       [(js "id", VStr []);
        (js "status", VStr (js "OK"));
        (js "job", VObj
          [(js "blob", VStr (blob j));
           (js "job_id", VStr (job_id j));
           (js "target", target j);
           (js "height", height j);
           (js "seed_hash", VStr (seed_hash j));
           (js "algo", VStr (js "rx/0"));
           (js "variant", VNum zero)]);
        (js "extra_nonce1", VStr extraNonce1);
        (js "extra_nonce2_size", VNum (num_of_Z 8))])].

Definition createXMRigSubmitResponse (id : val) (success : bool) : jstr :=
  json_line
    [(js "id", id);
     (js "jsonrpc", VStr (js "2.0"));
     (js "result", VObj [(js "status", VStr (if success then js "OK" else js "REJECTED"))])].

Definition createXMRigJobNotify (j : job) : jstr :=
  json_line
    [(js "id", VNull);
     (js "jsonrpc", VStr (js "2.0"));
     (js "method", VStr (js "job"));
     (js "params", VObj
       [(js "blob", VStr (blob j));
        (js "job_id", VStr (job_id j));
        (js "target", target j);
        (js "height", height j);
        (js "seed_hash", VStr (seed_hash j));
        (js "algo", VStr (js "rx/0"));
        (js "variant", VNum zero);
        (js "new_job", VBool true)])].

(** [subscriptionId] is the fresh [crypto.randomBytes(8)] in hexadecimal. *)
Definition createStratumSubscribeResponse (subscriptionId : jstr) (id : val) (extraNonce1 : jstr) : jstr :=
  json_line
    [(js "id", id);
     (js "result", VArr
       [VArr [VArr [VStr (js "mining.notify"); VStr subscriptionId];
              VArr [VStr (js "mining.set_difficulty"); VStr subscriptionId]];
        VStr extraNonce1;
        VNum (num_of_Z 8)]);
     (js "error", VNull)].

Definition createStratumAuthorizeResponse (id : val) (success : bool) : jstr :=
  json_line [(js "id", id); (js "result", VBool success); (js "error", VNull)].

Definition createStratumSubmitResponse (id : val) (success : bool) : jstr :=
  json_line
    [(js "id", id);
     (js "result", VBool success);
     (js "error", if success then VNull
                  else VObj [(js "code", VNum (num_of_Z 20)); (js "message", VStr (js "stratum reject"))])].

(** The subscription id argument is not used.  The time is coerced to a Number
    by [writeUInt32BE], which throws out of range. *)
Definition createStratumJobNotify (j : job) : res jstr :=
  x ← to_number (curtime j);
  ntime ← writeUInt32BE_num (replicate 4 0) x 0;
  let ntimeHex := to_hex ntime in
  let versionHex := js "00000020" in
  prev ← reverseHex (prevhash j);
  Ok (json_line
    [(js "id", VNull);
     (js "method", VStr (js "mining.notify"));
     (js "params", VArr
       [VStr (job_id j); VStr prev; VStr []; VStr []; VArr []; VStr versionHex; nbits j;
        VStr ntimeHex; VBool true])]).

(** The answer to [keepalived] and [ping] (line 664). *)
Definition createKeepaliveResponse (id : val) : jstr :=
  json_line [(js "id", id); (js "jsonrpc", VStr (js "2.0")); (js "result", VObj [])].

(** ** Printed text has no control characters *)

Abbreviation printable := (Forall (fun c => 32 <= c)).

Lemma dec_digits_printable fuel n acc : 0 <= n -> printable acc -> printable (dec_digits fuel n acc).
Proof.
  revert n acc; induction fuel as [|f IH]; intros n acc Hn Ha; cbn [dec_digits]; [done|].
  destruct (Z.ltb_spec n 10).
  - constructor; [unfold digit; lia|done].
  - apply IH; [apply Z.div_pos; lia|]. constructor; [|done].
    pose proof (Z.mod_pos_bound n 10 ltac:(lia)). unfold digit. lia.
Qed.

Lemma dec_string_printable n : 0 <= n -> printable (dec_string n).
Proof. intros. by apply dec_digits_printable. Qed.

Lemma scaled_pos m e q : 0 < m -> 0 < fst (scaled m e q) /\ 0 < snd (scaled m e q).
Proof.
  intros Hm. unfold scaled.
  assert (forall b k, 0 < b -> 0 <= k -> 0 < b ^ k) as Hp by (intros; by apply Z.pow_pos_nonneg).
  destruct (Z.leb_spec 0 e), (Z.leb_spec 0 q); cbn [fst snd]; split;
    repeat apply Z.mul_pos_pos; try lia; apply Hp; lia.
Qed.

Lemma shortest_nonneg fuel x m e n k : 0 < m -> 0 <= fst (shortest fuel x m e n k).
Proof.
  intros Hm. revert k; induction fuel as [|f IH]; intros k; cbn [shortest]; [cbn; lia|].
  pose proof (scaled_pos m e (k - n) Hm) as [Ha Hb]. destruct (scaled m e (k - n)) as [a b]. cbn [fst snd] in *.
  assert (0 <= a / b) by (apply Z.div_pos; lia).
  destruct (_ && _); [done|]. destruct (num_eq _ _); [cbn; lia|]. destruct (num_eq _ _); [done|apply IH].
Qed.

Lemma zeros_printable n : printable (zeros n).
Proof. unfold zeros. apply Forall_replicate. lia. Qed.

Lemma layout_printable ds k n : printable ds -> printable (layout ds k n).
Proof.
  intros H. pose proof (zeros_printable (n - k)). pose proof (zeros_printable (- n)).
  assert (forall c l, 32 <= c -> printable l -> printable (c :: l)) as Hc by (by constructor).
  assert (forall i, printable (take i ds)) by (intros; by apply Forall_take).
  assert (forall i, printable (drop i ds)) by (intros; by apply Forall_drop).
  assert (printable (dec_string (Z.abs (n - 1)))) by (apply dec_string_printable; lia).
  assert (32 <= (if n - 1 <? 0 then 45 else 43)) by (destruct (_ <? _); lia).
  unfold layout. repeat case_match; rewrite ?Forall_app; cbn [app]; auto 8 with lia.
Qed.

Lemma num_to_string_printable x : printable (num_to_string x).
Proof.
  destruct x as [s|s| |s m e]; cbn [num_to_string].
  - repeat constructor; lia.
  - destruct s; repeat constructor; lia.
  - repeat constructor; lia.
  - pose proof (shortest_nonneg 18 (S754_finite false m e) (Z.pos m) e (decimal_exponent 800 (Z.pos m) e 1) 1 eq_refl) as Hs.
    destruct (shortest _ _ _ _ _ _) as [d k]. rewrite Forall_app. split.
    + destruct s; repeat constructor; lia.
    + by apply layout_printable, dec_string_printable.
Qed.

Lemma hex_printable s : hex_str s -> printable s.
Proof. apply Forall_impl. intros c H. unfold is_hex in H. breflect; repeat (apply orb_true_iff in H as [H|H]); breflect; lia. Qed.

Lemma u_escape_printable c : printable (u_escape c).
Proof.
  unfold u_escape. rewrite Forall_app. split; [by repeat constructor|]. apply hex_printable, hex_fixed_hex.
Qed.

Lemma quote_unit_printable c : printable (quote_unit c).
Proof.
  unfold quote_unit. repeat case_match; try (by repeat constructor).
  - apply u_escape_printable.
  - breflect. by repeat constructor.
Qed.

Lemma quote_body_printable s : printable (quote_body s).
Proof.
  assert (forall n s, (length s <= n)%nat -> printable (quote_body s)) as H; [|by eapply H].
  induction n as [|n IH]; intros [|c r] Hl; cbn [quote_body length] in *; try lia; try constructor.
  pose proof (u_escape_printable c). pose proof (quote_unit_printable c). pose proof (IH r ltac:(lia)).
  destruct (high_surrogate c) eqn:Eh; [destruct r as [|d r'] eqn:Er; [done|destruct (low_surrogate d) eqn:El]|].
  - unfold high_surrogate, low_surrogate in *. breflect. repeat constructor; try lia.
    apply IH. cbn [length] in Hl. lia.
  - rewrite Forall_app. done.
  - destruct (low_surrogate c); rewrite Forall_app; done.
Qed.

Lemma quote_printable s : printable (quote s).
Proof. unfold quote. rewrite !Forall_app. repeat split; [by repeat constructor|apply quote_body_printable|by repeat constructor]. Qed.

Lemma sep_by_printable sep l : printable sep -> Forall printable l -> printable (sep_by sep l).
Proof.
  intros Hs. induction 1 as [|x l Hx Hl IH]; [constructor|]. cbn [sep_by].
  destruct l; [done|]. rewrite !Forall_app. done.
Qed.

Lemma stringify_printable v t : stringify v = Some t -> printable t.
Proof.
  revert t. induction v as [| |b|n|s|l IH|fs IH] using val_ind; cbn [stringify]; intros t E; try done; injection E as <-.
  - by repeat constructor.
  - destruct b; by repeat constructor.
  - case_match; try apply num_to_string_printable; by repeat constructor.
  - apply quote_printable.
  - constructor; [lia|]. rewrite Forall_app. split; [|by repeat constructor]. apply sep_by_printable; [by repeat constructor|].
    apply Forall_map. revert IH. apply Forall_impl. intros x Hx.
    destruct (stringify x) as [u|]; [by apply Hx|by repeat constructor].
  - constructor; [lia|]. rewrite Forall_app. split; [|by repeat constructor]. apply sep_by_printable; [by repeat constructor|].
    induction IH as [|[k x] fs Hx _ IHl]; [constructor|]. cbn [snd] in Hx.
    destruct (stringify x) as [u|]; [|done]. constructor; [|done].
    change (printable (quote k ++ [58] ++ u)). apply Forall_app; split; [|apply Forall_app; split]; [apply quote_printable|by repeat constructor|by apply Hx].
Qed.

(** ** Framing *)

Lemma split_nl_line b s : no_nl b -> split_nl (b ++ [10] ++ s) = (b :: fst (split_nl s), snd (split_nl s)).
Proof.
  induction 1 as [|c b Hc _ IH]; cbn [app split_nl] in *; [by destruct (split_nl s)|].
  rewrite IH. destruct (Z.eqb_spec c 10); [lia|done].
Qed.

Lemma split_nl_lines bs : Forall no_nl bs -> split_nl (mjoin (map (fun b => b ++ [10]) bs)) = (bs, []).
Proof.
  induction 1 as [|b bs Hb _ IH]; [done|]. cbn [map].
  change (mjoin _) with ((b ++ [10]) ++ mjoin (map (fun b => b ++ [10]) bs)).
  rewrite <- app_assoc, split_nl_line by done. by rewrite IH.
Qed.

Definition one_line (s : jstr) : Prop := exists b, s = b ++ [10] /\ no_nl b.

Lemma json_line_one fs : one_line (json_line fs).
Proof.
  unfold json_line. destruct (stringify (VObj fs)) as [t|] eqn:E; [|done].
  exists t. split; [done|]. apply stringify_printable in E. revert E. apply Forall_impl. lia.
Qed.

Lemma one_lines ms : Forall one_line ms -> exists bs, ms = map (fun b => b ++ [10]) bs /\ Forall no_nl bs.
Proof.
  induction 1 as [|m ms (b & -> & Hb) _ (bs & -> & Hbs)]; [by exists []|]. exists (b :: bs). by repeat constructor.
Qed.

(** What the proxy ever writes to a miner. *)
Inductive outbound : jstr -> Prop :=
  | OLogin id e j : outbound (createXMRigLoginResponse id e j)
  | OXSubmit id b : outbound (createXMRigSubmitResponse id b)
  | OXNotify j : outbound (createXMRigJobNotify j)
  | OKeepalive id : outbound (createKeepaliveResponse id)
  | OSubscribe r id e : outbound (createStratumSubscribeResponse r id e)
  | OAuthorize id b : outbound (createStratumAuthorizeResponse id b)
  | OSSubmit id b : outbound (createStratumSubmitResponse id b)
  | OSNotify j m : createStratumJobNotify j = Ok m -> outbound m.

Lemma outbound_one_line m : outbound m -> one_line m.
Proof.
  destruct 1 as [| | | | | | |j m E]; try apply json_line_one.
  unfold createStratumJobNotify in E. inv_ok. apply json_line_one.
Qed.

(** Whatever the miner put in [id] and the node in the template, the bytes
    the proxy writes split at newlines into exactly the messages it sent: no
    value can smuggle a line break into, or out of, a message. *)
Theorem messages_frame ms :
  Forall outbound ms ->
  exists bodies, ms = map (fun b => b ++ [10]) bodies /\ split_nl (mjoin ms) = (bodies, []).
Proof.
  intros H. destruct (one_lines ms) as (bs & -> & Hbs).
  - revert H. apply Forall_impl, outbound_one_line.
  - exists bs. split; [done|]. by apply split_nl_lines.
Qed.

Lemma messages_frame_witness :
  exists bodies,
    [createXMRigSubmitResponse (VStr [10; 34]) true; createKeepaliveResponse VNull] =
      map (fun b => b ++ [10]) bodies /\
    split_nl (mjoin [createXMRigSubmitResponse (VStr [10; 34]) true; createKeepaliveResponse VNull]) = (bodies, []).
Proof.
  apply messages_frame.
  apply List.Forall_cons; [apply OXSubmit|]. apply List.Forall_cons; [apply OKeepalive|apply List.Forall_nil].
Defined.
