(* ===== verification/NodeRpc.v ===== *)
(** * The node's side of the RPC

    What [getblocktemplate] puts in its result ([src/rpc/mining.cpp]), the
    JSON-RPC reply envelope ([src/rpc/request.cpp]) and the serialized block
    that [submitblock] reads ([src/primitives/block.h]).  The results are given
    as the values a JavaScript client reads back; integers become Numbers. *)

From Stdlib Require Import ZArith Lia Bool String SpecFloat.
From stdpp Require Import base list numbers option.
From S2P Require Import Prelude JsNum Bytes JsStr JsValue Sha256 Libs Consensus.

Open Scope Z_scope.

Definition MAX_BLOCK_SERIALIZED_SIZE : Z := 4000000.
Definition MAX_BLOCK_WEIGHT : Z := 4000000.
Definition MAX_BLOCK_SIGOPS_COST : Z := 80000.
Definition WITNESS_SCALE_FACTOR : Z := 4.
Definition RANDOMX_HASH_SIZE : Z := 32.
Definition RCPU_LEGACY_HEADER_SIZE : Z := 80.

Definition vint (n : Z) : val := VNum (num_of_Z n).

(** One entry of [transactions]; [e_data] is the serialized transaction. *)
Record tx_entry := TxEntry {
  e_data : bytes; e_txid : bytes; e_hash : bytes; e_depends : list Z;
  e_fee : Z; e_sigops : Z; e_weight : Z;
}.

Definition tx_entry_val (fPreSegWit : bool) (e : tx_entry) : val :=
  VObj [(js "data", VStr (to_hex (e_data e)));
        (js "txid", VStr (GetHex (e_txid e)));
        (js "hash", VStr (GetHex (e_hash e)));
        (js "depends", VArr (map vint (e_depends e)));
        (js "fee", vint (e_fee e));
        (js "sigops", vint (if fPreSegWit then e_sigops e / WITNESS_SCALE_FACTOR else e_sigops e));
        (js "weight", vint (e_weight e))].

(** The proof-of-work fields: none, Etchash, Qhash or RandomX. *)
Inductive algo_fields :=
  | NoRcpuFields
  | EtchashFields (epoch epoch_length : Z) (seed : bytes) (cache_size dataset_size rows : Z)
  | QhashFields
  | RandomXFields (epoch_duration prev_time : Z).

(** What the handler has computed when it fills in the result. *)
Record gbt := Gbt {
  g_rules : list val;
  g_version : Z;
  g_vbavailable : list (jstr * val);
  g_prev : bytes;
  g_txs : list tx_entry;
  g_coinbasevalue : Z;
  g_longpollid : jstr;
  g_mintime : Z;
  g_presegwit : bool;
  g_time : Z;
  g_bits : Z;
  g_height : Z;
  g_signet : option bytes;
  g_witness_commitment : bytes;
  g_algo : algo_fields;
}.

Definition hash_field_text (s : string) : val := VStr (js s).

Definition algo_kv (time bits : Z) (a : algo_fields) : list (jstr * val) :=
  let tgt := VStr (arith_GetHex (c_target (SetCompact bits))) in
  let hsize := vint (RCPU_LEGACY_HEADER_SIZE + RANDOMX_HASH_SIZE) in
  match a with
  | NoRcpuFields => []
  | EtchashFields ep len seed csize dsize rows =>
      [(js "algo", VStr (js "etchash"));
       (js "etchash_epoch", vint ep);
       (js "etchash_epoch_length", vint len);
       (js "etchash_seed_hash", VStr (to_hex seed));
       (js "etchash_cache_size", vint csize);
       (js "etchash_dataset_size", vint dsize);
       (js "etchash_dataset_rows", vint rows);
       (js "etchash_header_size", hsize);
       (js "etchash_hash_field", hash_field_text "hashRandomX at byte offset 80, 32 bytes; zero before hashing, fill with the etchash result (keccak256(seed64||digest)) before submission");
       (js "etchash_commitment_target", tgt);
       (js "etchash_pow_rule", VStr (js "etchash-ecip1099-light-v1"))]
  | QhashFields =>
      [(js "algo", VStr (js "qhash"));
       (js "qhash_header_size", hsize);
       (js "qhash_hash_field", hash_field_text "hashRandomX at byte offset 80, 32 bytes; zero before hashing, fill with the qhash output before submission");
       (js "qhash_commitment_target", tgt);
       (js "qhash_pow_rule", VStr (js "qhash-v1"))]
  | RandomXFields duration prev_time =>
      let nEpochTime := Z.min time ((prev_time + MAX_FUTURE_BLOCK_TIME) mod 2 ^ 32) in
      let nEpoch := GetEpoch nEpochTime duration in
      [(js "algo", VStr (js "randomx"));
       (js "rx_epoch_duration", vint duration);
       (js "rx_epoch", vint nEpoch);
       (js "rx_seed_hash", VStr (GetHex (GetSeedHash nEpoch)));
       (js "rx_header_size", hsize);
       (js "rx_hash_field", hash_field_text "hashRandomX at byte offset 80, 32 bytes; zero before hashing and commitment, fill with the RandomX hash before submission");
       (js "rx_commitment_target", tgt);
       (js "rx_pow_rule", VStr (js "randomx-v1"))]
  end.

Definition gbt_result (g : gbt) : val :=
  let scale n := if g_presegwit g then n / WITNESS_SCALE_FACTOR else n in
  VObj (
    [(js "capabilities", VArr [VStr (js "proposal")]);
     (js "version", vint (g_version g));
     (js "rules", VArr (g_rules g));
     (js "vbavailable", VObj (g_vbavailable g));
     (js "vbrequired", vint 0);
     (js "previousblockhash", VStr (GetHex (g_prev g)));
     (js "transactions", VArr (map (tx_entry_val (g_presegwit g)) (g_txs g)));
     (js "coinbaseaux", VObj []);
     (js "coinbasevalue", vint (g_coinbasevalue g));
     (js "longpollid", VStr (g_longpollid g));
     (js "target", VStr (arith_GetHex (c_target (SetCompact (g_bits g)))));
     (js "mintime", vint (g_mintime g));
     (js "mutable", VArr [VStr (js "time"); VStr (js "transactions"); VStr (js "prevblock")]);
     (js "noncerange", VStr (js "00000000ffffffff"));
     (js "sigoplimit", vint (scale MAX_BLOCK_SIGOPS_COST));
     (js "sizelimit", vint (scale MAX_BLOCK_SERIALIZED_SIZE))] ++
    (if g_presegwit g then [] else [(js "weightlimit", vint MAX_BLOCK_WEIGHT)]) ++
    [(js "curtime", vint (g_time g));
     (js "bits", VStr (hex_fixed 8 (g_bits g)));
     (js "height", vint (g_height g))] ++
    (match g_signet g with Some c => [(js "signet_challenge", VStr (to_hex c))] | None => [] end) ++
    (match g_witness_commitment g with
     | [] => []
     | c => [(js "default_witness_commitment", VStr (to_hex c))]
     end) ++
    algo_kv (g_time g) (g_bits g) (g_algo g)).

(** [JSONRPCReplyObj(result, error, id)]. *)
Definition JSONRPCReplyObj (result error id : val) : val :=
  VObj [(js "result", match error with VNull => result | _ => VNull end); (js "error", error); (js "id", id)].

(** [CBlock]: the header, the number of transactions, the transactions. *)
Definition SerializeBlock (h : CBlockHeader) (vtx : list bytes) : bytes :=
  SerializeHeader h ++ WriteCompactSize (Z.of_nat (length vtx)) ++ mjoin vtx.

(** ** Reading the result back *)

Lemma assoc_app k a b : assoc k (a ++ b) = if has_own k a then assoc k a else assoc k b.
Proof.
  induction a as [|[k' v] a IH]; [done|]. cbn [app assoc has_own]. by destruct (str_eqb k k').
Qed.

Lemma gbt_reads g :
  get (gbt_result g) (js "previousblockhash") = Ok (VStr (GetHex (g_prev g))) /\
  get (gbt_result g) (js "curtime") = Ok (vint (g_time g)) /\
  get (gbt_result g) (js "bits") = Ok (VStr (hex_fixed 8 (g_bits g))) /\
  get (gbt_result g) (js "target") = Ok (VStr (arith_GetHex (c_target (SetCompact (g_bits g))))) /\
  get (gbt_result g) (js "height") = Ok (vint (g_height g)).
Proof. unfold gbt_result. cbn [get]. by destruct (g_presegwit g). Qed.

(** The keys no branch of the handler pushes. *)
Lemma gbt_absent g k :
  k = js "coinbasetxn" \/ k = js "merkleroot" -> get (gbt_result g) k = Ok VUndef.
Proof.
  intros Hk. unfold gbt_result. cbn [get].
  destruct (g_presegwit g), (g_signet g), (g_witness_commitment g), (g_algo g), Hk as [-> | ->]; reflexivity.
Qed.
