(* ===== verification/ProxyRpc.v ===== *)
(** * Stratum proxy: the node's RPC

    The RPC client of [contrib/admin/current_proxy.js] ([makeRpcRequest],
    [getBlockTemplate], [submitBlockToNode]) against the node's results
    and replies of [NodeRpc].  A submitted block is the node's own serialization; a
    template of this node never leads to a submission, and an accepted
    submission is reported as rejected. *)

From Stdlib Require Import ZArith Lia Bool String SpecFloat.
From stdpp Require Import base list numbers option.
From S2P Require Import Prelude JsNum JsNumFacts Bytes JsStr JsValue Utf8 Sha256 Libs ProxyCodec Consensus ProxyCodecFacts ProxyConsensus NodeRpc.

Open Scope Z_scope.

(** ** Requests *)

Record http_request := HttpRequest {
  hostname : jstr;
  port : option Z;          (* [None] is NaN *)
  http_method : jstr;
  content_type : jstr;
  content_length : Z;
  authorization : jstr;
  body_bytes : bytes;
}.

Definition RPC_HOST : jstr := js "127.0.0.1".

(** The text of a request; [now] is [Date.now()]. *)
Definition rpc_data (now : Z) (method : jstr) (params : val) : jstr :=
  default [] (stringify (VObj
    [(js "id", VNum (num_of_Z now));
     (js "jsonrpc", VStr (js "2.0"));
     (js "method", VStr method);
     (js "params", params)])).

Definition rpc_request (RPC_USER RPC_PASSWORD : jstr) (RPC_PORT : option Z) (now : Z)
    (method : jstr) (params : val) : http_request :=
  let data := rpc_data now method params in
  let auth := base64 (utf8_encode (RPC_USER ++ [58] ++ RPC_PASSWORD)) in
  {| hostname := RPC_HOST; port := RPC_PORT; http_method := js "POST";
     content_type := js "application/json"; content_length := byteLength data;
     authorization := js "Basic " ++ auth; body_bytes := utf8_encode data |}.

(** ** Responses *)

(** [body += chunk]: each chunk is decoded by itself. *)
Definition rpc_body (chunks : list bytes) : jstr := mjoin (map utf8_decode chunks).

(** What the promise settles to: [Ok] resolves, [Throw RpcError] rejects.  Every
    exception of the [try] block, the one of [new Error(message)] included,
    ends in a rejection. *)
Definition rpc_settle (body : jstr) : res val :=
  match
    (parsed ← JSON_parse body;
     err ← get parsed (js "error");
     if truthy err then Ok None
     else result ← get parsed (js "result"); Ok (Some (or_else result parsed)))
  with
  | Ok (Some v) => Ok v
  | Ok None | Throw _ => Throw RpcError
  end.

(** How the exchange of one request ends, seen by the client: a response body
    in chunks, or a connection error. *)
Inductive exchange := Response (chunks : list bytes) | ConnectionError.

Definition makeRpcRequest (x : exchange) : res val :=
  match x with
  | Response chunks => rpc_settle (rpc_body chunks)
  | ConnectionError => Throw RpcError
  end.

(** [null] on any error. *)
Definition getBlockTemplate (x : exchange) : val :=
  match makeRpcRequest x with Ok response => response | Throw _ => VNull end.

Definition getBlockTemplate_params : val :=
  VArr [VObj [(js "rules", VArr [VStr (js "segwit")])]].

(** ** Submitting a block *)

(** [for (const tx of template.transactions) if (tx.data) push(tx.data)]. *)
Fixpoint tx_data (txs : list val) : res (list val) :=
  match txs with
  | [] => Ok []
  | tx :: r =>
      d ← get tx (js "data");
      l ← tx_data r;
      Ok (if truthy d then d :: l else l)
  end.

(** [txs && txs.length > 0], then the iteration; the items of a string have no
    [data]. *)
Definition template_txs (txs : val) : res (list val) :=
  if negb (truthy txs) then Ok [] else
  len ← get_length txs;
  n ← to_number len;
  if num_lt zero n then
    match txs with
    | VArr l => tx_data l
    | VStr _ => Ok []
    | _ => Throw TypeError
    end
  else Ok [].

Fixpoint concat_strings (l : list val) : res jstr :=
  match l with
  | [] => Ok []
  | x :: r => a ← to_string x; b ← concat_strings r; Ok (a ++ b)
  end.

(** [submitBlockToNode] up to the request: the block's hexadecimal text, or
    [None] where the function logs and returns. *)
Definition block_hex (j : job) (nonce ntime : val) (rxHash : jstr) : res (option jstr) :=
  let tpl := template j in
  header112 ← buildHeader112 (blob j) nonce ntime;
  match header112 with
  | None | Some [] => Ok None
  | Some header112 =>
      let header80 := substring header112 0 160 in
      cb ← get tpl (js "coinbasetxn");
      data ← (if truthy cb then get cb (js "data") else Ok VUndef);
      if negb (truthy data) then Ok None else
      txs ← get tpl (js "transactions");
      rest ← template_txs txs;
      let txDataList := data :: rest in
      match data with
      | VStr _ =>
          hashRandomXLE ← (match rxHash with [] => Ok zero32 | _ => reverseHex (VStr rxHash) end);
          let blockHeader := header80 ++ hashRandomXLE in
          txHex ← concat_strings txDataList;
          Ok (Some (blockHeader ++ compactSize (Z.of_nat (length txDataList)) ++ txHex))
      | _ => Throw TypeError      (* [data.substring] in the log line *)
      end
  end.

Inductive submit_outcome := BlockAccepted | BlockRejected | SubmitFailed.

(** The rest of [submitBlockToNode], on the settled request. *)
Definition submit_result (r : res val) : submit_outcome :=
  match r with
  | Ok result =>
      match to_string result with        (* the log line *)
      | Ok _ => match result with VNull | VBool true => BlockAccepted | _ => BlockRejected end
      | Throw _ => SubmitFailed
      end
  | Throw _ => SubmitFailed
  end.

(** ** Templates of the node *)

Lemma gbt_template_of g :
  is_u256 (g_prev g) -> is_u32 (g_time g) -> is_u32 (g_bits g) ->
  template_of (gbt_result g) (g_prev g) null256 (g_time g) (g_bits g).
Proof.
  intros Hp Ht Hb. destruct (gbt_reads g) as (R1 & R2 & R3 & _).
  split; try done; [|apply null256_bytes]. right. split; [|done]. apply gbt_absent. by right.
Qed.

Lemma template_of_job cnt tpl n j : createRandomXJob cnt tpl = (n, Ok j) -> template j = tpl.
Proof.
  unfold createRandomXJob. intros [= _ E].
  repeat (apply res_bind_ok in E; destruct E as (? & _ & E)). by injection E as <-.
Qed.

(** C40. With this node no found block is ever submitted: its templates carry no
    [coinbasetxn], so for every template, nonce, time and hash the proxy stops
    before the request. *)
Theorem node_template_never_submitted g cnt n j nonce ntime rxHash h :
  createRandomXJob cnt (gbt_result g) = (n, Ok j) ->
  block_hex j nonce ntime rxHash <> Ok (Some h).
Proof.
  intros Ej. apply template_of_job in Ej. unfold block_hex. rewrite Ej.
  rewrite (gbt_absent g (js "coinbasetxn")) by (by left).
  destruct (buildHeader112 (blob j) nonce ntime) as [[[|c r]|]|]; cbn; congruence.
Qed.

(** ** Templates with a coinbase *)

(** A template that also carries the coinbase and the transactions. *)
Record full_template (tpl : val) (coinbase : bytes) (txs : list bytes) : Prop := {
  f_coinbase : exists cb, get tpl (js "coinbasetxn") = Ok cb /\ truthy cb = true /\
                          get cb (js "data") = Ok (VStr (to_hex coinbase));
  f_txs : exists l, get tpl (js "transactions") = Ok (VArr l) /\
                    Forall2 (fun v t => get v (js "data") = Ok (VStr (to_hex t))) l txs;
  f_bytes : Forall (fun t => t <> [] /\ Forall is_byte t) (coinbase :: txs);
  f_few : (length txs < 252)%nat;
}.

Lemma to_hex_truthy t : t <> [] -> truthy (VStr (to_hex t)) = true.
Proof. by destruct t. Qed.

Lemma tx_data_all l txs :
  Forall2 (fun v t => get v (js "data") = Ok (VStr (to_hex t))) l txs -> Forall (fun t => t <> []) txs ->
  tx_data l = Ok (map (fun t => VStr (to_hex t)) txs).
Proof.
  induction 1 as [|v t l txs Hv _ IH]; intros Hne; [done|]. inversion Hne; subst. cbn [tx_data map].
  rewrite Hv, IH by done. cbn [mbind res_bind]. by rewrite to_hex_truthy.
Qed.

Lemma template_txs_arr l txs :
  Forall2 (fun v t => get v (js "data") = Ok (VStr (to_hex t))) l txs -> Forall (fun t => t <> []) txs ->
  (length txs < 252)%nat -> template_txs (VArr l) = Ok (map (fun t => VStr (to_hex t)) txs).
Proof.
  intros H Hne Hn. pose proof (tx_data_all l txs H Hne) as E. apply Forall2_length in H.
  unfold template_txs. cbn [truthy negb get_length mbind res_bind to_number].
  change zero with (num_of_Z 0). rewrite num_lt_of_Z by lia.
  destruct (Z.ltb_spec 0 (Z.of_nat (length l))); [done|].
  destruct l; cbn [length] in *; [|lia]. by destruct txs.
Qed.

Lemma concat_strings_hex ts : concat_strings (map (fun t => VStr (to_hex t)) ts) = Ok (to_hex (mjoin ts)).
Proof.
  induction ts as [|t ts IH]; [done|]. cbn [map concat_strings to_string mbind res_bind]. rewrite IH. cbn [mbind res_bind].
  change (mjoin (t :: ts)) with (t ++ mjoin ts). by rewrite to_hex_app.
Qed.

Lemma header80 prev merkle time bits nonce :
  is_u256 prev -> is_u256 merkle ->
  substring (to_hex (SerializeRandomXHeader (proxy_header prev merkle time bits nonce))) 0 160 =
  to_hex (prefix68 prev merkle ++ ser32 time ++ ser32 bits ++ ser32 nonce).
Proof.
  intros Hp Hm. rewrite Serialize_split, !app_assoc, to_hex_app, <- !app_assoc.
  rewrite substring_app_l, substring_all; [done| |];
    rewrite !to_hex_app, !length_app, length_prefix68 by done; unfold ser32; rewrite !length_to_hex, !length_le_bytes; lia.
Qed.

Lemma mjoin_bytes (ts : list bytes) : Forall (Forall is_byte) ts -> Forall is_byte (mjoin ts).
Proof. induction 1; [constructor|]. by apply Forall_app. Qed.

Lemma block_hex_serializes j prev merkle time bits ns ts rx coinbase txs :
  is_u256 prev -> is_u256 merkle -> is_u256 rx ->
  blob j = to_hex (SerializeRandomXHeader (proxy_header prev merkle time bits 0)) ->
  full_template (template j) coinbase txs -> re_hex 8 ns = true -> re_hex 8 ts = true ->
  block_hex j (VStr ns) (VStr ts) (GetHex rx) =
  Ok (Some (to_hex (SerializeBlock
    (with_hash (proxy_header prev merkle (hex_value ts) bits (le_value (from_hex ns))) rx) (coinbase :: txs)))).
Proof.
  intros Hp Hm Hr Hb [(cb & C1 & C2 & C3) (l & T1 & T2) Fb Ff] Hns Hts. unfold block_hex.
  rewrite Hb, buildHeader112_serializes by done. cbn [mbind res_bind].
  pose proof (header80 prev merkle (hex_value ts) bits (le_value (from_hex ns)) Hp Hm) as E80.
  destruct (to_hex (SerializeRandomXHeader _)) as [|c r] eqn:Eh in E80 |- *; [discriminate E80|]. rewrite E80, C1. cbn [mbind res_bind].
  rewrite C2, C3. cbn [mbind res_bind]. inversion Fb as [|? ? [Hcb _] Ftx]; subst.
  rewrite to_hex_truthy, T1 by done. cbn [negb mbind res_bind].
  rewrite (template_txs_arr l txs) by (done || (revert Ftx; apply Forall_impl; by intros ? [])). cbn [mbind res_bind].
  pose proof (GetHex_ne rx Hr) as Hne. destruct (GetHex rx) as [|x y] eqn:Ex; [done|]. rewrite <- Ex.
  rewrite reverseHex_GetHex by done. cbn [mbind res_bind].
  change (VStr (to_hex coinbase) :: map (fun t => VStr (to_hex t)) txs) with (map (fun t => VStr (to_hex t)) (coinbase :: txs)).
  rewrite concat_strings_hex, length_map. cbn [mbind res_bind]. do 2 f_equal.
  rewrite compactSize_bytes by (cbn [length]; lia). unfold SerializeBlock, WriteCompactSize.
  rewrite (proj2 (Z.ltb_lt _ 253)) by (cbn [length]; lia).
  unfold SerializeHeader, with_hash, prefix68, proxy_header.
  cbn [nVersion hashPrevBlock hashMerkleRoot nTime nBits nNonce h_hashRandomX]. by rewrite !to_hex_app, <- !app_assoc.
Qed.

(** C38. A block built from a template that carries its coinbase and fewer than
    252 further transactions is, byte for byte, the node's serialization of the
    mined header (with the RandomX hash in its place) and those transactions. *)
Theorem submitted_block_is_node_block cnt tpl prev merkle time bits t ns ts rx coinbase txs :
  template_of tpl prev merkle time bits ->
  get tpl (js "target") = Ok (VStr (arith_GetHex t)) -> 0 < t < 2 ^ 256 ->
  full_template tpl coinbase txs -> is_u256 rx -> re_hex 8 ns = true -> re_hex 8 ts = true ->
  exists j h,
    createRandomXJob cnt tpl = (cnt + 1, Ok j) /\
    block_hex j (VStr ns) (VStr ts) (GetHex rx) = Ok (Some h) /\
    h = to_hex (SerializeBlock
      (with_hash (proxy_header prev merkle (hex_value ts) bits (le_value (from_hex ns))) rx) (coinbase :: txs)).
Proof.
  intros Htpl Htg Ht Hf Hr Hns Hts. pose proof Htpl as [_ _ _ _ Op Om _ _].
  destruct (createRandomXJob_ok cnt tpl prev merkle time bits _ Htpl Htg Ht) as (ht & _ & Ej).
  do 2 eexists. split; [exact Ej|]. split; [|done]. by apply block_hex_serializes with (time := time).
Qed.

(** ** Replies *)

Lemma rpc_settle_reply body result error id :
  JSON_parse body = Ok (JSONRPCReplyObj result error id) ->
  rpc_settle body = if truthy error then Throw RpcError
                    else Ok (or_else (match error with VNull => result | _ => VNull end)
                                     (JSONRPCReplyObj result error id)).
Proof.
  intros E. unfold rpc_settle. rewrite E. cbn [mbind res_bind]. unfold JSONRPCReplyObj at 1.
  change (get _ (js "error")) with (Ok error). cbn [mbind res_bind]. by destruct (truthy error).
Qed.

(** The chunks are the UTF-8 bytes of a text, cut between characters. *)
Definition carries (chunks : list bytes) (text : jstr) : Prop :=
  exists pieces, chunks = map utf8_encode pieces /\ text = mjoin pieces /\
    Forall (fun p => utf16_str p /\ well_formed p = true) pieces.

Lemma rpc_body_carries chunks text : carries chunks text -> rpc_body chunks = text.
Proof.
  intros (ps & -> & -> & H). unfold rpc_body. induction H as [|p ps [Hu Hw] _ IH]; [done|].
  change (utf8_decode (utf8_encode p) ++ mjoin (map utf8_decode (map utf8_encode ps)) = p ++ mjoin ps).
  by rewrite utf8_decode_encode, IH.
Qed.

Lemma ascii_piece p : ascii_str p -> utf8_encode p = p /\ utf16_str p /\ well_formed p = true.
Proof.
  induction 1 as [|c p Hc _ (E & Hu & Hw)]; [done|]. cbn [utf8_encode well_formed].
  assert (high_surrogate c = false /\ low_surrogate c = false) as [-> ->] by (unfold high_surrogate, low_surrogate; lia).
  split; [|split; [constructor; [lia|done]|done]]. unfold utf8_cp. destruct (Z.ltb_spec c 128); [|lia]. cbn [app]. by rewrite E.
Qed.

Lemma ascii_carries chunks : ascii_str (mjoin chunks) -> carries chunks (mjoin chunks).
Proof.
  intros Ha. assert (Forall (fun p => ascii_str p) chunks) as H.
  { induction chunks as [|p ps IH]; [constructor|]. cbn [mjoin list_join] in Ha. apply Forall_app in Ha as [H1 H2]. constructor; auto. }
  exists chunks. split; [|split; [done|]].
  - clear Ha. induction H as [|p ps Hp _ IH]; [done|]. cbn [map]. by rewrite (proj1 (ascii_piece p Hp)), <- IH.
  - revert H. apply Forall_impl. intros p Hp. apply (ascii_piece p Hp).
Qed.

(** C39. [getBlockTemplate] returns the template of a successful reply, and [null]
    for an error reply, a reply that is not JSON and a failed connection, however
    the UTF-8 bytes of the reply's text are cut into chunks between characters;
    for an ASCII reply that is everywhere. *)
Theorem getBlockTemplate_spec :
  (forall chunks text result id, carries chunks text ->
     JSON_parse text = Ok (JSONRPCReplyObj result VNull id) -> truthy result = true ->
     getBlockTemplate (Response chunks) = result) /\
  (forall chunks text error id, carries chunks text ->
     JSON_parse text = Ok (JSONRPCReplyObj VNull error id) -> truthy error = true ->
     getBlockTemplate (Response chunks) = VNull) /\
  (forall chunks text e, carries chunks text -> JSON_parse text = Throw e -> getBlockTemplate (Response chunks) = VNull) /\
  (forall chunks, ascii_str (mjoin chunks) -> carries chunks (mjoin chunks)) /\
  getBlockTemplate ConnectionError = VNull.
Proof.
  unfold getBlockTemplate, makeRpcRequest. split_and!; [| | |apply ascii_carries|done].
  - intros chunks text result id Hc%rpc_body_carries E Ht. rewrite Hc, (rpc_settle_reply _ _ _ _ E). cbn [truthy]. unfold or_else. by rewrite Ht.
  - intros chunks text error id Hc%rpc_body_carries E Ht. rewrite Hc, (rpc_settle_reply _ _ _ _ E). by rewrite Ht.
  - intros chunks text e Hc%rpc_body_carries E. rewrite Hc. unfold rpc_settle. by rewrite E.
Qed.

(** The node answers an accepted [submitblock] with a [null] result, and the
    proxy then reports the block as rejected: the client resolves
    [result || parsed] to the whole reply object, which is neither [null] nor
    [true]. *)
Theorem accepted_block_reported_rejected chunks id :
  JSON_parse (rpc_body chunks) = Ok (JSONRPCReplyObj VNull VNull id) ->
  submit_result (makeRpcRequest (Response chunks)) = BlockRejected.
Proof. intros E. unfold makeRpcRequest. by rewrite (rpc_settle_reply _ _ _ _ E). Qed.

(** What goes on the wire: the declared content length is the number of body
    bytes, the receiver decodes the body to the request text, and the
    authorization header decodes to the configured user and password. *)
Theorem rpc_request_wire user pass port now method params :
  let data := rpc_data now method params in
  utf16_str data -> well_formed data = true ->
  utf16_str (user ++ [58] ++ pass) -> well_formed (user ++ [58] ++ pass) = true ->
  let r := rpc_request user pass port now method params in
  content_length r = Z.of_nat (length (body_bytes r)) /\
  utf8_decode (body_bytes r) = data /\
  utf8_decode (base64_decode (drop 6 (authorization r))) = user ++ [58] ++ pass.
Proof.
  intros data Hd Wd Hu Wu r. unfold r, rpc_request. cbn [content_length body_bytes authorization]. fold data.
  split; [by apply byteLength_encode|]. split; [by apply utf8_decode_encode|].
  change (drop 6 (js "Basic " ++ ?x)) with x. rewrite base64_roundtrip by (by apply utf8_encode_byte). by apply utf8_decode_encode.
Qed.

(** ** Concrete replies and templates *)

Definition ex_tx_template : val :=
  VObj [(js "previousblockhash", VStr (GetHex ex_prev));
        (js "curtime", VNum (num_of_Z ex_time));
        (js "bits", VStr (hex_fixed 8 ex_bits));
        (js "target", VStr (arith_GetHex ex_target));
        (js "coinbasetxn", VObj [(js "data", VStr (to_hex [1; 2; 3]))]);
        (js "transactions", VArr [VObj [(js "data", VStr (to_hex [4; 5]))]])].

Lemma ex_tx_template_of : template_of ex_tx_template ex_prev null256 ex_time ex_bits.
Proof.
  split; try reflexivity.
  - by right.
  - apply le_bytes_u256.
  - apply null256_bytes.
  - done.
  - done.
Qed.

Lemma ex_tx_full : full_template ex_tx_template [1; 2; 3] [[4; 5]].
Proof.
  split.
  - by eexists.
  - eexists. split; [reflexivity|]. by repeat constructor.
  - repeat constructor; unfold is_byte; lia || done.
  - cbn. lia.
Qed.

Lemma submitted_block_is_node_block_witness :
  exists j h,
    createRandomXJob 0 ex_tx_template = (1, Ok j) /\
    block_hex j (VStr (js "0000000a")) (VStr (js "6553f100")) (GetHex (le_bytes 32 99)) = Ok (Some h) /\
    h = to_hex (SerializeBlock (with_hash (proxy_header ex_prev null256 (hex_value (js "6553f100")) ex_bits
      (le_value (from_hex (js "0000000a")))) (le_bytes 32 99)) [[1; 2; 3]; [4; 5]]).
Proof.
  exact (submitted_block_is_node_block 0 ex_tx_template ex_prev null256 ex_time ex_bits ex_target
    (js "0000000a") (js "6553f100") (le_bytes 32 99) [1; 2; 3] [[4; 5]] ex_tx_template_of eq_refl
    (conj eq_refl eq_refl) ex_tx_full (le_bytes_u256 99) eq_refl eq_refl).
Defined.

Definition ex_gbt : gbt :=
  {| g_rules := []; g_version := 0x20000000; g_vbavailable := []; g_prev := ex_prev; g_txs := [];
     g_coinbasevalue := 5000000000; g_longpollid := []; g_mintime := 1; g_presegwit := false;
     g_time := ex_time; g_bits := ex_bits; g_height := 7; g_signet := None;
     g_witness_commitment := [1]; g_algo := RandomXFields 604800 ex_time |}.

Lemma node_template_never_submitted_witness :
  exists j, createRandomXJob 0 (gbt_result ex_gbt) = (1, Ok j) /\
    forall h, block_hex j (VStr (js "0000000a")) (VStr (js "6553f100")) (GetHex ex_prev) <> Ok (Some h).
Proof.
  destruct (createRandomXJob_ok 0 (gbt_result ex_gbt) ex_prev null256 ex_time ex_bits ex_target) as (ht & _ & E).
  - apply (gbt_template_of ex_gbt); [apply le_bytes_u256|done|done].
  - reflexivity.
  - done.
  - eexists. split; [exact E|]. intros h. exact (node_template_never_submitted ex_gbt 0 1 _ _ _ _ h E).
Defined.

(** Replies as the node writes them, in two chunks. *)
Definition ex_reply : list bytes := [js "{'result':null,'er"; js "ror':null,'id':17}"].
Definition dquotes : list bytes -> list bytes := map (map (fun c => if c =? 39 then 34 else c)).

Lemma accepted_block_reported_rejected_witness :
  submit_result (makeRpcRequest (Response (dquotes ex_reply))) = BlockRejected.
Proof. apply (accepted_block_reported_rejected _ (VNum (num_of_Z 17))). vm_compute. reflexivity. Defined.

Lemma getBlockTemplate_spec_witness :
  getBlockTemplate (Response (dquotes [js "{'result':{'height':5},'error':"; js "null,'id':17}"])) =
    VObj [(js "height", VNum (num_of_Z 5))] /\
  getBlockTemplate (Response (dquotes [js "{'result':null,'error':{'code':-10},'id':17}"])) = VNull /\
  getBlockTemplate (Response [js "<html>"]) = VNull.
Proof.
  destruct getBlockTemplate_spec as (S1 & S2 & S3 & S4 & _). split; [|split].
  - eapply S1 with (id := VNum (num_of_Z 17)); [apply S4; vm_compute; repeat constructor; discriminate|vm_compute; reflexivity..].
  - eapply S2 with (error := VObj [(js "code", VNum (num_of_Z (-10)))]) (id := VNum (num_of_Z 17));
      [apply S4; vm_compute; repeat constructor; discriminate|vm_compute; reflexivity..].
  - eapply S3 with (e := SyntaxError); [apply S4; vm_compute; repeat constructor; discriminate|vm_compute; reflexivity].
Defined.

(** A chunk boundary inside a character corrupts the reply: each half is decoded
    by itself.  The reply is the same bytes, in one chunk and cut after the first
    of the two bytes of an accented letter. *)
Definition accented : bytes := mjoin (dquotes [js "{'result':{'x':'"; [195; 169]; js "'},'error':null,'id':17}"]).

Theorem split_character_corrupts :
  getBlockTemplate (Response [accented]) = VObj [(js "x", VStr [233])] /\
  getBlockTemplate (Response [take 17 accented; drop 17 accented]) = VObj [(js "x", VStr [65533; 65533])].
Proof. split; vm_compute; reflexivity. Qed.

Lemma rpc_request_wire_witness :
  let r := rpc_request (js "rpc") (js "secret") (Some 7337) 1700000000000 (js "getblocktemplate") getBlockTemplate_params in
  content_length r = Z.of_nat (length (body_bytes r)) /\
  utf8_decode (body_bytes r) = rpc_data 1700000000000 (js "getblocktemplate") getBlockTemplate_params /\
  utf8_decode (base64_decode (drop 6 (authorization r))) = js "rpc:secret".
Proof.
  apply (rpc_request_wire (js "rpc") (js "secret") (Some 7337) 1700000000000 (js "getblocktemplate") getBlockTemplate_params).
  - apply utf16_check. vm_compute. reflexivity.
  - vm_compute. reflexivity.
  - apply utf16_check. vm_compute. reflexivity.
  - vm_compute. reflexivity.
Defined.
