(* ===== verification/JsonFacts.v ===== *)
(** * JSON text reads back

    [JSON.parse] undoes [JSON.stringify] on the values the program sends:
    strings of code units, integers below [10^15], booleans, [null], arrays, and
    objects with distinct keys that are not array indices. *)

From Stdlib Require Import ZArith Lia Bool SpecFloat String.
From stdpp Require Import base list numbers option.
From S2P Require Import Prelude JsNum JsNumFacts Bytes JsStr JsValue JsDecimal Utf8.

Open Scope Z_scope.

(** ** Strings *)

Lemma json_string_u c rest :
  0 <= c < 65536 -> json_string (u_escape c ++ rest) = ('(u, q) ← json_string rest; Some (c :: u, q)).
Proof.
  intros Hc. assert (exists a b d e, hex_fixed 4 c = [a; b; d; e]) as (a & b & d & e & E).
  { pose proof (length_hex_fixed 4 c) as Hl. destruct (hex_fixed 4 c) as [|a [|b [|d [|e [|]]]]]; try done. by exists a, b, d, e. }
  pose proof (hex_fixed_hex 4 c) as Hh. assert (hex_value (hex_fixed 4 c) = c) as Hv.
  { rewrite (hex_fixed_be_bytes 2), hex_value_to_hex, be_value_bytes by (done || auto with js). done. }
  unfold u_escape. rewrite E in *. cbn [app json_string Z.eqb Z.ltb Z.compare Pos.compare Pos.compare_cont Pos.eqb].
  rewrite (proj2 (forallb_forall is_hex [a; b; d; e])) by (by apply List.Forall_forall). by rewrite Hv.
Qed.

Lemma json_string_unit c rest :
  0 <= c < 65536 -> json_string (quote_unit c ++ rest) = ('(u, q) ← json_string rest; Some (c :: u, q)).
Proof.
  intros Hc. unfold quote_unit.
  repeat match goal with |- context [if c =? ?k then _ else _] => destruct (Z.eqb_spec c k) as [->|]; [reflexivity|] end.
  destruct (Z.ltb_spec c 32); [by apply json_string_u|]. cbn [app json_string].
  by rewrite (proj2 (Z.eqb_neq c 34)), (proj2 (Z.ltb_ge c 32)), (proj2 (Z.eqb_neq c 92)) by lia.
Qed.

Lemma json_string_quote s rest : utf16_str s -> json_string (quote_body s ++ [34] ++ rest) = Some (s, rest).
Proof.
  intros Hs. revert Hs. induction s as [s IH] using shorter_ind. intros Hs. destruct s as [|c r]; [done|].
  inversion Hs as [|? ? Hc Hr]; subst. cbn [quote_body].
  assert (forall t, json_string (t ++ quote_body r ++ [34] ++ rest) = ('(u, q) ← json_string (quote_body r ++ [34] ++ rest); Some (c :: u, q)) ->
          json_string ((t ++ quote_body r) ++ [34] ++ rest) = Some (c :: r, rest)) as Hgo.
  { intros t E. rewrite <- app_assoc, E, IH; [done|cbn; lia|done]. }
  assert (forall x, 55296 <= x -> forall t, json_string (x :: t) = ('(u, q) ← json_string t; Some (x :: u, q))) as Hbig.
  { intros x Hx t. cbn [json_string]. by rewrite (proj2 (Z.eqb_neq x 34)), (proj2 (Z.ltb_ge x 32)), (proj2 (Z.eqb_neq x 92)) by lia. }
  destruct (high_surrogate c) eqn:Eh; [|destruct (low_surrogate c); apply Hgo; [by apply json_string_u|by apply json_string_unit]].
  destruct r as [|d r'].
  - pose proof (json_string_u c ([34] ++ rest) Hc) as E. cbn [quote_body app] in *. by rewrite E.
  - destruct (low_surrogate d) eqn:El; [|apply Hgo; by apply json_string_u].
    unfold high_surrogate, low_surrogate in *. breflect. cbn [app]. rewrite !Hbig by lia.
    inversion Hr; subst. change (34 :: rest) with ([34] ++ rest). rewrite IH; [done|cbn; lia|done].
Qed.

(** ** Numbers *)

(** What may follow a value: the end, white space, a comma or a closing bracket. *)
Definition delimited (rest : jstr) : Prop :=
  match rest with [] => True | c :: _ => List.In c [9; 10; 13; 32; 44; 93; 125] end.

Ltac delimiter H := destruct H as [<-|[<-|[<-|[<-|[<-|[<-|[<-|[] ] ] ] ] ] ] ].

Lemma span_digits_all ds rest :
  Forall (fun c => is_digit c = true) ds -> delimited rest -> span_digits (ds ++ rest) = (ds, rest).
Proof.
  intros Hd Hr. induction Hd as [|c ds Hc _ IH]; cbn [app span_digits].
  - destruct rest as [|c rest]; [done|]. cbn in Hr. by delimiter Hr.
  - by rewrite Hc, IH.
Qed.

Lemma dec_string_head n : 10 <= n -> forall c, dec_string n !! 0%nat = Some c -> c <> 48.
Proof.
  intros Hn. assert (forall k n, (Z.to_nat n < k)%nat -> 1 <= n -> forall c, dec_string n !! 0%nat = Some c -> c <> 48) as H.
  { induction k as [|k IH]; intros m Hk Hm c; [lia|]. destruct (Z.lt_ge_cases m 10).
    - rewrite dec_string_small by lia. intros [= <-]. unfold digit. lia.
    - rewrite dec_string_step by lia. assert (1 <= m / 10) by (apply Z.div_le_lower_bound; lia).
      assert (m / 10 < m) by (apply Z.div_lt; lia). pose proof (dec_string_ne (m / 10) ltac:(lia)) as Hne.
      destruct (dec_string (m / 10)) as [|x xs] eqn:E; [done|]. cbn. intros [= <-].
      apply (IH (m / 10)); [lia|lia|]. by rewrite E. }
  apply (H (S (Z.to_nat n))); lia.
Qed.

Lemma num_of_dec_int n : 0 <= n < 10 ^ 15 -> num_of_dec n 0 = num_of_Z n.
Proof.
  intros Hn. unfold num_of_dec. destruct (Z.eqb_spec n 0) as [->|]; [done|]. pose proof (Z.log2_nonneg n).
  rewrite (proj2 (Z.ltb_ge 400 _)), (proj2 (Z.ltb_ge _ _)) by lia. cbn [Z.leb Z.compare]. by rewrite Z.mul_1_r.
Qed.

Lemma json_number_int n rest :
  0 <= n < 10 ^ 15 -> delimited rest -> json_number (dec_string n ++ rest) = Some (VNum (num_of_Z n), rest).
Proof.
  intros Hn Hr. pose proof (dec_string_digits n ltac:(lia)) as Hd. pose proof (dec_string_ne n ltac:(lia)) as Hne.
  pose proof (span_digits_all _ rest Hd Hr) as Hsp. pose proof (dec_string_value n ltac:(lia)) as Hv.
  assert ((1 <? Z.of_nat (length (dec_string n))) && (default 0 (dec_string n !! 0%nat) =? 48) = false) as Hz.
  { destruct (Z.lt_ge_cases n 10); [by rewrite dec_string_small by lia|]. apply andb_false_iff. right. apply Z.eqb_neq.
    pose proof (dec_string_head n ltac:(lia)) as Hh. destruct (dec_string n) as [|c ds]; [done|]. by apply Hh. }
  unfold json_number. destruct (dec_string n) as [|c ds] eqn:E; [done|].
  assert (c <> 45) as Hc by (pose proof (List.Forall_inv Hd) as Hc; intros ->; done).
  replace (match (c :: ds) ++ rest with 45 :: r => (true, r) | _ => (false, (c :: ds) ++ rest) end)
    with (false, (c :: ds) ++ rest) by (cbn [app]; repeat case_match; congruence).
  rewrite Hsp, Hz. assert (match rest with 46 :: t => match span_digits t with ([], _) => None | p => Some p end | _ => Some ([], rest) end
    = Some ([], rest)) as -> by (destruct rest as [|x r]; [done|]; cbn in Hr; by delimiter Hr).
  cbn [mbind option_bind]. assert (exponent_part rest = Some (0, rest)) as ->
    by (destruct rest as [|x r]; [done|]; cbn in Hr; by delimiter Hr).
  cbn [mbind option_bind length]. rewrite app_nil_r, Hv. change (0 - Z.of_nat 0) with 0. by rewrite num_of_dec_int.
Qed.

(** ** Values *)

(** The first character of a value's text. *)
Definition starter (t : jstr) : Prop :=
  match t with [] => False | c :: _ => json_ws c = false /\ c <> 93 /\ c <> 125 /\ c <> 44 end.

(** [t] is read as [v], whatever delimiter follows. *)
Definition reads (t : jstr) (v : val) : Prop :=
  starter t /\ forall fuel rest, (2 * length t + 1 <= fuel)%nat -> delimited rest ->
    json_value fuel (t ++ rest) = Some (v, rest).

Lemma skip_ws_starter t rest : starter t -> skip_ws (t ++ rest) = t ++ rest.
Proof. destruct t as [|c t]; [done|]. intros [H _]. cbn. by rewrite H. Qed.

Lemma reads_quote s : utf16_str s -> reads (quote s) (VStr s).
Proof.
  intros Hs. split; [done|]. intros [|f] rest Hf _; [lia|]. unfold quote. rewrite <- !app_assoc.
  cbn [app json_value skip_ws json_ws Z.eqb Pos.eqb orb]. change (34 :: rest) with ([34] ++ rest). by rewrite json_string_quote.
Qed.

Lemma reads_num n : 0 <= n < 10 ^ 15 -> reads (dec_string n) (VNum (num_of_Z n)).
Proof.
  intros Hn. pose proof (json_number_int n) as Hj. pose proof (dec_string_ne n ltac:(lia)) as Hne.
  pose proof (dec_string_digits n ltac:(lia)) as Hd.
  destruct (dec_string n) as [|c ds]; [done|]. pose proof (List.Forall_inv Hd) as Hc. unfold is_digit in Hc. breflect.
  split; [unfold starter, json_ws; zbool; lia|].
  intros [|f] rest Hf Hr; [lia|]. cbn [app json_value skip_ws].
  assert (json_ws c = false) as -> by (unfold json_ws; zbool; done).
  rewrite (proj2 (Z.eqb_neq c 123)), (proj2 (Z.eqb_neq c 91)), (proj2 (Z.eqb_neq c 34)), (proj2 (Z.eqb_neq c 116)),
    (proj2 (Z.eqb_neq c 102)), (proj2 (Z.eqb_neq c 110)) by lia. by apply Hj.
Qed.

(** White space between the tokens changes nothing. *)
Abbreviation ws p := (Forall (fun c => json_ws c = true) p).

Lemma skip_ws_app p s : ws p -> skip_ws (p ++ s) = skip_ws s.
Proof. induction 1 as [|c p Hc _ IH]; [done|]. cbn [app skip_ws]. by rewrite Hc. Qed.

Lemma json_value_ws p fuel s : ws p -> json_value fuel (p ++ s) = json_value fuel s.
Proof. intros Hp. destruct fuel; [done|]. cbn [json_value]. by rewrite skip_ws_app. Qed.

Lemma expect_ws c p s : ws p -> expect c (p ++ s) = expect c s.
Proof. intros Hp. unfold expect. by rewrite skip_ws_app. Qed.

Lemma delimited_ws p s : ws p -> delimited s -> delimited (p ++ s).
Proof.
  intros [|c p' Hc _] Hs; [done|]. cbn. unfold json_ws in Hc. rewrite !orb_true_iff, !Z.eqb_eq in Hc. intuition auto.
Qed.

Lemma obj_set_new k v acc :
  array_index k = None -> k ∉ map fst acc -> obj_set k v acc = acc ++ [(k, v)].
Proof.
  intros Hk Hn. unfold obj_set. assert (has_own k acc = false) as ->.
  { induction acc as [|[k' v'] acc IH]; [done|]. cbn in *. apply not_elem_of_cons in Hn as [H1 H2]. rewrite IH by done.
    unfold str_eqb. by rewrite bool_decide_eq_false_2. }
  clear Hn. induction acc as [|[k' v'] acc IH]; [done|]. cbn [obj_insert app]. by rewrite Hk, IH.
Qed.

Definition field_val (f : jstr * (jstr * val)) : jstr * val := (fst f, snd (snd f)).

Definition key_ok (k : jstr) : Prop := utf16_str k /\ array_index k = None.

(** The texts of arrays and objects, with white space [open] after the opening
    bracket, [next] after a comma, [inner] before an item, [colon] after a colon
    and [close] before the closing bracket. *)
Section Layout.
Variables open next inner colon close : jstr.
Hypothesis open_ws : ws open.
Hypothesis next_ws : ws next.
Hypothesis inner_ws : ws inner.
Hypothesis colon_ws : ws colon.
Hypothesis close_ws : ws close.

Abbreviation comma := (44 :: next).

Definition item_text (p : jstr * val) : jstr := inner ++ fst p.
Definition field_text (f : jstr * (jstr * val)) : jstr := inner ++ quote (fst f) ++ (58 :: colon) ++ fst (snd f).

Lemma sep_by_cons x y l : sep_by comma (x :: y :: l) = x ++ comma ++ sep_by comma (y :: l).
Proof. done. Qed.

Lemma elements_read (l : list (jstr * val)) fuel p rest :
  l <> [] -> Forall (fun p => reads (fst p) (snd p)) l -> ws p ->
  (2 * length (sep_by comma (map item_text l)) + 2 <= fuel)%nat ->
  json_elements fuel (p ++ sep_by comma (map item_text l) ++ close ++ [93] ++ rest) = Some (map snd l, rest).
Proof.
  intros Hne Hl. revert fuel p. induction Hl as [|[t v] l [Hs Hr] Hl IH]; intros fuel p Hp Hf; [done|].
  destruct fuel as [|f]; [lia|]. cbn [json_elements map snd]. unfold item_text at 1. cbn [fst snd] in *.
  rewrite json_value_ws by done. destruct l as [|q l].
  - cbn [map sep_by] in *. unfold item_text in Hf. cbn [fst] in Hf. rewrite length_app in Hf. rewrite <- !app_assoc.
    rewrite json_value_ws, Hr by (done || lia || (apply delimited_ws; [done|]; cbn; tauto)).
    cbn [mbind option_bind]. by rewrite skip_ws_app.
  - cbn [map] in *. rewrite sep_by_cons in *. unfold item_text at 1 in Hf. cbn [fst] in Hf.
    rewrite !length_app in Hf. cbn [length] in Hf.
    rewrite <- !app_assoc, json_value_ws, Hr by (done || lia || (cbn; tauto)). cbn [mbind option_bind].
    change (skip_ws (comma ++ ?x)) with (44 :: next ++ x). cbv iota. rewrite (IH ltac:(done) f next) by (done || lia). done.
Qed.

Lemma field_reads k t v f acc p tail :
  key_ok k -> reads t v -> ws p -> k ∉ map fst acc -> (2 * length t + 1 <= f)%nat -> delimited tail ->
  json_members (S f) acc (p ++ field_text (k, (t, v)) ++ tail) =
  match skip_ws tail with
  | 44 :: u => json_members f (acc ++ [(k, v)]) u
  | 125 :: u => Some (acc ++ [(k, v)], u)
  | _ => None
  end.
Proof.
  intros [Hk Hi] [_ Hr] Hp Hnew Hft Ht. unfold field_text, quote. cbn [fst snd]. rewrite <- !app_assoc. cbn [json_members].
  rewrite !expect_ws by done. change (expect 34 ([34] ++ ?x)) with (Some x). cbn [mbind option_bind].
  rewrite json_string_quote by done. cbn [mbind option_bind].
  change (expect 58 ((58 :: colon) ++ ?x)) with (Some (colon ++ x)). cbn [mbind option_bind].
  rewrite json_value_ws, Hr by done. cbn [mbind option_bind]. by rewrite obj_set_new.
Qed.

Lemma members_read (l : list (jstr * (jstr * val))) fuel acc p rest :
  l <> [] -> Forall (fun f => key_ok (fst f) /\ reads (fst (snd f)) (snd (snd f))) l ->
  NoDup (map fst acc ++ map fst l) -> ws p ->
  (2 * length (sep_by comma (map field_text l)) + 2 <= fuel)%nat ->
  json_members fuel acc (p ++ sep_by comma (map field_text l) ++ close ++ [125] ++ rest) = Some (acc ++ map field_val l, rest).
Proof.
  intros Hne Hl. revert fuel acc p. induction Hl as [|[k [t v]] l [Hk Hr] Hl IH]; intros fuel acc p Hnd Hp Hf; [done|].
  destruct fuel as [|f]; [lia|]. cbn [fst snd] in *.
  assert (k ∉ map fst acc) as Hnew.
  { intros Hin. apply list.NoDup_app in Hnd as (_ & Hd & _). apply (Hd k Hin). by left. }
  assert (length (field_text (k, (t, v))) = length inner + length (quote k) + S (length colon) + length t)%nat as Hlen.
  { unfold field_text. cbn [fst snd]. rewrite !length_app. cbn [length]. lia. }
  destruct l as [|g l].
  - cbn [map sep_by] in *. rewrite Hlen in Hf.
    rewrite field_reads by (done || lia || (apply delimited_ws; [done|]; cbn; tauto)). by rewrite skip_ws_app.
  - cbn [map] in *. rewrite sep_by_cons in *. rewrite !length_app, Hlen in Hf. cbn [length] in Hf.
    rewrite <- !app_assoc, field_reads by (done || lia || (cbn; tauto)).
    change (skip_ws (comma ++ ?x)) with (44 :: next ++ x). cbv iota.
    rewrite (IH ltac:(done) f (acc ++ [(k, v)]) next); [by rewrite <- app_assoc| |done|lia].
    rewrite map_app, <- app_assoc. exact Hnd.
Qed.

Lemma reads_array (l : list (jstr * val)) :
  l <> [] -> Forall (fun p => reads (fst p) (snd p)) l ->
  reads ([91] ++ open ++ sep_by comma (map item_text l) ++ close ++ [93]) (VArr (map snd l)).
Proof.
  intros Hne Hl. split; [done|]. intros [|f] rest Hf Hr; [lia|]. rewrite <- !app_assoc.
  cbn [json_value]. change (skip_ws ([91] ++ ?x)) with (91 :: x). cbn [Z.eqb Pos.eqb].
  rewrite !length_app in Hf. cbn [length] in Hf. rewrite elements_read by (done || lia). cbn [mbind option_bind].
  assert (exists c x, skip_ws (open ++ sep_by comma (map item_text l) ++ close ++ [93] ++ rest) = c :: x /\ c <> 93) as (c & x & -> & Hc).
  { rewrite skip_ws_app by done. destruct l as [|[t v] l]; [done|]. inversion Hl as [|? ? [Hs _] _]; subst. cbn [fst] in Hs.
    assert (exists r, sep_by comma (map item_text ((t, v) :: l)) = inner ++ t ++ r) as [r ->].
    { destruct l; [exists []; cbn [map sep_by]; by rewrite app_nil_r|]. cbn [map]. rewrite sep_by_cons. unfold item_text at 1.
      cbn [fst]. rewrite <- app_assoc. by eexists. }
    rewrite <- !app_assoc, skip_ws_app, skip_ws_starter by done. destruct t as [|c t]; [done|]. eexists _, _. split; [done|]. apply Hs. }
  repeat case_match; congruence.
Qed.

Lemma reads_object (l : list (jstr * (jstr * val))) :
  l <> [] -> Forall (fun f => key_ok (fst f) /\ reads (fst (snd f)) (snd (snd f))) l -> NoDup (map fst l) ->
  reads ([123] ++ open ++ sep_by comma (map field_text l) ++ close ++ [125]) (VObj (map field_val l)).
Proof.
  intros Hne Hl Hnd. split; [done|]. intros [|f] rest Hf Hr; [lia|]. rewrite <- !app_assoc.
  cbn [json_value]. change (skip_ws ([123] ++ ?x)) with (123 :: x). cbn [Z.eqb Pos.eqb].
  rewrite !length_app in Hf. cbn [length] in Hf.
  rewrite (members_read l f [] open rest) by (done || lia). cbn [mbind option_bind].
  assert (exists x, skip_ws (open ++ sep_by comma (map field_text l) ++ close ++ [125] ++ rest) = 34 :: x) as (x & ->); [|done].
  rewrite skip_ws_app by done. destruct l as [|[k [t v]] l]; [done|].
  assert (exists r, sep_by comma (map field_text ((k, (t, v)) :: l)) = inner ++ [34] ++ r) as [r ->].
  { unfold quote. destruct l; cbn [map]; [cbn [sep_by]|rewrite sep_by_cons]; unfold field_text at 1, quote; cbn [fst];
      rewrite <- !app_assoc; by eexists. }
  rewrite <- !app_assoc, skip_ws_app by done. by eexists.
Qed.

End Layout.

(** The values that survive. *)
Fixpoint clean (v : val) : Prop :=
  match v with
  | VUndef => False
  | VNull | VBool _ => True
  | VNum x => exists n, 0 <= n < 10 ^ 15 /\ x = num_of_Z n
  | VStr s => utf16_str s
  | VArr l => (fix all (l : list val) : Prop := match l with [] => True | x :: r => clean x /\ all r end) l
  | VObj fs =>
      NoDup (map fst fs) /\
      (fix all (fs : list (jstr * val)) : Prop :=
         match fs with [] => True | (k, x) :: r => (key_ok k /\ clean x) /\ all r end) fs
  end.

Lemma stringify_num n : 0 <= n < 10 ^ 15 -> stringify (VNum (num_of_Z n)) = Some (dec_string n).
Proof.
  intros Hn. cbn [stringify]. rewrite <- num_to_string_int by done. destruct (Z.eq_dec n 0) as [->|]; [done|].
  assert (10 ^ 15 < 2 ^ 53) by done. by rewrite num_of_Z_exact by lia.
Qed.

(** The texts a printer [g] gives the parts of a clean value. *)
Lemma clean_items (g : val -> option jstr) l :
  Forall (fun x => clean x -> exists t, g x = Some t /\ reads t x) l -> clean (VArr l) ->
  exists ps, map snd ps = l /\ map (fun x => default (js "null") (g x)) l = map fst ps /\
    Forall (fun p => reads (fst p) (snd p)) ps.
Proof.
  cbn [clean]. induction 1 as [|x l Hx _ IHl]; [by exists []|]. intros [Hcx Hcl]. destruct (Hx Hcx) as (t & Et & Ht).
  destruct (IHl Hcl) as (ps & <- & E & Hps). exists ((t, x) :: ps). cbn [map fst snd].
  rewrite Et, E. split_and!; [done..|]. by constructor.
Qed.

Lemma clean_fields (g : val -> option jstr) fs :
  Forall (fun f => clean (snd f) -> exists t, g (snd f) = Some t /\ reads t (snd f)) fs -> clean (VObj fs) ->
  exists ps, map field_val ps = fs /\ Forall (fun f => g (snd (snd f)) = Some (fst (snd f))) ps /\
    Forall (fun f => key_ok (fst f) /\ reads (fst (snd f)) (snd (snd f))) ps /\ NoDup (map fst ps).
Proof.
  intros Hf [Hnd Hc]. assert (exists ps, map field_val ps = fs /\ Forall (fun f => g (snd (snd f)) = Some (fst (snd f))) ps /\
    Forall (fun f => key_ok (fst f) /\ reads (fst (snd f)) (snd (snd f))) ps) as (ps & <- & H1 & H2).
  { clear Hnd. induction Hf as [|[k x] fs Hx _ IHl]; [by exists []|]. destruct Hc as [[Hk Hcx] Hcl]. cbn [snd] in Hx.
    destruct (Hx Hcx) as (t & Et & Ht). destruct (IHl Hcl) as (ps & <- & E & Hps). exists ((k, (t, x)) :: ps).
    split_and!; [done|by constructor..]. }
  exists ps. rewrite map_map in Hnd. done.
Qed.

Lemma reads_empty : reads (js "[]") (VArr []) /\ reads (js "{}") (VObj []).
Proof. split; (split; [done|]; by intros [|f] rest Hf Hr; [lia|]). Qed.

Lemma reads_atom v : clean v ->
  match v with VArr _ | VObj _ => True | _ => exists t, stringify v = Some t /\ reads t v end.
Proof.
  destruct v as [| |b|n|s|l|fs]; cbn [clean]; intros Hc; try done.
  - exists (js "null"). split; [done|]. split; [done|]. by intros [|f] rest Hf _; [lia|].
  - exists (if b then js "true" else js "false"). split; [done|]. split; [by destruct b|].
    intros [|f] rest Hf _; [lia|]. by destruct b.
  - destruct Hc as (m & Hm & ->). exists (dec_string m). split; [by apply stringify_num|by apply reads_num].
  - exists (quote s). split; [done|by apply reads_quote].
Qed.

Lemma stringify_reads v : clean v -> exists t, stringify v = Some t /\ reads t v.
Proof.
  induction v as [| |b|n|s|l IH|fs IH] using val_ind; intros Hc; try exact (reads_atom _ Hc).
  - destruct (clean_items _ _ IH Hc) as (ps & <- & E & Hps). cbn [stringify]. rewrite E.
    eexists. split; [done|]. destruct (decide (ps = [])) as [->|Hne]; [apply reads_empty|].
    exact (reads_array [] [] [] [] ltac:(done) ltac:(done) ltac:(done) ltac:(done) ps Hne Hps).
  - destruct (clean_fields _ _ IH Hc) as (ps & <- & E & Hps & Hnd). cbn [stringify].
    match goal with |- context [sep_by _ (?g (map field_val ps))] => assert (g (map field_val ps) = map (field_text [] []) ps) as -> end.
    { clear -E. induction E as [|[k [t v]] ps Ht _ IH]; [done|]. cbn [map field_val fst snd] in *. rewrite Ht, IH. done. }
    eexists. split; [done|]. destruct (decide (ps = [])) as [->|Hne]; [apply reads_empty|].
    exact (reads_object [] [] [] [] [] ltac:(done) ltac:(done) ltac:(done) ltac:(done) ltac:(done) ps Hne Hps Hnd).
Qed.

Lemma reads_parse t v : reads t v -> JSON_parse t = Ok v.
Proof.
  intros [_ Ht]. unfold JSON_parse. specialize (Ht (2 * length t + 2)%nat [] ltac:(lia) I). rewrite app_nil_r in Ht. by rewrite Ht.
Qed.

Theorem JSON_roundtrip v : clean v -> exists t, stringify v = Some t /\ JSON_parse t = Ok v.
Proof. intros (t & Et & Ht)%stringify_reads. exists t. split; [done|by apply reads_parse]. Qed.

(** ** Building clean values *)

Definition keys_check (ks : list jstr) : bool :=
  bool_decide (NoDup ks) &&
  forallb (fun k => forallb (fun c => (0 <=? c) && (c <? 65536)) k && match array_index k with None => true | _ => false end) ks.

Lemma clean_obj fs : keys_check (map fst fs) = true -> Forall (fun f => clean (snd f)) fs -> clean (VObj fs).
Proof.
  unfold keys_check. intros [Hn Hk]%andb_true_iff Hf. split; [by apply bool_decide_eq_true in Hn|]. clear Hn.
  induction Hf as [|[k x] fs Hx _ IH]; [done|]. cbn [map fst snd forallb] in *. apply andb_true_iff in Hk as [Hk Hrest].
  apply andb_true_iff in Hk as [Hk Hi]. split; [|by apply IH]. split; [|done]. split; [by apply utf16_check|].
  by destruct (array_index k).
Qed.

Lemma clean_arr l : Forall clean l -> clean (VArr l).
Proof. induction 1; cbn [clean] in *; done. Qed.

Lemma clean_num n : 0 <= n < 10 ^ 15 -> clean (VNum (num_of_Z n)).
Proof. intros H. by exists n. Qed.

Lemma clean_js s : forallb (fun c => (0 <=? c) && (c <? 65536)) (js s) = true -> clean (VStr (js s)).
Proof. apply utf16_check. Qed.

Lemma hex_utf16 s : hex_str s -> utf16_str s.
Proof. apply Forall_impl. intros c Hc. unfold is_hex in Hc. lia. Qed.

Lemma to_hex_utf16 bs : Forall is_byte bs -> utf16_str (to_hex bs).
Proof. intros H. by apply hex_utf16, to_hex_is_hex. Qed.

Lemma dec_utf16 n : 0 <= n -> utf16_str (dec_string n).
Proof.
  intros H. pose proof (dec_string_digits n H) as Hd. revert Hd. apply Forall_impl. intros c Hc. unfold is_digit in Hc. lia.
Qed.

(** A value built of literals, numbers and strings known to be clean. *)
Ltac clean_tac :=
  repeat match goal with
  | |- clean (VObj _) => apply clean_obj; [vm_compute; reflexivity|]
  | |- clean (VArr _) => apply clean_arr
  | |- Forall _ (_ :: _) => apply List.Forall_cons; cbn [snd]
  | |- Forall _ [] => apply List.Forall_nil
  | |- clean (VStr (js _)) => apply clean_js; vm_compute; reflexivity
  | |- clean (VStr []) => apply List.Forall_nil
  | |- clean VNull => exact I
  | |- clean (VBool _) => exact I
  | |- clean (VNum zero) => apply (clean_num 0); lia
  | |- clean (VNum (num_of_Z _)) => apply clean_num; lia
  | |- clean _ => assumption
  end.
