(* ===== verification/ProxyDelivery.v ===== *)
(** * Stratum proxy: what a miner receives

    A miner splits what it receives at newlines and parses each line.  Here the
    proxy's builders are composed with that reader: the header, target and seed
    in a job message are, after transport, the node's. *)

From Stdlib Require Import ZArith Lia Bool String.
From stdpp Require Import base list numbers option.
From S2P Require Import Prelude JsNum JsNumFacts Bytes JsStr JsValue JsDecimal Utf8 Sha256 ProxyCodec Consensus ProxyCodecFacts ProxyConsensus ProxyMessages JsonFacts.

Open Scope Z_scope.

(** [v.a.b.c]. *)
Definition read (v : val) (path : list jstr) : res val := foldl (fun r k => x ← r; get x k) (Ok v) path.

(** A line on the wire and what it parses to. *)
Lemma json_line_reads fs :
  clean (VObj fs) -> exists line, json_line fs = line ++ [10] /\ no_nl line /\ JSON_parse line = Ok (VObj fs).
Proof.
  intros (t & Et & Hp)%JSON_roundtrip. exists t. unfold json_line. rewrite Et. split; [done|]. split; [|done].
  apply stringify_printable in Et. revert Et. apply Forall_impl. lia.
Qed.

(** The fields of a job that a message carries. *)
Record clean_job (j : job) : Prop := {
  cj_blob : clean (VStr (blob j));
  cj_id : clean (VStr (job_id j));
  cj_target : clean (target j);
  cj_height : clean (height j);
  cj_seed : clean (VStr (seed_hash j))
}.

Lemma login_clean id e j : clean id -> utf16_str e -> clean_job j ->
  exists line v, createXMRigLoginResponse id e j = line ++ [10] /\ no_nl line /\ JSON_parse line = Ok v /\
    read v [js "id"] = Ok id /\
    read v [js "result"; js "job"; js "blob"] = Ok (VStr (blob j)) /\
    read v [js "result"; js "job"; js "target"] = Ok (target j) /\
    read v [js "result"; js "job"; js "height"] = Ok (height j) /\
    read v [js "result"; js "job"; js "seed_hash"] = Ok (VStr (seed_hash j)) /\
    read v [js "result"; js "extra_nonce1"] = Ok (VStr e).
Proof.
  intros Hid He []. destruct (json_line_reads
    [(js "id", id); (js "jsonrpc", VStr (js "2.0"));
     (js "result", VObj [(js "id", VStr []); (js "status", VStr (js "OK"));
        (js "job", VObj [(js "blob", VStr (blob j)); (js "job_id", VStr (job_id j)); (js "target", target j);
           (js "height", height j); (js "seed_hash", VStr (seed_hash j)); (js "algo", VStr (js "rx/0"));
           (js "variant", VNum zero)]);
        (js "extra_nonce1", VStr e); (js "extra_nonce2_size", VNum (num_of_Z 8))])]) as (line & E & Hn & Hp).
  { clean_tac. }
  exists line. eexists. split; [exact E|]. split; [exact Hn|]. split; [exact Hp|].
  repeat split; vm_compute; reflexivity.
Qed.

Lemma notify_clean j : clean_job j ->
  exists line v, createXMRigJobNotify j = line ++ [10] /\ no_nl line /\ JSON_parse line = Ok v /\
    read v [js "method"] = Ok (VStr (js "job")) /\
    read v [js "params"; js "blob"] = Ok (VStr (blob j)) /\
    read v [js "params"; js "target"] = Ok (target j) /\
    read v [js "params"; js "height"] = Ok (height j) /\
    read v [js "params"; js "seed_hash"] = Ok (VStr (seed_hash j)).
Proof.
  intros []. destruct (json_line_reads
    [(js "id", VNull); (js "jsonrpc", VStr (js "2.0")); (js "method", VStr (js "job"));
     (js "params", VObj [(js "blob", VStr (blob j)); (js "job_id", VStr (job_id j)); (js "target", target j);
        (js "height", height j); (js "seed_hash", VStr (seed_hash j)); (js "algo", VStr (js "rx/0"));
        (js "variant", VNum zero); (js "new_job", VBool true)])]) as (line & E & Hn & Hp).
  { clean_tac. }
  exists line. eexists. split; [exact E|]. split; [exact Hn|]. split; [exact Hp|].
  repeat split; vm_compute; reflexivity.
Qed.

Lemma stratum_notify_clean j prev bits time :
  prevhash j = VStr (GetHex prev) -> nbits j = VStr (hex_fixed 8 bits) -> curtime j = VNum (num_of_Z time) ->
  is_u256 prev -> is_u32 time -> clean (VStr (job_id j)) ->
  exists line, createStratumJobNotify j = Ok (line ++ [10]) /\ no_nl line /\
    JSON_parse line = Ok (VObj
      [(js "id", VNull); (js "method", VStr (js "mining.notify"));
       (js "params", VArr [VStr (job_id j); VStr (to_hex prev); VStr []; VStr []; VArr []; VStr (js "00000020");
          VStr (hex_fixed 8 bits); VStr (hex_fixed 8 time); VBool true])]).
Proof.
  intros Ep Eb Et Op Ot Hid. unfold createStratumJobNotify. rewrite Ep, Eb, Et. cbn [to_number mbind res_bind].
  assert (writeUInt32BE_num (replicate 4 0) (num_of_Z time) 0 = Ok (be_bytes 4 time)) as ->.
  { unfold writeUInt32BE_num, is_u32 in *. change zero with (num_of_Z 0). rewrite !num_lt_of_Z, to_uint32_num_of_Z by lia.
    unfold writeUInt32BE. zbool. cbn [length replicate Nat.add Nat.ltb Nat.leb take drop app]. by rewrite app_nil_r. }
  cbn [mbind res_bind]. rewrite reverseHex_GetHex by done. cbn [mbind res_bind]. rewrite <- (hex_fixed_be_bytes 4).
  destruct (json_line_reads
    [(js "id", VNull); (js "method", VStr (js "mining.notify"));
       (js "params", VArr [VStr (job_id j); VStr (to_hex prev); VStr []; VStr []; VArr []; VStr (js "00000020");
          VStr (hex_fixed 8 bits); VStr (hex_fixed 8 time); VBool true])]) as (line & E & Hn & Hp).
  { assert (clean (VStr (to_hex prev))) by (apply to_hex_utf16, Op).
    assert (forall x, clean (VStr (hex_fixed 8 x))) by (intros; apply hex_utf16, hex_fixed_hex). clean_tac; auto. }
  exists line. by rewrite <- E.
Qed.

Lemma job_of_clean n tpl prev merkle time bits t h :
  0 <= n -> template_of tpl prev merkle time bits -> 0 <= h < 10 ^ 15 ->
  clean_job (job_of n tpl prev merkle time bits t (VNum (num_of_Z h))).
Proof.
  intros Hn [_ _ _ _ Op Om _ _] Hh. split; cbn [job_of blob job_id target height seed_hash].
  - apply to_hex_utf16. by apply Serialize_ok.
  - by apply dec_utf16.
  - by apply hex_utf16, GetHex_hex, le_bytes_u256.
  - rewrite or_else_num_zero by lia. by apply clean_num.
  - apply to_hex_utf16. unfold GetSeedHash. apply sha256_byte.
Qed.

(** C24. A job reaches the miner intact.  From a template of the node with a
    positive target and a height below 10^15, and for a request id that JSON can
    carry, the login response, the job notification and the stratum notification
    are one line each.  From the first two the miner that parses them reads the
    canonical header (with nonce 0), the target and the height of the template,
    and the seed the proxy computes itself, that of the epoch of the template's
    time.  From [mining.notify] it reads the job number, the previous hash, the
    version bytes, the compact target and the time, with an empty coinbase and
    no branches: no header, target, height or seed. *)
Theorem miner_reads_node_job cnt tpl prev merkle time bits t h id e :
  template_of tpl prev merkle time bits ->
  get tpl (js "target") = Ok (VStr (arith_GetHex t)) -> 0 < t < 2 ^ 256 ->
  get tpl (js "height") = Ok (VNum (num_of_Z h)) -> 0 <= h < 10 ^ 15 ->
  0 <= cnt -> clean id -> utf16_str e ->
  exists j b s l1 l2 l3 login notify,
    createRandomXJob cnt tpl = (cnt + 1, Ok j) /\
    from_hex b = SerializeRandomXHeader (proxy_header prev merkle time bits 0) /\
    from_hex s = GetSeedHash (GetEpoch time epoch_seconds) /\
    createStratumJobNotify j = Ok (l3 ++ [10]) /\
    split_nl (createXMRigLoginResponse id e j ++ createXMRigJobNotify j ++ (l3 ++ [10])) = ([l1; l2; l3], []) /\
    JSON_parse l1 = Ok login /\ read login [js "id"] = Ok id /\ read login [js "result"; js "extra_nonce1"] = Ok (VStr e) /\
    JSON_parse l2 = Ok notify /\
    (forall k x, In (k, x) [(js "blob", VStr b); (js "target", VStr (arith_GetHex t)); (js "seed_hash", VStr s);
                            (js "height", VNum (num_of_Z h))] ->
       read login [js "result"; js "job"; k] = Ok x /\ read notify [js "params"; k] = Ok x) /\
    JSON_parse l3 = Ok (VObj
      [(js "id", VNull); (js "method", VStr (js "mining.notify"));
       (js "params", VArr [VStr (dec_string (cnt + 1)); VStr (to_hex prev); VStr []; VStr []; VArr []; VStr (js "00000020");
          VStr (hex_fixed 8 bits); VStr (hex_fixed 8 time); VBool true])]).
Proof.
  intros Htpl Htg Ht Hh Bh Hcnt Hid He. pose proof Htpl as [_ _ _ _ Op Om Ot _].
  destruct (createRandomXJob_ok cnt tpl prev merkle time bits t Htpl Htg Ht) as (ht & Eh & Ej).
  rewrite Hh in Eh. injection Eh as <-. set (j := job_of _ _ _ _ _ _ _ _) in Ej.
  pose proof (job_of_clean (cnt + 1) tpl prev merkle time bits t h ltac:(lia) Htpl Bh) as Cj. fold j in Cj.
  destruct (login_clean id e j Hid He Cj) as (l1 & login & E1 & N1 & P1 & R1 & R2 & R3 & R4 & R5 & R6).
  destruct (notify_clean j Cj) as (l2 & notify & E2 & N2 & P2 & _ & Q2 & Q3 & Q4 & Q5).
  destruct (stratum_notify_clean j prev bits time eq_refl eq_refl eq_refl Op Ot (cj_id j Cj)) as (l3 & E3 & N3 & P3).
  assert (height j = VNum (num_of_Z h)) as Ehj by (apply or_else_num_zero; lia). rewrite Ehj in *.
  exists j, (blob j), (seed_hash j), l1, l2, l3, login, notify. split; [exact Ej|].
  split; [apply from_to_hex, Serialize_ok; done|]. split; [apply from_to_hex; apply sha256_byte|]. split; [exact E3|].
  split.
  { rewrite E1, E2. pose proof (split_nl_lines [l1; l2; l3]) as Hs. cbn [map mjoin list_join app] in Hs. rewrite app_nil_r in Hs.
    apply Hs. by repeat constructor. }
  repeat (split; [assumption|]). split; [|exact P3].
  intros k x [E|[E|[E|[E|[]]]]]; apply pair_equal_spec in E as [<- <-]; split; assumption.
Qed.

(** ** Witness *)

Lemma miner_reads_node_job_witness :
  exists j l1 login,
    createRandomXJob 0 ex_template = (1, Ok j) /\ JSON_parse l1 = Ok login /\
    read login [js "result"; js "job"; js "height"] = Ok (VNum (num_of_Z 101)).
Proof.
  destruct (miner_reads_node_job 0 ex_template ex_prev null256 ex_time ex_bits ex_target 101 (VNum (num_of_Z 1)) (js "00c0ffee")
    ex_template_of eq_refl (conj eq_refl eq_refl) eq_refl ltac:(lia) ltac:(lia) ltac:(apply clean_num; lia)
    ltac:(apply utf16_check; reflexivity)) as (j & b & s & l1 & l2 & l3 & login & notify & E & _ & _ & _ & _ & P & _ & _ & _ & H & _).
  exists j, l1, login. split; [exact E|]. split; [exact P|].
  refine (proj1 (H (js "height") _ _)). right; right; right; left. reflexivity.
Defined.
