(* ===== verification/ProxyConfig.v ===== *)
(** * Stratum proxy: configuration

    The top of [contrib/admin/current_proxy.js]: the credentials and the shared
    secret that must be in the environment, and the two ports with their
    defaults.  [process.exit(1)] before anything is loaded is [Refused]. *)

From Stdlib Require Import ZArith Lia Bool String.
From stdpp Require Import base list numbers option.
From S2P Require Import Prelude JsNum Bytes JsStr JsValue JsDecimal.

Open Scope Z_scope.

Fixpoint digit_prefix (s : jstr) : jstr :=
  match s with
  | c :: r => if is_digit c then c :: digit_prefix r else []
  | [] => []
  end.

(** [parseInt(s, 10)]; [None] is NaN. *)
Definition parseInt10 (s : jstr) : option Z :=
  let s1 := trim_start s in
  let '(neg, s2) := match s1 with
                    | 45 :: r => (true, r)
                    | 43 :: r => (false, r)
                    | _ => (false, s1)
                    end in
  match digit_prefix s2 with
  | [] => None
  | ds => Some (if neg then - dec_value ds 0 else dec_value ds 0)
  end.

Record config := Config {
  RPC_USER : jstr;
  RPC_PASSWORD : jstr;
  STRATUM_PASSWORD : jstr;
  PORT : option Z;
  RPC_PORT : option Z;
}.

Inductive startup := Refused (missing : jstr) | Started (c : config).

(** [!v] for an environment variable: absent or empty. *)
Definition missing (v : option jstr) : bool := match v with Some (_ :: _) => false | _ => true end.

(** [v || d]. *)
Definition env_or (v : option jstr) (d : jstr) : jstr := if missing v then d else default d v.

Definition configure (env : jstr -> option jstr) : startup :=
  let rpc_user := env (js "RCPU_RPC_USER") in
  let rpc_password := env (js "RCPU_RPC_PASSWORD") in
  if missing rpc_user || missing rpc_password then Refused (js "RCPU_RPC_USER and RCPU_RPC_PASSWORD") else
  let stratum_password := env (js "RCPU_STRATUM_PASSWORD") in
  if missing stratum_password then Refused (js "RCPU_STRATUM_PASSWORD") else
  Started
    {| RPC_USER := default [] rpc_user; RPC_PASSWORD := default [] rpc_password;
       STRATUM_PASSWORD := default [] stratum_password;
       PORT := parseInt10 (env_or (env (js "RCPU_PROXY_PORT")) (js "8080"));
       RPC_PORT := parseInt10 (env_or (env (js "RCPU_RPC_PORT")) (js "7337")) |}.

(** ** Ports *)

Lemma digit_prefix_all s : Forall (fun c => is_digit c = true) s -> digit_prefix s = s.
Proof. induction 1 as [|c s Hc _ IH]; cbn; [done|]. by rewrite Hc, IH. Qed.

Lemma parseInt10_dec n : 0 <= n -> parseInt10 (dec_string n) = Some n.
Proof.
  intros Hn. pose proof (dec_string_digits n Hn) as Hd.
  pose proof (dec_string_ne n Hn) as Hne. pose proof (dec_string_value n Hn) as Hv.
  destruct (dec_string n) as [|c s]; [done|]. pose proof (List.Forall_inv Hd) as Hc. cbv beta in Hc.
  pose proof (digit_prefix_all _ Hd) as Hp.
  assert (c = 48 \/ c = 49 \/ c = 50 \/ c = 51 \/ c = 52 \/ c = 53 \/ c = 54 \/ c = 55 \/ c = 56 \/ c = 57) as Hcases
    by (unfold is_digit in Hc; breflect; lia).
  unfold parseInt10. repeat destruct Hcases as [->|Hcases]; try subst c;
    cbn [trim_start is_ws Z.leb Z.eqb Z.compare Pos.compare Pos.compare_cont Pos.eqb andb orb]; rewrite Hp; by rewrite Hv.
Qed.

(** The proxy starts exactly when the two RPC credentials and the miners'
    shared secret are in the environment and not empty; it then uses those
    values, the ports 8080 and 7337 where none is given, and otherwise the port
    whose decimal text is given. *)
Theorem configure_contract env :
  let present v := exists c s, env (js v) = Some (c :: s) in
  ((exists cfg, configure env = Started cfg) <->
   present "RCPU_RPC_USER"%string /\ present "RCPU_RPC_PASSWORD"%string /\ present "RCPU_STRATUM_PASSWORD"%string) /\
  forall cfg, configure env = Started cfg ->
    env (js "RCPU_RPC_USER") = Some (RPC_USER cfg) /\ env (js "RCPU_RPC_PASSWORD") = Some (RPC_PASSWORD cfg) /\
    env (js "RCPU_STRATUM_PASSWORD") = Some (STRATUM_PASSWORD cfg) /\ STRATUM_PASSWORD cfg <> [] /\
    (env (js "RCPU_PROXY_PORT") = None -> PORT cfg = Some 8080) /\
    (env (js "RCPU_RPC_PORT") = None -> RPC_PORT cfg = Some 7337) /\
    (forall n, 0 <= n -> env (js "RCPU_PROXY_PORT") = Some (dec_string n) -> PORT cfg = Some n) /\
    (forall n, 0 <= n -> env (js "RCPU_RPC_PORT") = Some (dec_string n) -> RPC_PORT cfg = Some n).
Proof.
  cbv zeta. unfold configure.
  assert (forall v d n, 0 <= n -> v = Some (dec_string n) -> parseInt10 (env_or v d) = Some n) as Hport.
  { intros v d n Hn ->. rewrite <- (parseInt10_dec n Hn). unfold env_or, missing. pose proof (dec_string_ne n Hn).
    by destruct (dec_string n). }
  destruct (env (js "RCPU_RPC_USER")) as [[|c1 u]|], (env (js "RCPU_RPC_PASSWORD")) as [[|c2 p]|],
    (env (js "RCPU_STRATUM_PASSWORD")) as [[|c3 s]|]; cbn [missing orb default];
    (split; [|intros cfg E; (discriminate E || injection E as <-)]);
    try (split; [intros [cfg E]; discriminate E|intros ((?&?&?) & (?&?&?) & (?&?&?)); discriminate]).
  - split; [intros _; eauto 10|eauto].
  - cbn. split_and!; try done; [intros ->; done|intros ->; done|auto|auto].
Qed.

(** ** Witness *)

Definition ex_env (v : jstr) : option jstr :=
  if str_eqb v (js "RCPU_RPC_USER") then Some (js "rpc")
  else if str_eqb v (js "RCPU_RPC_PASSWORD") then Some (js "hunter2")
  else if str_eqb v (js "RCPU_STRATUM_PASSWORD") then Some (js "pool")
  else if str_eqb v (js "RCPU_PROXY_PORT") then Some (js "3333")
  else None.

Lemma configure_contract_witness :
  exists cfg, configure ex_env = Started cfg /\ STRATUM_PASSWORD cfg <> [] /\ PORT cfg = Some 3333 /\ RPC_PORT cfg = Some 7337.
Proof.
  destruct (proj2 (proj1 (configure_contract ex_env))) as [cfg E]; [repeat split; do 2 eexists; reflexivity|].
  exists cfg. split; [exact E|].
  destruct (proj2 (configure_contract ex_env) cfg E) as (_ & _ & _ & H1 & _ & H2 & H3 & _).
  split; [exact H1|]. split; [apply (H3 3333); [lia|reflexivity]|apply H2; reflexivity].
Defined.
