(* ===== verification/ProxyServer.v ===== *)
(** * Stratum proxy: the server

    The event handlers of [contrib/admin/current_proxy.js]: connections, the
    line loop of the [data] handler with its exceptions and its one [await], the
    startup and the periodic job update, and the single outbound choke point.
    Each event of the Node event loop is one step.  An [await] on the node's RPC
    suspends the handler, with the lines it has still to process, until the
    exchange settles; everything else runs to completion, as microtasks do.

    The state carries one history variable, [trace]: what the proxy did, latest
    first.  Nothing reads it. *)

From Stdlib Require Import ZArith Lia Bool String SpecFloat.
From stdpp Require Import base list numbers option.
From S2P Require Import Prelude JsNum Bytes JsStr JsValue Utf8 Sha256 Libs ProxyCodec ProxyRate ProxyMessages ProxyRpc.

Open Scope Z_scope.

Definition MAX_INPUT_BUFFER : Z := 1024 * 1024.
Definition MAX_WRITABLE_BUFFER : Z := 16 * 1024 * 1024.
Definition MAX_CONNECTIONS : nat := 32.

(** ** State *)

Inductive protocol := Xmrig | Stratum.

#[export] Instance protocol_eq_dec : EqDecision protocol.
Proof. solve_decision. Defined.

(** A socket and its [minerInfo]. *)
Record conn := Conn {
  c_client : jstr;
  c_address : val;
  c_authorized : bool;
  c_protocol : option protocol;
  c_currentJobId : option jstr;
  c_extraNonce1 : option jstr;
  c_subscriptionId : option jstr;
  c_buffer : jstr;
  c_submitTimes : list Z;
  c_readable : bool;
  c_writable : bool;
  c_destroyed : bool;
  c_queued : Z;            (* [socket.writableLength] *)
  c_closed : bool;         (* ['close'] was emitted *)
}.

(** Every message the proxy writes. *)
Inductive message :=
  | MLogin (id : val) (extraNonce1 : jstr) (j : job)
  | MXSubmit (id : val) (success : bool)
  | MXNotify (j : job)
  | MKeepalive (id : val)
  | MSubscribe (subscriptionId : jstr) (id : val) (extraNonce1 : jstr)
  | MAuthorize (id : val) (success : bool)
  | MSSubmit (id : val) (success : bool)
  | MSNotify (j : job) (text : jstr).

Definition render (m : message) : jstr :=
  match m with
  | MLogin id e j => createXMRigLoginResponse id e j
  | MXSubmit id b => createXMRigSubmitResponse id b
  | MXNotify j => createXMRigJobNotify j
  | MKeepalive id => createKeepaliveResponse id
  | MSubscribe r id e => createStratumSubscribeResponse r id e
  | MAuthorize id b => createStratumAuthorizeResponse id b
  | MSSubmit id b => createStratumSubmitResponse id b
  | MSNotify _ text => text
  end.

(** What the history records. *)
Inductive effect :=
  | ELine (c : nat) (line : jstr)              (* a line was handed to the loop body *)
  | EWrote (c : nat) (m : message)
  | EAdmit (now : Z) (c : nat)                 (* the rate limiter let a submit pass *)
  | EHash (now : Z) (c : nat)                  (* a RandomX computation, and when it was admitted *)
  | ETemplateRpc                               (* a [getblocktemplate] request *)
  | ELoginRpc (c : nat)                        (* the same, on behalf of a login *)
  | ESubmitRpc (c : nat) (block : jstr)        (* a [submitblock] request *)
  | EOutcome (o : submit_outcome).

(** Suspended computations, each waiting for one RPC exchange. *)
Inductive task :=
  | PStartup
  | PTick
  | PLogin (c : nat) (id : val) (rest : list jstr)
  | PSubmit.

Inductive event :=
  | EvConnect (clientId : jstr)
  | EvData (c : nat) (data : bytes)
  | EvDrain (c : nat) (n : Z)
  | EvIdle (c : nat)
  | EvError (c : nat)
  | EvEnd (c : nat)
  | EvClose (c : nat)
  | EvTick
  | EvReply (i : nat) (x : exchange).

Section Server.
Context {L : RandomXLib}.

(** The shared secret, and what the environment answers: the time of the [n]-th
    rate-limiter call, and the bytes of the [n]-th [crypto.randomBytes] call. *)
Variable STRATUM_PASSWORD : jstr.
Variable clock : nat -> Z.
Variable randomBytes : nat -> nat -> bytes.

Record proxy := Proxy {
  jobCounter : Z;
  currentJob : option job;
  miners : list (jstr * nat);
  conns : list conn;
  randomxCache : option rx_cache;
  randomxVM : option rx_vm;
  globalSubmitTimes : list Z;
  clock_calls : nat;
  rand_calls : nat;
  pending : list task;
  crashed : bool;
  trace : list effect;
}.

(** ** Field updates *)

Definition with_trace (e : effect) (s : proxy) : proxy :=
  Proxy (jobCounter s) (currentJob s) (miners s) (conns s) (randomxCache s) (randomxVM s)
    (globalSubmitTimes s) (clock_calls s) (rand_calls s) (pending s) (crashed s) (e :: trace s).

Definition with_conns (f : list conn -> list conn) (s : proxy) : proxy :=
  Proxy (jobCounter s) (currentJob s) (miners s) (f (conns s)) (randomxCache s) (randomxVM s)
    (globalSubmitTimes s) (clock_calls s) (rand_calls s) (pending s) (crashed s) (trace s).

Definition with_miners (f : list (jstr * nat) -> list (jstr * nat)) (s : proxy) : proxy :=
  Proxy (jobCounter s) (currentJob s) (f (miners s)) (conns s) (randomxCache s) (randomxVM s)
    (globalSubmitTimes s) (clock_calls s) (rand_calls s) (pending s) (crashed s) (trace s).

Definition with_job (n : Z) (j : option job) (s : proxy) : proxy :=
  Proxy n j (miners s) (conns s) (randomxCache s) (randomxVM s)
    (globalSubmitTimes s) (clock_calls s) (rand_calls s) (pending s) (crashed s) (trace s).

Definition with_randomx (c : option rx_cache) (v : option rx_vm) (s : proxy) : proxy :=
  Proxy (jobCounter s) (currentJob s) (miners s) (conns s) c v
    (globalSubmitTimes s) (clock_calls s) (rand_calls s) (pending s) (crashed s) (trace s).

Definition with_limiter (g : list Z) (s : proxy) : proxy :=
  Proxy (jobCounter s) (currentJob s) (miners s) (conns s) (randomxCache s) (randomxVM s)
    g (S (clock_calls s)) (rand_calls s) (pending s) (crashed s) (trace s).

Definition with_rand (s : proxy) : proxy :=
  Proxy (jobCounter s) (currentJob s) (miners s) (conns s) (randomxCache s) (randomxVM s)
    (globalSubmitTimes s) (clock_calls s) (S (rand_calls s)) (pending s) (crashed s) (trace s).

Definition with_pending (p : list task) (s : proxy) : proxy :=
  Proxy (jobCounter s) (currentJob s) (miners s) (conns s) (randomxCache s) (randomxVM s)
    (globalSubmitTimes s) (clock_calls s) (rand_calls s) p (crashed s) (trace s).

Definition crash (s : proxy) : proxy :=
  Proxy (jobCounter s) (currentJob s) (miners s) (conns s) (randomxCache s) (randomxVM s)
    (globalSubmitTimes s) (clock_calls s) (rand_calls s) (pending s) true (trace s).

Definition upd (c : nat) (f : conn -> conn) : proxy -> proxy := with_conns (alter f c).

Definition new_conn (clientId : jstr) : conn :=
  {| c_client := clientId; c_address := VNull; c_authorized := false; c_protocol := None;
     c_currentJobId := None; c_extraNonce1 := None; c_subscriptionId := None; c_buffer := [];
     c_submitTimes := []; c_readable := true; c_writable := true; c_destroyed := false; c_queued := 0; c_closed := false |}.

Definition set_address (v : val) (m : conn) : conn :=
  Conn (c_client m) v (c_authorized m) (c_protocol m) (c_currentJobId m) (c_extraNonce1 m)
    (c_subscriptionId m) (c_buffer m) (c_submitTimes m) (c_readable m) (c_writable m) (c_destroyed m) (c_queued m) (c_closed m).

Definition set_authorized (m : conn) : conn :=
  Conn (c_client m) (c_address m) true (c_protocol m) (c_currentJobId m) (c_extraNonce1 m)
    (c_subscriptionId m) (c_buffer m) (c_submitTimes m) (c_readable m) (c_writable m) (c_destroyed m) (c_queued m) (c_closed m).

Definition set_protocol (p : protocol) (m : conn) : conn :=
  Conn (c_client m) (c_address m) (c_authorized m) (Some p) (c_currentJobId m) (c_extraNonce1 m)
    (c_subscriptionId m) (c_buffer m) (c_submitTimes m) (c_readable m) (c_writable m) (c_destroyed m) (c_queued m) (c_closed m).

Definition set_jobid (i : jstr) (m : conn) : conn :=
  Conn (c_client m) (c_address m) (c_authorized m) (c_protocol m) (Some i) (c_extraNonce1 m)
    (c_subscriptionId m) (c_buffer m) (c_submitTimes m) (c_readable m) (c_writable m) (c_destroyed m) (c_queued m) (c_closed m).

Definition set_extranonce (e : jstr) (m : conn) : conn :=
  Conn (c_client m) (c_address m) (c_authorized m) (c_protocol m) (c_currentJobId m) (Some e)
    (c_subscriptionId m) (c_buffer m) (c_submitTimes m) (c_readable m) (c_writable m) (c_destroyed m) (c_queued m) (c_closed m).

Definition set_subscription (i : jstr) (m : conn) : conn :=
  Conn (c_client m) (c_address m) (c_authorized m) (c_protocol m) (c_currentJobId m) (c_extraNonce1 m)
    (Some i) (c_buffer m) (c_submitTimes m) (c_readable m) (c_writable m) (c_destroyed m) (c_queued m) (c_closed m).

Definition set_buffer (b : jstr) (m : conn) : conn :=
  Conn (c_client m) (c_address m) (c_authorized m) (c_protocol m) (c_currentJobId m) (c_extraNonce1 m)
    (c_subscriptionId m) b (c_submitTimes m) (c_readable m) (c_writable m) (c_destroyed m) (c_queued m) (c_closed m).

Definition set_times (t : list Z) (m : conn) : conn :=
  Conn (c_client m) (c_address m) (c_authorized m) (c_protocol m) (c_currentJobId m) (c_extraNonce1 m)
    (c_subscriptionId m) (c_buffer m) t (c_readable m) (c_writable m) (c_destroyed m) (c_queued m) (c_closed m).

Definition set_queued (n : Z) (m : conn) : conn :=
  Conn (c_client m) (c_address m) (c_authorized m) (c_protocol m) (c_currentJobId m) (c_extraNonce1 m)
    (c_subscriptionId m) (c_buffer m) (c_submitTimes m) (c_readable m) (c_writable m) (c_destroyed m) n (c_closed m).

(** [socket.destroy()]: nothing is read or written afterwards. *)
Definition destroy (m : conn) : conn :=
  Conn (c_client m) (c_address m) (c_authorized m) (c_protocol m) (c_currentJobId m) (c_extraNonce1 m)
    (c_subscriptionId m) (c_buffer m) (c_submitTimes m) false false true (c_queued m) (c_closed m).

(** The peer's FIN: the socket ends its own side too ([allowHalfOpen] is off). *)
Definition half_close (m : conn) : conn :=
  Conn (c_client m) (c_address m) (c_authorized m) (c_protocol m) (c_currentJobId m) (c_extraNonce1 m)
    (c_subscriptionId m) (c_buffer m) (c_submitTimes m) false false (c_destroyed m) (c_queued m) (c_closed m).

(** The ['close'] event. *)
Definition close_conn (m : conn) : conn :=
  Conn (c_client m) (c_address m) (c_authorized m) (c_protocol m) (c_currentJobId m) (c_extraNonce1 m)
    (c_subscriptionId m) (c_buffer m) (c_submitTimes m) false false true (c_queued m) true.

(** ** Handlers as state transformers that may throw

    A throw keeps the mutations made before it. *)

Definition M (A : Type) : Type := proxy -> proxy * res A.

#[local] Instance M_ret : MRet M := fun A a s => (s, Ok a).
#[local] Instance M_bind : MBind M := fun A B f m s =>
  match m s with
  | (s', Ok a) => f a s'
  | (s', Throw e) => (s', Throw e)
  end.

Definition lift {A} (r : res A) : M A := fun s => (s, r).
Definition modify (f : proxy -> proxy) : M unit := fun s => (f s, Ok tt).
Definition gets {A} (f : proxy -> A) : M A := fun s => (s, Ok (f s)).

(** The connection a handler closes over. *)
Definition minerInfo (c : nat) : M conn := fun s =>
  match conns s !! c with
  | Some m => (s, Ok m)
  | None => (s, Throw RuntimeError)
  end.

(** A template literal in a log line coerces its argument. *)
Definition log_value (v : val) : M unit := lift (_ ← to_string v; Ok tt).

Definition safeWrite (c : nat) (m : message) : M unit :=
  k ← minerInfo c;
  let n := byteLength (render m) in
  if negb (c_writable k) then mret tt
  else if MAX_WRITABLE_BUFFER <? c_queued k + n then modify (upd c destroy)
  else modify (fun s => with_trace (EWrote c m) (upd c (set_queued (c_queued k + n)) s)).

(** [crypto.randomBytes(n).toString('hex')]. *)
Definition random_hex (n : nat) : M jstr := fun s =>
  (with_rand s, Ok (to_hex (randomBytes (rand_calls s) n))).

(** [rateLimitedSubmit(minerInfo)] with the time it read. *)
Definition limit (c : nat) (k : conn) : M (bool * Z) := fun s =>
  let now := clock (clock_calls s) in
  let '(b, g, p) := rateLimitedSubmit now (globalSubmitTimes s) (c_submitTimes k) in
  let s' := upd c (set_times p) (with_limiter g s) in
  (if b then s' else with_trace (EAdmit now c) s', Ok (b, now)).

Definition limited (c : nat) : M (bool * Z) := k ← minerInfo c; limit c k.

Definition create_job (tpl : val) : M job := fun s =>
  let '(n, r) := createRandomXJob (jobCounter s) tpl in
  (with_job n (currentJob s) s, r).

Definition set_current (j : job) : M unit := modify (fun s => with_job (jobCounter s) (Some j) s).

(** [initRandomX(epoch)]: an error is caught; the cache may already be replaced. *)
Definition initRandomX (ep : num) (s : proxy) : proxy :=
  match randomx_init_cache (from_hex (getEpochSeedHash ep)) with
  | None => s
  | Some cache =>
      match randomx_create_vm cache with
      | None => with_randomx (Some cache) (randomxVM s) s
      | Some vm => with_randomx (Some cache) (Some vm) s
      end
  end.

(** [submitBlockToNode], not awaited: it runs up to its request, or logs and
    stops; an exception stays inside. *)
Definition submitBlockToNode (c : nat) (j : job) (nonce ntime : val) (rxHash : jstr) : M unit :=
  modify (fun s =>
    match block_hex j nonce ntime rxHash with
    | Ok (Some h) => with_trace (ESubmitRpc c h) (with_pending (pending s ++ [PSubmit]) s)
    | _ => s
    end).

(** From the hash to the answer: the common tail of both submit handlers. *)
Definition score_submit (c : nat) (reply : bool -> message) (j : job) (nonce ntime : val)
    (header112 : jstr) (now : Z) : M unit :=
  vm ← gets randomxVM;
  _ ← modify (with_trace (EHash now c));
  ev ← lift (evaluate_share vm j header112);
  match ev with
  | HashFailed => safeWrite c (reply false)
  | Evaluated rxHash isValidShare isBlock =>
      if isBlock then
        _ ← submitBlockToNode c j nonce ntime rxHash;
        safeWrite c (reply true)
      else safeWrite c (reply isValidShare)
  end.

(** *** XMRig *)

(** [login]; the result is the request id when the handler suspends. *)
Definition xmrig_login (c : nat) (id msg : val) : M (option val) :=
  params ← lift (get msg (js "params"));
  pw ← lift (if truthy params then get params (js "password") else Ok VUndef);
  if negb (truthy params) || negb (is_str pw STRATUM_PASSWORD) then
    _ ← safeWrite c (MXSubmit id false);
    mret None
  else
    login ← lift (get params (js "login"));
    user ← lift (get params (js "user"));
    _ ← modify (upd c (set_address (or_else login (or_else user (VStr (js "unknown"))))));
    _ ← modify (with_trace (ELoginRpc c));
    mret (Some id).

(** The rest of [login], with the template (or [null]). *)
Definition finish_login (c : nat) (id tpl : val) : M unit :=
  if truthy tpl then
    extraNonce1 ← random_hex 4;
    j ← create_job tpl;
    _ ← modify (upd c (set_jobid (job_id j)));
    _ ← modify (upd c (set_extranonce extraNonce1));
    _ ← set_current j;
    _ ← safeWrite c (MLogin id extraNonce1 j);
    _ ← modify (upd c set_authorized);
    k ← minerInfo c;
    log_value (c_address k)
  else safeWrite c (MXSubmit id false).

Definition xmrig_submit (c : nat) (id msg : val) : M unit :=
  k ← minerInfo c;
  if negb (c_authorized k) then mret tt else
  params ← lift (get msg (js "params"));
  jobId ← lift (get params (js "job_id"));
  nonce ← lift (get params (js "nonce"));
  ntime ← lift (get params (js "ntime"));
  cur ← gets currentJob;
  match cur with
  | Some j =>
      if negb (is_str jobId (job_id j)) then
        _ ← log_value jobId; safeWrite c (MXSubmit id false)
      else
        '(over, now) ← limited c;
        if (over : bool) then modify (upd c destroy) else
        header112 ← lift (buildHeader112 (blob j) nonce ntime);
        match header112 with
        | None | Some [] => safeWrite c (MXSubmit id false)
        | Some h => score_submit c (MXSubmit id) j nonce ntime h now
        end
  | None => _ ← log_value jobId; safeWrite c (MXSubmit id false)
  end.

Definition xmrig_message (c : nat) (id msg method : val) : M (option val) :=
  if is_str method (js "login") then xmrig_login c id msg
  else if is_str method (js "submit") then _ ← xmrig_submit c id msg; mret None
  else if is_str method (js "keepalived") || is_str method (js "ping") then
    _ ← safeWrite c (MKeepalive id); mret None
  else mret None.

(** *** Stratum *)

Definition stratum_subscribe (c : nat) (id : val) : M unit :=
  extraNonce1 ← random_hex 4;
  _ ← modify (upd c (set_extranonce extraNonce1));
  sub ← random_hex 8;
  _ ← modify (upd c (set_subscription sub));
  sent ← random_hex 8;
  safeWrite c (MSubscribe sent id extraNonce1).

Definition stratum_authorize (c : nat) (id msg : val) : M unit :=
  params ← lift (get msg (js "params"));
  p0 ← lift (if truthy params then get_idx params 0 else Ok VUndef);
  p1 ← lift (if truthy params then get_idx params 1 else Ok VUndef);
  let workerName := if truthy p0 then p0 else VStr (js "unknown") in
  if negb (is_str p1 STRATUM_PASSWORD) then
    _ ← log_value workerName;
    _ ← modify (upd c (set_address workerName));
    safeWrite c (MAuthorize id false)
  else
    _ ← modify (upd c (set_address workerName));
    _ ← modify (upd c set_authorized);
    _ ← safeWrite c (MAuthorize id true);
    cur ← gets currentJob;
    _ ← (match cur with
         | Some j =>
             text ← lift (createStratumJobNotify j);
             _ ← safeWrite c (MSNotify j text);
             modify (upd c (set_jobid (job_id j)))
         | None => mret tt
         end : M unit);
    log_value workerName.

(** [typeof v !== 'string' || !/^[0-9a-fA-F]{8}$/.test(v)]. *)
Definition not_hex8 (v : val) : bool := match v with VStr s => negb (re_hex 8 s) | _ => true end.

Definition stratum_submit (c : nat) (id msg : val) : M unit :=
  k ← minerInfo c;
  if negb (c_authorized k) then safeWrite c (MSSubmit id false) else
  params ← lift (get msg (js "params"));
  _ ← lift (get_idx params 0);
  jobId ← lift (get_idx params 1);
  _ ← lift (get_idx params 2);
  ntime ← lift (get_idx params 3);
  nonce ← lift (get_idx params 4);
  cur ← gets currentJob;
  match cur with
  | Some j =>
      if negb (is_str jobId (job_id j)) then
        _ ← log_value jobId; safeWrite c (MSSubmit id false)
      else
        '(over, now) ← limited c;
        if (over : bool) then modify (upd c destroy) else
        if not_hex8 nonce then _ ← log_value nonce; safeWrite c (MSSubmit id false) else
        if not_hex8 ntime then _ ← log_value ntime; safeWrite c (MSSubmit id false) else
        header112 ← lift (buildHeader112 (blob j) nonce ntime);
        match header112 with
        | None | Some [] => safeWrite c (MSSubmit id false)
        | Some h => score_submit c (MSSubmit id) j nonce ntime h now
        end
  | None => _ ← log_value jobId; safeWrite c (MSSubmit id false)
  end.

Definition stratum_message (c : nat) (id msg method : val) : M unit :=
  if is_str method (js "mining.subscribe") then stratum_subscribe c id
  else if is_str method (js "mining.authorize") then stratum_authorize c id msg
  else if is_str method (js "mining.submit") then stratum_submit c id msg
  else mret tt.

(** *** The line loop *)

(** [if (!minerInfo.protocol) ...]: the first login or subscribe decides. *)
Definition choose_protocol (c : nat) (method : val) : M unit :=
  k ← minerInfo c;
  match c_protocol k with
  | Some _ => mret tt
  | None =>
      if is_str method (js "login") then modify (upd c (set_protocol Xmrig))
      else if is_str method (js "mining.subscribe") then modify (upd c (set_protocol Stratum))
      else mret tt
  end.

(** One turn of the loop; [Some id] suspends at [await getBlockTemplate()]. *)
Definition process_line (c : nat) (line : jstr) : M (option val) :=
  _ ← modify (with_trace (ELine c line));
  match trim line with
  | [] => mret None
  | text =>
      match JSON_parse text with
      | Throw _ => mret None
      | Ok msg =>
          i ← lift (get msg (js "id"));
          let id := if is_undef i then VNull else i in
          method ← lift (get msg (js "method"));
          _ ← choose_protocol c method;
          k ← minerInfo c;
          match c_protocol k with
          | Some Xmrig => xmrig_message c id msg method
          | Some Stratum => _ ← stratum_message c id msg method; mret None
          | None => mret None
          end
      end
  end.

(** How the loop over some lines ended: all done, suspended at a login with the
    lines left, or aborted by an exception (the lines left are lost). *)
Inductive loop_end := AllDone | Suspended (id : val) (rest : list jstr) | Aborted (rest : list jstr).

Fixpoint process_lines (c : nat) (lines : list jstr) (s : proxy) : proxy * loop_end :=
  match lines with
  | [] => (s, AllDone)
  | line :: rest =>
      match process_line c line s with
      | (s', Ok None) => process_lines c rest s'
      | (s', Ok (Some id)) => (s', Suspended id rest)
      | (s', Throw _) => (s', Aborted rest)
      end
  end.

(** The handler from the loop on: a suspension leaves a task behind. *)
Definition run_lines (c : nat) (lines : list jstr) (s : proxy) : proxy :=
  match process_lines c lines s with
  | (s', Suspended id rest) => with_pending (pending s' ++ [PLogin c id rest]) s'
  | (s', _) => s'
  end.

(** [socket.on('data', ...)]. *)
Definition on_data (c : nat) (data : bytes) (s : proxy) : proxy :=
  match conns s !! c with
  | None => s
  | Some m =>
      let buffer := c_buffer m ++ utf8_decode data in
      if MAX_INPUT_BUFFER <? Z.of_nat (length buffer)
      then upd c (fun m => destroy (set_buffer buffer m)) s
      else
        let '(lines, rest) := split_nl buffer in
        run_lines c lines (upd c (set_buffer rest) s)
  end.

(** ** Connections *)

(** [Map#set] keeps the place of an existing key. *)
Fixpoint map_set (k : jstr) (c : nat) (l : list (jstr * nat)) : list (jstr * nat) :=
  match l with
  | [] => [(k, c)]
  | (k', c') :: r => if str_eqb k k' then (k', c) :: r else (k', c') :: map_set k c r
  end.

Definition map_delete (k : jstr) (l : list (jstr * nat)) : list (jstr * nat) :=
  List.filter (fun p => negb (str_eqb k (fst p))) l.

(** The connection handler; a refused socket is destroyed and gets no handlers. *)
Definition on_connection (clientId : jstr) (s : proxy) : proxy :=
  if (MAX_CONNECTIONS <=? length (miners s))%nat then s
  else
    let c := length (conns s) in
    with_miners (map_set clientId c) (with_conns (fun l => l ++ [new_conn clientId]) s).

(** [socket.on('close', ...)]. *)
Definition on_close (c : nat) (s : proxy) : proxy :=
  match conns s !! c with
  | None => s
  | Some m => with_miners (map_delete (c_client m)) (upd c close_conn s)
  end.

(** ** Startup and periodic update *)

(** The startup function once its template is there.  Nothing catches its
    exceptions: an unhandled rejection ends the process. *)
Definition on_startup (tpl : val) (s : proxy) : proxy :=
  if negb (truthy tpl) then s else
  match create_job tpl s with
  | (s', Throw _) => crash s'
  | (s', Ok j) =>
      let s' := with_job (jobCounter s') (Some j) s' in
      match to_string (height j) with
      | Throw _ => crash s'
      | Ok _ => initRandomX (epoch j) s'
      end
  end.

(** The body of [miners.forEach]; its exceptions are swallowed. *)
Definition notify_miner (j : job) (c : nat) : M unit :=
  k ← minerInfo c;
  if negb (c_authorized k && c_writable k) then mret tt else
  _ ← (match c_protocol k with
       | Some Xmrig => safeWrite c (MXNotify j)
       | Some Stratum => text ← lift (createStratumJobNotify j); safeWrite c (MSNotify j text)
       | None => mret tt
       end : M unit);
  modify (upd c (set_jobid (job_id j))).

Fixpoint broadcast (j : job) (cs : list nat) (s : proxy) : proxy :=
  match cs with
  | [] => s
  | c :: r => broadcast j r (fst (notify_miner j c s))
  end.

(** The interval callback once its template is there. *)
Definition on_update (tpl : val) (s : proxy) : proxy :=
  if negb (truthy tpl) then s else
  match create_job tpl s with
  | (s1, Throw _) => crash s1
  | (s1, Ok j) =>
      let s2 := match currentJob s1 with
                | Some cur => if num_eq (epoch cur) (epoch j) then s1 else initRandomX (epoch j) s1
                | None => s1
                end in
      let s3 := with_job (jobCounter s2) (Some j) s2 in
      let s4 := broadcast j (map snd (miners s3)) s3 in
      match to_string (height j) with
      | Throw _ => crash s4
      | Ok _ => s4
      end
  end.

(** ** The event loop *)

(** A settled exchange resumes the task that waits for it. *)
Definition resume (t : task) (x : exchange) (s : proxy) : proxy :=
  match t with
  | PStartup => on_startup (getBlockTemplate x) s
  | PTick => on_update (getBlockTemplate x) s
  | PSubmit => with_trace (EOutcome (submit_result (makeRpcRequest x))) s
  | PLogin c id rest =>
      match finish_login c id (getBlockTemplate x) s with
      | (s', Ok _) => run_lines c rest s'
      | (s', Throw _) => s'
      end
  end.

(** [None] when the event cannot happen: no such socket, one that is closed or no
    longer read, more bytes drained than queued, no such exchange, or a dead process. *)
Definition step (s : proxy) (ev : event) : option proxy :=
  if crashed s then None else
  match ev with
  | EvConnect clientId => Some (on_connection clientId s)
  | EvData c data =>
      m ← conns s !! c;
      if c_readable m then Some (on_data c data s) else None
  | EvDrain c n =>
      m ← conns s !! c;
      if (0 <=? n) && (n <=? c_queued m) then Some (upd c (fun m => set_queued (c_queued m - n) m) s) else None
  | EvIdle c | EvError c =>
      m ← conns s !! c;
      if c_closed m then None else Some (upd c destroy s)
  | EvEnd c =>
      m ← conns s !! c;
      if c_readable m then Some (upd c half_close s) else None
  | EvClose c =>
      m ← conns s !! c;
      if c_closed m then None else Some (on_close c s)
  | EvTick => Some (with_trace ETemplateRpc (with_pending (pending s ++ [PTick]) s))
  | EvReply i x =>
      t ← pending s !! i;
      Some (resume t x (with_pending (delete i (pending s)) s))
  end.

(** The process after its synchronous start: listening, the first template
    requested. *)
Definition init : proxy :=
  {| jobCounter := 0; currentJob := None; miners := []; conns := []; randomxCache := None;
     randomxVM := None; globalSubmitTimes := []; clock_calls := 0; rand_calls := 0;
     pending := [PStartup]; crashed := false; trace := [ETemplateRpc] |}.

Fixpoint run (s : proxy) (evs : list event) : option proxy :=
  match evs with
  | [] => Some s
  | ev :: r => s' ← step s ev; run s' r
  end.

Inductive reachable : proxy -> Prop :=
  | reach_init : reachable init
  | reach_step s ev s' : reachable s -> step s ev = Some s' -> reachable s'.

End Server.
