(* ===== verification/ProxyServerInv.v ===== *)
(** * Stratum proxy: invariants of the server

    One inductive invariant of the event loop and the theorems read off it: the
    resource caps, the shared secret as the only way to work and to jobs, the
    RandomX budget, the key of the RandomX machine, and the form of everything
    that is written.  Handlers are verified with a small forward calculus: [ok]
    says that a computation started in a state keeps the invariant, only extends
    the history and satisfies a postcondition if it returns. *)

From Stdlib Require Import ZArith Lia Bool String SpecFloat.
From stdpp Require Import base list numbers option.
From S2P Require Import Prelude JsNum Bytes JsStr JsValue Utf8 Sha256 Libs ProxyCodec ProxyCodecFacts ProxyRate ProxyMessages ProxyRpc ProxyServer.

Open Scope Z_scope.

(** ** What the history says *)

(** A line whose message carries the shared secret, where either protocol looks
    for it. *)
Definition presents (secret line : jstr) : bool :=
  match JSON_parse (trim line) with
  | Ok msg =>
      match get msg (js "params") with
      | Ok p =>
          truthy p &&
          ((match get p (js "password") with Ok w => is_str w secret | Throw _ => false end) ||
           (match get_idx p 1 with Ok w => is_str w secret | Throw _ => false end))
      | Throw _ => false
      end
  | Throw _ => false
  end.

(** Connection [c] has sent the secret. *)
Definition presented (secret : jstr) (c : nat) (tr : list effect) : Prop :=
  exists line, ELine c line ∈ tr /\ presents secret line = true.

(** Messages that give a job away. *)
Definition carries_job (m : message) : bool :=
  match m with MLogin _ _ _ | MXNotify _ | MSNotify _ _ => true | _ => false end.

Definition message_ok (m : message) : Prop :=
  match m with MSNotify j text => createStratumJobNotify j = Ok text | _ => True end.

(** Admissions and RandomX computations, latest first. *)
Fixpoint admits (tr : list effect) : list (Z * nat) :=
  match tr with
  | EAdmit now c :: r => (now, c) :: admits r
  | _ :: r => admits r
  | [] => []
  end.

Fixpoint hashes (tr : list effect) : list (Z * nat) :=
  match tr with
  | EHash now c :: r => (now, c) :: hashes r
  | _ :: r => hashes r
  | [] => []
  end.

(** What a recorded effect says about the connection it served. *)
Definition effect_ok (secret : jstr) (tr : list effect) (e : effect) : Prop :=
  match e with
  | EWrote c m => message_ok m /\ (carries_job m = true -> presented secret c tr)
  | EHash _ c | ESubmitRpc c _ | ELoginRpc c => presented secret c tr
  | _ => True
  end.

Lemma subset_cons (e : effect) tr : tr ⊆ e :: tr.
Proof. intros x Hx. by right. Qed.

Lemma presented_mono secret c tr tr' :
  presented secret c tr -> tr ⊆ tr' -> presented secret c tr'.
Proof. intros (l & Hl & Hp) Hs. exists l. split; [by apply Hs|done]. Qed.

Lemma effect_ok_mono secret tr tr' e : effect_ok secret tr e -> tr ⊆ tr' -> effect_ok secret tr' e.
Proof. destruct e; cbn; intuition eauto using presented_mono. Qed.

(** ** The rate limiter inside the server *)

Definition limiter_of (g : list Z) (cs : list conn) : limiter :=
  {| l_global := g; l_peers := fun c => match cs !! c with Some m => c_submitTimes m | None => [] end |}.

Lemma sim_ext t s s' hist :
  l_global s = l_global s' -> (forall p, l_peers s p = l_peers s' p) -> sim t s hist -> sim t s' hist.
Proof. intros Eg Ep [H1 H2 H3 H4]. split; intros; rewrite <- ?Eg, <- ?Ep; auto. Qed.

Record rate_inv (clock : nat -> Z) (g : list Z) (n : nat) (cs : list conn) (tr : list effect) : Prop := {
  rate_hist : exists t, sim t (limiter_of g cs) (rev (admits tr)) /\
    Forall (fun a => fst a <= t) (rev (admits tr)) /\ (forall i, (n <= i)%nat -> t <= clock i);
  rate_global : budget SUBMIT_RATE_WINDOW_MS SUBMIT_RATE_MAX_GLOBAL any_peer (rev (admits tr));
  rate_peer : forall p, budget PEER_SUBMIT_WINDOW_MS PEER_SUBMIT_MAX (of_peer p) (rev (admits tr));
  rate_known : Forall (fun a => (snd a < length cs)%nat) (admits tr);
}.

Definition monotone_clock (clock : nat -> Z) : Prop := forall i j, (i <= j)%nat -> clock i <= clock j.

(** ** The invariant *)

Definition conn_ok (m : conn) : Prop :=
  c_queued m <= MAX_WRITABLE_BUFFER /\
  (c_destroyed m = true \/ Z.of_nat (length (c_buffer m)) <= MAX_INPUT_BUFFER).

(** Compute the fields of updated states, and nothing else. *)
Ltac fields :=
  cbn [with_trace with_conns with_miners with_job with_randomx with_limiter with_rand with_pending crash upd
     jobCounter currentJob miners conns randomxCache randomxVM globalSubmitTimes clock_calls rand_calls pending crashed trace] in *.

Section Invariant.
Context {L : RandomXLib}.
Variable secret : jstr.
Variable clock : nat -> Z.
Variable randomBytes : nat -> nat -> bytes.

Implicit Types (s : proxy) (c : nat).

(** The code units a list of lines keeps, newlines included. *)
Definition held (lines : list jstr) : Z := Z.of_nat (length (mjoin (map (fun l => l ++ [10]) lines))).

Lemma held_cons l lines : held lines <= held (l :: lines).
Proof.
  unfold held. change (mjoin (map (fun l => l ++ [10]) (l :: lines))) with ((l ++ [10]) ++ mjoin (map (fun l => l ++ [10]) lines)).
  rewrite length_app. lia.
Qed.

(** What a suspended login may be: one that presented the secret, with the lines
    of at most one full input buffer. *)
Definition login_ok c (rest : list jstr) (tr : list effect) : Prop :=
  presented secret c tr /\ held rest <= MAX_INPUT_BUFFER.

Lemma login_ok_mono c rest tr tr' : login_ok c rest tr -> tr ⊆ tr' -> login_ok c rest tr'.
Proof. intros [H1 H2] H. split; [by eapply presented_mono|done]. Qed.

Record Inv s : Prop := {
  inv_conns : Forall conn_ok (conns s);
  inv_miners : (length (miners s) <= MAX_CONNECTIONS)%nat;
  inv_auth : forall c m, conns s !! c = Some m -> c_authorized m = true -> presented secret c (trace s);
  inv_pending : forall c id rest, PLogin c id rest ∈ pending s -> login_ok c rest (trace s);
  inv_trace : Forall (effect_ok secret (trace s)) (trace s);
  inv_rate : monotone_clock clock ->
    rate_inv clock (globalSubmitTimes s) (clock_calls s) (conns s) (trace s);
  inv_hashes : hashes (trace s) `sublist_of` admits (trace s);
  inv_vm : forall vm, randomxVM s = Some vm -> exists e, keyed vm (from_hex (getEpochSeedHash e));
  inv_job : 0 <= jobCounter s /\
    forall j, currentJob s = Some j -> exists n, 0 < n <= jobCounter s /\ job_id j = dec_string n;
}.

Lemma rate_init : monotone_clock clock -> rate_inv clock [] 0 [] [ETemplateRpc].
Proof.
  intros Hm. split; cbn [admits rev].
  - exists (clock 0). split; [|split; [constructor|intros; apply Hm; lia]].
    apply (sim_ext _ limiter0); [reflexivity|reflexivity|apply sim0].
  - intros t. cbn. lia.
  - intros p t. cbn. lia.
  - constructor.
Qed.

Lemma inv_init : Inv init.
Proof.
  split.
  - constructor.
  - cbn. lia.
  - intros c m. cbn. discriminate.
  - intros c id rest H%list_elem_of_singleton. discriminate.
  - repeat constructor.
  - exact rate_init.
  - constructor.
  - intros vm. discriminate.
  - split; [reflexivity|]. intros j. discriminate.
Qed.

(** ** Primitive updates *)

Definition extends s s' : Prop := exists l, trace s' = l ++ trace s.

Lemma extends_refl s : extends s s.
Proof. by exists []. Qed.

Lemma extends_trans s1 s2 s3 : extends s1 s2 -> extends s2 s3 -> extends s1 s3.
Proof. intros [l1 E1] [l2 E2]. exists (l2 ++ l1). by rewrite E2, E1, app_assoc. Qed.

Lemma extends_subset s s' : extends s s' -> trace s ⊆ trace s'.
Proof. intros [l ->] x Hx. apply elem_of_app. by right. Qed.

Lemma presented_extends c s s' : presented secret c (trace s) -> extends s s' -> presented secret c (trace s').
Proof. eauto using presented_mono, extends_subset. Qed.

(** The last admission, not yet spent on a computation. *)
Definition fresh_admit (now : Z) c s : Prop :=
  exists l, admits (trace s) = (now, c) :: l /\ hashes (trace s) `sublist_of` l.

Definition recordable (e : effect) s : Prop :=
  effect_ok secret (trace s) e /\
  match e with EAdmit _ _ => False | EHash now c => fresh_admit now c s | _ => True end.

Lemma inv_with_trace e s : Inv s -> recordable e s -> Inv (with_trace e s).
Proof.
  intros [H1 H2 H3 H4 H5 H6 H6' H7 H8] [He Hh].
  pose proof (subset_cons e (trace s)) as Hsub.
  split; fields; eauto using presented_mono, login_ok_mono.
  - constructor; [by eapply effect_ok_mono|]. revert H5. apply Forall_impl. intros ? ?. by eapply effect_ok_mono.
  - intros Hm. destruct (H6 Hm) as [A1 A2 A3 A4].
    assert (admits (e :: trace s) = admits (trace s)) as Ea by (by destruct e). split; rewrite Ea; done.
  - destruct e as [| | |now c| | | |]; try done. cbn. destruct Hh as (l & -> & Hl). by constructor.
Qed.

(** A change of one connection that keeps its caps and its submit times. *)
Definition conn_step c (f : conn -> conn) s : Prop :=
  forall m, conns s !! c = Some m -> conn_ok m ->
    conn_ok (f m) /\ c_submitTimes (f m) = c_submitTimes m /\
    (c_authorized (f m) = true -> c_authorized m = true \/ presented secret c (trace s)).

Lemma limiter_upd g c f cs :
  (forall m, cs !! c = Some m -> c_submitTimes (f m) = c_submitTimes m) ->
  forall p, l_peers (limiter_of g cs) p = l_peers (limiter_of g (alter f c cs)) p.
Proof.
  intros Hf p. cbn. destruct (decide (p = c)) as [->|Hne].
  - rewrite list_lookup_alter_eq. destruct (cs !! c) as [m|] eqn:E; cbn; [|done]. by rewrite Hf.
  - by rewrite list_lookup_alter_ne.
Qed.

Lemma inv_upd c f s : Inv s -> conn_step c f s -> Inv (upd c f s).
Proof.
  intros [H1 H2 H3 H4 H5 H6 H6' H7 H8] Hf.
  assert (forall m, conns s !! c = Some m -> conn_ok m) as Hok by (intros m Hm; by eapply Forall_lookup_1).
  split; fields; eauto.
  - apply Forall_alter; [done|]. intros m Hm ?. by apply Hf.
  - intros p m Hp Ha. destruct (decide (p = c)) as [->|Hne].
    + rewrite list_lookup_alter_eq in Hp. destruct (conns s !! c) as [k|] eqn:E; [|done]. injection Hp as <-.
      destruct (Hf k E (Hok k eq_refl)) as (_ & _ & Hx). destruct (Hx Ha) as [Hk|]; [by eapply H3|done].
    + rewrite list_lookup_alter_ne in Hp by done. by eapply H3.
  - intros Hm. destruct (H6 Hm) as [(t & A1 & A1') A2 A3 A4]. split; try done.
    + exists t. split; [|done]. eapply sim_ext; [| |exact A1]; [done|]. apply limiter_upd.
      intros m E. by apply (Hf m E (Hok m E)).
    + by rewrite length_alter.
Qed.

Lemma inv_with_pending p s :
  Inv s -> (forall c id rest, PLogin c id rest ∈ p -> login_ok c rest (trace s)) -> Inv (with_pending p s).
Proof. intros [H1 H2 H3 H4 H5 H6 H6' H7 H8] Hp. by split. Qed.

Lemma inv_with_miners f s :
  Inv s -> (length (f (miners s)) <= MAX_CONNECTIONS)%nat -> Inv (with_miners f s).
Proof. intros [H1 H2 H3 H4 H5 H6 H6' H7 H8] Hp. by split. Qed.

Lemma inv_crash s : Inv s -> Inv (crash s).
Proof. intros [H1 H2 H3 H4 H5 H6 H6' H7 H8]. by split. Qed.

Lemma inv_with_rand s : Inv s -> Inv (with_rand s).
Proof. intros [H1 H2 H3 H4 H5 H6 H6' H7 H8]. by split. Qed.

Lemma inv_with_job n j s :
  Inv s -> 0 <= n -> (forall j', j = Some j' -> exists k, 0 < k <= n /\ job_id j' = dec_string k) ->
  Inv (with_job n j s).
Proof. intros [H1 H2 H3 H4 H5 H6 H6' H7 H8] Hn Hj. by split. Qed.

Lemma inv_initRandomX ep s : Inv s -> Inv (initRandomX ep s).
Proof.
  intros HI. unfold initRandomX. destruct (randomx_init_cache _) as [cache|] eqn:E1; [|done].
  destruct (randomx_create_vm cache) as [vm|] eqn:E2; destruct HI as [H1 H2 H3 H4 H5 H6 H6' H7 H8]; split; try done.
  cbn [with_randomx randomxVM]. intros vm' [= <-]. exists ep. by exists cache.
Qed.

(** ** The calculus *)

Definition ok {A} s (m : M A) (Q : A -> proxy -> Prop) : Prop :=
  Inv (fst (m s)) /\ extends s (fst (m s)) /\ forall a, snd (m s) = Ok a -> Q a (fst (m s)).

Lemma ok_weaken {A} s (m : M A) (Q Q' : A -> proxy -> Prop) :
  ok s m Q' -> (forall a s', Q' a s' -> Q a s') -> ok s m Q.
Proof. intros (H1 & H2 & H3) HQ. split; [done|]. split; [done|]. eauto. Qed.

Lemma ok_ret {A} s (a : A) (Q : A -> proxy -> Prop) : Inv s -> Q a s -> ok s (mret (MRet := M_ret) a) Q.
Proof. intros HI HQ. split; [done|]. split; [apply extends_refl|]. intros ? [= <-]. done. Qed.

Lemma ok_bind {A B} s (m : M A) (f : A -> M B) Q' Q :
  ok s m Q' ->
  (forall a s', Inv s' -> extends s s' -> Q' a s' -> ok s' (f a) Q) ->
  ok s (mbind (MBind := M_bind) f m) Q.
Proof.
  intros (H1 & H2 & H3) Hf. unfold ok, mbind, M_bind in *. destruct (m s) as [s' [a|e]]; cbn [fst snd] in *; [|done].
  destruct (Hf a s' H1 H2 (H3 a eq_refl)) as (F1 & F2 & F3). split; [done|]. split; [by eapply extends_trans|done].
Qed.

Lemma ok_lift {A} s (r : res A) : Inv s -> ok s (lift r) (fun a s' => s' = s /\ r = Ok a).
Proof. intros HI. split; [done|]. split; [apply extends_refl|]. done. Qed.

Lemma ok_gets {A} s (f : proxy -> A) : Inv s -> ok s (gets f) (fun a s' => s' = s /\ a = f s).
Proof. intros HI. split; [done|]. split; [apply extends_refl|]. intros a [= <-]. done. Qed.

Lemma ok_minerInfo c s : Inv s -> ok s (minerInfo c) (fun k s' => s' = s /\ conns s !! c = Some k).
Proof.
  intros HI. unfold ok, minerInfo. destruct (conns s !! c) as [k|]; cbn [fst snd].
  - split; [done|]. split; [apply extends_refl|]. intros a [= <-]. done.
  - split; [done|]. split; [apply extends_refl|]. done.
Qed.

Lemma ok_log v s : Inv s -> ok s (log_value v) (fun _ s' => s' = s).
Proof. intros HI. eapply ok_weaken; [by apply ok_lift|]. by intros ? ? []. Qed.

Lemma ok_upd c f s : Inv s -> conn_step c f s -> ok s (modify (upd c f)) (fun _ s' => s' = upd c f s).
Proof. intros HI Hf. split; [by apply inv_upd|]. split; [by exists []|done]. Qed.

Lemma ok_trace e s :
  Inv s -> recordable e s -> ok s (modify (with_trace e)) (fun _ s' => s' = with_trace e s).
Proof. intros HI He. split; [by apply inv_with_trace|]. split; [by exists [e]|done]. Qed.

Lemma ok_random n s : Inv s -> ok s (random_hex randomBytes n) (fun _ _ => True).
Proof. intros HI. split; [by apply inv_with_rand|]. split; [by exists []|done]. Qed.

Lemma destroy_step c s : conn_step c destroy s.
Proof. intros m _ [H1 H2]. repeat split; cbn; auto. Qed.

Lemma ok_safeWrite c m s :
  Inv s -> message_ok m -> (carries_job m = true -> presented secret c (trace s)) ->
  ok s (safeWrite c m) (fun _ _ => True).
Proof.
  intros HI Hm Hj. unfold safeWrite. eapply ok_bind; [by apply ok_minerInfo|]. intros k ? _ _ [-> Hk].
  destruct (c_writable k); cbn [negb]; [|by apply ok_ret].
  destruct (Z.ltb_spec MAX_WRITABLE_BUFFER (c_queued k + byteLength (render m))).
  - eapply ok_weaken; [apply ok_upd; [done|apply destroy_step]|done].
  - split; [|split; [by eexists [_]|done]]. apply inv_with_trace; [|by repeat split].
    apply inv_upd; [done|]. intros k' Hk' [_ H2]. repeat split; cbn; auto.
Qed.

(** Reading the limiter is one call of the limiter of [ProxyRate]. *)
Lemma limiter_call g c k cs now b g' p' :
  cs !! c = Some k -> rateLimitedSubmit now g (c_submitTimes k) = (b, g', p') ->
  exists l', call1 (limiter_of g cs) now c = (b, l') /\ l_global l' = g' /\
    forall q, l_peers l' q = l_peers (limiter_of g' (alter (set_times p') c cs)) q.
Proof.
  intros Hk E. unfold call1. cbn [limiter_of l_global l_peers]. rewrite Hk, E. eexists. split; [done|]. split; [done|].
  intros q. cbn. destruct (Nat.eqb_spec q c) as [->|Hne].
  - by rewrite list_lookup_alter_eq, Hk.
  - by rewrite list_lookup_alter_ne.
Qed.

Lemma rate_step g n cs tr c k b g' p' :
  monotone_clock clock -> rate_inv clock g n cs tr -> cs !! c = Some k ->
  rateLimitedSubmit (clock n) g (c_submitTimes k) = (b, g', p') ->
  rate_inv clock g' (S n) (alter (set_times p') c cs) (if b then tr else EAdmit (clock n) c :: tr).
Proof.
  intros Hm [(t & A1 & A2 & A3) B1 B2 B3] Hk E.
  destruct (limiter_call g c k cs (clock n) b g' p' Hk E) as (l' & Ec & El & Ep).
  pose proof (A3 n (le_n n)) as Ht. pose proof (sim_step _ _ _ _ _ _ _ A1 Ht Ec) as A1'.
  pose proof (sim_decides _ _ _ (clock n) c A1 Ht) as Hd. rewrite Ec in Hd. cbn [fst] in Hd.
  destruct (spec_run_budgets [(clock n, c)] t _ (conj Ht I) A2 B1 B2) as [C1 C2].
  rewrite spec_run_snd, <- Hd in C1. assert (forall p, _) as C2' by (intros p; specialize (C2 p); rewrite spec_run_snd, <- Hd in C2; exact C2).
  assert (rev (admits (if b then tr else EAdmit (clock n) c :: tr)) =
          if b then rev (admits tr) else rev (admits tr) ++ [(clock n, c)]) as Er by (by destruct b).
  split; rewrite ?Er; try done.
  - exists (clock n). split; [by eapply sim_ext; [| |exact A1']|]. split; [|intros; apply Hm; lia].
    assert (Forall (fun a => fst a <= clock n) (rev (admits tr))) by (revert A2; apply Forall_impl; intros; lia).
    destruct b; [done|]. apply Forall_app. split; [done|]. by repeat constructor.
  - rewrite length_alter. destruct b; [done|]. constructor; [|done]. by eapply lookup_lt_Some.
Qed.

Lemma ok_limited c s :
  Inv s -> ok s (limited clock c) (fun r s' => fst r = false -> fresh_admit (snd r) c s').
Proof.
  intros HI. unfold limited. eapply ok_bind; [by apply ok_minerInfo|]. intros k ? _ _ [-> Hk].
  unfold ok, limit. destruct (rateLimitedSubmit _ _ _) as [[b g'] p'] eqn:E. cbn [fst snd].
  assert (forall m, conns s !! c = Some m -> conn_ok m) as Hok by (intros m Hm; by eapply Forall_lookup_1, Hm; apply HI).
  destruct HI as [H1 H2 H3 H4 H5 H6 H6' H7 H8].
  set (s1 := upd c (set_times p') (with_limiter g' s)).
  pose proof (subset_cons (EAdmit (clock (clock_calls s)) c) (trace s)) as Hsub.
  assert (Forall conn_ok (conns s1)) as G1.
  { apply Forall_alter; [done|]. intros m Hm [? ?]. done. }
  assert (forall c' m, conns s1 !! c' = Some m -> c_authorized m = true -> presented secret c' (trace s)) as G3.
  { intros q m Hq Ha. unfold s1 in Hq; fields. destruct (decide (q = c)) as [->|Hne].
    - rewrite list_lookup_alter_eq, Hk in Hq. injection Hq as <-. by eapply H3.
    - rewrite list_lookup_alter_ne in Hq by done. by eapply H3. }
  assert (monotone_clock clock -> rate_inv clock g' (S (clock_calls s)) (conns s1)
    (if b then trace s else EAdmit (clock (clock_calls s)) c :: trace s)) as G6.
  { intros Hm. by eapply rate_step, E; [| |apply Hk]; auto. }
  destruct b.
  - split; [by split|]. split; [by exists []|]. intros a [= <-]. done.
  - split; [split; unfold s1; fields; eauto using presented_mono, login_ok_mono|].
    + constructor; [done|]. revert H5. apply Forall_impl. intros ? ?. by eapply effect_ok_mono.
    + by constructor.
    + split; [by eexists [_]|]. intros a [= <-] _. eexists. split; [reflexivity|done].
Qed.

(** *** Jobs and blocks *)

Lemma createRandomXJob_id cnt tpl n r :
  createRandomXJob cnt tpl = (n, r) -> n = cnt + 1 /\ forall j, r = Ok j -> job_id j = dec_string n.
Proof.
  unfold createRandomXJob. intros [= <- <-]. split; [done|]. intros j E.
  repeat (apply res_bind_ok in E; destruct E as (? & _ & E)). by injection E as <-.
Qed.

Lemma ok_create_job tpl s :
  Inv s -> ok s (create_job tpl) (fun j s' => job_id j = dec_string (jobCounter s') /\ 0 < jobCounter s').
Proof.
  intros HI. unfold ok, create_job. destruct (createRandomXJob (jobCounter s) tpl) as [n r] eqn:E.
  apply createRandomXJob_id in E as [-> Hid]. cbn [fst snd].
  pose proof (inv_job _ HI) as [Hn Hj]. split.
  - apply inv_with_job; [done|lia|]. intros j Ej. destruct (Hj j Ej) as (k & Hk & Ek). exists k. split; [lia|done].
  - split; [by exists []|]. intros j Ej. split; [by apply Hid|cbn; lia].
Qed.

Lemma ok_set_current j s :
  Inv s -> job_id j = dec_string (jobCounter s) -> 0 < jobCounter s ->
  ok s (set_current j) (fun _ _ => True).
Proof.
  intros HI Hj Hn. split; [|split; [by exists []|done]]. apply inv_with_job; [done|lia|].
  intros j' [= <-]. exists (jobCounter s). split; [lia|done].
Qed.

Lemma ok_submitBlockToNode c j nonce ntime rx s :
  Inv s -> presented secret c (trace s) -> ok s (submitBlockToNode c j nonce ntime rx) (fun _ _ => True).
Proof.
  intros HI Hp. unfold submitBlockToNode, ok, modify. cbn [fst snd].
  destruct (block_hex j nonce ntime rx) as [[h|]|]; (split; [|split; [|done]]); try done; try apply extends_refl.
  - apply inv_with_trace; [|by repeat split]. apply inv_with_pending; [done|].
    intros c' id rest [H|H%list_elem_of_singleton]%elem_of_app; [|done]. by eapply (inv_pending _ HI).
  - by eexists [_].
Qed.

(** *** Handlers *)

Lemma ok_score c reply j nonce ntime h now s :
  Inv s -> presented secret c (trace s) -> fresh_admit now c s ->
  (forall b, message_ok (reply b) /\ carries_job (reply b) = false) ->
  ok s (score_submit c reply j nonce ntime h now) (fun _ _ => True).
Proof.
  intros HI Hp Hf Hr. assert (forall b s', Inv s' -> ok s' (safeWrite c (reply b)) (fun _ _ => True)) as Hw.
  { intros b s' HI'. destruct (Hr b) as [R1 R2]. apply ok_safeWrite; [done|done|]. by rewrite R2. }
  unfold score_submit. eapply ok_bind; [by apply ok_gets|]. intros vm ? _ _ [-> _].
  eapply ok_bind; [by apply ok_trace; [|split]|]. intros _ s1 HI1 E1 _.
  eapply ok_bind; [by apply ok_lift|]. intros ev ? _ _ [-> _].
  destruct ev as [|rx valid block]; [by apply Hw|]. destruct block; [|by apply Hw].
  eapply ok_bind; [apply ok_submitBlockToNode; [done|by eapply presented_extends]|]. intros. by apply Hw.
Qed.

(** The message being handled is one this connection sent. *)
Definition from_line c (msg : val) s : Prop :=
  exists line, ELine c line ∈ trace s /\ JSON_parse (trim line) = Ok msg.

Lemma from_line_presented c msg params s :
  from_line c msg s -> get msg (js "params") = Ok params -> truthy params = true ->
  (exists w, get params (js "password") = Ok w /\ is_str w secret = true) \/
  (exists w, get_idx params 1 = Ok w /\ is_str w secret = true) ->
  presented secret c (trace s).
Proof.
  intros (line & Hl & E) Hp Ht Hw. exists line. split; [done|]. unfold presents. rewrite E, Hp, Ht.
  destruct Hw as [(w & -> & ->)|(w & -> & ->)]; [done|]. cbn. by rewrite orb_true_r.
Qed.

Lemma plain_step c f s :
  (forall m, c_queued (f m) = c_queued m /\ c_destroyed (f m) = c_destroyed m /\ c_buffer (f m) = c_buffer m /\
             c_submitTimes (f m) = c_submitTimes m /\ c_authorized (f m) = c_authorized m) ->
  conn_step c f s.
Proof.
  intros Hf m _ [H1 H2]. destruct (Hf m) as (E1 & E2 & E3 & E4 & E5). unfold conn_ok. rewrite E1, E2, E3, E4, E5. auto.
Qed.

Lemma authorize_step c s : presented secret c (trace s) -> conn_step c set_authorized s.
Proof. intros Hp m _ [H1 H2]. repeat split; cbn; auto. Qed.

Ltac plain := apply plain_step; intros ?; repeat split; reflexivity.

Lemma ok_xmrig_login c id msg s :
  Inv s -> from_line c msg s ->
  ok s (xmrig_login secret c id msg) (fun r s' => r <> None -> presented secret c (trace s')).
Proof.
  intros HI Hl. unfold xmrig_login.
  eapply ok_bind; [by apply ok_lift|]. intros params ? _ _ [-> Hp].
  eapply ok_bind; [by apply ok_lift|]. intros w ? _ _ [-> Hw].
  destruct (truthy params) eqn:Ht; cbn [negb orb]; [destruct (is_str w secret) eqn:Es; cbn [negb]|].
  2,3: eapply ok_bind; [by apply ok_safeWrite|]; intros; by apply ok_ret.
  assert (presented secret c (trace s)) as Hpr by (eapply from_line_presented; eauto).
  eapply ok_bind; [by apply ok_lift|]. intros login ? _ _ [-> _].
  eapply ok_bind; [by apply ok_lift|]. intros user ? _ _ [-> _].
  eapply ok_bind; [apply ok_upd; [done|plain]|]. intros _ s1 HI1 E1 _.
  eapply ok_bind; [apply ok_trace; [done|]|].
  - split; [|done]. by eapply presented_extends.
  - intros _ s2 HI2 E2 _. apply ok_ret; [done|]. intros _. by eapply presented_extends, extends_trans.
Qed.

Lemma ok_finish_login c id tpl s :
  Inv s -> presented secret c (trace s) -> ok s (finish_login randomBytes c id tpl) (fun _ _ => True).
Proof.
  intros HI Hp. unfold finish_login. destruct (truthy tpl); [|by apply ok_safeWrite].
  eapply ok_bind; [by apply ok_random|]. intros e s1 HI1 E1 _.
  eapply ok_bind; [by apply ok_create_job|]. intros j s2 HI2 E2 [Hj Hn].
  eapply ok_bind; [apply ok_upd; [done|plain]|]. intros _ ? HI3 E3 ->.
  eapply ok_bind; [apply ok_upd; [done|plain]|]. intros _ ? HI4 E4 ->.
  eapply ok_bind; [by apply ok_set_current|]. intros _ s5 HI5 E5 _.
  assert (presented secret c (trace s5)) as Hp5 by eauto 8 using presented_extends, extends_trans.
  eapply ok_bind; [by apply ok_safeWrite|]. intros _ s6 HI6 E6 _.
  eapply ok_bind; [apply ok_upd; [done|]|].
  - apply authorize_step. eauto using presented_extends.
  - intros _ s7 HI7 E7 _. eapply ok_bind; [by apply ok_minerInfo|]. intros k ? _ _ [-> _].
    by eapply ok_weaken; [apply ok_log|].
Qed.

Lemma ok_reject c v m s :
  Inv s -> message_ok m -> carries_job m = false ->
  ok s (mbind (MBind := M_bind) (fun _ => safeWrite c m) (log_value v)) (fun _ _ => True).
Proof.
  intros HI H1 H2. eapply ok_bind; [by apply ok_log|]. intros _ ? _ _ ->. apply ok_safeWrite; [done|done|by rewrite H2].
Qed.

Lemma ok_destroy c s : Inv s -> ok s (modify (upd c destroy)) (fun _ _ => True).
Proof. intros HI. eapply ok_weaken; [apply ok_upd; [done|apply destroy_step]|done]. Qed.

Lemma ok_xmrig_submit c id msg s : Inv s -> ok s (xmrig_submit clock c id msg) (fun _ _ => True).
Proof.
  intros HI. unfold xmrig_submit. eapply ok_bind; [by apply ok_minerInfo|]. intros k ? _ _ [-> Hk].
  destruct (c_authorized k) eqn:Ha; cbn [negb]; [|by apply ok_ret].
  pose proof (inv_auth _ HI c k Hk Ha) as Hp.
  eapply ok_bind; [by apply ok_lift|]. intros params ? _ _ [-> _].
  eapply ok_bind; [by apply ok_lift|]. intros jobId ? _ _ [-> _].
  eapply ok_bind; [by apply ok_lift|]. intros nonce ? _ _ [-> _].
  eapply ok_bind; [by apply ok_lift|]. intros ntime ? _ _ [-> _].
  eapply ok_bind; [by apply ok_gets|]. intros cur ? _ _ [-> ->].
  destruct (currentJob s) as [j|]; [|by apply ok_reject].
  destruct (is_str jobId (job_id j)); cbn [negb]; [|by apply ok_reject].
  eapply ok_bind; [by apply ok_limited|]. intros [over now] s1 HI1 E1 Hf. cbn [fst snd] in Hf.
  destruct over; [by apply ok_destroy|].
  eapply ok_bind; [by apply ok_lift|]. intros h ? _ _ [-> _].
  destruct h as [[|x y]|]; try by apply ok_safeWrite.
  apply ok_score; [done|by eapply presented_extends|by apply Hf|done].
Qed.

Lemma ok_stratum_submit c id msg s : Inv s -> ok s (stratum_submit clock c id msg) (fun _ _ => True).
Proof.
  intros HI. unfold stratum_submit. eapply ok_bind; [by apply ok_minerInfo|]. intros k ? _ _ [-> Hk].
  destruct (c_authorized k) eqn:Ha; cbn [negb]; [|by apply ok_safeWrite].
  pose proof (inv_auth _ HI c k Hk Ha) as Hp.
  eapply ok_bind; [by apply ok_lift|]. intros params ? _ _ [-> _].
  eapply ok_bind; [by apply ok_lift|]. intros worker ? _ _ [-> _].
  eapply ok_bind; [by apply ok_lift|]. intros jobId ? _ _ [-> _].
  eapply ok_bind; [by apply ok_lift|]. intros extra ? _ _ [-> _].
  eapply ok_bind; [by apply ok_lift|]. intros ntime ? _ _ [-> _].
  eapply ok_bind; [by apply ok_lift|]. intros nonce ? _ _ [-> _].
  eapply ok_bind; [by apply ok_gets|]. intros cur ? _ _ [-> ->].
  destruct (currentJob s) as [j|]; [|by apply ok_reject].
  destruct (is_str jobId (job_id j)); cbn [negb]; [|by apply ok_reject].
  eapply ok_bind; [by apply ok_limited|]. intros [over now] s1 HI1 E1 Hf. cbn [fst snd] in Hf.
  destruct over; [by apply ok_destroy|].
  destruct (not_hex8 nonce); [by apply ok_reject|]. destruct (not_hex8 ntime); [by apply ok_reject|].
  eapply ok_bind; [by apply ok_lift|]. intros h ? _ _ [-> _].
  destruct h as [[|x y]|]; try by apply ok_safeWrite.
  apply ok_score; [done|by eapply presented_extends|by apply Hf|done].
Qed.

Lemma ok_stratum_subscribe c id s : Inv s -> ok s (stratum_subscribe randomBytes c id) (fun _ _ => True).
Proof.
  intros HI. unfold stratum_subscribe. eapply ok_bind; [by apply ok_random|]. intros e s1 HI1 _ _.
  eapply ok_bind; [apply ok_upd; [done|plain]|]. intros _ s2 HI2 _ _.
  eapply ok_bind; [by apply ok_random|]. intros sub s3 HI3 _ _.
  eapply ok_bind; [apply ok_upd; [done|plain]|]. intros _ s4 HI4 _ _.
  eapply ok_bind; [by apply ok_random|]. intros sent s5 HI5 _ _. by apply ok_safeWrite.
Qed.

Lemma ok_stratum_authorize c id msg s :
  Inv s -> from_line c msg s -> ok s (stratum_authorize secret c id msg) (fun _ _ => True).
Proof.
  intros HI Hl. unfold stratum_authorize.
  eapply ok_bind; [by apply ok_lift|]. intros params ? _ _ [-> Hp].
  eapply ok_bind; [by apply ok_lift|]. intros p0 ? _ _ [-> _].
  eapply ok_bind; [by apply ok_lift|]. intros p1 ? _ _ [-> Hp1].
  destruct (is_str p1 secret) eqn:Es; cbn [negb].
  2: { eapply ok_bind; [by apply ok_log|]. intros _ ? _ _ ->.
       eapply ok_bind; [apply ok_upd; [done|plain]|]. intros _ s1 HI1 _ _. by apply ok_safeWrite. }
  destruct (truthy params) eqn:Ht; [|by injection Hp1 as <-].
  assert (presented secret c (trace s)) as Hpr by (eapply from_line_presented; eauto).
  eapply ok_bind; [apply ok_upd; [done|plain]|]. intros _ s1 HI1 E1 _.
  eapply ok_bind; [apply ok_upd; [done|apply authorize_step; eauto using presented_extends]|]. intros _ s2 HI2 E2 _.
  eapply ok_bind; [by apply ok_safeWrite|]. intros _ s3 HI3 E3 _.
  assert (presented secret c (trace s3)) as Hp3 by eauto 8 using presented_extends, extends_trans.
  eapply ok_bind; [by apply ok_gets|]. intros cur ? _ _ [-> ->].
  eapply (ok_bind _ _ _ (fun _ _ => True)); [|intros; by eapply ok_weaken; [apply ok_log|]].
  destruct (currentJob s3) as [j|]; [|by apply ok_ret].
  eapply ok_bind; [by apply ok_lift|]. intros text ? _ _ [-> Etext].
  eapply ok_bind; [by apply ok_safeWrite|]. intros _ s4 HI4 _ _.
  by eapply ok_weaken; [apply ok_upd; [done|plain]|].
Qed.

Lemma ok_choose c method s : Inv s -> ok s (choose_protocol c method) (fun _ _ => True).
Proof.
  intros HI. unfold choose_protocol. eapply ok_bind; [by apply ok_minerInfo|]. intros k ? _ _ [-> _].
  destruct (c_protocol k); [by apply ok_ret|].
  destruct (is_str method (js "login")); [by eapply ok_weaken; [apply ok_upd; [done|plain]|]|].
  destruct (is_str method _); [by eapply ok_weaken; [apply ok_upd; [done|plain]|]|by apply ok_ret].
Qed.

Abbreviation suspends c := (fun (r : option val) s' => r <> None -> presented secret c (trace s')).

Lemma ok_xmrig_message c id msg method s :
  Inv s -> from_line c msg s -> ok s (xmrig_message secret clock c id msg method) (suspends c).
Proof.
  intros HI Hl. unfold xmrig_message. destruct (is_str method (js "login")); [by apply ok_xmrig_login|].
  destruct (is_str method (js "submit")).
  { eapply ok_bind; [by apply ok_xmrig_submit|]. intros. by apply ok_ret. }
  destruct (_ || _); [|by apply ok_ret]. eapply ok_bind; [by apply ok_safeWrite|]. intros. by apply ok_ret.
Qed.

Lemma ok_stratum_message c id msg method s :
  Inv s -> from_line c msg s -> ok s (stratum_message secret clock randomBytes c id msg method) (fun _ _ => True).
Proof.
  intros HI Hl. unfold stratum_message. destruct (is_str method _); [by apply ok_stratum_subscribe|].
  destruct (is_str method _); [by apply ok_stratum_authorize|].
  destruct (is_str method _); [by apply ok_stratum_submit|by apply ok_ret].
Qed.

Lemma from_line_extends c msg s s' : from_line c msg s -> extends s s' -> from_line c msg s'.
Proof. intros (l & Hl & E) Hx. exists l. split; [|done]. by apply (extends_subset _ _ Hx). Qed.

Lemma ok_process_line c line s :
  Inv s -> ok s (process_line secret clock randomBytes c line) (suspends c).
Proof.
  intros HI. unfold process_line. eapply ok_bind; [by apply ok_trace|]. intros u s1 HI1 _ Es1. cbn in Es1.
  destruct (trim line) as [|x text] eqn:Et; [by apply ok_ret|].
  destruct (JSON_parse (x :: text)) as [msg|] eqn:Ep; [|by apply ok_ret].
  assert (from_line c msg s1) as Hl by (exists line; subst s1; rewrite Et; split; [by left|done]).
  eapply ok_bind; [by apply ok_lift|]. intros i ? _ _ [-> _].
  eapply ok_bind; [by apply ok_lift|]. intros method ? _ _ [-> _].
  eapply ok_bind; [by apply ok_choose|]. intros _ s2 HI2 E2 _.
  eapply ok_bind; [by apply ok_minerInfo|]. intros k ? _ _ [-> _].
  assert (from_line c msg s2) by eauto using from_line_extends.
  destruct (c_protocol k) as [[]|]; [by apply ok_xmrig_message| |by apply ok_ret].
  eapply ok_bind; [by apply ok_stratum_message|]. intros. by apply ok_ret.
Qed.

Lemma inv_process_lines c lines s :
  Inv s ->
  let '(s', e) := process_lines secret clock randomBytes c lines s in
  Inv s' /\ (forall id rest, e = Suspended id rest -> presented secret c (trace s') /\ held rest <= held lines).
Proof.
  revert s; induction lines as [|line lines IH]; intros s HI; cbn [process_lines]; [done|].
  destruct (ok_process_line c line s HI) as (H1 & _ & H3). pose proof (held_cons line lines) as Hh.
  destruct (process_line _ _ _ c line s) as [s' [[id|]|e]]; cbn [fst snd] in *.
  - split; [done|]. intros ? ? [= <- <-]. split; [by eapply H3|done].
  - specialize (IH s' H1). destruct (process_lines _ _ _ c lines s') as [s2 e]. split; [apply IH|]. intros id rest ->.
    destruct (proj2 IH id rest eq_refl) as [Hp Hl]. split; [done|lia].
  - done.
Qed.

Lemma inv_run_lines c lines s : Inv s -> held lines <= MAX_INPUT_BUFFER -> Inv (run_lines secret clock randomBytes c lines s).
Proof.
  intros HI Hl. unfold run_lines. pose proof (inv_process_lines c lines s HI) as H.
  destruct (process_lines _ _ _ c lines s) as [s' []]; [apply H| |apply H]. destruct H as [H1 H2].
  apply inv_with_pending; [done|]. intros c' id' rest' [Hin|Hin%list_elem_of_singleton]%elem_of_app.
  - by eapply (inv_pending _ H1).
  - injection Hin as -> -> ->. destruct (H2 _ _ eq_refl). split; [done|lia].
Qed.

Lemma inv_on_data c data s : Inv s -> Inv (on_data secret clock randomBytes c data s).
Proof.
  intros HI. unfold on_data. destruct (conns s !! c) as [m|] eqn:Em; [|done].
  destruct (Z.ltb_spec MAX_INPUT_BUFFER (Z.of_nat (length (c_buffer m ++ utf8_decode data)))) as [H|H].
  - apply inv_upd; [done|]. intros k _ [H1 H2]. repeat split; cbn; auto.
  - pose proof (split_nl_rest_length (c_buffer m ++ utf8_decode data)) as Hr.
    pose proof (split_nl_join (c_buffer m ++ utf8_decode data)) as Hj.
    destruct (split_nl _) as [lines rest]. cbn [fst snd] in Hr, Hj. apply inv_run_lines; [apply inv_upd; [done|]|].
    + intros k _ [H1 H2]. repeat split; cbn; auto. right. lia.
    + unfold held. rewrite <- Hj, length_app in H. lia.
Qed.

Lemma length_map_set k c l : (length (map_set k c l) <= S (length l))%nat.
Proof. induction l as [|[k' c'] l IH]; cbn; [lia|]. case_match; cbn; lia. Qed.

Lemma inv_on_connection clientId s : Inv s -> Inv (on_connection clientId s).
Proof.
  intros HI. unfold on_connection. destruct (Nat.leb_spec MAX_CONNECTIONS (length (miners s))); [done|].
  apply inv_with_miners.
  - destruct HI as [H1 H2 H3 H4 H5 H6 H6' H7 H8]. split; fields; try done.
    + apply Forall_app. split; [done|]. constructor; [|done]. split; [done|by right].
    + intros c m [Hm|[Hl Hm]]%lookup_app_Some; [by apply H3|].
      destruct (c - length (conns s))%nat; [|done]. by injection Hm as <-.
    + intros Hc. destruct (H6 Hc) as [(t & A1 & A1') A2 A3 A4]. split; try done.
      * exists t. split; [|done]. eapply sim_ext; [| |exact A1]; [done|]. intros p. cbn.
        destruct (decide (p < length (conns s))%nat) as [Hlt|Hge].
        -- by rewrite lookup_app_l.
        -- rewrite lookup_app_r, lookup_ge_None_2 by lia. by destruct (p - length (conns s))%nat.
      * revert A4. apply Forall_impl. intros a. rewrite length_app. cbn. lia.
  - cbn. pose proof (length_map_set clientId (length (conns s)) (miners s)). lia.
Qed.

Lemma inv_on_close c s : Inv s -> Inv (on_close c s).
Proof.
  intros HI. unfold on_close. destruct (conns s !! c) as [m|]; [|done]. apply inv_with_miners.
  - apply inv_upd; [done|]. intros k _ [H1 H2]. repeat split; cbn; auto.
  - cbn. pose proof (List.filter_length_le (fun p => negb (str_eqb (c_client m) (fst p))) (miners s)).
    pose proof (inv_miners _ HI). unfold map_delete. lia.
Qed.

Lemma inv_on_startup tpl s : Inv s -> Inv (on_startup tpl s).
Proof.
  intros HI. unfold on_startup. destruct (truthy tpl); [|done]. cbn [negb].
  destruct (ok_create_job tpl s HI) as (H1 & _ & H3).
  destruct (create_job tpl s) as [s1 [j|]]; cbn [fst snd] in *; [|by apply inv_crash].
  destruct (H3 j eq_refl) as [Hj Hn]. pose proof (ok_set_current j s1 H1 Hj Hn) as (H4 & _). cbn in H4.
  destruct (to_string (height j)); [by apply inv_initRandomX|by apply inv_crash].
Qed.

Lemma ok_notify j c s : Inv s -> ok s (notify_miner j c) (fun _ _ => True).
Proof.
  intros HI. unfold notify_miner. eapply ok_bind; [by apply ok_minerInfo|]. intros k ? _ _ [-> Hk].
  destruct (c_authorized k) eqn:Ha, (c_writable k); cbn [negb andb]; try by apply ok_ret.
  pose proof (inv_auth _ HI c k Hk Ha) as Hp.
  eapply (ok_bind _ _ _ (fun _ _ => True)).
  - destruct (c_protocol k) as [[]|]; [by apply ok_safeWrite| |by apply ok_ret].
    eapply ok_bind; [by apply ok_lift|]. intros text ? _ _ [-> Et]. by apply ok_safeWrite.
  - intros _ s1 HI1 _ _. by eapply ok_weaken; [apply ok_upd; [done|plain]|].
Qed.

Lemma inv_broadcast j cs s : Inv s -> Inv (broadcast j cs s).
Proof.
  revert s; induction cs as [|c cs IH]; intros s HI; [done|]. cbn [broadcast]. apply IH. by apply ok_notify.
Qed.

Lemma initRandomX_job ep s : jobCounter (initRandomX ep s) = jobCounter s.
Proof. unfold initRandomX. by repeat case_match. Qed.

Lemma inv_on_update tpl s : Inv s -> Inv (on_update tpl s).
Proof.
  intros HI. unfold on_update. destruct (truthy tpl); [|done]. cbn [negb].
  destruct (ok_create_job tpl s HI) as (H1 & _ & H3).
  destruct (create_job tpl s) as [s1 [j|]]; cbn [fst snd] in *; [|by apply inv_crash].
  destruct (H3 j eq_refl) as [Hj Hn].
  set (s2 := match currentJob s1 with Some _ => _ | None => _ end).
  assert (Inv s2 /\ jobCounter s2 = jobCounter s1) as [H2 E2].
  { unfold s2. destruct (currentJob s1); [case_match|]; rewrite ?initRandomX_job; auto using inv_initRandomX. }
  rewrite <- E2 in Hj, Hn. destruct (ok_set_current j s2 H2 Hj Hn) as (H4 & _). cbn in H4.
  apply (inv_broadcast j (map snd (miners (with_job (jobCounter s2) (Some j) s2)))) in H4.
  destruct (to_string (height j)); [done|by apply inv_crash].
Qed.

Lemma inv_resume t x s :
  Inv s -> (forall c id rest, t = PLogin c id rest -> login_ok c rest (trace s)) ->
  Inv (resume secret clock randomBytes t x s).
Proof.
  intros HI Ht. destruct t as [| |c id rest|]; cbn [resume].
  - by apply inv_on_startup.
  - by apply inv_on_update.
  - destruct (Ht c id rest eq_refl) as [Hp Hl]. destruct (ok_finish_login c id (getBlockTemplate x) s HI Hp) as (H1 & _).
    destruct (finish_login _ c id _ s) as [s' [?|?]]; cbn [fst] in H1; [by apply inv_run_lines|done].
  - by apply inv_with_trace.
Qed.

Lemma inv_step s ev s' : Inv s -> step secret clock randomBytes s ev = Some s' -> Inv s'.
Proof.
  intros HI. unfold step. destruct (crashed s); [done|].
  destruct ev as [id|c data|c n|c|c|c|c| |i x].
  all: try (destruct (conns s !! c) as [m|] eqn:Em; cbn [mbind option_bind]; [|done]).
  - intros [= <-]. by apply inv_on_connection.
  - destruct (c_readable m); [|done]. intros [= <-]. by apply inv_on_data.
  - destruct (Z.leb_spec 0 n), (Z.leb_spec n (c_queued m)); cbn [andb]; try done. intros [= <-].
    apply inv_upd; [done|]. intros k _ [H1 H2]. repeat split; cbn; auto. lia.
  - destruct (c_closed m); [done|]. intros [= <-]. apply inv_upd; [done|apply destroy_step].
  - destruct (c_closed m); [done|]. intros [= <-]. apply inv_upd; [done|apply destroy_step].
  - destruct (c_readable m); [|done]. intros [= <-]. apply inv_upd; [done|plain].
  - destruct (c_closed m); [done|]. intros [= <-]. by apply inv_on_close.
  - intros [= <-]. apply inv_with_trace; [|done]. apply inv_with_pending; [done|].
    intros c id rest [H|H%list_elem_of_singleton]%elem_of_app; [|done]. by eapply (inv_pending _ HI).
  - destruct (pending s !! i) as [t|] eqn:Et; cbn [mbind option_bind]; [|done]. intros [= <-].
    apply inv_resume.
    + apply inv_with_pending; [done|]. intros c id rest H. eapply (inv_pending _ HI).
      apply list_elem_of_lookup in H as [k Hk]. apply list_elem_of_lookup.
      destruct (decide (k < i)%nat); [rewrite list_lookup_delete_lt in Hk by done|rewrite list_lookup_delete_ge in Hk by lia]; eauto.
    + intros c id rest ->. eapply (inv_pending _ HI). by eapply list_elem_of_lookup_2.
Qed.

Lemma inv_reachable s : reachable secret clock randomBytes s -> Inv s.
Proof. induction 1 as [|s ev s' _ IH E]; [apply inv_init|by eapply inv_step]. Qed.

(** ** Read off the invariant *)

(** C7. Resource caps.  Whatever the peers and the node do, the proxy never holds
    more than 32 miners, no connection has more than 16 MiB queued for writing,
    every connection that is not destroyed has at most 1 MiB (in UTF-16 code
    units) in its input buffer, and every login that waits for its template keeps
    at most 1 MiB of lines to process after it.  The number of such logins is not
    capped ([logins_pile_up]). *)
Theorem resource_caps s :
  reachable secret clock randomBytes s ->
  (length (miners s) <= 32)%nat /\
  (forall c m, conns s !! c = Some m ->
    c_queued m <= 16 * 1024 * 1024 /\
    (c_destroyed m = true \/ Z.of_nat (length (c_buffer m)) <= 1024 * 1024)) /\
  (forall c id rest, PLogin c id rest ∈ pending s -> held rest <= 1024 * 1024).
Proof.
  intros HI%inv_reachable. split; [apply (inv_miners _ HI)|]. split; [|intros c id rest Hin; by apply (inv_pending _ HI c id rest Hin)].
  intros c m Hm. exact (Forall_lookup_1 _ _ _ _ (inv_conns _ HI) Hm).
Qed.

Lemma inv_effect s e : Inv s -> e ∈ trace s -> effect_ok secret (trace s) e.
Proof. intros HI [k Hk]%list_elem_of_lookup. exact (Forall_lookup_1 _ _ _ _ (inv_trace _ HI) Hk). Qed.

(** C3. The shared secret is the only way in.  A connection is authorized, makes
    the proxy hash, submit a block or fetch a template, or is shown a job, only
    if it sent a line whose message carries the secret. *)
Theorem secret_required s c :
  reachable secret clock randomBytes s ->
  ((exists m, conns s !! c = Some m /\ c_authorized m = true) \/
   (exists e, e ∈ trace s /\
      match e with
      | EHash _ c' | ESubmitRpc c' _ | ELoginRpc c' => c' = c
      | EWrote c' m => c' = c /\ carries_job m = true
      | _ => False
      end)) ->
  exists line, ELine c line ∈ trace s /\ presents secret line = true.
Proof.
  intros HI%inv_reachable [(m & Hm & Ha)|(e & He & H)]; [by eapply (inv_auth _ HI)|].
  pose proof (inv_effect s e HI He) as Ht.
  destruct e; cbn in Ht; try done; subst; try done. destruct H as [-> H]. by apply Ht.
Qed.

Lemma sublist_filter_length {A} (P : A -> bool) (l k : list A) :
  l `sublist_of` k -> (length (List.filter P l) <= length (List.filter P k))%nat.
Proof. induction 1 as [|x l k _ IH|x l k _ IH]; cbn; [lia| |]; destruct (P x); cbn; lia. Qed.

Lemma filter_rev_length {A} (P : A -> bool) (l : list A) : length (List.filter P (rev l)) = length (List.filter P l).
Proof.
  induction l as [|x l IH]; [done|]. cbn [rev]. rewrite List.filter_app, length_app, IH. cbn. destruct (P x); cbn; lia.
Qed.

(** C10. The RandomX budget.  If the clock never goes back, then over the whole
    life of the proxy, across all connections, at most 40 RandomX computations
    are admitted in any interval of one second, and at most 100 in any interval
    of five seconds for one connection. *)
Theorem randomx_budget s t c :
  monotone_clock clock -> reachable secret clock randomBytes s ->
  (length (List.filter (fun a => in_span 1000 t a) (hashes (trace s))) <= 40)%nat /\
  (length (List.filter (fun a => in_span 5000 t a && (snd a =? c)%nat) (hashes (trace s))) <= 100)%nat.
Proof.
  intros Hm HI%inv_reachable. destruct (inv_rate _ HI Hm) as [_ B1 B2 _]. pose proof (inv_hashes _ HI) as Hs.
  specialize (B1 t). specialize (B2 c t). rewrite filter_rev_length in B1, B2. split.
  - rewrite (filter_ext _ (fun a => in_span 1000 t a)) in B1 by (intros; apply andb_true_r).
    etrans; [by apply sublist_filter_length|exact B1].
  - etrans; [by apply sublist_filter_length|exact B2].
Qed.

(** What was written to a connection, in order. *)
Fixpoint written c (tr : list effect) : list message :=
  match tr with
  | [] => []
  | EWrote c' m :: r => written c r ++ (if decide (c' = c) then [m] else [])
  | _ :: r => written c r
  end.

Lemma written_in c tr m : m ∈ written c tr -> EWrote c m ∈ tr.
Proof.
  induction tr as [|e tr IH]; cbn [written]; [by intros ?%elem_of_nil|].
  destruct e as [| c' m' | | | | | |]; try (intros; right; by apply IH).
  rewrite elem_of_app. intros [H|H]; [right; by apply IH|].
  destruct (decide (c' = c)) as [->|]; [|by apply elem_of_nil in H]. apply list_elem_of_singleton in H as ->. left.
Qed.

Lemma render_one_line m : message_ok m -> one_line (render m).
Proof.
  intros H. apply outbound_one_line. destruct m;
    [apply OLogin|apply OXSubmit|apply OXNotify|apply OKeepalive|apply OSubscribe|apply OAuthorize|apply OSSubmit|].
  by apply OSNotify with (j := j).
Qed.

(** C32. Framing.  The text written to a connection, from its start, splits at
    newlines into exactly the messages that were written, in their order. *)
Theorem peer_sees_messages s c :
  reachable secret clock randomBytes s ->
  exists bodies, map render (written c (trace s)) = map (fun b => b ++ [10]) bodies /\
    split_nl (mjoin (map render (written c (trace s)))) = (bodies, []).
Proof.
  intros HI%inv_reachable. destruct (one_lines (map render (written c (trace s)))) as (bs & E & Hb).
  - apply Forall_map, Forall_lookup. intros i m Hm%list_elem_of_lookup_2%written_in. apply render_one_line.
    by destruct (inv_effect s _ HI Hm).
  - exists bs. split; [done|]. rewrite E. by apply split_nl_lines.
Qed.

(** The RandomX machine is always keyed to the seed of some epoch: no other
    key is ever used, and a failed initialization keeps the previous machine. *)
Theorem machine_keyed s vm :
  reachable secret clock randomBytes s -> randomxVM s = Some vm ->
  exists e, keyed vm (from_hex (getEpochSeedHash e)).
Proof. intros HI%inv_reachable. apply (inv_vm _ HI). Qed.

End Invariant.
