(* ===== verification/ProxyFrames.v ===== *)
(** * Stratum proxy: what handlers leave alone

    A calculus of frames: a relation between the state before and after that
    holds of every single mutation the handlers make holds of every handler.  The
    results on the event loop instantiate it. *)

From Stdlib Require Import ZArith Lia Bool String SpecFloat.
From stdpp Require Import base list numbers option.
From S2P Require Import Prelude JsNum Bytes JsStr JsValue Utf8 Sha256 Libs ProxyCodec ProxyRate ProxyMessages ProxyRpc ProxyServer.

Open Scope Z_scope.

(** An update of a connection that keeps its client id and whether it is closed. *)
Definition keeps_conn (f : conn -> conn) : Prop := forall m, c_client (f m) = c_client m /\ c_closed (f m) = c_closed m.

(** A preorder on states that admits the mutations of the handlers. *)
Class Frame {L : RandomXLib} (R : proxy -> proxy -> Prop) : Prop := {
  frame_refl : forall s, R s s;
  frame_trans : forall s1 s2 s3, R s1 s2 -> R s2 s3 -> R s1 s3;
  frame_upd : forall s c f, keeps_conn f -> R s (upd c f s);
  frame_other : forall s s', miners s' = miners s -> conns s' = conns s -> crashed s' = crashed s -> R s s';
}.

Section Frames.
Context {L : RandomXLib}.
Variable secret : jstr.
Variable clock : nat -> Z.
Variable randomBytes : nat -> nat -> bytes.
Context (R : proxy -> proxy -> Prop) {F : Frame R}.

Implicit Types (s : proxy) (c : nat).

Definition framed {A} (m : M A) : Prop := forall s, R s (fst (m s)).

Lemma framed_bind {A B} (m : M A) (f : A -> M B) :
  framed m -> (forall a, framed (f a)) -> framed (mbind (MBind := M_bind) f m).
Proof.
  intros Hm Hf s. unfold mbind, M_bind. specialize (Hm s). destruct (m s) as [s' [a|e]]; cbn [fst] in *; [|done].
  eapply frame_trans; [done|apply Hf].
Qed.

(** Pure steps, and steps that touch neither connections nor registration. *)
Lemma framed_pure {A} (m : M A) : (forall s, fst (m s) = s) -> framed m.
Proof. intros H s. rewrite H. apply frame_refl. Qed.

Lemma framed_other {A} (m : M A) :
  (forall s, miners (fst (m s)) = miners s /\ conns (fst (m s)) = conns s /\ crashed (fst (m s)) = crashed s) -> framed m.
Proof. intros H s. destruct (H s) as (H1 & H2 & H3). by apply frame_other. Qed.

Lemma framed_upd c f : keeps_conn f -> framed (modify (upd c f)).
Proof. intros Hf s. by apply frame_upd. Qed.

Lemma framed_ret {A} (a : A) : framed (mret (MRet := M_ret) a).
Proof. by apply framed_pure. Qed.

Lemma framed_lift {A} (r : res A) : framed (lift r).
Proof. by apply framed_pure. Qed.

Lemma framed_gets {A} (f : proxy -> A) : framed (gets f).
Proof. by apply framed_pure. Qed.

Lemma framed_log v : framed (log_value v).
Proof. by apply framed_pure. Qed.

Lemma framed_minerInfo c : framed (minerInfo c).
Proof. apply framed_pure. intros s. unfold minerInfo. by destruct (conns s !! c). Qed.

Lemma framed_trace e : framed (modify (with_trace e)).
Proof. by apply framed_other. Qed.

Lemma framed_current j : framed (set_current j).
Proof. by apply framed_other. Qed.

Lemma framed_random n : framed (random_hex randomBytes n).
Proof. by apply framed_other. Qed.

Lemma framed_create tpl : framed (create_job tpl).
Proof. apply framed_other. intros s. unfold create_job. by destruct (createRandomXJob _ _). Qed.

Lemma framed_submitBlock c j nonce ntime rx : framed (submitBlockToNode c j nonce ntime rx).
Proof. apply framed_other. intros s. unfold submitBlockToNode, modify. cbn [fst]. by destruct (block_hex _ _ _ _) as [[|]|]. Qed.

Lemma framed_limited c : framed (limited clock c).
Proof.
  apply framed_bind; [apply framed_minerInfo|]. intros k s. unfold limit. destruct (rateLimitedSubmit _ _ _) as [[b g] p].
  eapply frame_trans; [apply (frame_other s (with_limiter g s)); done|].
  eapply frame_trans; [apply (frame_upd _ c (set_times p)); done|]. destruct b; [apply frame_refl|by apply frame_other].
Qed.

#[local] Hint Resolve framed_ret framed_lift framed_gets framed_log framed_minerInfo framed_trace framed_current
  framed_random framed_create framed_submitBlock framed_limited : js.
#[local] Hint Extern 1 (framed (modify (upd _ _))) => apply framed_upd; done : js.

(** Walk through a handler. *)
Ltac frame_steps :=
  repeat first
    [ solve [auto with js]
    | apply framed_bind; [|intros]
    | match goal with |- framed (match ?x with _ => _ end) => destruct x end ].

Lemma framed_safeWrite c m : framed (safeWrite c m).
Proof.
  unfold safeWrite. apply framed_bind; [auto with js|]. intros k. destruct (c_writable k); cbn [negb]; [|auto with js].
  destruct (_ <? _); [auto with js|]. intros s.
  eapply frame_trans; [apply (frame_upd s c (set_queued (c_queued k + byteLength (render m)))); done|by apply frame_other].
Qed.

#[local] Hint Resolve framed_safeWrite : js.

Lemma framed_score c reply j nonce ntime h now : framed (score_submit c reply j nonce ntime h now).
Proof. unfold score_submit. frame_steps. Qed.

#[local] Hint Resolve framed_score : js.

Lemma framed_process_line c line : framed (process_line secret clock randomBytes c line).
Proof.
  unfold process_line, choose_protocol, xmrig_message, xmrig_login, xmrig_submit, stratum_message, stratum_subscribe,
    stratum_authorize, stratum_submit. frame_steps.
Qed.

Lemma framed_finish_login c id tpl : framed (finish_login randomBytes c id tpl).
Proof. unfold finish_login. frame_steps. Qed.

Lemma framed_notify j c : framed (notify_miner j c).
Proof. unfold notify_miner. frame_steps. Qed.

Lemma frame_process_lines c lines s : R s (fst (process_lines secret clock randomBytes c lines s)).
Proof.
  revert s; induction lines as [|line lines IH]; intros s; cbn [process_lines]; [apply frame_refl|].
  pose proof (framed_process_line c line s) as H. destruct (process_line _ _ _ c line s) as [s' [[|]|]]; cbn [fst] in *; [done| |done].
  by eapply frame_trans.
Qed.

Lemma frame_run_lines c lines s : R s (run_lines secret clock randomBytes c lines s).
Proof.
  unfold run_lines. pose proof (frame_process_lines c lines s) as H.
  destruct (process_lines _ _ _ c lines s) as [s' []]; cbn [fst] in H; [done| |done]. eapply frame_trans; [done|by apply frame_other].
Qed.

Lemma frame_on_data c data s : R s (on_data secret clock randomBytes c data s).
Proof.
  unfold on_data. destruct (conns s !! c) as [m|]; [|apply frame_refl]. destruct (_ <? _); [by apply frame_upd|].
  destruct (split_nl _) as [lines rest].
  eapply frame_trans; [apply (frame_upd s c (set_buffer rest)); done|apply frame_run_lines].
Qed.

Lemma frame_broadcast j cs s : R s (broadcast j cs s).
Proof.
  revert s; induction cs as [|c cs IH]; intros s; cbn [broadcast]; [apply frame_refl|].
  eapply frame_trans; [apply (framed_notify j c s)|apply IH].
Qed.

Lemma frame_login c id tpl rest s :
  R s (match finish_login randomBytes c id tpl s with
       | (s', Ok _) => run_lines secret clock randomBytes c rest s'
       | (s', Throw _) => s'
       end).
Proof.
  pose proof (framed_finish_login c id tpl s) as H. destruct (finish_login _ c id tpl s) as [s' [?|?]]; cbn [fst] in H; [|done].
  eapply frame_trans; [done|apply frame_run_lines].
Qed.

Lemma frame_initRandomX ep s : R s (initRandomX ep s).
Proof. unfold initRandomX. repeat case_match; by apply frame_other. Qed.
End Frames.
