(* ===== verification/ProxyServerRuns.v ===== *)
(** * Stratum proxy: behaviour of the event loop

    What single events do: peers cannot end the process, cutting the input into
    other chunks changes nothing while the loop runs through, one bad line drops
    the rest of its chunk, logins can wait in any number, a periodic update with a
    template of the node succeeds, and two runs in which the RandomX machine is
    not the one the current job needs.  Concrete runs also serve as witnesses of
    the theorems of [ProxyServerInv]. *)

From Stdlib Require Import ZArith Lia Bool String SpecFloat.
From stdpp Require Import base list numbers option.
From S2P Require Import Prelude JsNum JsNumFacts Bytes JsStr JsValue Utf8 Sha256 Libs ProxyCodec Consensus ProxyCodecFacts ProxyConsensus ProxyRate ProxyMessages NodeRpc ProxyRpc ProxyServer ProxyServerInv ProxyFrames.

Open Scope Z_scope.

Section Runs.
Context {L : RandomXLib}.
Variable secret : jstr.
Variable clock : nat -> Z.
Variable randomBytes : nat -> nat -> bytes.

Implicit Types (s : proxy) (c : nat).

(** ** No peer event ends the process *)

(** A handler leaves the process running and its connections in place. *)
Definition quiet s s' : Prop := crashed s' = crashed s /\ length (conns s') = length (conns s).

#[local] Instance quiet_frame : Frame quiet.
Proof.
  split; unfold quiet.
  - done.
  - intros s1 s2 s3 [H1 H2] [H3 H4]. split; congruence.
  - intros s c f _. split; [done|apply length_alter].
  - intros s s' _ H1 H2. by rewrite H1.
Qed.

(** Events that a miner, its socket or its requests cause. *)
Definition peer_event s (ev : event) : Prop :=
  match ev with
  | EvReply i _ => exists t, pending s !! i = Some t /\ t <> PStartup /\ t <> PTick
  | EvTick => False
  | _ => True
  end.

(** C18. No peer can end the process: every exception a miner's bytes cause is
    caught in its handler, whatever state the proxy is in. *)
Theorem peer_cannot_crash s ev s' :
  peer_event s ev -> step secret clock randomBytes s ev = Some s' -> crashed s' = false.
Proof.
  intros Hp. unfold step. destruct (crashed s) eqn:Ec; [done|].
  destruct ev as [id|c data|c n|c|c|c|c| |i x]; [..|destruct Hp|]; cbn [peer_event] in Hp;
    try (destruct (conns s !! c) as [m|] eqn:Em; cbn [mbind option_bind]; [|done]).
  - intros [= <-]. unfold on_connection. by case_match.
  - destruct (c_readable m); [|done]. intros [= <-]. unfold on_data. rewrite Em.
    destruct (_ <? _); [done|]. destruct (split_nl _). by rewrite (proj1 (frame_run_lines secret clock randomBytes quiet c _ _)).
  - destruct (_ && _); [|done]. by intros [= <-].
  - destruct (c_closed m); [done|]. by intros [= <-].
  - destruct (c_closed m); [done|]. by intros [= <-].
  - destruct (c_readable m); [|done]. by intros [= <-].
  - destruct (c_closed m); [done|]. intros [= <-]. unfold on_close. by rewrite Em.
  - destruct Hp as (t & Et & H1 & H2). rewrite Et. cbn [mbind option_bind]. intros [= <-].
    destruct t as [| |c id rest|]; try done. cbn [resume].
    by rewrite (proj1 (frame_login secret clock randomBytes quiet c id (getBlockTemplate x) rest (with_pending (delete i (pending s)) s))).
Qed.

(** ** Chunk boundaries *)

(** A computation that neither reads nor writes the input buffer of [c]. *)
Definition unbuffered {A} c (m : M A) : Prop := forall r s,
  m (upd c (set_buffer r) s) = (upd c (set_buffer r) (fst (m s)), snd (m s)).

Lemma unbuffered_ret {A} c (a : A) : unbuffered c (mret (MRet := M_ret) a).
Proof. done. Qed.

Lemma unbuffered_bind {A B} c (m : M A) (f : A -> M B) :
  unbuffered c m -> (forall a, unbuffered c (f a)) -> unbuffered c (mbind (MBind := M_bind) f m).
Proof.
  intros Hm Hf r s. unfold mbind, M_bind. rewrite Hm. destruct (m s) as [s' [a|e]]; cbn [fst snd]; [|done]. apply Hf.
Qed.

(** What follows a look at the connection must not depend on its buffer. *)
Lemma unbuffered_minerInfo {B} c (f : conn -> M B) :
  (forall r k, f (set_buffer r k) = f k) -> (forall k, unbuffered c (f k)) ->
  unbuffered c (mbind (MBind := M_bind) f (minerInfo c)).
Proof.
  intros He Hf r s. unfold mbind, M_bind, minerInfo. cbn [upd with_conns conns]. rewrite list_lookup_alter_eq.
  destruct (conns s !! c) as [k|]; cbn [fmap option_fmap option_map]; [|done]. rewrite He. apply Hf.
Qed.

Lemma alter_alter {A} (f g : A -> A) i (l : list A) :
  (forall x, f (g x) = g (f x)) -> alter f i (alter g i l) = alter g i (alter f i l).
Proof. intros H. revert i. induction l as [|x l IH]; intros [|i]; cbn; [done..|by rewrite H|]. f_equal. apply IH. Qed.

Lemma upd_comm c f g s : (forall m, f (g m) = g (f m)) -> upd c f (upd c g s) = upd c g (upd c f s).
Proof. intros H. unfold upd, with_conns. cbn. f_equal. by apply alter_alter. Qed.

Lemma unbuffered_upd c f : (forall r m, f (set_buffer r m) = set_buffer r (f m)) -> unbuffered c (modify (upd c f)).
Proof. intros H r s. unfold modify. cbn [fst snd]. by rewrite upd_comm. Qed.

Lemma unbuffered_lift {A} c (x : res A) : unbuffered c (lift x).
Proof. done. Qed.

Lemma unbuffered_log c v : unbuffered c (log_value v).
Proof. done. Qed.

Lemma unbuffered_trace c e : unbuffered c (modify (with_trace e)).
Proof. done. Qed.

Lemma unbuffered_vm c : unbuffered c (gets randomxVM).
Proof. done. Qed.

Lemma unbuffered_job c : unbuffered c (gets currentJob).
Proof. done. Qed.

Lemma unbuffered_random c n : unbuffered c (random_hex randomBytes n).
Proof. done. Qed.

Lemma unbuffered_submitBlock c j nonce ntime rx : unbuffered c (submitBlockToNode c j nonce ntime rx).
Proof.
  intros r s. unfold submitBlockToNode, modify. cbn [fst snd]. by destruct (block_hex _ _ _ _) as [[|]|].
Qed.

#[local] Hint Resolve unbuffered_ret unbuffered_lift unbuffered_log unbuffered_trace unbuffered_vm unbuffered_job
  unbuffered_random unbuffered_submitBlock : js.

Ltac unbuffer :=
  repeat first
    [ solve [auto with js]
    | apply unbuffered_upd; reflexivity
    | apply unbuffered_minerInfo; [reflexivity|intros]
    | apply unbuffered_bind; [|intros]
    | match goal with |- unbuffered _ (match ?x with _ => _ end) => destruct x end ].

Lemma unbuffered_safeWrite c m : unbuffered c (safeWrite c m).
Proof.
  unfold safeWrite. apply unbuffered_minerInfo; [reflexivity|]. intros k.
  destruct (negb _); [auto with js|]. destruct (_ <? _); [by apply unbuffered_upd|].
  intros r s. unfold modify. cbn [fst snd]. by rewrite upd_comm.
Qed.

Lemma unbuffered_limited c : unbuffered c (limited clock c).
Proof.
  unfold limited. apply unbuffered_minerInfo; [reflexivity|]. intros k r s. unfold limit.
  change (globalSubmitTimes (upd c (set_buffer r) s)) with (globalSubmitTimes s).
  change (clock_calls (upd c (set_buffer r) s)) with (clock_calls s).
  destruct (rateLimitedSubmit _ _ _) as [[b g] p]. cbn [fst snd].
  change (with_limiter g (upd c (set_buffer r) s)) with (upd c (set_buffer r) (with_limiter g s)).
  rewrite upd_comm by reflexivity. by destruct b.
Qed.

#[local] Hint Resolve unbuffered_safeWrite unbuffered_limited : js.

Lemma unbuffered_score c reply j nonce ntime h now : unbuffered c (score_submit c reply j nonce ntime h now).
Proof. unfold score_submit. unbuffer. Qed.

#[local] Hint Resolve unbuffered_score : js.

Lemma unbuffered_process_line c line : unbuffered c (process_line secret clock randomBytes c line).
Proof.
  unfold process_line, choose_protocol, xmrig_message, xmrig_login, xmrig_submit, stratum_message, stratum_subscribe,
    stratum_authorize, stratum_submit. unbuffer.
Qed.

Lemma process_lines_unbuffered c lines r s :
  process_lines secret clock randomBytes c lines (upd c (set_buffer r) s) =
  (upd c (set_buffer r) (fst (process_lines secret clock randomBytes c lines s)),
   snd (process_lines secret clock randomBytes c lines s)).
Proof.
  revert s; induction lines as [|line lines IH]; intros s; cbn [process_lines]; [done|].
  rewrite unbuffered_process_line. destruct (process_line _ _ _ c line s) as [s' [[|]|]]; cbn [fst snd]; [done| |done].
  apply IH.
Qed.

Lemma process_lines_app c l1 l2 s s' :
  process_lines secret clock randomBytes c l1 s = (s', AllDone) ->
  process_lines secret clock randomBytes c (l1 ++ l2) s = process_lines secret clock randomBytes c l2 s'.
Proof.
  revert s; induction l1 as [|line l1 IH]; intros s; cbn [process_lines app]; [by intros [= <-]|].
  destruct (process_line _ _ _ c line s) as [s1 [[|]|]]; [done|apply IH|done].
Qed.

Lemma set_buffer_twice c r r' s : upd c (set_buffer r) (upd c (set_buffer r') s) = upd c (set_buffer r) s.
Proof.
  unfold upd, with_conns. cbn. f_equal. generalize (conns s) as l. revert c.
  intros c l. revert c. induction l as [|x l IH]; intros [|c]; cbn; try done. f_equal. apply IH.
Qed.

(** The handler on an ASCII chunk whose complete lines run through. *)
Lemma on_data_done c a s m s1 :
  conns s !! c = Some m -> ascii_str a -> Z.of_nat (length (c_buffer m ++ a)) <= MAX_INPUT_BUFFER ->
  process_lines secret clock randomBytes c (fst (split_nl (c_buffer m ++ a))) s = (s1, AllDone) ->
  on_data secret clock randomBytes c a s = upd c (set_buffer (snd (split_nl (c_buffer m ++ a)))) s1 /\
  crashed s1 = crashed s /\ is_Some (conns s1 !! c).
Proof.
  intros Hm Ha Hlen Hp. destruct (frame_process_lines secret clock randomBytes quiet c (fst (split_nl (c_buffer m ++ a))) s) as [Hc Hl].
  rewrite Hp in Hc, Hl. cbn [fst] in Hc, Hl. split; [|split; [done|]].
  - unfold on_data. rewrite Hm. pose proof (utf8_decode_ascii_app a [] Ha) as E. rewrite !app_nil_r in E. rewrite E.
    rewrite (proj2 (Z.ltb_ge _ _)) by lia. rewrite (surjective_pairing (split_nl _)). unfold run_lines.
    by rewrite process_lines_unbuffered, Hp.
  - apply lookup_lt_is_Some. rewrite Hl. by eapply lookup_lt_Some.
Qed.

(** Two handler runs in a row are one on the whole input, when the first runs
    through its lines. *)
Lemma on_data_app c a b s m s1 :
  conns s !! c = Some m -> ascii_str a ->
  Z.of_nat (length (c_buffer m ++ a ++ utf8_decode b)) <= MAX_INPUT_BUFFER ->
  process_lines secret clock randomBytes c (fst (split_nl (c_buffer m ++ a))) s = (s1, AllDone) ->
  on_data secret clock randomBytes c (a ++ b) s =
  on_data secret clock randomBytes c b (on_data secret clock randomBytes c a s).
Proof.
  intros Hm Ha Hlen Hp. set (rest := snd (split_nl (c_buffer m ++ a))).
  destruct (on_data_done c a s m s1 Hm Ha ltac:(rewrite !length_app in *; lia) Hp) as (Ea & _ & [m1 Hm1]). fold rest in Ea.
  rewrite Ea. unfold on_data at 2. cbn [upd with_conns conns]. rewrite list_lookup_alter_eq, Hm1.
  cbn [fmap option_fmap option_map set_buffer c_buffer].
  pose proof (split_nl_rest_length (c_buffer m ++ a)) as Hr. fold rest in Hr.
  rewrite (proj2 (Z.ltb_ge _ (Z.of_nat (length (rest ++ _))))) by (rewrite !length_app in *; lia).
  unfold on_data. rewrite Hm, utf8_decode_ascii_app, app_assoc by done.
  rewrite (proj2 (Z.ltb_ge _ _)) by (rewrite !length_app in *; lia).
  rewrite split_nl_app. fold rest. rewrite (surjective_pairing (split_nl (rest ++ utf8_decode b))). cbn [fst snd].
  change (with_conns (alter (set_buffer rest) c) s1) with (upd c (set_buffer rest) s1).
  rewrite set_buffer_twice. unfold run_lines. rewrite !process_lines_unbuffered.
  by rewrite (process_lines_app _ _ _ _ _ Hp).
Qed.

(** C34. Where ASCII input is cut does not matter: an ASCII chunk followed by
    another has the effect of the two arriving as one, provided that what is
    buffered and both chunks together fit the input limit, that the lines
    completed by the first chunk are all processed (no exception, and no login
    that suspends the handler), and that the socket is still read after them. *)
Theorem chunking_irrelevant c a b s m s1 :
  crashed s = false -> conns s !! c = Some m -> c_readable m = true -> ascii_str a ->
  Z.of_nat (length (c_buffer m ++ a ++ utf8_decode b)) <= MAX_INPUT_BUFFER ->
  process_lines secret clock randomBytes c (fst (split_nl (c_buffer m ++ a))) s = (s1, AllDone) ->
  (forall k, conns s1 !! c = Some k -> c_readable k = true) ->
  run secret clock randomBytes s [EvData c (a ++ b)] = run secret clock randomBytes s [EvData c a; EvData c b].
Proof.
  intros Hc Hm Hr Ha Hl Hp Hr1. pose proof (on_data_app c a b s m s1 Hm Ha Hl Hp) as E.
  destruct (on_data_done c a s m s1 Hm Ha ltac:(rewrite !length_app in *; lia) Hp) as (Ea & Hc1 & [m1 Hm1]).
  assert (step secret clock randomBytes (on_data secret clock randomBytes c a s) (EvData c b) =
          Some (on_data secret clock randomBytes c b (on_data secret clock randomBytes c a s))) as E2.
  { rewrite Ea. unfold step. change (crashed (upd _ _ s1)) with (crashed s1). rewrite Hc1, Hc.
    change (conns (upd c ?f s1)) with (alter f c (conns s1)). rewrite list_lookup_alter_eq, Hm1.
    cbn [fmap option_fmap option_map mbind option_bind set_buffer c_readable]. by rewrite (Hr1 m1 Hm1). }
  assert (forall d, step secret clock randomBytes s (EvData c d) = Some (on_data secret clock randomBytes c d s)) as E1.
  { intros d. unfold step. rewrite Hc, Hm. cbn [mbind option_bind]. by rewrite Hr. }
  cbn [run]. rewrite !E1. cbn [mbind option_bind]. rewrite E2. cbn [mbind option_bind]. by rewrite E.
Qed.

(** ** Lines that abort the loop *)

(** A line that is the JSON text [null] throws in the loop body, and the
    handler gives up on the chunk: the lines after it are lost although the
    connection stays open. *)
Theorem null_line_drops_rest c rest s :
  process_lines secret clock randomBytes c (js "null" :: rest) s =
  (with_trace (ELine c (js "null")) s, Aborted rest).
Proof. reflexivity. Qed.

(** ** Logins that wait *)

(** A line that is a login with the secret. *)
Definition logs_in (line : jstr) (id : val) : Prop :=
  trim line <> [] /\ is_undef id = false /\
  exists msg params login user,
    JSON_parse (trim line) = Ok msg /\ get msg (js "id") = Ok id /\ get msg (js "method") = Ok (VStr (js "login")) /\
    get msg (js "params") = Ok params /\ truthy params = true /\ get params (js "password") = Ok (VStr secret) /\
    get params (js "login") = Ok login /\ get params (js "user") = Ok user.

(** A connection of an XMRig miner, or of one not known yet, with no input left. *)
Definition listening (m : conn) : Prop :=
  c_protocol m <> Some Stratum /\ c_readable m = true /\ c_destroyed m = false /\ c_buffer m = [].

(** A process with that one connection, and its suspended work. *)
Definition serving (p : list task) s : Prop :=
  crashed s = false /\ pending s = p /\ exists m, conns s = [m] /\ listening m.

Lemma login_waits line id p s :
  logs_in line id -> serving p s ->
  exists s', process_line secret clock randomBytes 0 line s = (s', Ok (Some id)) /\ serving p s'.
Proof.
  intros (Ht & Hu & msg & params & login & user & Hj & Hi & Hm & Hp & Htp & Hpw & Hl & Hus) (Hc & Hq & m & Hs & Hx & Hr & Hd & Hb).
  unfold process_line, mbind, M_bind, modify, lift. destruct (trim line) as [|x text]; [done|]. rewrite Hj, Hi, Hu, Hm.
  unfold choose_protocol, mbind, M_bind, minerInfo. cbn [with_trace conns]. rewrite Hs. cbn [lookup list_lookup].
  assert (forall s1, crashed s1 = false -> pending s1 = p -> (exists m1, conns s1 = [m1] /\ listening m1) ->
    exists s', xmrig_message secret clock 0 id msg (VStr (js "login")) s1 = (s', Ok (Some id)) /\ serving p s') as Hend.
  { intros s1 H1 H2 (m1 & H3 & H4). unfold xmrig_message, xmrig_login, mbind, M_bind, lift, modify, mret, M_ret. cbn [is_str].
    rewrite str_eqb_refl, Hp, Htp, Hpw. cbn [is_str negb orb]. rewrite str_eqb_refl. cbn [negb]. rewrite Hl, Hus.
    eexists. split; [reflexivity|]. split; [done|]. split; [done|]. cbn [with_trace upd with_conns conns]. rewrite H3.
    by eexists. }
  destruct (c_protocol m) as [[]|] eqn:Ep; [|done|]; cbn [mret M_ret is_str].
  - cbn [with_trace conns]. rewrite Hs. cbn [lookup list_lookup]. rewrite Ep. apply Hend; [done..|]. exists m. split; [done|]. by split; [rewrite Ep|].
  - rewrite str_eqb_refl. unfold modify. cbn [upd with_conns conns with_trace]. rewrite Hs.
    cbn [alter list_alter lookup list_lookup set_protocol c_protocol]. apply Hend; [done..|].
    cbn [upd with_conns conns with_trace]. rewrite Hs. by eexists.
Qed.

Lemma login_chunk line id rest p s :
  logs_in line id -> Forall no_nl (line :: rest) -> Forall (fun l => ascii_str l) (line :: rest) ->
  held (line :: rest) <= MAX_INPUT_BUFFER -> serving p s ->
  exists s', step secret clock randomBytes s (EvData 0 (mjoin (map (fun l => l ++ [10]) (line :: rest)))) = Some s' /\
    serving (p ++ [PLogin 0 id rest]) s'.
Proof.
  intros Hl Hn Ha Hh (Hc & Hq & m & Hs & Hx & Hr & Hd & Hb). set (chunk := mjoin _).
  assert (ascii_str chunk) as Hasc.
  { unfold chunk. clear -Ha. induction Ha as [|l ls Hl _ IH]; [constructor|]. cbn [map mjoin list_join].
    apply Forall_app. split; [|done]. apply Forall_app. split; [done|]. constructor; [lia|constructor]. }
  unfold step. rewrite Hc, Hs. cbn [lookup list_lookup mbind option_bind]. rewrite Hr. eexists. split; [reflexivity|].
  unfold on_data. rewrite Hs. cbn [lookup list_lookup]. rewrite Hb. pose proof (utf8_decode_ascii_app chunk [] Hasc) as E.
  rewrite !app_nil_r in E. rewrite E. cbn [app]. unfold held in Hh. fold chunk in Hh. rewrite (proj2 (Z.ltb_ge _ _)) by lia.
  unfold chunk. rewrite split_nl_lines by done. unfold run_lines. cbn [process_lines].
  destruct (login_waits line id p (upd 0 (set_buffer []) s) Hl) as (s' & Es & Hc' & Hq' & Hm').
  { split; [done|]. split; [done|]. cbn [upd with_conns conns]. rewrite Hs. by eexists. }
  rewrite Es. split; [done|]. split; [cbn [with_pending pending]; by rewrite Hq'|done].
Qed.

(** Nothing caps the logins of one connection that wait for their templates: a
    miner with the secret that sends [n] chunks of a login and other lines, each
    up to the input limit, before the node has answered, leaves [n] suspended
    handlers behind, each with the lines of its chunk. *)
Theorem logins_pile_up clientId line id rest n :
  logs_in line id -> Forall no_nl (line :: rest) -> Forall (fun l => ascii_str l) (line :: rest) ->
  held (line :: rest) <= MAX_INPUT_BUFFER ->
  exists s, run secret clock randomBytes init
      (EvConnect clientId :: replicate n (EvData 0 (mjoin (map (fun l => l ++ [10]) (line :: rest))))) = Some s /\
    serving (PStartup :: replicate n (PLogin 0 id rest)) s.
Proof.
  intros Hl Hn Ha Hh. assert (forall n p s, serving p s ->
    exists s', run secret clock randomBytes s (replicate n (EvData 0 (mjoin (map (fun l => l ++ [10]) (line :: rest))))) = Some s' /\
      serving (p ++ replicate n (PLogin 0 id rest)) s') as H.
  { clear n. induction n as [|n IH]; intros p s Hs; cbn [replicate run]; [rewrite app_nil_r; by eexists|].
    destruct (login_chunk line id rest p s Hl Hn Ha Hh Hs) as (s1 & -> & H1). cbn [mbind option_bind].
    destruct (IH _ _ H1) as (s2 & -> & H2). rewrite <- app_assoc in H2. by eexists. }
  cbn [run]. destruct (H n [PStartup] (on_connection clientId init)) as (s & E & Hs); [|by exists s].
  split; [done|]. split; [done|]. by eexists.
Qed.

(** ** Updates *)

(** What writes to the miners leave alone. *)
Definition same_job s s' : Prop :=
  jobCounter s' = jobCounter s /\ currentJob s' = currentJob s /\ randomxVM s' = randomxVM s /\
  crashed s' = crashed s /\ pending s' = pending s.

Definition modest {A} (m : M A) : Prop := forall s, same_job s (fst (m s)).

Lemma modest_bind {A B} (m : M A) (f : A -> M B) :
  modest m -> (forall a, modest (f a)) -> modest (mbind (MBind := M_bind) f m).
Proof.
  intros Hm Hf s. unfold mbind, M_bind. specialize (Hm s). destruct (m s) as [s' [a|e]]; cbn [fst] in *; [|done].
  specialize (Hf a s'). unfold same_job in *. intuition congruence.
Qed.

Lemma modest_minerInfo c : modest (minerInfo c).
Proof. intros s. unfold minerInfo. by destruct (conns s !! c). Qed.

Lemma modest_safeWrite c m : modest (safeWrite c m).
Proof.
  apply modest_bind; [apply modest_minerInfo|]. intros k. cbn zeta. destruct (negb _); [done|]. by destruct (_ <? _).
Qed.

Lemma modest_notify j c : modest (notify_miner j c).
Proof.
  apply modest_bind; [apply modest_minerInfo|]. intros k. destruct (negb _); [done|].
  apply modest_bind; [|done]. destruct (c_protocol k) as [[]|]; [apply modest_safeWrite| |done].
  apply modest_bind; [done|]. intros. apply modest_safeWrite.
Qed.

Lemma broadcast_same j cs s : same_job s (broadcast j cs s).
Proof.
  revert s; induction cs as [|c cs IH]; intros s; [done|]. cbn [broadcast].
  pose proof (modest_notify j c s). specialize (IH (fst (notify_miner j c s))). unfold same_job in *. intuition congruence.
Qed.

(** The node's template makes a job. *)
Definition good_gbt (g : gbt) : Prop :=
  is_u256 (g_prev g) /\ is_u32 (g_time g) /\ is_u32 (g_bits g) /\ c_target (SetCompact (g_bits g)) <> 0.

Definition gbt_job (n : Z) (g : gbt) : job :=
  job_of n (gbt_result g) (g_prev g) null256 (g_time g) (g_bits g) (c_target (SetCompact (g_bits g))) (vint (g_height g)).

Lemma gbt_creates g cnt :
  good_gbt g -> createRandomXJob cnt (gbt_result g) = (cnt + 1, Ok (gbt_job (cnt + 1) g)).
Proof.
  intros (H1 & H2 & H3 & H4). pose proof (SetCompact_range (g_bits g) H3).
  destruct (gbt_reads g) as (_ & _ & _ & Rt & Rh).
  destruct (createRandomXJob_ok cnt (gbt_result g) _ _ _ _ (c_target (SetCompact (g_bits g)))
              (gbt_template_of g H1 H2 H3) Rt ltac:(lia)) as (ht & Eh & E).
  rewrite Rh in Eh. injection Eh as <-. exact E.
Qed.

Lemma gbt_height n g : is_ok (to_string (height (gbt_job n g))) = true.
Proof. cbn [gbt_job job_of height]. unfold or_else. by destruct (truthy _). Qed.

(** The state after an update with a template of the node, up to the miners. *)
Lemma on_update_gbt g s :
  good_gbt g -> crashed s = false ->
  let j := gbt_job (jobCounter s + 1) g in
  let s' := on_update (gbt_result g) s in
  crashed s' = false /\ currentJob s' = Some j /\ jobCounter s' = jobCounter s + 1 /\ pending s' = pending s /\
  randomxVM s' = match currentJob s with
                 | Some cur => if num_eq (epoch cur) (epoch j) then randomxVM s else randomxVM (initRandomX (epoch j) s)
                 | None => randomxVM s
                 end.
Proof.
  intros Hg Hc j s'. unfold s', on_update. change (truthy (gbt_result g)) with true. cbn [negb].
  unfold create_job. pose proof (gbt_creates g (jobCounter s) Hg) as Ej. rewrite Ej. fold j. clear Ej.
  change (currentJob (with_job _ _ s)) with (currentJob s).
  set (s2 := match currentJob s with Some _ => _ | None => _ end).
  assert (crashed s2 = false /\ jobCounter s2 = jobCounter s + 1 /\ pending s2 = pending s /\
    randomxVM s2 = match currentJob s with
                   | Some cur => if num_eq (epoch cur) (epoch j) then randomxVM s else randomxVM (initRandomX (epoch j) s)
                   | None => randomxVM s end) as (E1 & E2 & E3 & E4).
  { unfold s2. destruct (currentJob s) as [cur|]; [|done]. destruct (num_eq _ _); [done|].
    unfold initRandomX. destruct (randomx_init_cache _) as [ca|]; [|done]. by destruct (randomx_create_vm ca). }
  pose proof (broadcast_same j (map snd (miners (with_job (jobCounter s2) (Some j) s2))) (with_job (jobCounter s2) (Some j) s2)) as Hb.
  unfold same_job in Hb. cbn [with_job jobCounter currentJob randomxVM crashed pending] in Hb.
  destruct Hb as (B1 & B2 & B3 & B4 & B5). pose proof (gbt_height (jobCounter s + 1) g) as Hh. fold j in Hh.
  destruct (to_string (height j)); [|done]. by rewrite B1, B2, B3, B4, B5, E1, E2, E3, E4.
Qed.

(** C37. A periodic update answered with a template of the node (32-bit time and
    bits, a target that is not zero) succeeds: the process stays up and the job of
    that template becomes current under the next number.  The machine changes only
    if there was a current job of another epoch and the library builds the cache
    and the machine of the new epoch's seed; that machine is then installed, and
    in all other cases the old one (or none) stays. *)
Theorem node_update s i chunks g id :
  crashed s = false -> pending s !! i = Some PTick -> good_gbt g ->
  JSON_parse (rpc_body chunks) = Ok (JSONRPCReplyObj (gbt_result g) VNull id) ->
  exists s', step secret clock randomBytes s (EvReply i (Response chunks)) = Some s' /\
    crashed s' = false /\ currentJob s' = Some (gbt_job (jobCounter s + 1) g) /\
    let ep := GetEpoch (g_time g) epoch_seconds in
    let built := cache ← randomx_init_cache (GetSeedHash ep); randomx_create_vm cache in
    randomxVM s' =
      match currentJob s, built with
      | Some old, Some vm => if num_eq (epoch old) (num_of_Z ep) then randomxVM s else Some vm
      | _, _ => randomxVM s
      end.
Proof.
  intros Hc Hi Hg Hr. unfold step. rewrite Hc, Hi. cbn [mbind option_bind]. eexists. split; [reflexivity|].
  cbn [resume]. assert (getBlockTemplate (Response chunks) = gbt_result g) as ->.
  { unfold getBlockTemplate, makeRpcRequest. by rewrite (rpc_settle_reply _ _ _ _ Hr). }
  destruct (on_update_gbt g (with_pending (delete i (pending s)) s) Hg Hc) as (E1 & E2 & _ & _ & E4).
  split; [exact E1|]. split; [exact E2|]. cbn zeta. rewrite E4.
  change (currentJob (with_pending _ s)) with (currentJob s). destruct (currentJob s) as [old|]; [|done].
  change (epoch (gbt_job _ g)) with (num_of_Z (GetEpoch (g_time g) epoch_seconds)).
  unfold initRandomX. rewrite getEpochSeedHash_num by (apply epoch_range, Hg).
  rewrite from_to_hex by apply sha256_byte. destruct (num_eq _ _); [by destruct (mbind _ _)|].
  destruct (randomx_init_cache _) as [cache|]; [|done]. cbn [mbind option_bind]. by destruct (randomx_create_vm cache).
Qed.

(** One periodic update answered with a template of the node. *)
Definition update_round (x : exchange) : list event := [EvTick; EvReply 0 x].

Lemma update_round_run g x s :
  good_gbt g -> getBlockTemplate x = gbt_result g -> crashed s = false -> pending s = [] ->
  exists s', run secret clock randomBytes s (update_round x) = Some s' /\
    crashed s' = false /\ pending s' = [] /\ currentJob s' = Some (gbt_job (jobCounter s + 1) g) /\
    (match currentJob s with Some cur => num_eq (epoch cur) (epoch (gbt_job 0 g)) = true | None => True end ->
     randomxVM s' = randomxVM s).
Proof.
  intros Hg Hx Hc Hp. set (s1 := with_trace ETemplateRpc (with_pending [PTick] s)).
  assert (step secret clock randomBytes s EvTick = Some s1) as S1 by (unfold step; by rewrite Hc, Hp).
  set (s0 := with_pending [] s1).
  assert (step secret clock randomBytes s1 (EvReply 0 x) = Some (on_update (gbt_result g) s0)) as S2.
  { unfold step. change (crashed s1) with (crashed s). rewrite Hc, <- Hx. done. }
  unfold update_round. cbn [run]. rewrite S1. cbn [mbind option_bind]. rewrite S2. cbn [mbind option_bind].
  destruct (on_update_gbt g s0 Hg Hc) as (E1 & E2 & E3 & E4 & E5). eexists. split; [reflexivity|].
  split; [exact E1|]. split; [exact E4|]. split; [exact E2|]. intros He. rewrite E5.
  change (currentJob s0) with (currentJob s). destruct (currentJob s) as [cur|]; [|done].
  change (epoch (gbt_job (jobCounter s0 + 1) g)) with (epoch (gbt_job 0 g)). by rewrite He.
Qed.

Lemma epoch_refl g n : good_gbt g -> num_eq (epoch (gbt_job n g)) (epoch (gbt_job 0 g)) = true.
Proof.
  intros (_ & Ht & _). change (epoch (gbt_job n g)) with (num_of_Z (GetEpoch (g_time g) epoch_seconds)).
  change (epoch (gbt_job 0 g)) with (num_of_Z (GetEpoch (g_time g) epoch_seconds)).
  pose proof (epoch_range (g_time g) Ht). rewrite num_eq_of_Z by lia. apply Z.eqb_refl.
Qed.

(** If the very first template request fails, no machine is ever made while
    the epoch lasts: however many periodic updates succeed, the proxy has jobs
    to hand out and nothing to check a submit with. *)
Theorem failed_start_leaves_no_machine g x n :
  good_gbt g -> getBlockTemplate x = gbt_result g ->
  exists s, run secret clock randomBytes init
              (EvReply 0 ConnectionError :: mjoin (replicate (S n) (update_round x))) = Some s /\
    is_Some (currentJob s) /\ randomxVM s = None.
Proof.
  intros Hg Hx.
  assert (forall k s, crashed s = false -> pending s = [] -> randomxVM s = None ->
    (match currentJob s with Some cur => num_eq (epoch cur) (epoch (gbt_job 0 g)) = true | None => True end) ->
    exists s', run secret clock randomBytes s (mjoin (replicate (S k) (update_round x))) = Some s' /\
      is_Some (currentJob s') /\ randomxVM s' = None) as H.
  { induction k as [|k IH]; intros s H1 H2 H3 H4;
      destruct (update_round_run g x s Hg Hx H1 H2) as (s1 & R & C1 & P1 & J1 & V1); specialize (V1 H4).
    - exists s1. change (mjoin (replicate 1 (update_round x))) with (update_round x). rewrite R, J1, V1. eauto.
    - destruct (IH s1) as (s2 & R2 & J2 & V2); [done|done|congruence|rewrite J1; by apply epoch_refl|].
      exists s2. split; [|done]. change (mjoin (replicate (S (S k)) (update_round x)))
        with (update_round x ++ mjoin (replicate (S k) (update_round x))).
      unfold update_round in R |- *. cbn [run app mbind option_bind] in R |- *.
      destruct (step secret clock randomBytes s EvTick) as [sa|]; [|done]. cbn [mbind option_bind] in *.
      destruct (step secret clock randomBytes sa (EvReply 0 x)) as [sb|]; [|done]. cbn [mbind option_bind] in *.
      injection R as ->. exact R2. }
  apply (H n (with_pending [] init)); done.
Qed.

End Runs.

(** ** Concrete runs *)

(** A reply as the node writes it, and a miner's line (quoted with ['']). *)
Definition node_reply (v : val) : exchange :=
  Response [default [] (stringify (JSONRPCReplyObj v VNull (VNum (num_of_Z 3))))].

Definition miner_line (s : string) : bytes := map (fun c => if c =? 39 then 34 else c) (js s) ++ [10].

Definition ex_secret : jstr := js "pw".
Definition ex_clock (n : nat) : Z := Z.of_nat n * 10.
Definition ex_random (_ n : nat) : bytes := replicate n 7.

Definition gbt_at (time : Z) : gbt :=
  {| g_rules := []; g_version := 0x20000000; g_vbavailable := []; g_prev := ex_prev; g_txs := [];
     g_coinbasevalue := 5000000000; g_longpollid := []; g_mintime := 1; g_presegwit := false;
     g_time := time; g_bits := ex_bits; g_height := 7; g_signet := None;
     g_witness_commitment := [1]; g_algo := RandomXFields 604800 time |}.

Lemma good_gbt_at time : is_u32 time -> good_gbt (gbt_at time).
Proof. intros H. split; [apply le_bytes_u256|]. split; [done|]. split; [done|]. vm_compute. discriminate. Qed.

Definition login_line : bytes := miner_line "{'id':1,'method':'login','params':{'login':'me','password':'pw'}}".

(** Start, one miner logs in and submits, the job is updated, it submits again. *)
Definition ex_events : list event :=
  [EvReply 0 (node_reply (gbt_result ex_gbt));
   EvConnect (js "10.0.0.1:4001");
   EvData 0 login_line;
   EvReply 0 (node_reply (gbt_result ex_gbt));
   EvData 0 (miner_line "{'id':2,'method':'submit','params':{'job_id':'2','nonce':'0000000a','ntime':'6553f100'}}");
   EvTick;
   EvReply 0 (node_reply (gbt_result ex_gbt));
   EvData 0 (miner_line "{'id':3,'method':'submit','params':{'job_id':'2','nonce':'0000000b','ntime':'6553f100'}}")].

Definition ex_state : proxy (L := toy_randomx) :=
  default init (run ex_secret ex_clock ex_random init ex_events).

Lemma run_reachable {L : RandomXLib} secret clock randomBytes evs s :
  reachable secret clock randomBytes s ->
  reachable secret clock randomBytes (default s (run secret clock randomBytes s evs)).
Proof.
  assert (forall evs s s', run secret clock randomBytes s evs = Some s' ->
    reachable secret clock randomBytes s -> reachable secret clock randomBytes s') as H.
  { clear. induction evs as [|ev evs IH]; intros s s'; cbn [run]; [by intros [= ->]|].
    destruct (step secret clock randomBytes s ev) as [s1|] eqn:E; [|done]. cbn [mbind option_bind]. intros Hr Hs.
    eapply IH; [done|]. by eapply reach_step. }
  intros Hs. destruct (run secret clock randomBytes s evs) as [s'|] eqn:E; [by eapply H|done].
Qed.

Lemma ex_reachable : reachable ex_secret ex_clock ex_random ex_state.
Proof. apply run_reachable. apply reach_init. Qed.

(** Projections of the run, computed once. *)
Lemma ex_authorized : exists m, conns ex_state !! 0%nat = Some m /\ c_authorized m = true.
Proof.
  assert (option_map c_authorized (conns ex_state !! 0%nat) = Some true) as H by (vm_compute; reflexivity).
  destruct (conns ex_state !! 0%nat) as [m|]; [|done]. exists m. by injection H as ->.
Qed.

Lemma ex_trace_hash : hashes (trace ex_state) = [(0, 0%nat)].
Proof. vm_compute. reflexivity. Qed.

Lemma ex_monotone : monotone_clock ex_clock.
Proof. intros i j Hij. unfold ex_clock. lia. Qed.

Lemma resource_caps_witness :
  (length (miners ex_state) <= 32)%nat /\
  exists m, conns ex_state !! 0%nat = Some m /\ c_queued m <= 16 * 1024 * 1024.
Proof.
  destruct (resource_caps _ _ _ ex_state ex_reachable) as (H1 & H2 & _). split; [exact H1|].
  destruct ex_authorized as (m & Hm & _). exists m. split; [exact Hm|]. exact (proj1 (H2 0%nat m Hm)).
Defined.

Lemma logins_pile_up_witness :
  exists s : proxy (L := toy_randomx), run ex_secret ex_clock ex_random init
      (EvConnect (js "10.0.0.1:4001") :: replicate 3 (EvData 0 (mjoin (map (fun l => l ++ [10]) [removelast login_line; js "ping"])))) = Some s /\
    serving (PStartup :: replicate 3 (PLogin 0 (VNum (num_of_Z 1)) [js "ping"])) s.
Proof.
  apply logins_pile_up.
  - split; [vm_compute; discriminate|]. split; [done|]. do 4 eexists. repeat split; vm_compute; reflexivity.
  - vm_compute. repeat constructor; discriminate.
  - vm_compute. repeat constructor; discriminate.
  - vm_compute. discriminate.
Defined.

Lemma secret_required_witness :
  exists line, ELine 0 line ∈ trace ex_state /\ presents ex_secret line = true.
Proof. exact (secret_required _ _ _ ex_state 0 ex_reachable (or_introl ex_authorized)). Defined.

Lemma randomx_budget_witness :
  (length (List.filter (fun a => in_span 1000 0 a) (hashes (trace ex_state))) <= 40)%nat.
Proof. exact (proj1 (randomx_budget _ _ _ ex_state 0 0 ex_monotone ex_reachable)). Defined.

Lemma peer_sees_messages_witness :
  exists bodies, map render (written 0 (trace ex_state)) = map (fun b => b ++ [10]) bodies /\
    split_nl (mjoin (map render (written 0 (trace ex_state)))) = (bodies, []).
Proof. exact (peer_sees_messages _ _ _ ex_state 0 ex_reachable). Defined.

Lemma machine_keyed_witness :
  exists vm e, randomxVM ex_state = Some vm /\ keyed vm (from_hex (getEpochSeedHash e)).
Proof.
  assert (is_Some (randomxVM ex_state)) as [vm Hvm].
  { assert (match randomxVM ex_state with Some _ => true | None => false end = true) as H by (vm_compute; reflexivity).
    destruct (randomxVM ex_state); [by eexists|done]. }
  destruct (machine_keyed _ _ _ ex_state vm ex_reachable Hvm) as [e He]. exists vm, e. split; [exact Hvm|exact He].
Defined.

Lemma peer_cannot_crash_witness :
  exists s', step ex_secret ex_clock ex_random ex_state (EvData 0 (miner_line "null")) = Some s' /\ crashed s' = false.
Proof.
  destruct (step ex_secret ex_clock ex_random ex_state (EvData 0 (miner_line "null"))) as [s'|] eqn:E.
  - exists s'. split; [reflexivity|]. exact (peer_cannot_crash _ _ _ ex_state (EvData 0 (miner_line "null")) s' I E).
  - exfalso. assert (match step ex_secret ex_clock ex_random ex_state (EvData 0 (miner_line "null")) with
                     | Some _ => true | None => false end = true) as H by (vm_compute; reflexivity).
    rewrite E in H. discriminate H.
Defined.

(** Two pings, cut inside the second. *)
Definition ping_a : bytes := miner_line "{'id':5,'method':'ping'}" ++ js "  {".
Definition ping_b : bytes := miner_line "'id':6,'method':'ping'}".

Lemma ex_ping_runs :
  let r := process_lines ex_secret ex_clock ex_random 0 (fst (split_nl ping_a)) ex_state in
  (match snd r with AllDone => true | _ => false end) = true /\
  option_map c_readable (conns (fst r) !! 0%nat) = Some true.
Proof. split; vm_compute; reflexivity. Qed.

Lemma chunking_irrelevant_witness :
  run ex_secret ex_clock ex_random ex_state [EvData 0 (ping_a ++ ping_b)] =
  run ex_secret ex_clock ex_random ex_state [EvData 0 ping_a; EvData 0 ping_b].
Proof.
  assert (option_map (fun m => (c_readable m, c_buffer m)) (conns ex_state !! 0%nat) = Some (true, [])) as Hc
    by (vm_compute; reflexivity).
  destruct (conns ex_state !! 0%nat) as [m|] eqn:Hm; [|discriminate Hc]. injection Hc as Hr Hb.
  destruct ex_ping_runs as [H1 H2].
  destruct (process_lines ex_secret ex_clock ex_random 0 (fst (split_nl ping_a)) ex_state) as [s1 e] eqn:E.
  cbn [fst snd] in H1, H2. destruct e; try discriminate H1.
  apply (chunking_irrelevant _ _ _ 0 ping_a ping_b ex_state m s1).
  - vm_compute. reflexivity.
  - exact Hm.
  - exact Hr.
  - vm_compute. repeat constructor; discriminate.
  - rewrite Hb. vm_compute. discriminate.
  - rewrite Hb. exact E.
  - intros k Hk. rewrite Hk in H2. injection H2 as H2. exact H2.
Defined.

Lemma node_update_witness :
  exists s', step ex_secret ex_clock ex_random
      (with_pending [PTick] (with_job 4 (Some (gbt_job 4 (gbt_at 1699999999))) init))
      (EvReply 0 (node_reply (gbt_result (gbt_at 1700100000)))) = Some s' /\
    randomxVM s' = Some (GetSeedHash (GetEpoch 1700100000 epoch_seconds)).
Proof.
  destruct (node_update (L := toy_randomx) ex_secret ex_clock ex_random
    (with_pending [PTick] (with_job 4 (Some (gbt_job 4 (gbt_at 1699999999))) init)) 0
    [default [] (stringify (JSONRPCReplyObj (gbt_result (gbt_at 1700100000)) VNull (VNum (num_of_Z 3))))]
    (gbt_at 1700100000) (VNum (num_of_Z 3))) as (s' & E & _ & _ & H).
  - reflexivity.
  - reflexivity.
  - apply good_gbt_at. split; [discriminate|reflexivity].
  - vm_compute. reflexivity.
  - exists s'. split; [exact E|]. cbn zeta in H. rewrite H. vm_compute. reflexivity.
Defined.

Lemma failed_start_leaves_no_machine_witness :
  exists s : proxy (L := toy_randomx), run ex_secret ex_clock ex_random init
      (EvReply 0 ConnectionError ::
       mjoin (replicate 3 (update_round (node_reply (gbt_result (gbt_at 1700000000)))))) = Some s /\
    is_Some (currentJob s) /\ randomxVM s = None.
Proof.
  apply (failed_start_leaves_no_machine ex_secret ex_clock ex_random (gbt_at 1700000000)).
  - apply good_gbt_at. split; [discriminate|reflexivity].
  - vm_compute. reflexivity.
Defined.

(** A run over an epoch change: started in epoch 2810, a login in epoch 2811,
    then a periodic update in epoch 2811. *)
Definition epoch_change_events : list event :=
  [EvReply 0 (node_reply (gbt_result (gbt_at 1700000000)));
   EvConnect (js "10.0.0.1:4001");
   EvData 0 login_line;
   EvReply 0 (node_reply (gbt_result (gbt_at 1700100000)));
   EvTick;
   EvReply 0 (node_reply (gbt_result (gbt_at 1700100060)))].

(** A login can hide an epoch change.  In this run the current job belongs
    to the new epoch, nothing is pending, and the machine is still keyed to the
    old epoch's seed, which is not the seed the job advertises: the login made
    the new epoch's job current without touching the machine, and the periodic
    update then saw no change of epoch. *)
Theorem login_hides_epoch_change :
  exists s : proxy (L := toy_randomx),
    run ex_secret ex_clock ex_random init epoch_change_events = Some s /\ pending s = [] /\
    exists j vm, currentJob s = Some j /\ randomxVM s = Some vm /\
      keyed vm (GetSeedHash (GetEpoch 1700000000 epoch_seconds)) /\
      from_hex (seed_hash j) = GetSeedHash (GetEpoch 1700100060 epoch_seconds) /\
      from_hex (seed_hash j) <> GetSeedHash (GetEpoch 1700000000 epoch_seconds).
Proof.
  assert (match run (L := toy_randomx) ex_secret ex_clock ex_random init epoch_change_events with
          | Some s => (match pending s with [] => true | _ => false end) &&
              (match currentJob s with
               | Some j => bool_decide (from_hex (seed_hash j) = GetSeedHash 2811)
               | None => false end) &&
              bool_decide (randomxVM s = Some (GetSeedHash 2810))
          | None => false end = true) as H by (vm_compute; reflexivity).
  destruct (run _ _ _ _ _) as [s|]; [|discriminate H]. exists s. split; [reflexivity|].
  apply andb_true_iff in H as [[H1 H2]%andb_true_iff H3].
  destruct (pending s); [|discriminate H1]. split; [reflexivity|].
  destruct (currentJob s) as [j|]; [|discriminate H2]. apply bool_decide_eq_true in H2, H3.
  exists j, (GetSeedHash 2810). split; [reflexivity|]. split; [exact H3|]. split; [by exists (GetSeedHash 2810)|].
  split; [exact H2|]. rewrite H2. vm_compute. discriminate.
Qed.
