(* ===== verification/ProxyConnections.v ===== *)
(** * Stratum proxy: open connections and what the node's replies can break

    The registration of connections: as long as open sockets have different
    client ids, which an address and a port of TCP give, the map of miners holds
    exactly the open connections, so that the limit bounds them and every
    broadcast reaches them.  With a repeated id it does not.  The file also shows
    that a null template from the node ends the process. *)

From Stdlib Require Import ZArith Lia Bool String SpecFloat.
From stdpp Require Import base list numbers option.
From S2P Require Import Prelude JsNum Bytes JsStr JsValue Utf8 Sha256 Libs ProxyCodec ProxyRate ProxyMessages NodeRpc ProxyRpc ProxyServer ProxyFrames.

Open Scope Z_scope.

Section Connections.
Context {L : RandomXLib}.
Variable secret : jstr.
Variable clock : nat -> Z.
Variable randomBytes : nat -> nat -> bytes.

Implicit Types (s : proxy) (c : nat).

(** An open socket does not share its client id with a new one. *)
Definition fresh_id s (ev : event) : Prop :=
  match ev with
  | EvConnect id => forall c m, conns s !! c = Some m -> c_closed m = false -> c_client m <> id
  | _ => True
  end.

Inductive distinct_run : proxy -> Prop :=
  | distinct_init : distinct_run init
  | distinct_step s ev s' :
      distinct_run s -> fresh_id s ev -> step secret clock randomBytes s ev = Some s' -> distinct_run s'.

(** ** Registration *)

Definition tags (l : list conn) : list (jstr * bool) := (fun m => (c_client m, c_closed m)) <$> l.

(** Handlers neither open nor close nor register connections. *)
Definition steady s s' : Prop := miners s' = miners s /\ tags (conns s') = tags (conns s).

#[local] Instance steady_frame : Frame steady.
Proof.
  split; unfold steady.
  - done.
  - intros s1 s2 s3 [H1 H2] [H3 H4]. split; congruence.
  - intros s c f Hf. split; [done|]. cbn [upd with_conns conns]. unfold tags. apply list_eq. intros i. rewrite !list_lookup_fmap.
    destruct (decide (c = i)) as [->|]; [|by rewrite list_lookup_alter_ne]. rewrite list_lookup_alter_eq.
    destruct (conns s !! i) as [m|]; [|done]. cbn. by destruct (Hf m) as [-> ->].
  - intros s s' -> -> _. done.
Qed.

Lemma steady_crash s s' : steady s s' -> steady s (crash s').
Proof. done. Qed.

Record registered s : Prop := {
  reg_open : forall c m, conns s !! c = Some m -> c_closed m = false -> (c_client m, c) ∈ miners s;
  reg_entry : forall k c, (k, c) ∈ miners s -> exists m, conns s !! c = Some m /\ c_client m = k /\ c_closed m = false;
  reg_keys : NoDup (fst <$> miners s);
  reg_limit : (length (miners s) <= 32)%nat;
}.

Lemma tags_lookup l c t : tags l !! c = Some t <-> exists m, l !! c = Some m /\ (c_client m, c_closed m) = t.
Proof. unfold tags. rewrite list_lookup_fmap. destruct (l !! c) as [m|]; cbn; naive_solver. Qed.

Lemma registered_steady s s' : steady s s' -> registered s -> registered s'.
Proof.
  intros [Hm Ht] [H1 H2 H3 H4]. split; rewrite ?Hm; [..|done|done].
  - intros c m Em Hc. assert (tags (conns s') !! c = Some (c_client m, c_closed m)) as Hx by (apply tags_lookup; eauto).
    rewrite Ht in Hx. apply tags_lookup in Hx as (m0 & Em0 & [= Ec Ecl]). rewrite <- Ec. apply (H1 c m0 Em0). congruence.
  - intros k c Hk. destruct (H2 k c Hk) as (m & Em & Ek & Ec).
    assert (tags (conns s) !! c = Some (c_client m, c_closed m)) as Hx by (apply tags_lookup; eauto).
    rewrite <- Ht in Hx. apply tags_lookup in Hx as (m' & Em' & [= Ek' Ec']). exists m'. split; [done|]. split; congruence.
Qed.

(** ** Opening and closing *)

Lemma map_set_fresh k c (l : list (jstr * nat)) : k ∉ fst <$> l -> map_set k c l = l ++ [(k, c)].
Proof.
  induction l as [|[k' c'] l IH]; intros Hk; [done|]. cbn [map_set]. destruct (str_eqb k k') eqn:E.
  - apply str_eqb_spec in E as ->. destruct Hk. cbn. by constructor.
  - cbn [app]. f_equal. apply IH. intros H. apply Hk. cbn. by constructor.
Qed.

Lemma registered_connect id s : registered s -> fresh_id s (EvConnect id) -> registered (on_connection id s).
Proof.
  intros HR Hf. unfold on_connection. destruct (Nat.leb_spec MAX_CONNECTIONS (length (miners s))) as [|Hlt]; [done|].
  destruct HR as [H1 H2 H3 H4].
  assert (id ∉ fst <$> miners s) as Hnew.
  { intros Hin. apply list_elem_of_fmap in Hin as ([k c] & -> & Hin). destruct (H2 k c Hin) as (m & Em & Ek & Ec). by apply (Hf c m Em Ec). }
  split; cbn [with_miners with_conns miners conns]; rewrite map_set_fresh by done.
  - intros c m Em Hc. apply elem_of_app. apply lookup_app_Some in Em as [Em|[Hle Em]]; [left; by apply H1|right].
    apply list_lookup_singleton_Some in Em as [Hz <-]. apply list_elem_of_singleton. f_equal. lia.
  - intros k c Hk. apply elem_of_app in Hk as [Hk|Hk].
    + destruct (H2 k c Hk) as (m & Em & Ek). exists m. split; [by apply lookup_app_l_Some|done].
    + apply list_elem_of_singleton in Hk as [= -> ->]. exists (new_conn id). split; [|done].
      rewrite lookup_app_r, Nat.sub_diag by lia. done.
  - rewrite fmap_app. apply list.NoDup_app. split; [done|]. split; [|apply list.NoDup_singleton].
    intros x Hx Hx'. apply list_elem_of_singleton in Hx' as ->. done.
  - rewrite length_app. cbn [length]. unfold MAX_CONNECTIONS in Hlt. lia.
Qed.

Lemma map_delete_elem k (l : list (jstr * nat)) x : x ∈ map_delete k l <-> x ∈ l /\ x.1 <> k.
Proof.
  unfold map_delete. rewrite !list_elem_of_In, filter_In, negb_true_iff. destruct (str_eqb k x.1) eqn:E.
  - apply str_eqb_spec in E. naive_solver.
  - assert (x.1 <> k) by (intros <-; by rewrite str_eqb_refl in E). naive_solver.
Qed.

Lemma map_delete_keys k (l : list (jstr * nat)) : NoDup (fst <$> l) -> NoDup (fst <$> map_delete k l) /\ (length (map_delete k l) <= length l)%nat.
Proof.
  induction l as [|x l IH]; intros Hn; [done|]. cbn [map_delete List.filter]. fold (map_delete k l).
  apply list.NoDup_cons in Hn as [Hx Hn]. destruct (IH Hn) as [H1 H2]. destruct (negb _); cbn [length]; [|split; [done|lia]].
  split; [|lia]. apply list.NoDup_cons. split; [|done]. intros Hin. apply Hx.
  apply list_elem_of_fmap in Hin as (y & -> & Hy). apply map_delete_elem in Hy as [Hy _]. apply list_elem_of_fmap. eauto.
Qed.

(** Two entries of a map without repeated keys. *)
Lemma key_unique (l : list (jstr * nat)) k c c' : NoDup (fst <$> l) -> (k, c) ∈ l -> (k, c') ∈ l -> c = c'.
Proof.
  induction l as [|[k0 c0] l IH]; intros Hn H1 H2; [by apply not_elem_of_nil in H1|]. apply list.NoDup_cons in Hn as [Hx Hn].
  apply elem_of_cons in H1, H2. destruct H1 as [H1|H1], H2 as [H2|H2].
  - congruence.
  - injection H1 as -> ->. destruct Hx. apply list_elem_of_fmap. by exists (k0, c').
  - injection H2 as -> ->. destruct Hx. apply list_elem_of_fmap. by exists (k0, c).
  - by apply IH.
Qed.

Lemma registered_close c s m : registered s -> conns s !! c = Some m -> c_closed m = false -> registered (on_close c s).
Proof.
  intros [H1 H2 H3 H4] Em Hc. unfold on_close. rewrite Em.
  assert (forall c' m', conns s !! c' = Some m' -> c_closed m' = false -> c' <> c -> c_client m' <> c_client m) as Hdiff.
  { intros c' m' Em' Hc' Hne Heq. apply Hne. apply (key_unique (miners s) (c_client m)); [done| |by apply H1].
    rewrite <- Heq. by apply H1. }
  destruct (map_delete_keys (c_client m) (miners s) H3) as [Hk Hl].
  split; cbn [with_miners with_conns upd miners conns]; [..|done|lia].
  - intros c' m' Em' Hc'. destruct (decide (c = c')) as [->|Hne].
    + rewrite list_lookup_alter_eq, Em in Em'. injection Em' as <-. done.
    + rewrite list_lookup_alter_ne in Em' by done. apply map_delete_elem. split; [by apply H1|]. by apply (Hdiff c').
  - intros k c' Hin. apply map_delete_elem in Hin as [Hin Hne]. cbn [fst] in Hne. destruct (H2 k c' Hin) as (m' & Em' & Ek & Ec).
    exists m'. split; [|done]. rewrite list_lookup_alter_ne; [done|]. intros <-. congruence.
Qed.

Lemma steady_update tpl s : steady s (on_update tpl s).
Proof.
  unfold on_update. destruct (negb _); [done|]. pose proof (framed_create steady tpl s) as H. destruct (create_job tpl s) as [s1 [j|]]; cbn [fst] in H; [|done].
  set (s2 := match currentJob s1 with Some _ => _ | None => _ end).
  assert (steady s1 s2) as H2 by (unfold s2; repeat case_match; try done; apply frame_initRandomX, steady_frame).
  set (s3 := with_job (jobCounter s2) (Some j) s2). assert (steady s s3) as H3 by exact (frame_trans _ _ _ H (frame_trans _ _ _ H2 (frame_other s2 s3 eq_refl eq_refl eq_refl))).
  pose proof (frame_broadcast steady j (map snd (miners s3)) s3) as H4.
  pose proof (frame_trans _ _ _ H3 H4) as H5.
  by destruct (to_string (height j)).
Qed.

Lemma steady_startup tpl s : steady s (on_startup tpl s).
Proof.
  unfold on_startup. destruct (negb _); [done|]. pose proof (framed_create steady tpl s) as H. destruct (create_job tpl s) as [s1 [j|]]; cbn [fst] in H; [|done].
  destruct (to_string (height j)); [|done]. pose proof (frame_initRandomX steady (epoch j) (with_job (jobCounter s1) (Some j) s1)) as H2.
  exact (frame_trans _ _ _ H (frame_trans _ _ _ (frame_other s1 (with_job (jobCounter s1) (Some j) s1) eq_refl eq_refl eq_refl) H2)).
Qed.

Lemma registered_step s ev s' : registered s -> fresh_id s ev -> step secret clock randomBytes s ev = Some s' -> registered s'.
Proof.
  intros HR Hf. unfold step. destruct (crashed s); [done|].
  destruct ev as [id|c data|c n|c|c|c|c| |i x]; try (destruct (conns s !! c) as [m|] eqn:Em; cbn [mbind option_bind]; [|done]).
  - intros [= <-]. by apply registered_connect.
  - destruct (c_readable m); [|done]. intros [= <-]. by eapply registered_steady; [apply frame_on_data, steady_frame|].
  - destruct (_ && _); [|done]. intros [= <-]. by eapply registered_steady; [apply frame_upd|].
  - destruct (c_closed m); [done|]. intros [= <-]. by eapply registered_steady; [apply frame_upd|].
  - destruct (c_closed m); [done|]. intros [= <-]. by eapply registered_steady; [apply frame_upd|].
  - destruct (c_readable m); [|done]. intros [= <-]. by eapply registered_steady; [apply frame_upd|].
  - destruct (c_closed m) eqn:Ec; [done|]. intros [= <-]. by eapply registered_close.
  - intros [= <-]. apply (registered_steady s); [by apply frame_other|done].
  - destruct (pending s !! i) as [t|]; [|done]. cbn [mbind option_bind]. intros [= <-].
    set (s0 := with_pending (delete i (pending s)) s). assert (registered s0) as H0 by (apply (registered_steady s); [by apply frame_other|done]).
    destruct t as [| |c id rest|]; cbn [resume]; eapply registered_steady; try exact H0.
    + apply steady_startup.
    + apply steady_update.
    + apply frame_login, steady_frame.
    + by apply frame_other.
Qed.

Lemma distinct_registered s : distinct_run s -> registered s.
Proof. induction 1 as [|s ev s' _ IH Hf E]; [|by eapply registered_step]. split; cbn; [done|by intros k c ?%not_elem_of_nil|constructor|lia]. Qed.

(** The connections whose [close] has not been emitted. *)
Definition open_conns s : list nat := List.filter (fun c => match conns s !! c with Some m => negb (c_closed m) | None => false end) (seq 0 (length (conns s))).

Lemma open_conns_spec s c : c ∈ open_conns s <-> exists m, conns s !! c = Some m /\ c_closed m = false.
Proof.
  unfold open_conns. rewrite list_elem_of_In, filter_In, in_seq. split.
  - intros [_ H]. destruct (conns s !! c) as [m|]; [|done]. exists m. split; [done|]. by apply negb_true_iff.
  - intros (m & Em & Hc). rewrite Em, Hc. split; [|done]. apply lookup_lt_Some in Em. lia.
Qed.

(** C33. The limit bounds the open connections.  In every run in which a new socket
    does not have the client id of an open one, the map of miners holds exactly the
    open connections, each under its own id: so at most 32 connections are open at
    a time, and the broadcast of a job, which goes over the map, visits every open
    connection. *)
Theorem open_connections_registered s :
  distinct_run s ->
  (length (open_conns s) <= 32)%nat /\
  (forall c, c ∈ map snd (miners s) <-> exists m, conns s !! c = Some m /\ c_closed m = false) /\
  (forall c m, conns s !! c = Some m -> c_closed m = false -> (c_client m, c) ∈ miners s).
Proof.
  intros Hs. apply distinct_registered in Hs as [H1 H2 H3 H4].
  assert (forall c, c ∈ map snd (miners s) <-> exists m, conns s !! c = Some m /\ c_closed m = false) as Hex.
  { intros c. rewrite list_elem_of_In, in_map_iff. split.
    - intros ([k c'] & <- & Hin). apply list_elem_of_In in Hin. destruct (H2 k c' Hin) as (m & Em & _ & Ec). eauto.
    - intros (m & Em & Ec). exists (c_client m, c). split; [done|]. apply list_elem_of_In. by apply H1. }
  split; [|by split]. transitivity (length (map snd (miners s))); [|by rewrite length_map].
  apply List.NoDup_incl_length; [apply List.NoDup_filter, seq_NoDup|]. intros c Hc. apply list_elem_of_In in Hc. apply list_elem_of_In.
  by apply Hex, open_conns_spec.
Qed.

(** ** Repeated client ids *)

(** The state after [n] sockets with the same client id. *)
Lemma same_id_run id n :
  exists s, run secret clock randomBytes init (replicate n (EvConnect id)) = Some s /\
    conns s = replicate n (new_conn id) /\ (length (miners s) <= 1)%nat.
Proof.
  assert (forall n k s, conns s = replicate k (new_conn id) -> Forall (fun x => x.1 = id) (miners s) -> (length (miners s) <= 1)%nat -> crashed s = false ->
    exists s', run secret clock randomBytes s (replicate n (EvConnect id)) = Some s' /\
      conns s' = replicate (n + k) (new_conn id) /\ (length (miners s') <= 1)%nat) as H.
  { clear n. induction n as [|n IH]; intros k s Hc Hm Hl Hcr; cbn [replicate run]; [by exists s|].
    unfold step. rewrite Hcr. cbn [mbind option_bind]. unfold on_connection. rewrite (proj2 (Nat.leb_gt _ _)) by (unfold MAX_CONNECTIONS; lia).
    set (s1 := with_miners _ _). assert (Forall (fun x => x.1 = id) (miners s1) /\ (length (miners s1) <= 1)%nat) as [Hm1 Hl1].
    { cbn [s1 with_miners with_conns miners]. destruct (miners s) as [|[k0 c0] [|? ?]]; cbn in *; [by split; [repeat constructor|]| |lia].
      apply List.Forall_cons_iff in Hm as [E _]. cbn in E. subst k0. rewrite str_eqb_refl. by split; [repeat constructor|]. }
    destruct (IH (S k) s1) as (s' & Hr & Hc' & Hl'); [|done|done|done|].
    - cbn [s1 with_miners with_conns conns]. rewrite Hc. change [new_conn id] with (replicate 1 (new_conn id)). rewrite <- replicate_add. f_equal. lia.
    - exists s'. split; [done|]. split; [|done]. rewrite Hc'. f_equal. lia. }
  destruct (H n 0%nat init) as (s & H1 & H2 & H3); [done|constructor|cbn; lia|done|]. exists s. rewrite Nat.add_0_r in H2. done.
Qed.

(** Without distinct ids there is no limit.  For every number there is a run,
    of sockets that all have the same client id, in which that many connections are
    open and served while the map of miners has at most one entry. *)
Theorem same_id_defeats_limit (id : jstr) (n : nat) :
  exists s, reachable secret clock randomBytes s /\ length (open_conns s) = n /\ (length (miners s) <= 1)%nat /\
    forall c m, conns s !! c = Some m -> c_client m = id /\ c_readable m = true /\ c_writable m = true.
Proof.
  destruct (same_id_run id n) as (s & Hr & Hc & Hl). exists s. split; [|split; [|split; [done|]]].
  - revert Hr. generalize (replicate n (EvConnect id)) as evs. generalize (reach_init secret clock randomBytes). generalize init.
    intros s0 H0 evs. revert s0 H0. induction evs as [|ev evs IH]; intros s0 H0; cbn [run]; [by intros [= <-]|].
    destruct (step _ _ _ s0 ev) as [s1|] eqn:E; [|done]. cbn [mbind option_bind]. apply IH. by eapply reach_step.
  - unfold open_conns. rewrite Hc, length_replicate. rewrite forallb_filter_id; [apply length_seq|].
    apply forallb_forall. intros c Hin. apply in_seq in Hin. rewrite lookup_replicate_2 by lia. done.
  - intros c m Hm. rewrite Hc in Hm. by apply lookup_replicate in Hm as [-> _].
Qed.

(** ** Replies without a template *)

(** A null template ends the process.  If the node answers a template request of
    the startup or of the periodic update with a null result and no error, the
    client resolves the promise with the reply object itself; building a job from
    it throws, nothing catches the exception, and the process ends. *)
Theorem null_template_ends_process s i t chunks id s' :
  pending s !! i = Some t -> t = PStartup \/ t = PTick ->
  JSON_parse (rpc_body chunks) = Ok (JSONRPCReplyObj VNull VNull id) ->
  step secret clock randomBytes s (EvReply i (Response chunks)) = Some s' -> crashed s' = true.
Proof.
  intros Hp Ht Hj. unfold step. destruct (crashed s); [done|]. rewrite Hp. cbn [mbind option_bind].
  assert (getBlockTemplate (Response chunks) = JSONRPCReplyObj VNull VNull id) as Eg
    by (unfold getBlockTemplate, makeRpcRequest; by rewrite (rpc_settle_reply _ _ _ _ Hj)).
  intros [= <-]. destruct Ht as [-> | ->]; cbn [resume]; rewrite Eg; unfold on_startup, on_update, create_job; reflexivity.
Qed.

End Connections.

(** ** Concrete runs *)

Definition no_clock : nat -> Z := fun _ => 0.
Definition no_bytes : nat -> nat -> bytes := fun _ n => replicate n 0.

Lemma open_connections_registered_witness :
  let s := on_connection (L := toy_randomx) (js "10.0.0.1:4001") (on_connection (js "10.0.0.1:4000") init) in
  (js "10.0.0.1:4001", 1%nat) ∈ miners s /\ (length (open_conns s) <= 32)%nat.
Proof.
  intros s.
  assert (distinct_run (js "pw") no_clock no_bytes s) as H.
  { apply (distinct_step _ _ _ (on_connection (js "10.0.0.1:4000") init) (EvConnect (js "10.0.0.1:4001"))); [| |reflexivity].
    - apply (distinct_step _ _ _ init (EvConnect (js "10.0.0.1:4000"))); [apply distinct_init| |reflexivity].
      intros c m Hm. cbn in Hm. by rewrite lookup_nil in Hm.
    - intros c m Hm _. destruct c as [|[|c]]; [|discriminate Hm..]. injection Hm as <-. vm_compute. discriminate. }
  destruct (open_connections_registered (js "pw") no_clock no_bytes s H) as (H1 & _ & H3).
  split; [|exact H1]. exact (H3 1%nat (new_conn (js "10.0.0.1:4001")) eq_refl eq_refl).
Defined.

Definition ex_null_reply : list bytes := map (map (fun c => if c =? 39 then 34 else c)) [js "{'result':null,'error':null,'id':17}"].

Lemma null_template_ends_process_witness :
  exists s', step (L := toy_randomx) (js "pw") no_clock no_bytes init (EvReply 0 (Response ex_null_reply)) = Some s' /\ crashed s' = true.
Proof.
  eexists. split; [reflexivity|].
  apply (null_template_ends_process (L := toy_randomx) (js "pw") no_clock no_bytes init 0 PStartup ex_null_reply (VNum (num_of_Z 17)));
    [reflexivity|by left|vm_compute; reflexivity|reflexivity].
Defined.
