(* ===== verification/ProxySubmits.v ===== *)
(** * Stratum proxy: every submit is answered

    The two submit handlers from end to end, in a reachable state whose job comes
    from a template of the node: each submit gets exactly one answer, or its
    socket is destroyed (over the rate limit, or with a full write queue), or
    could not be written to any more, and the answer is known in closed form. *)

From Stdlib Require Import ZArith Lia Bool String SpecFloat.
From stdpp Require Import base list numbers option.
From S2P Require Import Prelude JsNum JsNumFacts Bytes JsStr JsValue Utf8 Sha256 Libs ProxyCodec Consensus ProxyCodecFacts ProxyConsensus ProxyRate ProxyMessages NodeRpc ProxyRpc ProxyServer ProxyServerInv ProxyServerRuns.

Open Scope Z_scope.

Section Submits.
Context {L : RandomXLib} {R : RandomXRef} {Laws : RandomXLaws L R}.
Variable secret : jstr.
Variable clock : nat -> Z.
Variable randomBytes : nat -> nat -> bytes.

Implicit Types (s : proxy) (c : nat) (k : conn).

(** From [s] to [s'] a connection that could be written to ([w]) got the message
    [m] and nothing else, or nothing and was destroyed; one that could not be
    written to got nothing. *)
Definition answered (w : bool) c (m : message) s s' : Prop :=
  exists k', conns s' !! c = Some k' /\
    if w then
      (c_destroyed k' = true /\ written c (trace s') = written c (trace s)) \/
      written c (trace s') = written c (trace s) ++ [m]
    else written c (trace s') = written c (trace s).

(** A connection that can ([w]) or cannot be written to, with nothing written
    since [s]. *)
Definition writable_since (w : bool) c s s1 : Prop :=
  written c (trace s1) = written c (trace s) /\ exists k, conns s1 !! c = Some k /\ c_writable k = w.

Lemma safeWrite_answers w c m s s1 :
  writable_since w c s s1 -> exists s', safeWrite c m s1 = (s', Ok tt) /\ answered w c m s s'.
Proof.
  intros (Hw & k & Hk & Hwr). unfold safeWrite, mbind, M_bind, minerInfo, modify. rewrite Hk, Hwr.
  destruct w; cbn [negb]; [|eexists; split; [reflexivity|]; by exists k].
  destruct (MAX_WRITABLE_BUFFER <? _); eexists; (split; [reflexivity|]); eexists; (split; [fields; by rewrite list_lookup_alter_eq, Hk|]).
  - left. split; [done|]. exact Hw.
  - right. fields. cbn [written]. by rewrite Hw, decide_True.
Qed.

Lemma destroy_answers w c m s s1 : writable_since w c s s1 -> answered w c m s (upd c destroy s1).
Proof.
  intros (Hw & k & Hk & _). eexists. split; [fields; by rewrite list_lookup_alter_eq, Hk|]. destruct w; [|done]. left. done.
Qed.

Lemma writable_since_refl c s k : conns s !! c = Some k -> writable_since (c_writable k) c s s.
Proof. intros. split; [done|]. by exists k. Qed.

Lemma limited_writable w c s s1 :
  writable_since w c s s1 -> exists over now s2, limited clock c s1 = (s2, Ok (over, now)) /\ writable_since w c s s2 /\ randomxVM s2 = randomxVM s1.
Proof.
  intros (Hw & k & Hk & Hwr). unfold limited, mbind, M_bind, minerInfo. rewrite Hk. unfold limit.
  destruct (rateLimitedSubmit _ _ _) as [[b g] p]. do 3 eexists. split; [reflexivity|].
  destruct b; (split; [|done]); (split; [exact Hw|]); eexists; fields;
    (split; [by rewrite list_lookup_alter_eq, Hk|exact Hwr]).
Qed.

(** ** Scoring a header *)

Definition has_vm s : bool := match randomxVM s with Some _ => true | None => false end.

Lemma score_answers w c reply n tpl prev merkle time bits t ht nonce ntime m now s s1 :
  writable_since w c s s1 -> (forall vm, randomxVM s1 = Some vm -> exists key, keyed vm key) ->
  0 < t < 2 ^ 256 -> length m = 112%nat -> Forall is_byte m ->
  exists s', score_submit c reply (job_of n tpl prev merkle time bits t ht) nonce ntime (to_hex m) now s1 = (s', Ok tt) /\
    answered w c (reply (has_vm s1)) s s'.
Proof.
  intros Hr Hvm Ht Hl Hb. set (j := job_of _ _ _ _ _ _ _ _). unfold has_vm.
  assert (writable_since w c s (with_trace (EHash now c) s1)) as Hr1 by exact Hr.
  unfold score_submit, mbind, M_bind, gets, modify, lift.
  destruct (randomxVM s1) as [vm|] eqn:Ev; [|by apply safeWrite_answers].
  destruct (Hvm vm eq_refl) as [key Hk].
  rewrite (evaluate_share_ref j vm key m t (2 ^ 256 - 1) Hk Hl Hb ltac:(lia) eq_refl hex_value_share_max). cbv beta iota.
  pose proof (UintToArith256_range _ (rx_hash_u256 key m)) as Hu. rewrite (proj2 (Z.leb_le _ (2 ^ 256 - 1))) by lia.
  destruct (_ <=? t); [|by apply safeWrite_answers]. unfold submitBlockToNode, modify.
  apply safeWrite_answers. destruct (block_hex _ _ _ _) as [[h|]|]; exact Hr1.
Qed.

(** What a submit of the current job's number is worth. *)
Definition verdict s n jobId nonce ntime : bool :=
  str_eqb jobId (dec_string n) && (re_hex 8 nonce && re_hex 8 ntime && has_vm s).

Section Job.
Variables (n : Z) (tpl : val) (prev merkle : bytes) (time bits t : Z) (ht : val).
Hypothesis template : template_of tpl prev merkle time bits.
Hypothesis target : 0 < t < 2 ^ 256.

Abbreviation J := (job_of n tpl prev merkle time bits t ht).

Lemma header_none nonce ntime : re_hex 8 nonce && re_hex 8 ntime = false ->
  buildHeader112 (blob J) (VStr nonce) (VStr ntime) = Ok None.
Proof. intros E. by rewrite buildHeader112_eq, E. Qed.

Lemma header_some nonce ntime : re_hex 8 nonce && re_hex 8 ntime = true ->
  exists m x r, buildHeader112 (blob J) (VStr nonce) (VStr ntime) = Ok (Some (to_hex m)) /\
    to_hex m = x :: r /\ length m = 112%nat /\ Forall is_byte m.
Proof.
  intros [Hn Ht]%andb_true_iff. destruct template as [_ _ _ _ Op Om _ _].
  pose proof (buildHeader112_serializes prev merkle time bits nonce ntime Op Om Hn Ht) as E.
  destruct (Serialize_ok prev merkle (hex_value ntime) bits (le_value (from_hex nonce)) Op Om) as [Hl Hb].
  set (m := SerializeRandomXHeader (proxy_header prev merkle (hex_value ntime) _ _)) in *.
  assert (exists x r, to_hex m = x :: r) as (x & r & Ex).
  { pose proof (length_to_hex m) as Hlen. rewrite Hl in Hlen. destruct (to_hex m) as [|x r]; [done|]. by exists x, r. }
  exists m, x, r. split; [exact E|]. done.
Qed.

(** From the limiter's verdict on. *)
Lemma score_header w c reply nonce ntime now s s1 :
  writable_since w c s s1 -> (forall vm, randomxVM s1 = Some vm -> exists key, keyed vm key) ->
  exists s',
    mbind (MBind := M_bind) (fun h => match h with
                                      | None | Some [] => safeWrite c (reply false)
                                      | Some h => score_submit c reply J (VStr nonce) (VStr ntime) h now
                                      end)
      (lift (buildHeader112 (blob J) (VStr nonce) (VStr ntime))) s1 = (s', Ok tt) /\
    answered w c (reply (re_hex 8 nonce && re_hex 8 ntime && has_vm s1)) s s'.
Proof.
  intros Hr Hvm. unfold mbind, M_bind, lift. destruct (re_hex 8 nonce && re_hex 8 ntime) eqn:E; cbn [andb].
  - destruct (header_some nonce ntime E) as (m & x & y & -> & Em & Hl & Hb). cbv beta iota. rewrite Em. cbv iota. rewrite <- Em.
    by apply score_answers.
  - rewrite header_none by done. by apply safeWrite_answers.
Qed.

(** The current job's submit, from the limiter on. *)
Lemma submit_answers w c reply nonce ntime s (tail : Z -> M unit) :
  writable_since w c s s -> (forall vm, randomxVM s = Some vm -> exists key, keyed vm key) ->
  (forall now s1, writable_since w c s s1 -> randomxVM s1 = randomxVM s ->
     exists s', tail now s1 = (s', Ok tt) /\ answered w c (reply (re_hex 8 nonce && re_hex 8 ntime && has_vm s)) s s') ->
  exists s', mbind (MBind := M_bind) (fun '(over, now) => if (over : bool) then modify (upd c destroy) else tail now)
      (limited clock c) s = (s', Ok tt) /\
    answered w c (reply (re_hex 8 nonce && re_hex 8 ntime && has_vm s)) s s'.
Proof.
  intros Hr Hvm Ht. destruct (limited_writable w c s s Hr) as (over & now & s1 & E & Hr1 & Hv).
  unfold mbind, M_bind. rewrite E. cbv beta iota. destruct over; [|by apply Ht].
  eexists. split; [reflexivity|]. by apply destroy_answers.
Qed.

Lemma bind_lift {A B} (f : A -> M B) r a s : r = Ok a -> mbind (MBind := M_bind) f (lift r) s = f a s.
Proof. by intros ->. Qed.

Lemma vm_keyed s : reachable secret clock randomBytes s -> forall vm, randomxVM s = Some vm -> exists key, keyed vm key.
Proof. intros HI%inv_reachable vm Hv. destruct (inv_vm _ _ _ HI vm Hv) as [e He]. eauto. Qed.

(** The handlers after their parameters are read. *)
Section State.
Context (c : nat) (id : val) (s : proxy) (k : conn).
Hypothesis reached : reachable secret clock randomBytes s.
Hypothesis connected : conns s !! c = Some k.
Hypothesis authorized : c_authorized k = true.
Hypothesis current : currentJob s = Some J.

Lemma xmrig_submit_answers msg p jobId nonce ntime :
  get msg (js "params") = Ok p -> get p (js "job_id") = Ok (VStr jobId) ->
  get p (js "nonce") = Ok (VStr nonce) -> get p (js "ntime") = Ok (VStr ntime) ->
  exists s', xmrig_submit clock c id msg s = (s', Ok tt) /\
    answered (c_writable k) c (MXSubmit id (verdict s n jobId nonce ntime)) s s'.
Proof.
  intros Hp Hj Hn Ht. pose proof (writable_since_refl c s k connected) as Hr. pose proof (vm_keyed s reached) as Hvm.
  unfold xmrig_submit, verdict. unfold mbind at 1, M_bind at 1, minerInfo. rewrite connected, authorized. cbn [negb].
  rewrite (bind_lift _ _ _ _ Hp), (bind_lift _ _ _ _ Hj), (bind_lift _ _ _ _ Hn), (bind_lift _ _ _ _ Ht).
  unfold mbind at 1, M_bind at 1, gets. rewrite current.
  cbn [is_str job_of job_id]. destruct (str_eqb jobId (dec_string n)); cbn [negb andb].
  - apply submit_answers; [done..|]. intros now s1 Hr1 Hv. unfold has_vm. rewrite <- Hv. apply score_header; [done|]. by rewrite Hv.
  - by apply safeWrite_answers.
Qed.

Lemma stratum_submit_answers msg p x0 x2 jobId nonce ntime :
  get msg (js "params") = Ok p -> get_idx p 0 = Ok x0 -> get_idx p 1 = Ok (VStr jobId) ->
  get_idx p 2 = Ok x2 -> get_idx p 3 = Ok (VStr ntime) -> get_idx p 4 = Ok (VStr nonce) ->
  exists s', stratum_submit clock c id msg s = (s', Ok tt) /\
    answered (c_writable k) c (MSSubmit id (verdict s n jobId nonce ntime)) s s'.
Proof.
  intros Hp H0 Hj H2 Ht Hn. pose proof (writable_since_refl c s k connected) as Hr. pose proof (vm_keyed s reached) as Hvm.
  unfold stratum_submit, verdict. unfold mbind at 1, M_bind at 1, minerInfo. rewrite connected, authorized. cbn [negb].
  rewrite (bind_lift _ _ _ _ Hp), (bind_lift _ _ _ _ H0), (bind_lift _ _ _ _ Hj), (bind_lift _ _ _ _ H2).
  rewrite (bind_lift _ _ _ _ Ht), (bind_lift _ _ _ _ Hn). unfold mbind at 1, M_bind at 1, gets. rewrite current.
  cbn [is_str job_of job_id]. destruct (str_eqb jobId (dec_string n)); cbn [negb andb]; [|by apply safeWrite_answers].
  apply submit_answers; [done..|]. intros now s1 Hr1 Hv. unfold has_vm. rewrite <- Hv. cbn [not_hex8].
  destruct (re_hex 8 nonce) eqn:En; cbn [negb andb]; [|by apply safeWrite_answers].
  destruct (re_hex 8 ntime) eqn:Et; cbn [negb andb]; [|by apply safeWrite_answers].
  destruct (score_header (c_writable k) c (MSSubmit id) nonce ntime now s s1 Hr1) as (s' & E & Ha); [by rewrite Hv|].
  exists s'. rewrite En, Et in Ha. done.
Qed.
End State.
End Job.

(** C22. Every submit is answered, once, and with a known verdict.  In every
    reachable state with a current job made of a template of the node, a submit
    of an authorized connection whose parameters are strings runs to its end.  If
    the socket can still be written to, the connection then has exactly one
    message more, the verdict under the submit's own id, or none and is
    destroyed; if it cannot (the peer has closed its side), it has no message
    more.  The verdict is [true] exactly when the job is the current one, nonce
    and ntime are eight hexadecimal digits and the RandomX machine exists, in both
    protocols: no hash is ever too high for a share. *)
Theorem submit_answered s c k n tpl prev merkle time bits t ht id msg p jobId nonce ntime :
  reachable secret clock randomBytes s -> conns s !! c = Some k -> c_authorized k = true ->
  template_of tpl prev merkle time bits -> 0 < t < 2 ^ 256 ->
  currentJob s = Some (job_of n tpl prev merkle time bits t ht) -> get msg (js "params") = Ok p ->
  (get p (js "job_id") = Ok (VStr jobId) -> get p (js "nonce") = Ok (VStr nonce) -> get p (js "ntime") = Ok (VStr ntime) ->
   exists s', xmrig_submit clock c id msg s = (s', Ok tt) /\
     answered (c_writable k) c (MXSubmit id (verdict s n jobId nonce ntime)) s s') /\
  (forall worker en2, p = VArr [worker; VStr jobId; en2; VStr ntime; VStr nonce] ->
   exists s', stratum_submit clock c id msg s = (s', Ok tt) /\
     answered (c_writable k) c (MSSubmit id (verdict s n jobId nonce ntime)) s s').
Proof.
  intros Hs Hc Ha Htpl Ht Hj Hp. split; [intros; by eapply xmrig_submit_answers|].
  intros worker en2 ->. by eapply (stratum_submit_answers n tpl prev merkle time bits t ht).
Qed.

End Submits.

Definition ex_submit : val :=
  VObj [(js "params", VObj [(js "job_id", VStr (js "3")); (js "nonce", VStr (js "0000000a")); (js "ntime", VStr (js "6553f100"))])].

(** The example run's job, connection and machine, computed once. *)
Lemma ex_submit_state :
  currentJob ex_state = Some (gbt_job 3 ex_gbt) /\ verdict ex_state 3 (js "3") (js "0000000a") (js "6553f100") = true /\
  exists k, conns ex_state !! 0%nat = Some k /\ c_writable k = true /\ c_authorized k = true.
Proof.
  assert ((currentJob ex_state, verdict ex_state 3 (js "3") (js "0000000a") (js "6553f100"),
           option_map (fun k => (c_writable k, c_authorized k)) (conns ex_state !! 0%nat)) =
          (Some (gbt_job 3 ex_gbt), true, Some (true, true))) as H by (vm_compute; reflexivity).
  apply pair_equal_spec in H as [[H1 H2]%pair_equal_spec H3]. split; [exact H1|]. split; [exact H2|].
  destruct (conns ex_state !! 0%nat) as [k|]; [|discriminate H3]. exists k.
  injection H3 as Hw Ha. exact (conj eq_refl (conj Hw Ha)).
Qed.

Lemma submit_answered_witness :
  exists s', xmrig_submit ex_clock 0 (VNum (num_of_Z 9)) ex_submit ex_state = (s', Ok tt) /\
    answered true 0 (MXSubmit (VNum (num_of_Z 9)) true) ex_state s'.
Proof.
  destruct ex_submit_state as (Hj & Hv & k & Hk & Hw & Ha).
  destruct (submit_answered (L := toy_randomx) (R := toy_reference) ex_secret ex_clock ex_random ex_state 0 k 3
           (gbt_result ex_gbt) (g_prev ex_gbt) null256 (g_time ex_gbt) (g_bits ex_gbt)
           (c_target (SetCompact (g_bits ex_gbt))) (vint (g_height ex_gbt)) (VNum (num_of_Z 9)) ex_submit
           (VObj [(js "job_id", VStr (js "3")); (js "nonce", VStr (js "0000000a")); (js "ntime", VStr (js "6553f100"))])
           (js "3") (js "0000000a") (js "6553f100") ex_reachable Hk Ha) as [H _].
  - apply (gbt_template_of ex_gbt); [apply le_bytes_u256|vm_compute; split; [discriminate|reflexivity]..].
  - vm_compute. split; reflexivity.
  - exact Hj.
  - reflexivity.
  - destruct H as (s' & E & A); [reflexivity..|]. exists s'. split; [exact E|].
    rewrite Hv, Hw in A. exact A.
Defined.
