(* ===== verification/Backup.v ===== *)
(** * The backup script

    [contrib/admin/backup.js]: snapshots of the proxy scripts, their listing,
    cleanup and restoration.  The file system is a finite map from absolute
    (POSIX) paths to files and directories; symbolic links, permissions and
    other processes are not modelled.  The environment answers, for the [n]-th
    call that can fail, whether it does, at what time it happens and, when it is
    interrupted, how far it got: part of the bytes may be written, some of the
    directories made, some of a tree removed; a copy that fails late removes its
    destination, as Node documents. *)

From Stdlib Require Import ZArith Lia Bool String.
From stdpp Require Import base list numbers option gmap sorting.
From S2P Require Import Prelude JsNum Bytes JsStr JsValue Utf8.

Open Scope Z_scope.

(** ** Names and paths *)

Abbreviation path := (list jstr).

Definition slash : Z := 47.

Fixpoint split_slash (s : jstr) : list jstr :=
  match s with
  | [] => [[]]
  | c :: r => if c =? slash then [] :: split_slash r
              else match split_slash r with
                   | seg :: segs => (c :: seg) :: segs
                   | [] => [[c]]
                   end
  end.

(** The segments of a relative path applied to an absolute one; [..] at the
    root stays there. *)
Fixpoint walk (base : path) (segs : list jstr) : path :=
  match segs with
  | [] => base
  | seg :: r =>
      if str_eqb seg [] || str_eqb seg (js ".") then walk base r
      else if str_eqb seg (js "..") then walk (take (length base - 1) base) r
      else walk (base ++ [seg]) r
  end.

(** [path.resolve(base, rel)]: an absolute [rel] replaces the base. *)
Definition path_resolve (base : path) (rel : jstr) : path :=
  match rel with
  | c :: _ => walk (if c =? slash then [] else base) (split_slash rel)
  | [] => base
  end.

(** [path.join(base, rel)]. *)
Definition path_join (base : path) (rel : jstr) : path := walk base (split_slash rel).

Definition path_string (p : path) : jstr :=
  match p with [] => [slash] | _ => mjoin (map (fun seg => slash :: seg) p) end.

Definition KEEP_BACKUPS : nat := 10.

Definition filesToBackup : list jstr :=
  [js "stratum-proxy-pool.js"; js "stratum-proxy-fixed.js"; js "server-stratum-proxy-pool.js"; js "current_proxy.js"].

Definition all_digits (s : jstr) : bool := forallb is_digit s.

(** [/^backup_\d{8}_\d{6}$/.test(name)]. *)
Definition isSafeBackupName (name : jstr) : bool :=
  (length name =? 22)%nat && str_eqb (take 7 name) (js "backup_") && all_digits (take 8 (drop 7 name)) &&
  str_eqb (take 1 (drop 15 name)) (js "_") && all_digits (drop 16 name).

Definition isAllowedFileName (name : jstr) : bool := existsb (str_eqb name) filesToBackup.

(** The fields of a local date. *)
Record date := Date { d_year : Z; d_month : Z; d_day : Z; d_hour : Z; d_minute : Z; d_second : Z }.

Definition pad2 (n : Z) : jstr := padStart (dec_string n) 2 48.

Definition getTimestamp (now : date) : jstr :=
  dec_string (d_year now) ++ pad2 (d_month now + 1) ++ pad2 (d_day now) ++ [95] ++
  pad2 (d_hour now) ++ pad2 (d_minute now) ++ pad2 (d_second now).

(** ** [JSON.stringify(v, null, 2)] *)

Fixpoint stringify2 (indent : nat) (v : val) : option jstr :=
  let pad n := replicate n 32 in
  match v with
  | VArr [] => Some (js "[]")
  | VArr l =>
      let inner := pad (indent + 2)%nat in
      Some ([91; 10] ++ sep_by [44; 10] (map (fun x => inner ++ default (js "null") (stringify2 (indent + 2) x)) l) ++
            [10] ++ pad indent ++ [93])
  | VObj fs =>
      let inner := pad (indent + 2)%nat in
      let items := (fix go (fs : list (jstr * val)) : list jstr :=
        match fs with
        | [] => []
        | (k, x) :: r => match stringify2 (indent + 2) x with
                         | Some t => (inner ++ quote k ++ [58; 32] ++ t) :: go r
                         | None => go r
                         end
        end) fs in
      Some (match items with
            | [] => js "{}"
            | _ => [123; 10] ++ sep_by [44; 10] items ++ [10] ++ pad indent ++ [125]
            end)
  | _ => stringify v
  end.

(** ** The file system *)

Inductive node := File (content : bytes) (mtime : Z) | Dir (mtime : Z).

Abbreviation fs := (gmap path node).

(** What the environment does with a call: nothing, refuse it, or interrupt it
    after [progress] bytes or directories, or with the paths of [kept] still
    there. *)
Inductive fault := Fine | Refused | Interrupted (progress : nat) (kept : path -> bool).

Record world := World { files : fs; ops : nat }.

Definition parent (p : path) : path := take (length p - 1) p.

Definition is_dir (f : fs) (p : path) : bool :=
  match p with [] => true | _ => match f !! p with Some (Dir _) => true | _ => false end end.

Definition exists_path (f : fs) (p : path) : bool :=
  match p with [] => true | _ => match f !! p with Some _ => true | None => false end end.

(** A new entry changes its directory's time. *)
Definition touch (p : path) (now : Z) (f : fs) : fs :=
  match f !! p with Some (Dir _) => <[p := Dir now]> f | _ => f end.

Definition put_file (p : path) (content : bytes) (now : Z) (f : fs) : fs :=
  let f' := <[p := File content now]> f in
  if exists_path f p then f' else touch (parent p) now f'.

(** [p] and everything below it. *)
Definition below (p q : path) : bool := bool_decide (take (length p) q = p).

Definition remove_tree (p : path) (now : Z) (f : fs) : fs :=
  touch (parent p) now (filter (fun kv => below p (fst kv) = false) f).

(** A removal that stops half way.  An entry goes before the directory it is in,
    so what stays at or below [p] is what is kept and the directories on the way
    to it; a directory that lost an entry has a new time. *)
Definition stays (kept : path -> bool) (p : path) (f : fs) (q : path) : bool :=
  negb (below p q) || existsb (fun kv => kept (fst kv) && below q (fst kv)) (map_to_list f).

Definition lost (kept : path -> bool) (p : path) (f : fs) (q : path) : bool :=
  existsb (fun kv => bool_decide (parent (fst kv) = q) && negb (stays kept p f (fst kv))) (map_to_list f).

Definition remove_part (kept : path -> bool) (p : path) (now : Z) (f : fs) : fs :=
  map_imap (fun q n =>
    if stays kept p f q
    then Some (match n with Dir t => Dir (if lost kept p f q then now else t) | File _ _ => n end)
    else None) f.

(** The names directly under a directory. *)
Definition entries (p : path) (f : fs) : list jstr :=
  omap (fun kv : path * node =>
          let q := fst kv in
          if (length q =? S (length p))%nat && below p q then last q else None)
    (map_to_list f).

Section Script.

(** [__dirname], and what the environment answers: the outcome and the time of
    the [n]-th call that can fail, the order in which a directory is read, the
    date text of a log line and the text of an error. *)
Variable dirname : path.
Variable outcome : nat -> fault.
Variable time : nat -> Z.
Variable order : list jstr -> list jstr.
Variable iso : nat -> jstr.
Variable message : jserror -> jstr.

Definition BACKUP_DIR : path := path_join dirname (js "backups").

(** A computation on the world that may throw; a throw keeps what was done. *)
Definition W (A : Type) : Type := world -> world * res A.

#[local] Instance W_ret : MRet W := fun A a w => (w, Ok a).
#[local] Instance W_bind : MBind W := fun A B f m w =>
  match m w with
  | (w', Ok a) => f a w'
  | (w', Throw e) => (w', Throw e)
  end.

(** [try { m } catch (e) { h(e) }]. *)
Definition try_catch {A} (m : W A) (h : jserror -> W A) : W A := fun w =>
  match m w with
  | (w', Ok a) => (w', Ok a)
  | (w', Throw e) => h e w'
  end.

(** One call that can fail: [act] happens if it is fine, [late] if it is
    interrupted. *)
Definition fs_call {A} (act : Z -> fs -> option (fs * A)) (late : nat -> (path -> bool) -> Z -> fs -> fs) : W A := fun w =>
  let n := ops w in
  match outcome n with
  | Refused => ({| files := files w; ops := S n |}, Throw RuntimeError)
  | Interrupted progress kept => ({| files := late progress kept (time n) (files w); ops := S n |}, Throw RuntimeError)
  | Fine =>
      match act (time n) (files w) with
      | Some (f, a) => ({| files := f; ops := S n |}, Ok a)
      | None => ({| files := files w; ops := S n |}, Throw RuntimeError)
      end
  end.

(** A call that changes nothing when it is interrupted. *)
Definition unchanged (_ : nat) (_ : path -> bool) (_ : Z) (f : fs) : fs := f.

Definition get_files : W fs := fun w => (w, Ok (files w)).

Definition existsSync (p : path) : W bool := fun w => (w, Ok (exists_path (files w) p)).

(** [mkdirSync(p, {recursive: true})]. *)
Fixpoint make_dirs (done rest : path) (now : Z) (f : fs) : option fs :=
  match rest with
  | [] => Some f
  | seg :: r =>
      let p := done ++ [seg] in
      match f !! p with
      | Some (Dir _) => make_dirs p r now f
      | Some (File _ _) => None
      | None => make_dirs p r now (<[p := Dir now]> (touch done now f))
      end
  end.

Definition mkdirSync (p : path) : W unit :=
  fs_call (fun now f => f' ← make_dirs [] p now f; Some (f', tt))
          (fun k _ now f => default f (make_dirs [] (take k p) now f)).

(** A file can be written where its directory is and no directory is. *)
Definition writable_at (p : path) (f : fs) : bool := is_dir f (parent p) && negb (is_dir f p).

Definition copyFileSync (src dst : path) : W unit :=
  fs_call
    (fun now f => match f !! src with
                  | Some (File c _) => if writable_at dst f then Some (put_file dst c now f, tt) else None
                  | _ => None
                  end)
    (fun _ _ now f => match f !! src with
                      | Some (File _ _) => if writable_at dst f then touch (parent dst) now (delete dst f) else f
                      | _ => f
                      end).

Definition writeFileSync (p : path) (data : bytes) : W unit :=
  fs_call (fun now f => if writable_at p f then Some (put_file p data now f, tt) else None)
          (fun k _ now f => if writable_at p f then put_file p (take k data) now f else f).

(** The bytes of a file, none if it is not there. *)
Definition content_at (p : path) (f : fs) : bytes :=
  match f !! p with Some (File c _) => c | _ => [] end.

Definition appendFileSync (p : path) (data : bytes) : W unit :=
  fs_call (fun now f => if writable_at p f then Some (put_file p (content_at p f ++ data) now f, tt) else None)
          (fun k _ now f => if writable_at p f then put_file p (content_at p f ++ take k data) now f else f).

(** The modification time and the size. *)
Definition statSync (p : path) : W (Z * Z) :=
  fs_call (fun _ f => match f !! p with
                      | Some (File c t) => Some (f, (t, Z.of_nat (length c)))
                      | Some (Dir t) => Some (f, (t, 0))
                      | None => None
                      end) unchanged.

Definition readdirSync (p : path) : W (list jstr) :=
  fs_call (fun _ f => if is_dir f p then Some (f, order (entries p f)) else None) unchanged.

Definition readFileSync (p : path) : W bytes :=
  fs_call (fun _ f => match f !! p with Some (File c _) => Some (f, c) | _ => None end) unchanged.

(** [rmSync(p, {recursive: true, force: true})]. *)
Definition rmSync (p : path) : W unit :=
  fs_call (fun now f => Some (remove_tree p now f, tt)) (fun _ kept now f => remove_part kept p now f).

(** ** The script *)

Definition log_file : path := path_join BACKUP_DIR (js "backup.log").

Definition log (msg : jstr) : W unit := fun w =>
  appendFileSync log_file (utf8_encode ([91] ++ iso (ops w) ++ js "] " ++ msg ++ [10])) w.

Definition ensureBackupDir : W unit :=
  e ← existsSync BACKUP_DIR;
  if (e : bool) then mret tt else
  _ ← mkdirSync BACKUP_DIR;
  log (js "Created backup directory: " ++ path_string BACKUP_DIR).

(** [.map(entry => ({name, time}))]. *)
Fixpoint stat_all (names : list jstr) : W (list (jstr * Z)) :=
  match names with
  | [] => mret []
  | n :: r =>
      st ← statSync (path_join BACKUP_DIR n);
      l ← stat_all r;
      mret ((n, fst st) :: l)
  end.

(** [.sort((a, b) => b.time - a.time)].  [Array.prototype.sort] is stable, so the
    order of the result is determined: entries of one time stay in the order they
    were read in. *)
Definition newer (a b : jstr * Z) : Prop := snd b <= snd a.

Fixpoint insert_newest (a : jstr * Z) (l : list (jstr * Z)) : list (jstr * Z) :=
  match l with
  | [] => [a]
  | b :: r => if snd b <=? snd a then a :: b :: r else b :: insert_newest a r
  end.

Fixpoint sort_newest (l : list (jstr * Z)) : list (jstr * Z) :=
  match l with
  | [] => []
  | a :: r => insert_newest a (sort_newest r)
  end.

(** [startsWith(root + path.sep)]. *)
Definition inside (root p : path) : bool := starts_with (path_string root ++ [slash]) (path_string p).

Fixpoint remove_all (l : list (jstr * Z)) : W unit :=
  match l with
  | [] => mret tt
  | (n, _) :: r =>
      let backupPath := path_resolve BACKUP_DIR n in
      _ ← (if inside BACKUP_DIR backupPath
           then _ ← rmSync backupPath; log (js "Removed old backup: " ++ n)
           else log (js "Skipping out-of-bounds path during cleanup: " ++ path_string backupPath));
      remove_all r
  end.

Definition cleanOldBackups : W unit :=
  try_catch
    (names ← readdirSync BACKUP_DIR;
     l ← stat_all (List.filter isSafeBackupName names);
     let backupDirs := sort_newest l in
     if (KEEP_BACKUPS <? length backupDirs)%nat then remove_all (drop KEEP_BACKUPS backupDirs) else mret tt)
    (fun e => log (js "Error cleaning old backups: " ++ message e)).

(** The loop over the files, with its two counters. *)
Fixpoint copy_all (backupPath : path) (names : list jstr) (ok bad : Z) : W (Z * Z) :=
  match names with
  | [] => mret (ok, bad)
  | file :: r =>
      let srcPath := path_join dirname file in
      let dstPath := path_join backupPath file in
      e ← existsSync srcPath;
      res ← (if (e : bool) then
               try_catch
                 (_ ← copyFileSync srcPath dstPath;
                  st ← statSync srcPath;
                  _ ← log (js "Backed up: " ++ file ++ js " (" ++ dec_string (snd st) ++ js " bytes)");
                  mret (ok + 1, bad))
                 (fun x => _ ← log (js "Failed to backup " ++ file ++ js ": " ++ message x); mret (ok, bad + 1))
             else
               _ ← log (js "File not found, skipping: " ++ file); mret (ok, bad));
      copy_all backupPath r (fst res) (snd res)
  end.

Definition manifest (timestamp : jstr) (backupPath : path) (ok bad : Z) (f : fs) : val :=
  VObj [(js "timestamp", VStr timestamp);
        (js "files", VArr (map (fun file =>
           VObj [(js "name", VStr file);
                 (js "exists", VBool (exists_path f (path_join dirname file)));
                 (js "backedUp", VBool (exists_path f (path_join backupPath file)))]) filesToBackup));
        (js "totalFiles", VNum (num_of_Z (Z.of_nat (length filesToBackup))));
        (js "successCount", VNum (num_of_Z ok));
        (js "failCount", VNum (num_of_Z bad))].

(** The result's [path] on success. *)
Definition performBackup (now : date) : W (option path) :=
  _ ← ensureBackupDir;
  let timestamp := getTimestamp now in
  let backupPath := path_join BACKUP_DIR (js "backup_" ++ timestamp) in
  try_catch
    (_ ← mkdirSync backupPath;
     _ ← log (js "Starting backup to: " ++ path_string backupPath);
     counts ← copy_all backupPath filesToBackup 0 0;
     f ← get_files;
     let m := manifest timestamp backupPath (fst counts) (snd counts) f in
     _ ← writeFileSync (path_join backupPath (js "manifest.json")) (utf8_encode (default [] (stringify2 0 m)));
     _ ← log (js "Backup completed. Success: " ++ dec_string (fst counts) ++ js ", Failed: " ++ dec_string (snd counts));
     _ ← cleanOldBackups;
     mret (Some backupPath))
    (fun e => _ ← log (js "Backup failed: " ++ message e); mret None).

(** What [restoreFile] prints at the end. *)
Inductive restore_result :=
  | InvalidBackupName | InvalidFileName
  | BackupPathEscapes | SourceEscapes | DestinationEscapes
  | BackupNotFound | FileNotFound
  | Restored | RestoreFailed.

Definition restoreFile (backupName fileName : jstr) : W restore_result :=
  _ ← ensureBackupDir;
  if negb (isSafeBackupName backupName) then mret InvalidBackupName else
  if negb (isAllowedFileName fileName) then mret InvalidFileName else
  let backupPath := path_resolve BACKUP_DIR backupName in
  let srcPath := path_resolve backupPath fileName in
  let dstPath := path_resolve dirname fileName in
  if negb (inside BACKUP_DIR backupPath) then mret BackupPathEscapes else
  if negb (inside backupPath srcPath) then mret SourceEscapes else
  if negb (inside dirname dstPath) then mret DestinationEscapes else
  e1 ← existsSync backupPath;
  if negb e1 then mret BackupNotFound else
  e2 ← existsSync srcPath;
  if negb e2 then mret FileNotFound else
  try_catch
    (e3 ← existsSync dstPath;
     _ ← (if (e3 : bool)
          then copyFileSync dstPath (parent dstPath ++ [default [] (last dstPath) ++ js ".restore_backup"])
          else mret tt);
     _ ← copyFileSync srcPath dstPath;
     _ ← log (js "Restored " ++ fileName ++ js " from " ++ backupName);
     mret Restored)
    (fun _ => mret RestoreFailed).

(** One line of the listing: the name, the counts of the manifest if it could be
    read, and the time. *)
Record listed := Listed { l_name : jstr; l_counts : option (jstr * jstr); l_time : Z }.

Definition list_entry (b : jstr * Z) : W listed :=
  let manifestPath := path_join (path_join BACKUP_DIR (fst b)) (js "manifest.json") in
  e ← existsSync manifestPath;
  info ← (if (e : bool) then
            try_catch
              (text ← readFileSync manifestPath;
               (fun w => (w, (m ← JSON_parse (utf8_decode text);
                              a ← get m (js "successCount"); a ← to_string a;
                              b ← get m (js "totalFiles"); b ← to_string b;
                              Ok (Some (a, b))))) : W (option (jstr * jstr)))
              (fun _ => mret None)
          else mret None);
  mret {| l_name := fst b; l_counts := info; l_time := snd b |}.

Fixpoint list_entries (l : list (jstr * Z)) : W (list listed) :=
  match l with
  | [] => mret []
  | b :: r => x ← list_entry b; xs ← list_entries r; mret (x :: xs)
  end.

(** [None] is the printed error. *)
Definition listBackups : W (option (list listed)) :=
  _ ← ensureBackupDir;
  try_catch
    (names ← readdirSync BACKUP_DIR;
     l ← stat_all (List.filter (starts_with (js "backup_")) names);
     shown ← list_entries (sort_newest l);
     mret (Some shown))
    (fun _ => mret None).

(** ** The command line *)

Inductive command := CHelp | CList | CRestore (backupName fileName : jstr) | CUsage | CBackup.

Definition includes (args : list jstr) (a : jstr) : bool := existsb (str_eqb a) args.

Fixpoint index_of (args : list jstr) (a : jstr) : option nat :=
  match args with
  | [] => None
  | x :: r => if str_eqb a x then Some 0%nat else option_map S (index_of r a)
  end.

Definition parse_args (args : list jstr) : command :=
  if includes args (js "--help") || includes args (js "-h") then CHelp
  else if includes args (js "--list") || includes args (js "-l") then CList
  else if includes args (js "--restore") || includes args (js "-r") then
    let restoreIndex := match index_of args (js "--restore") with
                        | Some i => i
                        | None => default 0%nat (index_of args (js "-r"))
                        end in
    match args !! (restoreIndex + 1)%nat, args !! (restoreIndex + 2)%nat with
    | Some (x :: a), Some (y :: b) => CRestore (x :: a) (y :: b)
    | _, _ => CUsage
    end
  else CBackup.

(** The program; an exception that escapes ends it with an error. *)
Definition main (args : list jstr) (now : date) : W unit :=
  match parse_args args with
  | CHelp | CUsage => mret tt
  | CList => _ ← listBackups; mret tt
  | CRestore b f => _ ← restoreFile b f; mret tt
  | CBackup => _ ← performBackup now; mret tt
  end.

End Script.
