(* ===== verification/BackupFacts.v ===== *)
(** * The backup script: safety and recovery

    No argument of the script reaches outside the files it owns, the defensive
    path checks of [restoreFile] never fire, cleanup removes exactly the oldest
    well-named backups beyond ten, and what a backup saved a restore brings
    back. *)

From Stdlib Require Import ZArith Lia Bool String.
From stdpp Require Import base list numbers option gmap sorting.
From S2P Require Import Prelude JsNum JsNumFacts Bytes JsStr JsValue JsDecimal Utf8 ProxyMessages Backup.

Open Scope Z_scope.

(** ** Names and paths *)

(** A name that is one path segment. *)
Definition plain_name (n : jstr) : Prop :=
  Forall (fun c => c <> slash) n /\ n <> [] /\ n <> js "." /\ n <> js "..".

Lemma split_slash_plain n : Forall (fun c => c <> slash) n -> split_slash n = [n].
Proof.
  induction 1 as [|c n Hc _ IH]; cbn [split_slash]; [done|].
  rewrite (proj2 (Z.eqb_neq c slash)), IH by done. done.
Qed.

Lemma path_join_plain base n : plain_name n -> path_join base n = base ++ [n].
Proof.
  intros (H1 & H2 & H3 & H4). unfold path_join. rewrite split_slash_plain by done. cbn [walk].
  unfold str_eqb. rewrite !bool_decide_eq_false_2 by done. done.
Qed.

Lemma path_resolve_plain base n : plain_name n -> path_resolve base n = base ++ [n].
Proof.
  intros Hn. rewrite <- path_join_plain by done. destruct Hn as (H1 & H2 & _). unfold path_resolve.
  destruct n as [|c n]; [done|]. inversion H1; subst. by rewrite (proj2 (Z.eqb_neq c slash)).
Qed.

Lemma path_string_snoc root n : root <> [] -> path_string (root ++ [n]) = path_string root ++ [slash] ++ n.
Proof.
  intros Hr. assert (forall p, p <> [] -> path_string p = mjoin (map (fun seg => slash :: seg) p)) as E by (by intros []).
  rewrite !E by (done || by destruct root). rewrite map_app, mjoin_app_r. cbn. by rewrite app_nil_r.
Qed.

Lemma inside_snoc root n : root <> [] -> inside root (root ++ [n]) = true.
Proof.
  intros Hr. unfold inside, starts_with. apply str_eqb_spec.
  rewrite path_string_snoc, app_assoc, take_app_length by done. done.
Qed.

Lemma digit_not_slash s : all_digits s = true -> Forall (fun c => c <> slash) s.
Proof.
  unfold all_digits. rewrite forallb_forall, List.Forall_forall. intros H c Hc. apply H in Hc.
  unfold is_digit, slash in *. breflect. lia.
Qed.

Lemma safe_name_shape n :
  isSafeBackupName n = true ->
  exists d t, n = js "backup_" ++ d ++ [95] ++ t /\ length d = 8%nat /\ length t = 6%nat /\
    all_digits d = true /\ all_digits t = true.
Proof.
  unfold isSafeBackupName. intros H. repeat (apply andb_true_iff in H as [H ?]).
  apply Nat.eqb_eq in H. repeat match goal with H : str_eqb _ _ = true |- _ => apply str_eqb_spec in H end.
  exists (take 8 (drop 7 n)), (drop 16 n). split.
  - rewrite <- (take_drop 7 n) at 1. rewrite <- (take_drop 8 (drop 7 n)) at 1.
    rewrite drop_drop. change (7 + 8)%nat with 15%nat. rewrite <- (take_drop 1 (drop 15 n)) at 1.
    rewrite drop_drop. change (15 + 1)%nat with 16%nat. rewrite H3, H1. done.
  - rewrite length_take, !length_drop, H. done.
Qed.

Lemma safe_name_plain n : isSafeBackupName n = true -> plain_name n.
Proof.
  intros (d & t & -> & Hd & Ht & Ad & At)%safe_name_shape. split.
  - rewrite !Forall_app. repeat split; try (by apply digit_not_slash); cbn; repeat constructor; done.
  - split; [done|]. split; done.
Qed.

Lemma allowed_in n : isAllowedFileName n = true -> n ∈ filesToBackup.
Proof.
  unfold isAllowedFileName. rewrite existsb_exists. intros (x & Hx & E%str_eqb_spec). subst. by apply list_elem_of_In.
Qed.

Lemma files_plain : Forall plain_name filesToBackup.
Proof. repeat constructor; try discriminate. Qed.

Lemma allowed_plain n : isAllowedFileName n = true -> plain_name n.
Proof.
  intros [i Hi]%allowed_in%list_elem_of_lookup. exact (Forall_lookup_1 _ _ _ _ files_plain Hi).
Qed.

(** ** Timestamps *)

Definition valid_date (d : date) : Prop :=
  1000 <= d_year d <= 9999 /\ 0 <= d_month d <= 11 /\ 1 <= d_day d <= 31 /\
  0 <= d_hour d <= 23 /\ 0 <= d_minute d <= 59 /\ 0 <= d_second d <= 59.

Definition two_digits (s : jstr) : bool := (length s =? 2)%nat && all_digits s.

Lemma pad2_all : forallb (fun n => two_digits (pad2 (Z.of_nat n))) (seq 0 100) = true.
Proof. vm_compute. reflexivity. Qed.

Lemma pad2_digits n : 0 <= n < 100 -> length (pad2 n) = 2%nat /\ all_digits (pad2 n) = true.
Proof.
  intros Hn. pose proof pad2_all as H. rewrite forallb_forall in H. specialize (H (Z.to_nat n)).
  rewrite Z2Nat.id in H by lia. unfold two_digits in H. rewrite andb_true_iff, Nat.eqb_eq in H. apply H, in_seq. lia.
Qed.

Lemma year_digits n : 1000 <= n <= 9999 -> length (dec_string n) = 4%nat /\ all_digits (dec_string n) = true.
Proof.
  intros Hn. split; [apply (dec_string_length 3); cbn; lia|].
  apply forallb_forall, List.Forall_forall, dec_string_digits. lia.
Qed.

Lemma digits_app a b : all_digits (a ++ b) = all_digits a && all_digits b.
Proof. apply forallb_app. Qed.

Lemma safe_name_intro d t :
  length d = 8%nat -> length t = 6%nat -> all_digits d = true -> all_digits t = true ->
  isSafeBackupName (js "backup_" ++ d ++ [95] ++ t) = true.
Proof.
  intros Hd Ht Ad At. unfold isSafeBackupName. rewrite !length_app, Hd, Ht. cbn [length Nat.add js Nat.eqb andb].
  rewrite take_app_length'; [|done]. rewrite str_eqb_refl, drop_app_length' by done.
  rewrite take_app_length', Ad by done. cbn [andb].
  replace (drop 15 _) with ([95] ++ t) by (change 15%nat with (7 + 8)%nat; by rewrite <- drop_drop, drop_app_length', drop_app_length').
  replace (drop 16 _) with t by (change 16%nat with (7 + 9)%nat; rewrite <- drop_drop, drop_app_length' by done;
    rewrite (app_assoc d [95] t), drop_app_length'; [done|]; by rewrite length_app, Hd).
  cbn [take app]. rewrite At. done.
Qed.

Lemma timestamp_safe now : valid_date now -> isSafeBackupName (js "backup_" ++ getTimestamp now) = true.
Proof.
  intros (Hy & Hmo & Hd & Hh & Hmi & Hs).
  destruct (year_digits _ Hy) as [Ly Ay]. destruct (pad2_digits (d_month now + 1) ltac:(lia)) as [Lm Am].
  destruct (pad2_digits (d_day now) ltac:(lia)) as [Ld Ad]. destruct (pad2_digits (d_hour now) ltac:(lia)) as [Lh Ah].
  destruct (pad2_digits (d_minute now) ltac:(lia)) as [Li Ai]. destruct (pad2_digits (d_second now) ltac:(lia)) as [Ls As].
  unfold getTimestamp. rewrite (app_assoc (pad2 (d_month now + 1))), (app_assoc (dec_string _)).
  apply safe_name_intro; rewrite ?length_app, ?digits_app, ?Ly, ?Lm, ?Ld, ?Lh, ?Li, ?Ls, ?Ay, ?Am, ?Ad, ?Ah, ?Ai, ?As; done.
Qed.

(** ** What an operation leaves alone *)

(** The entry at a path, without times: nothing, a directory, or a file's bytes. *)
Definition look (f : fs) (p : path) : option (option bytes) :=
  (fun n => match n with File c _ => Some c | Dir _ => None end) <$> f !! p.

Lemma look_insert_ne (f : fs) p q n : p <> q -> look (<[p := n]> f) q = look f q.
Proof. intros H. unfold look. by rewrite lookup_insert_ne. Qed.

Lemma look_touch p now f q : look (touch p now f) q = look f q.
Proof.
  unfold touch. destruct (f !! p) as [[]|] eqn:E; try done. destruct (decide (p = q)) as [->|].
  - unfold look. by rewrite lookup_insert_eq, E.
  - by apply look_insert_ne.
Qed.

Lemma look_put_ne p c now f q : p <> q -> look (put_file p c now f) q = look f q.
Proof. intros H. unfold put_file. case_match; rewrite ?look_touch; by apply look_insert_ne. Qed.

Lemma look_put p c now f : p <> [] -> look (put_file p c now f) p = Some (Some c).
Proof.
  intros Hp. unfold put_file, exists_path. assert (look (<[p := File c now]> f) p = Some (Some c)) as E.
  { unfold look. by rewrite lookup_insert_eq. }
  destruct p as [|x p]; [done|]. case_match; rewrite ?look_touch; done.
Qed.

Lemma look_delete_ne (f : fs) p q : p <> q -> look (delete p f) q = look f q.
Proof. intros H. unfold look. by rewrite lookup_delete_ne. Qed.

Lemma below_app p q : below p (p ++ q) = true.
Proof. unfold below. apply bool_decide_eq_true. by rewrite take_app_length. Qed.

Lemma below_refl p : below p p = true.
Proof. rewrite <- (app_nil_r p) at 2. apply below_app. Qed.

Lemma below_spec p q : below p q = true <-> exists r, q = p ++ r.
Proof.
  unfold below. rewrite bool_decide_eq_true. split; [|intros [r ->]; by rewrite take_app_length].
  intros E. exists (drop (length p) q). rewrite <- E at 1. by rewrite take_drop.
Qed.

Lemma look_make_dirs done rest now f f' q :
  make_dirs done rest now f = Some f' -> below q (done ++ rest) = false -> look f' q = look f q.
Proof.
  revert done f; induction rest as [|seg rest IH]; intros done f; cbn [make_dirs]; [by intros [= <-]|].
  intros E Hq. change (done ++ seg :: rest) with (done ++ [seg] ++ rest) in Hq. rewrite app_assoc in Hq.
  destruct (f !! (done ++ [seg])) as [[]|]; [done|by eapply IH|].
  rewrite (IH _ _ E Hq), look_insert_ne, look_touch; [done|]. intros <-. by rewrite below_app in Hq.
Qed.

Lemma look_remove_tree p now f q :
  look (remove_tree p now f) q = if below p q then None else look f q.
Proof.
  unfold remove_tree. rewrite look_touch. unfold look. destruct (below p q) eqn:E.
  - rewrite map_lookup_filter_None_2; [done|]. right. intros x _. cbn. congruence.
  - destruct (f !! q) as [n|] eqn:Eq.
    + by rewrite (map_lookup_filter_Some_2 _ _ _ _ Eq).
    + by rewrite map_lookup_filter_None_2; [|left].
Qed.

Lemma look_remove_part kept p now f q :
  below p q = false -> look (remove_part kept p now f) q = look f q.
Proof.
  intros H. unfold look, remove_part, stays. rewrite map_lookup_imap.
  destruct (f !! q) as [[]|]; cbn [mbind option_bind]; rewrite ?H; done.
Qed.

Lemma look_make_part k p now f q :
  below q p = false -> look (default f (make_dirs [] (take k p) now f)) q = look f q.
Proof.
  intros H. destruct (make_dirs [] (take k p) now f) as [f'|] eqn:E; [|done]. cbn [default from_option id].
  apply (look_make_dirs _ _ _ _ _ _ E). cbn [app]. apply not_true_is_false. rewrite below_spec. intros [r Er].
  apply not_true_iff_false in H. apply H, below_spec. exists (r ++ drop k p). by rewrite app_assoc, <- Er, take_drop.
Qed.

Lemma below_comparable a b c : below a c = true -> below b c = true -> below a b = true \/ below b a = true.
Proof.
  rewrite !below_spec. intros [r ->] [r' E]. destruct (app_eq_inv _ _ _ _ E) as [[k [-> _]]|[k [-> _]]]; eauto.
Qed.

Section Facts.
Variable dirname : path.
Variable outcome : nat -> fault.
Variable time : nat -> Z.
Variable order : list jstr -> list jstr.
Variable iso : nat -> jstr.
Variable message : jserror -> jstr.

Implicit Types (w : world) (p : path) (safe : path -> Prop).

(** A computation that leaves every path of a set alone. *)
Definition keeps {A} (safe : path -> Prop) (m : W A) : Prop :=
  forall w p, safe p -> look (files (fst (m w))) p = look (files w) p.

Lemma keeps_ret {A} safe (a : A) : keeps safe (mret (MRet := W_ret) a).
Proof. done. Qed.

Lemma keeps_bind {A B} safe (m : W A) (f : A -> W B) :
  keeps safe m -> (forall a, keeps safe (f a)) -> keeps safe (mbind (MBind := W_bind) f m).
Proof.
  intros Hm Hf w p Hp. unfold mbind, W_bind. specialize (Hm w p Hp). destruct (m w) as [w' [a|e]]; cbn [fst] in *; [|done].
  by rewrite Hf.
Qed.

Lemma keeps_try {A} safe (m : W A) h : keeps safe m -> (forall e, keeps safe (h e)) -> keeps safe (try_catch m h).
Proof.
  intros Hm Hh w p Hp. unfold try_catch. specialize (Hm w p Hp). destruct (m w) as [w' [a|e]]; cbn [fst] in *; [done|].
  by rewrite Hh.
Qed.

Lemma keeps_call {A} safe (act : Z -> fs -> option (fs * A)) late :
  (forall now f f' a p, act now f = Some (f', a) -> safe p -> look f' p = look f p) ->
  (forall k kept now f p, safe p -> look (late k kept now f) p = look f p) ->
  keeps safe (fs_call outcome time act late).
Proof.
  intros Ha Hl w p Hp. unfold fs_call. destruct (outcome (ops w)); cbn [fst files]; [|done|by apply Hl].
  destruct (act _ _) as [[f' a]|] eqn:E; cbn [fst files]; [by eapply Ha|done].
Qed.

Lemma keeps_get_files safe : keeps safe get_files.
Proof. done. Qed.

Lemma keeps_exists safe q : keeps safe (existsSync q).
Proof. done. Qed.

Lemma keeps_stat safe q : keeps safe (statSync outcome time q).
Proof. apply keeps_call; [|done]. intros now f f' a p E _. by repeat case_match; simplify_eq. Qed.

Lemma keeps_readdir safe q : keeps safe (readdirSync outcome time order q).
Proof. apply keeps_call; [|done]. intros now f f' a p E _. by repeat case_match; simplify_eq. Qed.

Lemma keeps_read safe q : keeps safe (readFileSync outcome time q).
Proof. apply keeps_call; [|done]. intros now f f' a p E _. by repeat case_match; simplify_eq. Qed.

Lemma keeps_mkdir safe q : (forall p, safe p -> below p q = false) -> keeps safe (mkdirSync outcome time q).
Proof.
  intros Hs. apply keeps_call; [|intros k kept now f p Hp; by apply look_make_part, Hs]. intros now f f' a p E Hp.
  destruct (make_dirs [] q now f) as [f1|] eqn:Em; [|done]. injection E as <- _.
  eapply look_make_dirs; [done|]. by apply Hs.
Qed.

Lemma keeps_copy safe src dst : ~ safe dst -> keeps safe (copyFileSync outcome time src dst).
Proof.
  intros Hd. assert (forall p, safe p -> dst <> p) as Hne by (intros p Hp ->; done). apply keeps_call.
  - intros now f f' a p E Hp. repeat case_match; simplify_eq. apply look_put_ne. by apply Hne.
  - intros k kept now f p Hp. repeat case_match; try done. rewrite look_touch. apply look_delete_ne. by apply Hne.
Qed.

Lemma keeps_write safe dst c : ~ safe dst -> keeps safe (writeFileSync outcome time dst c).
Proof.
  intros Hd. assert (forall p, safe p -> dst <> p) as Hne by (intros p Hp ->; done). apply keeps_call.
  - intros now f f' a p E Hp. repeat case_match; simplify_eq. apply look_put_ne. by apply Hne.
  - intros k kept now f p Hp. case_match; [|done]. apply look_put_ne. by apply Hne.
Qed.

Lemma keeps_append safe dst c : ~ safe dst -> keeps safe (appendFileSync outcome time dst c).
Proof.
  intros Hd. assert (forall p, safe p -> dst <> p) as Hne by (intros p Hp ->; done). apply keeps_call.
  - intros now f f' a p E Hp. case_match; simplify_eq. apply look_put_ne. by apply Hne.
  - intros k kept now f p Hp. case_match; [|done]. apply look_put_ne. by apply Hne.
Qed.

Lemma keeps_rm safe q : (forall p, safe p -> below q p = false) -> keeps safe (rmSync outcome time q).
Proof.
  intros Hs. apply keeps_call; [|intros k kept now f p Hp; by apply look_remove_part, Hs].
  intros now f f' a p E Hp. injection E as <- _.
  by rewrite look_remove_tree, Hs.
Qed.

(** ** Confinement *)

Abbreviation DIR := (BACKUP_DIR dirname).
Abbreviation LOG := (log_file dirname).

Lemma BACKUP_DIR_eq : DIR = dirname ++ [js "backups"].
Proof. apply path_join_plain. split; [repeat constructor; discriminate|done]. Qed.

Lemma log_file_eq : LOG = DIR ++ [js "backup.log"].
Proof. apply path_join_plain. split; [repeat constructor; discriminate|done]. Qed.

Lemma keeps_log safe msg : ~ safe LOG -> keeps safe (log dirname outcome time iso msg).
Proof. intros H w p Hp. exact (keeps_append safe LOG _ H w p Hp). Qed.

Lemma keeps_ensure safe :
  (forall p, safe p -> below p DIR = false) -> ~ safe LOG ->
  keeps safe (ensureBackupDir dirname outcome time iso).
Proof.
  intros H1 H2. apply keeps_bind; [apply keeps_exists|]. intros []; [apply keeps_ret|].
  apply keeps_bind; [by apply keeps_mkdir|]. intros _. by apply keeps_log.
Qed.

(** The paths a restore may not touch: everything but the script's files, their
    [.restore_backup] copies, the log and the way to the backup directory. *)
Definition off_limits p : Prop :=
  below p DIR = false /\ p <> LOG /\
  forall f, f ∈ filesToBackup -> p <> dirname ++ [f] /\ p <> dirname ++ [f ++ js ".restore_backup"].

Lemma keeps_restore b f : keeps off_limits (restoreFile dirname outcome time iso b f).
Proof.
  assert (~ off_limits LOG) as Hlog by (intros (_ & H & _); done).
  unfold restoreFile. apply keeps_bind; [apply keeps_ensure; [by intros p []|done]|]. intros _.
  destruct (isSafeBackupName b) eqn:Hb; cbn [negb]; [|apply keeps_ret].
  destruct (isAllowedFileName f) eqn:Hf; cbn [negb]; [|apply keeps_ret].
  rewrite !(path_resolve_plain _ f) by (by apply allowed_plain).
  repeat (destruct (negb _); [apply keeps_ret|]).
  apply keeps_bind; [apply keeps_exists|]. intros e1. destruct (negb e1); [apply keeps_ret|].
  apply keeps_bind; [apply keeps_exists|]. intros e2. destruct (negb e2); [apply keeps_ret|].
  apply keeps_try; [|intros; apply keeps_ret]. apply allowed_in in Hf.
  apply keeps_bind; [apply keeps_exists|]. intros e3. apply keeps_bind.
  - destruct e3; [|apply keeps_ret]. apply keeps_copy. unfold parent. rewrite length_app, Nat.add_sub, take_app_length, last_snoc.
    intros (_ & _ & H). by destruct (H f Hf).
  - intros _. apply keeps_bind; [|intros; apply keeps_bind; [by apply keeps_log|intros; apply keeps_ret]].
    apply keeps_copy. intros (_ & _ & H). by destruct (H f Hf).
Qed.

(** Restore is confined.  Whatever strings are given as backup and file
    names, and whichever file-system calls fail, a restore changes no path other
    than one of the four scripts, its [.restore_backup] copy, the log and the
    backup directory itself. *)
Theorem restore_confined b f w p :
  off_limits p -> look (files (fst (restoreFile dirname outcome time iso b f w))) p = look (files w) p.
Proof. intros Hp. by apply keeps_restore. Qed.

(** Whatever a computation returns satisfies a predicate. *)
Definition yields {A} (P : A -> Prop) (m : W A) : Prop := forall w a, snd (m w) = Ok a -> P a.

Lemma yields_ret {A} (P : A -> Prop) a : P a -> yields P (mret (MRet := W_ret) a).
Proof. intros H w x [= <-]. done. Qed.

Lemma yields_bind {A B} (P : B -> Prop) (m : W A) (f : A -> W B) :
  (forall a, yields P (f a)) -> yields P (mbind (MBind := W_bind) f m).
Proof. intros Hf w b. unfold mbind, W_bind. destruct (m w) as [w' [a|e]]; [apply Hf|done]. Qed.

Lemma yields_try {A} (P : A -> Prop) (m : W A) h :
  yields P m -> (forall e, yields P (h e)) -> yields P (try_catch m h).
Proof.
  intros Hm Hh w a. unfold try_catch. specialize (Hm w). destruct (m w) as [w' [x|e]]; [apply Hm|apply Hh].
Qed.

Definition no_escape (r : restore_result) : Prop :=
  r <> BackupPathEscapes /\ r <> SourceEscapes /\ r <> DestinationEscapes.

(** The defensive checks are redundant: a restore never ends with one of the
    three "escapes" errors, for any arguments, unless the script lives in the
    root directory. *)
Theorem restore_never_escapes b f w r :
  dirname <> [] -> snd (restoreFile dirname outcome time iso b f w) = Ok r -> no_escape r.
Proof.
  intros Hd. revert w r. change (yields no_escape (restoreFile dirname outcome time iso b f)). unfold restoreFile.
  apply yields_bind. intros _.
  destruct (isSafeBackupName b) eqn:Hb; cbn [negb]; [|by apply yields_ret].
  destruct (isAllowedFileName f) eqn:Hf; cbn [negb]; [|by apply yields_ret].
  assert (DIR <> []) as Hdir by (rewrite BACKUP_DIR_eq; by destruct dirname).
  rewrite !(path_resolve_plain _ f) by (by apply allowed_plain). rewrite (path_resolve_plain _ b) by (by apply safe_name_plain).
  rewrite !inside_snoc by (done || by destruct DIR). cbn [negb].
  apply yields_bind. intros e1. destruct (negb e1); [by apply yields_ret|].
  apply yields_bind. intros e2. destruct (negb e2); [by apply yields_ret|].
  apply yields_try; [|intros; by apply yields_ret]. do 4 (apply yields_bind; intros ?). by apply yields_ret.
Qed.

(** The paths outside the backup directory (and not on the way to it). *)
Definition outside p : Prop := below p DIR = false /\ below DIR p = false.

Lemma not_outside q : below DIR q = true -> ~ outside q.
Proof. intros H [_ H']. congruence. Qed.

Lemma below_trans a b c : below a b = true -> below b c = true -> below a c = true.
Proof. rewrite !below_spec. intros [r ->] [r' ->]. exists (r ++ r'). by rewrite app_assoc. Qed.

Lemma below_false_trans a b c : below a b = true -> below a c = false -> below b c = false.
Proof. intros H1 H2. destruct (below b c) eqn:E; [|done]. by rewrite (below_trans _ _ _ H1 E) in H2. Qed.

Lemma not_outside_log : ~ outside LOG.
Proof. apply not_outside. rewrite log_file_eq. apply below_app. Qed.

Lemma keeps_stat_all safe names : keeps safe (stat_all dirname outcome time names).
Proof.
  induction names as [|n names IH]; [apply keeps_ret|]. cbn [stat_all].
  apply keeps_bind; [apply keeps_stat|]. intros st. apply keeps_bind; [done|]. intros; apply keeps_ret.
Qed.

Lemma keeps_remove_all safe l :
  ~ safe LOG -> (forall p n, safe p -> n ∈ map fst l -> below (DIR ++ [n]) p = false) ->
  Forall plain_name (map fst l) -> keeps safe (remove_all dirname outcome time iso l).
Proof.
  intros Hl Hs Hp. induction l as [|[n t] l IH]; [apply keeps_ret|]. cbn [remove_all map fst] in *.
  inversion Hp as [|? ? Hn Hrest]; subst. rewrite path_resolve_plain by done. apply keeps_bind.
  - destruct (inside _ _); [|by apply keeps_log]. apply keeps_bind; [|intros; by apply keeps_log].
    apply keeps_rm. intros p Hp'. apply Hs; [done|]. by left.
  - intros _. apply IH; [|done]. intros p m Hp' Hm. apply Hs; [done|]. by right.
Qed.

Lemma stat_all_names names w l : snd (stat_all dirname outcome time names w) = Ok l -> map fst l = names.
Proof.
  revert w l. induction names as [|n names IH]; intros w l; cbn [stat_all]; [by intros [= <-]|].
  unfold mbind, W_bind, mret, W_ret. destruct (statSync _ _ _ w) as [w1 [st|]]; [|done].
  specialize (IH w1). destruct (stat_all _ _ _ names w1) as [w2 [l'|]]; [|done]. cbn [snd] in *.
  intros [= <-]. cbn. f_equal. by apply IH.
Qed.

Lemma newer_trans : Transitive newer.
Proof. intros a b c. unfold newer. lia. Qed.

Lemma insert_newest_perm a l : insert_newest a l ≡ₚ a :: l.
Proof.
  induction l as [|b l IH]; [done|]. cbn [insert_newest]. case_match; [done|]. rewrite IH. apply perm_swap.
Qed.

Lemma sort_newest_perm l : sort_newest l ≡ₚ l.
Proof. induction l as [|a l IH]; [done|]. cbn [sort_newest]. by rewrite insert_newest_perm, IH. Qed.

Lemma keeps_clean safe :
  ~ safe LOG -> (forall p n, safe p -> isSafeBackupName n = true -> below (DIR ++ [n]) p = false) ->
  keeps safe (cleanOldBackups dirname outcome time order iso message).
Proof.
  intros Hl Hs. apply keeps_try; [|intros; by apply keeps_log].
  apply keeps_bind; [apply keeps_readdir|]. intros names w p Hp. unfold mbind, W_bind.
  pose proof (keeps_stat_all safe (List.filter isSafeBackupName names) w p Hp) as Hk.
  pose proof (stat_all_names (List.filter isSafeBackupName names) w) as Hn.
  destruct (stat_all _ _ _ _ w) as [w' [l|]]; cbn [fst snd] in *; [|done]. rewrite <- Hk.
  specialize (Hn l eq_refl). destruct (_ <? _)%nat; [|done].
  assert (forall n, n ∈ map fst (drop KEEP_BACKUPS (sort_newest l)) -> isSafeBackupName n = true) as Hsafe.
  { intros n Hin. assert (n ∈ map fst l) as Hin'.
    { rewrite <- (sort_newest_perm l). rewrite <- (take_drop KEEP_BACKUPS (sort_newest l)), map_app. apply elem_of_app. by right. }
    rewrite Hn in Hin'. apply list_elem_of_In, filter_In in Hin'. apply Hin'. }
  refine (keeps_remove_all safe _ Hl _ _ w' p Hp); [intros q n Hq Hin; by apply Hs, Hsafe|].
  apply list.Forall_forall. intros n Hin. by apply safe_name_plain, Hsafe.
Qed.

Lemma keeps_copy_all safe backupPath names ok bad :
  ~ safe LOG -> (forall n, n ∈ names -> plain_name n /\ ~ safe (backupPath ++ [n])) ->
  keeps safe (copy_all dirname outcome time iso message backupPath names ok bad).
Proof.
  intros Hl. revert ok bad. induction names as [|n names IH]; intros ok bad Hn; [apply keeps_ret|]. cbn [copy_all].
  destruct (Hn n) as [Hp Hs]; [by left|]. rewrite (path_join_plain backupPath) by done.
  apply keeps_bind; [apply keeps_exists|]. intros e. apply keeps_bind.
  - destruct e; [|apply keeps_bind; [by apply keeps_log|intros; apply keeps_ret]].
    apply keeps_try; [|intros; apply keeps_bind; [by apply keeps_log|intros; apply keeps_ret]].
    apply keeps_bind; [by apply keeps_copy|]. intros _. apply keeps_bind; [apply keeps_stat|]. intros st.
    apply keeps_bind; [by apply keeps_log|intros; apply keeps_ret].
  - intros r. apply IH. intros m Hm. apply Hn. by right.
Qed.

Lemma manifest_plain : plain_name (js "manifest.json").
Proof. split; [repeat constructor; discriminate|done]. Qed.

Lemma keeps_backup now : valid_date now -> keeps outside (performBackup dirname outcome time order iso message now).
Proof.
  intros Hnow. pose proof (timestamp_safe _ Hnow) as Hsafe. pose proof not_outside_log as Hlog.
  assert (forall q, below DIR (DIR ++ q) = true) as Hin by (intros; apply below_app).
  unfold performBackup. rewrite (path_join_plain DIR) by (by apply safe_name_plain).
  apply keeps_bind; [apply keeps_ensure; [by intros p []|done]|]. intros _.
  apply keeps_try; [|intros; apply keeps_bind; [by apply keeps_log|intros; apply keeps_ret]].
  apply keeps_bind; [apply keeps_mkdir; intros p [H1 H2]; apply not_true_is_false; intros E;
                     destruct (below_comparable _ _ _ E (Hin _)); congruence|]. intros _.
  apply keeps_bind; [by apply keeps_log|]. intros _.
  apply keeps_bind.
  { apply keeps_copy_all; [done|]. intros n Hn. rewrite <- app_assoc. split; [|apply not_outside, Hin].
    pose proof files_plain as Hf. rewrite list.Forall_forall in Hf. by apply Hf. }
  intros counts. apply keeps_bind; [apply keeps_get_files|]. intros f.
  apply keeps_bind; [rewrite path_join_plain, <- app_assoc by apply manifest_plain; apply keeps_write, not_outside, Hin|]. intros _.
  apply keeps_bind; [by apply keeps_log|]. intros _.
  apply keeps_bind; [|intros; apply keeps_ret]. apply keeps_clean; [done|].
  intros p n [H1 H2] Hn. by apply (below_false_trans DIR); [apply Hin|].
Qed.

(** A backup is confined.  At any date and whichever file-system calls fail,
    [performBackup] (its cleanup of old backups included) changes nothing outside
    the backup directory. *)
Theorem backup_confined now w p :
  valid_date now -> outside p ->
  look (files (fst (performBackup dirname outcome time order iso message now w))) p = look (files w) p.
Proof. intros Hnow Hp. by apply keeps_backup. Qed.

(** ** The command line *)

Lemma keeps_list_entry safe b : keeps safe (list_entry dirname outcome time b).
Proof.
  apply keeps_bind; [apply keeps_exists|]. intros e. apply keeps_bind; [|intros; apply keeps_ret].
  destruct e; [|apply keeps_ret]. apply keeps_try; [|intros; apply keeps_ret].
  apply keeps_bind; [apply keeps_read|]. done.
Qed.

Lemma keeps_list_entries safe l : keeps safe (list_entries dirname outcome time l).
Proof.
  induction l as [|b l IH]; [apply keeps_ret|]. cbn [list_entries].
  apply keeps_bind; [apply keeps_list_entry|]. intros x. apply keeps_bind; [done|]. intros; apply keeps_ret.
Qed.

Lemma keeps_list safe :
  (forall p, safe p -> below p DIR = false) -> ~ safe LOG ->
  keeps safe (listBackups dirname outcome time order iso).
Proof.
  intros H1 H2. apply keeps_bind; [by apply keeps_ensure|]. intros _.
  apply keeps_try; [|intros; apply keeps_ret]. apply keeps_bind; [apply keeps_readdir|]. intros names.
  apply keeps_bind; [apply keeps_stat_all|]. intros l. apply keeps_bind; [apply keeps_list_entries|].
  intros; apply keeps_ret.
Qed.

Lemma keeps_weaken {A} (safe safe' : path -> Prop) (m : W A) : (forall p, safe p -> safe' p) -> keeps safe' m -> keeps safe m.
Proof. intros H Hm w p Hp. by apply Hm, H. Qed.

(** The files a restore replaces, and the copies it makes of them first. *)
Definition script_file p : Prop :=
  exists f, f ∈ filesToBackup /\ (p = dirname ++ [f] \/ p = dirname ++ [f ++ js ".restore_backup"]).

Definition restores args : Prop := exists b f, parse_args args = CRestore b f.

Lemma outside_off_limits p : outside p -> ~ script_file p -> off_limits p.
Proof.
  intros Ho Hs. split; [apply Ho|]. split; [intros ->; by apply not_outside_log|].
  intros f Hf. split; intros ->; apply Hs; exists f; auto.
Qed.

(** C26. The program is confined, for every command line: whatever the arguments
    and whichever file-system calls fail, nothing outside the backup directory
    changes, but for the four scripts and their [.restore_backup] copies when
    the arguments ask for a restore. *)
Theorem command_line_confined args now w p :
  valid_date now -> outside p -> (restores args -> ~ script_file p) ->
  look (files (fst (main dirname outcome time order iso message args now w))) p = look (files w) p.
Proof.
  intros Hnow Ho Hr. unfold main. pose proof not_outside_log.
  assert (forall A (m : W A), keeps (eq p) m -> keeps (eq p) (mbind (MBind := W_bind) (fun _ => mret (MRet := W_ret) tt) m)) as Hm.
  { intros A m Hk. apply keeps_bind; [done|]. intros; apply keeps_ret. }
  assert (forall m : W unit, keeps (eq p) m -> look (files (fst (m w))) p = look (files w) p) as Hgo by (intros m Hk; by apply Hk).
  destruct (parse_args args) as [| |b f| |] eqn:E; try done; apply Hgo, Hm.
  - apply (keeps_weaken _ outside); [by intros ? <-|]. apply keeps_list; [by intros ? []|done].
  - apply (keeps_weaken _ off_limits); [|apply keeps_restore]. intros ? <-. apply outside_off_limits; [done|].
    apply Hr. by exists b, f.
  - apply (keeps_weaken _ outside); [by intros ? <-|]. by apply keeps_backup.
Qed.

End Facts.

(** ** Witnesses *)

(** A directory with one backup of one script, and a world where nothing fails. *)
Definition ex_dir : path := [js "srv"].
Definition ex_backup : jstr := js "backup_20260726_150000".
Definition ex_script : jstr := js "stratum-proxy-pool.js".

Definition ex_fs : fs :=
  <[ex_dir := Dir 0]>
  (<[ex_dir ++ [ex_script] := File [1; 2; 3] 0]>
  (<[ex_dir ++ [js "backups"] := Dir 0]>
  (<[ex_dir ++ [js "backups"; ex_backup] := Dir 0]>
  (<[ex_dir ++ [js "backups"; ex_backup; ex_script] := File [7] 0]> ∅)))).

Definition ex_world : world := {| files := ex_fs; ops := 0 |}.

Definition ex_date : date := {| d_year := 2026; d_month := 6; d_day := 26; d_hour := 15; d_minute := 0; d_second := 1 |}.

Definition fine (n : nat) : fault := Fine.

Lemma restore_confined_witness :
  off_limits ex_dir [js "etc"] /\
  look (files (fst (restoreFile ex_dir fine Z.of_nat (fun _ => []) ex_backup ex_script ex_world))) [js "etc"] = None.
Proof.
  assert (off_limits ex_dir [js "etc"]) as H.
  { split; [by vm_compute|]. split; [by vm_compute|]. intros f _. split; discriminate. }
  split; [exact H|]. rewrite restore_confined by exact H. vm_compute. reflexivity.
Defined.

Lemma restore_never_escapes_witness :
  snd (restoreFile ex_dir fine Z.of_nat (fun _ => []) ex_backup ex_script ex_world) = Ok Restored /\ no_escape Restored.
Proof.
  assert (snd (restoreFile ex_dir fine Z.of_nat (fun _ => []) ex_backup ex_script ex_world) = Ok Restored) as H
    by (vm_compute; reflexivity).
  split; [exact H|]. refine (restore_never_escapes _ _ _ _ _ _ _ _ _ H). discriminate.
Defined.

Lemma ex_date_valid : valid_date ex_date.
Proof. repeat split; discriminate. Qed.

Lemma backup_confined_witness :
  outside ex_dir (ex_dir ++ [ex_script]) /\
  look (files (fst (performBackup ex_dir fine Z.of_nat id (fun _ => []) (fun _ => []) ex_date ex_world)))
    (ex_dir ++ [ex_script]) = Some (Some [1; 2; 3]).
Proof.
  assert (outside ex_dir (ex_dir ++ [ex_script])) as H by (split; vm_compute; reflexivity).
  split; [exact H|]. rewrite backup_confined; [vm_compute; reflexivity|apply ex_date_valid|exact H].
Defined.

Lemma command_line_confined_witness :
  look (files (fst (main ex_dir fine Z.of_nat id (fun _ => []) (fun _ => [])
    [js "--restore"; js "../.."; js "passwd"] ex_date ex_world))) [js "passwd"] = None.
Proof.
  rewrite command_line_confined; [vm_compute; reflexivity|apply ex_date_valid|split; vm_compute; reflexivity|].
  intros _ (f & _ & [E|E]); discriminate E.
Defined.
