(* ===== verification/BackupManifest.v ===== *)
(** * The backup script: its manifest as bytes

    [performBackup] writes its manifest with [JSON.stringify(m, null, 2)] and the
    listing reads it back with [JSON.parse]: the value survives, through the
    indentation and through UTF-8. *)

From Stdlib Require Import ZArith Lia Bool String.
From stdpp Require Import base list numbers option gmap.
From S2P Require Import Prelude JsNum JsNumFacts Bytes JsStr JsValue JsDecimal Utf8 ProxyMessages JsonFacts Backup BackupFacts.

Open Scope Z_scope.

(** ** Indented texts are read back *)

Lemma spaces_ws n : ws (replicate n 32).
Proof. by apply Forall_replicate. Qed.

Lemma newline_ws p : ws p -> ws (10 :: p).
Proof. by constructor. Qed.

Lemma stringify2_reads v : clean v -> forall n, exists t, stringify2 n v = Some t /\ reads t v.
Proof.
  induction v as [| |b|m|s|l IH|fs IH] using val_ind; intros Hc n; try exact (reads_atom _ Hc).
  - destruct l as [|x l]; [exists (js "[]"); split; [done|apply reads_empty]|].
    destruct (clean_items (stringify2 (n + 2)) (x :: l)) as (ps & El & E & Hps).
    { eapply Forall_impl; [exact IH|]. eauto. }
    { done. }
    assert (ps <> []) as Hne by (by intros ->).
    pose proof (reads_array [10] [10] (replicate (n + 2) 32) (10 :: replicate n 32) (newline_ws _ (List.Forall_nil _))
      (newline_ws _ (List.Forall_nil _)) (spaces_ws _) (newline_ws _ (spaces_ws _)) ps Hne Hps) as Hr.
    rewrite El in Hr. eexists. split; [|exact Hr]. cbn [stringify2].
    rewrite <- (map_map (fun y => default (js "null") (stringify2 (n + 2) y)) (fun t => replicate (n + 2) 32 ++ t)), E, map_map. done.
  - destruct (clean_fields (stringify2 (n + 2)) fs) as (ps & <- & E & Hps & Hnd).
    { eapply Forall_impl; [exact IH|]. eauto. }
    { done. }
    cbn [stringify2].
    match goal with |- context [match ?g (map field_val ps) with [] => _ | _ => _ end] =>
      assert (g (map field_val ps) = map (field_text (replicate (n + 2) 32) [32]) ps) as -> end.
    { clear -E. induction E as [|[k [t v]] ps Ht _ IH]; [done|]. cbn [map field_val fst snd] in *. rewrite Ht, IH. done. }
    destruct (decide (ps = [])) as [->|Hne]; [exists (js "{}"); split; [done|apply reads_empty]|].
    pose proof (reads_object [10] [10] (replicate (n + 2) 32) [32] (10 :: replicate n 32) (newline_ws _ (List.Forall_nil _))
      (newline_ws _ (List.Forall_nil _)) (spaces_ws _) ltac:(by constructor) (newline_ws _ (spaces_ws _)) ps Hne Hps Hnd) as Hr.
    eexists. split; [|exact Hr]. by destruct ps.
Qed.

(** ** and survive UTF-8 *)

(** A text of 16-bit units without lone surrogates. *)
Definition text (s : jstr) : Prop := utf16_str s /\ well_formed s = true.

Lemma text_app a b : text a -> text b -> text (a ++ b).
Proof.
  intros [Ha Wa] [Hb Wb]. split; [by apply Forall_app|]. clear Ha Hb. revert Wa.
  induction a as [[|c r] IH] using shorter_ind; [done|]. cbn [well_formed app]. destruct (high_surrogate c).
  - destruct r as [|d r]; [done|]. cbn [app]. rewrite !andb_true_iff. intros [H1 H2]. split; [done|]. apply IH; [cbn; lia|done].
  - rewrite !andb_true_iff. intros [H1 H2]. split; [done|]. apply IH; [cbn; lia|done].
Qed.

Lemma text_ascii s : Forall (fun c => 0 <= c < 128) s -> text s.
Proof.
  intros H. split; [revert H; apply List.Forall_impl; lia|]. induction H as [|c s Hc _ IH]; [done|].
  cbn [well_formed]. unfold high_surrogate, low_surrogate. zbool. by rewrite IH.
Qed.

Lemma text_nil : text [].
Proof. done. Qed.

Lemma text_escape c : text (u_escape c).
Proof.
  apply text_ascii. apply Forall_app; split; [repeat constructor; lia|].
  eapply Forall_impl; [apply hex_fixed_hex|]. intros x H. unfold is_hex in H.
  repeat (apply orb_true_iff in H as [H|H]); breflect; lia.
Qed.

Lemma text_unit c : 0 <= c < 65536 -> high_surrogate c = false -> low_surrogate c = false -> text (quote_unit c).
Proof.
  intros Hc Hh Hl. unfold quote_unit. repeat (case_match; [apply text_escape || (apply text_ascii; repeat constructor; lia)|]).
  split; [by repeat apply List.Forall_cons|]. cbn [well_formed]. by rewrite Hh, Hl.
Qed.

Lemma text_pair c d s : high_surrogate c = true -> low_surrogate d = true -> text s -> text (c :: d :: s).
Proof.
  intros Hc Hd [H1 H2]. split; [|cbn [well_formed]; by rewrite Hc, Hd, H2].
  unfold high_surrogate, low_surrogate in *. breflect. repeat (apply List.Forall_cons; [lia|]). done.
Qed.

Lemma text_quote_body s : utf16_str s -> text (quote_body s).
Proof.
  induction s as [[|c r] IH] using shorter_ind; intros Hs; [done|]. inversion Hs as [|? ? Hc Hr]; subst. cbn [quote_body].
  pose proof (text_escape c). pose proof (IH r ltac:(cbn; lia) Hr).
  destruct (high_surrogate c) eqn:Eh; [destruct r as [|d r']; [done|destruct (low_surrogate d) eqn:Ed]|].
  - inversion Hr; subst. apply text_pair; [done..|]. apply IH; [cbn; lia|done].
  - by apply text_app.
  - destruct (low_surrogate c) eqn:El; apply text_app; try done. by apply text_unit.
Qed.

Lemma text_quote s : utf16_str s -> text (quote s).
Proof.
  intros H. repeat apply text_app; try (by apply text_ascii; repeat constructor). by apply text_quote_body.
Qed.

Lemma text_sep sep l : text sep -> Forall text l -> text (sep_by sep l).
Proof.
  intros Hs. induction 1 as [|x l Hx Hl IH]; [done|]. cbn [sep_by]. destruct l; [done|]. by repeat apply text_app.
Qed.

Lemma text_spaces n : text (replicate n 32).
Proof. apply text_ascii, Forall_replicate. lia. Qed.

Create HintDb texts.

#[local] Hint Resolve text_app text_nil text_quote text_sep text_spaces : texts.
#[local] Hint Extern 1 (text (_ :: _)) => apply (text_app [_]) : texts.
#[local] Hint Extern 0 (text [_]) => apply text_ascii; repeat constructor; lia : texts.

Lemma stringify2_arr n x l :
  stringify2 n (VArr (x :: l)) =
  Some ([91; 10] ++ sep_by [44; 10] (map (fun x => replicate (n + 2) 32 ++ default (js "null") (stringify2 (n + 2) x)) (x :: l)) ++
        [10] ++ replicate n 32 ++ [93]).
Proof. done. Qed.

Lemma stringify2_text v : clean v -> forall n t, stringify2 n v = Some t -> text t.
Proof.
  induction v as [| |b|m|s|l IH|fs IH] using val_ind; intros Hc n t E; try done.
  - injection E as <-. by apply text_ascii; repeat constructor.
  - injection E as <-. destruct b; by apply text_ascii; repeat constructor.
  - destruct Hc as (k & Hk & ->). cbn [stringify2] in E. rewrite stringify_num in E by done. injection E as <-.
    apply text_ascii. eapply Forall_impl; [apply (dec_string_digits k); lia|]. intros c H. unfold is_digit in H. breflect. lia.
  - injection E as <-. by apply text_quote.
  - destruct l as [|x l]; [injection E as <-; by apply text_ascii; repeat constructor|]. rewrite stringify2_arr in E.
    apply (inj Some) in E. subst t. apply text_app; [by apply text_ascii; repeat constructor|].
    apply text_app; [|auto with texts]. apply text_sep; [auto with texts|]. apply Forall_map.
    revert IH Hc. generalize (x :: l). clear.
    induction 1 as [|x l Hx _ IHl]; [constructor|]. intros [H1 H2]. constructor; [|by apply IHl].
    apply text_app; [auto with texts|]. destruct (stringify2_reads x H1 (n + 2)) as (u & Eu & _). rewrite Eu. by apply (Hx H1 (n + 2)%nat).
  - cbn [stringify2] in E. apply (inj Some) in E. subst t.
    match goal with |- context [match ?g fs with [] => _ | _ => _ end] => assert (Forall text (g fs)) as Ht end.
    { destruct Hc as [_ Hc]. revert Hc. induction IH as [|[k x] fs Hx _ IHl]; [constructor|]. intros [ [ [Hk _] Hcx] Hcl].
      destruct (stringify2_reads x Hcx (n + 2)) as (u & Eu & _). rewrite Eu. constructor; [|by apply IHl].
      apply (Hx Hcx) in Eu. by auto 6 with texts. }
    case_match; [by apply text_ascii; repeat constructor|]. change ([123; 10] ++ ?c) with ([123] ++ [10] ++ c).
    auto 10 with texts.
Qed.

(** A value written as the script writes its manifest is the value the listing
    parses. *)
Lemma saved_json_roundtrip v : clean v ->
  JSON_parse (utf8_decode (utf8_encode (default [] (stringify2 0 v)))) = Ok v.
Proof.
  intros Hc. destruct (stringify2_reads v Hc 0) as (t & Et & Hr). pose proof (stringify2_text v Hc 0 t Et) as [H1 H2].
  rewrite Et. cbn [default]. change (id t) with t. rewrite utf8_decode_encode by done. by apply reads_parse.
Qed.

(** ** The manifest *)

(** What the listing shows of a manifest's bytes: the two counts, or nothing if
    they cannot be read. *)
Definition shown_counts (bs : bytes) : option (jstr * jstr) :=
  match (m ← JSON_parse (utf8_decode bs);
         a ← get m (js "successCount"); a ← to_string a;
         b ← get m (js "totalFiles"); b ← to_string b;
         Ok (Some (a, b))) with
  | Ok r => r
  | Throw _ => None
  end.

Lemma manifest_clean dirname stamp p ok bad f :
  utf16_str stamp -> 0 <= ok < 10 ^ 15 -> 0 <= bad < 10 ^ 15 -> clean (manifest dirname stamp p ok bad f).
Proof.
  intros Hs Ho Hb. assert (clean (VStr stamp)) as Hc by done. unfold manifest, filesToBackup. cbn [map length]. clean_tac.
Qed.

Lemma manifest_shown dirname stamp p ok bad f :
  utf16_str stamp -> 0 <= ok < 10 ^ 15 -> 0 <= bad < 10 ^ 15 ->
  shown_counts (utf8_encode (default [] (stringify2 0 (manifest dirname stamp p ok bad f)))) =
  Some (dec_string ok, js "4").
Proof.
  intros Hs Ho Hb. unfold shown_counts. rewrite saved_json_roundtrip by by apply manifest_clean. cbn [mbind res_bind].
  change (get (manifest dirname stamp p ok bad f) (js "successCount")) with (Ok (VNum (num_of_Z ok))).
  change (get (manifest dirname stamp p ok bad f) (js "totalFiles")) with (Ok (VNum (num_of_Z 4))).
  cbn [mbind res_bind to_string]. rewrite !num_to_string_int by lia. done.
Qed.
