(* ===== verification/BackupRecovery.v ===== *)
(** * The backup script: what a run that meets no failure achieves

    On a file system where every call succeeds, cleanup keeps exactly the ten
    newest backups, a backup saves the scripts and survives its own cleanup, and
    a restore brings a saved script back. *)

From Stdlib Require Import ZArith Lia Bool String.
From stdpp Require Import base list numbers option gmap sorting.
From S2P Require Import Prelude JsNum Bytes JsStr JsValue Utf8 JsDecimal ProxyMessages JsonFacts Backup BackupFacts BackupManifest.

Open Scope Z_scope.

(** ** Directories and entries *)

Definition mtime_at (f : fs) (p : path) : Z :=
  match f !! p with Some (File _ t) => t | Some (Dir t) => t | None => 0 end.

Lemma is_dir_look f p : p <> [] -> is_dir f p = bool_decide (look f p = Some None).
Proof. intros Hp. unfold is_dir, look. destruct p; [done|]. by destruct (f !! _) as [[]|]. Qed.

Lemma exists_look f p : p <> [] -> exists_path f p = bool_decide (is_Some (look f p)).
Proof.
  intros Hp. unfold exists_path, look. destruct p; [done|]. by destruct (f !! _).
Qed.

Lemma is_dir_exists f p : is_dir f p = true -> exists_path f p = true.
Proof. unfold is_dir, exists_path. destruct p; [done|]. by destruct (f !! _). Qed.

Lemma parent_snoc p n : parent (p ++ [n]) = p.
Proof. unfold parent. by rewrite length_app, Nat.add_sub, take_app_length. Qed.

Lemma snoc_neq {A} (p : list A) n : p ++ [n] <> [].
Proof. by destruct p. Qed.

Lemma below_snoc p n m : below (p ++ [n]) (p ++ [m]) = true -> n = m.
Proof.
  rewrite below_spec. intros [r E]. rewrite <- app_assoc in E. apply app_inv_head in E. by injection E.
Qed.

Definition entry_of (p : path) (kv : path * node) : option jstr :=
  let q := fst kv in if (length q =? S (length p))%nat && below p q then last q else None.

Lemma entry_of_Some p kv n : entry_of p kv = Some n <-> fst kv = p ++ [n].
Proof.
  unfold entry_of. destruct kv as [q x]; cbn [fst]. split.
  - destruct (_ && _) eqn:E; [|done]. apply andb_true_iff in E as [E [r ->]%below_spec].
    apply Nat.eqb_eq in E. rewrite length_app in E. destruct r as [|m [|]]; cbn in E; try lia. rewrite last_snoc. by intros [= ->].
  - intros ->. rewrite length_app, below_app, last_snoc. cbn. by rewrite Nat.add_1_r, Nat.eqb_refl.
Qed.

Lemma elem_of_entries p f n : n ∈ entries p f <-> is_Some (f !! (p ++ [n])).
Proof.
  unfold entries. change (omap _ _) with (omap (entry_of p) (map_to_list f)). rewrite list_elem_of_omap. split.
  - intros ([q x] & Hin & E%entry_of_Some). cbn in E. subst q. apply elem_of_map_to_list in Hin. by exists x.
  - intros [x Hx]. exists (p ++ [n], x). split; [by apply elem_of_map_to_list|]. by apply entry_of_Some.
Qed.

Lemma NoDup_omap_entry p (l : list (path * node)) : NoDup l.*1 -> NoDup (omap (entry_of p) l).
Proof.
  induction l as [|kv l IH]; [intros; constructor|]. rewrite fmap_cons. intros [Hn Hd]%NoDup_cons.
  cbn [omap list_omap]. destruct (entry_of p kv) as [n|] eqn:E; [|by apply IH]. apply NoDup_cons. split; [|by apply IH].
  intros ([q x] & Hin & E')%list_elem_of_omap. apply entry_of_Some in E, E'. cbn in E'. apply Hn.
  rewrite E, <- E'. apply list_elem_of_fmap. by exists (q, x).
Qed.

Lemma NoDup_entries p f : NoDup (entries p f).
Proof. apply NoDup_omap_entry, NoDup_fst_map_to_list. Qed.

Section Recovery.
Variable dirname : path.
Variable outcome : nat -> fault.
Variable time : nat -> Z.
Variable order : list jstr -> list jstr.
Variable iso : nat -> jstr.
Variable message : jserror -> jstr.

Hypothesis no_fault : forall n, outcome n = Fine.
Hypothesis order_perm : forall l, order l ≡ₚ l.

Implicit Types (w : world) (p q : path) (f : fs).

Abbreviation DIR := (BACKUP_DIR dirname).
Abbreviation LOG := (log_file dirname).

(** A computation that returns, with a value and a final world satisfying [Q]. *)
Definition runs {A} (m : W A) w (Q : A -> world -> Prop) : Prop :=
  exists a, snd (m w) = Ok a /\ Q a (fst (m w)).

Lemma runs_ret {A} (a : A) w (Q : A -> world -> Prop) : Q a w -> runs (mret (MRet := W_ret) a) w Q.
Proof. intros H. by exists a. Qed.

Lemma runs_bind {A B} (m : W A) (k : A -> W B) w Q R :
  runs m w R -> (forall a w', R a w' -> runs (k a) w' Q) -> runs (mbind (MBind := W_bind) k m) w Q.
Proof.
  intros (a & E & Ha) Hk. destruct (Hk a _ Ha) as (b & Eb & Hb). exists b. unfold mbind, W_bind.
  destruct (m w) as [w' r]; cbn [fst snd] in *. by subst r.
Qed.

Lemma runs_try {A} (m : W A) h w Q : runs m w Q -> runs (try_catch m h) w Q.
Proof.
  intros (a & E & Ha). exists a. unfold try_catch. destruct (m w) as [w' r]; cbn [fst snd] in *. by subst r.
Qed.

Lemma runs_exists p w Q : Q (exists_path (files w) p) w -> runs (existsSync p) w Q.
Proof. intros H. by exists (exists_path (files w) p). Qed.

Lemma runs_call {A} act late w (Q : A -> world -> Prop) f a :
  act (time (ops w)) (files w) = Some (f, a) -> Q a {| files := f; ops := S (ops w) |} ->
  runs (fs_call outcome time act late) w Q.
Proof. intros E H. exists a. unfold fs_call. by rewrite no_fault, E. Qed.

(** ** The log *)

Definition loggable f : Prop := is_dir f DIR = true /\ is_dir f LOG = false.

Lemma DIR_nonempty : DIR <> [].
Proof. rewrite BACKUP_DIR_eq. apply snoc_neq. Qed.

Lemma LOG_nonempty : LOG <> [].
Proof. rewrite log_file_eq. apply snoc_neq. Qed.

Lemma parent_LOG : parent LOG = DIR.
Proof. rewrite log_file_eq. apply parent_snoc. Qed.

Lemma DIR_not_LOG : DIR <> LOG.
Proof. rewrite log_file_eq. intros E%(f_equal length). rewrite length_app in E. cbn in E. lia. Qed.

Lemma loggable_look f f' : (forall p, p <> LOG -> look f' p = look f p) -> is_dir f' LOG = false -> loggable f -> loggable f'.
Proof.
  intros H Hl [H1 _]. split; [|done]. rewrite is_dir_look in * by apply DIR_nonempty. by rewrite H by apply DIR_not_LOG.
Qed.

(** One line more: every other path keeps its contents, and every path but the
    backup directory its time. *)
Definition logged f f' : Prop :=
  loggable f' /\ (forall p, p <> LOG -> look f' p = look f p) /\
  (forall p, p <> LOG -> p <> DIR -> f' !! p = f !! p).

Lemma put_other p c now f q : q <> p -> q <> parent p -> put_file p c now f !! q = f !! q.
Proof.
  intros H1 H2. unfold put_file, touch. repeat case_match; rewrite ?lookup_insert_ne by done; done.
Qed.

Lemma logged_put c now f : loggable f -> logged f (put_file LOG c now f).
Proof.
  intros H. pose proof (fun p (Hp : p <> LOG) => look_put_ne LOG c now f p (not_eq_sym Hp)) as Hl. split; [|split].
  - apply (loggable_look f); [done| |done]. rewrite is_dir_look, look_put by apply LOG_nonempty. done.
  - done.
  - intros p H1 H2. apply put_other; [done|]. by rewrite parent_LOG.
Qed.

Lemma runs_log msg w Q :
  loggable (files w) -> (forall w', logged (files w) (files w') -> Q tt w') ->
  runs (log dirname outcome time iso msg) w Q.
Proof.
  intros H HQ. pose proof H as [H1 H2]. unfold log, appendFileSync. eapply runs_call.
  - cbn beta. unfold writable_at. by rewrite parent_LOG, H1, H2.
  - apply HQ. cbn [files]. by apply logged_put.
Qed.

(** ** Cleanup *)

Lemma runs_stat_all names w Q :
  (forall n, n ∈ names -> plain_name n /\ is_Some (files w !! (DIR ++ [n]))) ->
  (forall w', files w' = files w -> Q (map (fun n => (n, mtime_at (files w) (DIR ++ [n]))) names) w') ->
  runs (stat_all dirname outcome time names) w Q.
Proof.
  revert w Q. induction names as [|n names IH]; intros w Q Hn HQ; cbn [stat_all map]; [by apply runs_ret, HQ|].
  destruct (Hn n) as [Hp [x Hx]]; [by left|]. rewrite path_join_plain by done.
  apply (runs_bind _ _ _ _ (fun st w' => fst st = mtime_at (files w) (DIR ++ [n]) /\ files w' = files w)).
  - unfold statSync, mtime_at. rewrite Hx. destruct x; (eapply runs_call; [by rewrite Hx|done]).
  - intros st w1 [Est Ef]. apply (runs_bind _ _ _ _ (fun l w' =>
      files w' = files w /\ l = map (fun n => (n, mtime_at (files w) (DIR ++ [n]))) names)).
    + apply IH; [intros m Hm; rewrite Ef; apply Hn; by right|]. intros w2 E2. by rewrite E2, Ef.
    + intros l w2 [E2 ->]. apply runs_ret. rewrite Est. by apply HQ.
Qed.

Definition removed f f' (dropped : list (jstr * Z)) : Prop :=
  forall q, q <> LOG -> look f' q = if existsb (fun b => below (DIR ++ [fst b]) q) dropped then None else look f q.

Lemma log_not_below n : isSafeBackupName n = true -> below (DIR ++ [n]) LOG = false.
Proof.
  intros H. apply not_true_is_false. rewrite log_file_eq. intros E%below_snoc. by subst n.
Qed.

Lemma loggable_removed f n now : isSafeBackupName n = true -> loggable f -> loggable (remove_tree (DIR ++ [n]) now f).
Proof.
  intros Hn [H1 H2]. unfold loggable. rewrite !is_dir_look in * by apply LOG_nonempty || apply DIR_nonempty.
  rewrite !look_remove_tree, log_not_below by done. split; [|done]. destruct (below _ DIR) eqn:E; [|done].
  apply below_spec in E as [r E%(f_equal length)]. rewrite !length_app in E. cbn in E. lia.
Qed.

Lemma runs_remove_all l w Q :
  (forall b, b ∈ l -> isSafeBackupName (fst b) = true) -> loggable (files w) ->
  (forall w', removed (files w) (files w') l -> loggable (files w') -> Q tt w') ->
  runs (remove_all dirname outcome time iso l) w Q.
Proof.
  revert w. induction l as [|[n t] l IH]; intros w Hs Hl HQ; cbn [remove_all]; [by apply runs_ret, HQ|].
  pose proof (Hs (n, t) ltac:(by left)) as Hn. cbn [fst] in Hn.
  rewrite path_resolve_plain, inside_snoc by (apply DIR_nonempty || by apply safe_name_plain).
  apply (runs_bind _ _ _ _ (fun _ w' => removed (files w) (files w') [(n, t)] /\ loggable (files w'))).
  - apply (runs_bind _ _ _ _ (fun _ w' => files w' = remove_tree (DIR ++ [n]) (time (ops w)) (files w)));
      [by eapply runs_call|].
    intros _ w1 E1. apply runs_log; [rewrite E1; by apply loggable_removed|]. intros w2 (H1 & H2 & _).
    split; [|done]. intros q Hq. rewrite H2, E1, look_remove_tree by done. cbn. by rewrite orb_false_r.
  - intros _ w1 [H1 H2]. apply IH; [intros b Hb; apply Hs; by right|done|]. intros w2 H3 H4. apply HQ; [|done].
    intros q Hq. rewrite H3, H1 by done. cbn. rewrite orb_false_r. by destruct (below _ q), (existsb _ l).
Qed.

(** The well-named entries of the backup directory with their times. *)
Definition backups_of f (names : list jstr) : list (jstr * Z) :=
  map (fun n => (n, mtime_at f (DIR ++ [n]))) (List.filter isSafeBackupName names).

(** The entries of one time, in order. *)
Definition at_time (t : Z) (l : list (jstr * Z)) : list (jstr * Z) := List.filter (fun b => snd b =? t) l.

Definition clean_post f f' (kept dropped : list (jstr * Z)) : Prop :=
  kept ++ dropped ≡ₚ backups_of f (entries DIR f) /\
  length kept = (KEEP_BACKUPS `min` length (backups_of f (entries DIR f)))%nat /\
  (forall a b, a ∈ kept -> b ∈ dropped -> snd b <= snd a) /\
  (removed f f' dropped /\ loggable f') /\
  (forall t, at_time t (kept ++ dropped) = at_time t (backups_of f (order (entries DIR f)))).

Lemma backups_of_safe f names b : b ∈ backups_of f names -> isSafeBackupName (fst b) = true /\ fst b ∈ names.
Proof.
  unfold backups_of. rewrite list_elem_of_In, in_map_iff. intros (n & <- & [H1 H2]%filter_In). split; [done|].
  by apply list_elem_of_In.
Qed.

Lemma filter_perm {A} (g : A -> bool) (l l' : list A) : l ≡ₚ l' -> List.filter g l ≡ₚ List.filter g l'.
Proof. induction 1; cbn; repeat case_match; eauto using Permutation. Qed.

Lemma backups_of_perm f names names' : names ≡ₚ names' -> backups_of f names ≡ₚ backups_of f names'.
Proof. intros H. by apply Permutation_map, filter_perm. Qed.

Lemma StronglySorted_map {A B} (g : A -> B) (P : B -> B -> Prop) (l : list A) :
  StronglySorted P (map g l) -> StronglySorted (fun x y => P (g x) (g y)) l.
Proof.
  induction l as [|x l IH]; intros H; [constructor|]. inversion H as [|? ? H1 H2]; subst.
  constructor; [by apply IH|]. by rewrite Forall_map in H2.
Qed.

Lemma insert_newest_sorted a l : StronglySorted newer l -> StronglySorted newer (insert_newest a l).
Proof.
  induction 1 as [|b l Hl IH Hb]; cbn [insert_newest]; [by repeat constructor|]. destruct (Z.leb_spec (snd b) (snd a)).
  - constructor; [by constructor|]. constructor; [done|]. eapply Forall_impl; [exact Hb|]. intros c. unfold newer in *. lia.
  - constructor; [done|]. rewrite insert_newest_perm. constructor; [unfold newer; lia|done].
Qed.

Lemma sort_newest_sorted l : StronglySorted newer (sort_newest l).
Proof. induction l as [|a l IH]; cbn [sort_newest]; [constructor|by apply insert_newest_sorted]. Qed.

Lemma insert_newest_stable t a l : at_time t (insert_newest a l) = at_time t (a :: l).
Proof.
  unfold at_time. induction l as [|b l IH]; [done|]. cbn [insert_newest]. destruct (Z.leb_spec (snd b) (snd a)); [done|].
  cbn [List.filter] in *. rewrite IH. destruct (Z.eqb_spec (snd a) t), (Z.eqb_spec (snd b) t); try done. lia.
Qed.

(** The sort is stable. *)
Lemma sort_newest_stable t l : at_time t (sort_newest l) = at_time t l.
Proof.
  induction l as [|a l IH]; [done|]. cbn [sort_newest]. rewrite insert_newest_stable. unfold at_time in *. cbn [List.filter].
  by rewrite IH.
Qed.

Lemma sort_split l :
  let s := sort_newest l in
  take KEEP_BACKUPS s ++ drop KEEP_BACKUPS s ≡ₚ l /\
  (forall a b, a ∈ take KEEP_BACKUPS s -> b ∈ drop KEEP_BACKUPS s -> snd b <= snd a).
Proof.
  cbv zeta. split; [by rewrite take_drop, sort_newest_perm|].
  pose proof (sort_newest_sorted l) as Hs.
  rewrite <- (take_drop KEEP_BACKUPS (sort_newest l)) in Hs. intros a b Ha Hb.
  exact (StronglySorted_app_1_elem_of newer _ _ a b Hs Ha Hb).
Qed.

Lemma runs_clean w Q :
  loggable (files w) ->
  (forall w' kept dropped, clean_post (files w) (files w') kept dropped -> Q tt w') ->
  runs (cleanOldBackups dirname outcome time order iso message) w Q.
Proof.
  intros Hl HQ. apply runs_try. pose proof Hl as [Hd _].
  apply (runs_bind _ _ _ _ (fun names w' => names = order (entries DIR (files w)) /\ files w' = files w)).
  { by eapply runs_call; [rewrite Hd|]. }
  intros names w1 [En E1]. rewrite <- E1 in *. clear E1. assert (names ≡ₚ entries DIR (files w1)) as Hn by (rewrite En; apply order_perm).
  apply (runs_bind _ _ _ _ (fun l w' => l = backups_of (files w1) names /\ files w' = files w1)).
  { apply runs_stat_all; [|by intros w' E]. intros n Hin. apply list_elem_of_In, filter_In in Hin as [Hin Hs].
    split; [by apply safe_name_plain|]. apply elem_of_entries. rewrite <- Hn. by apply list_elem_of_In. }
  intros l w2 [-> E2]. cbv zeta. rewrite <- E2 in *.
  set (l := backups_of _ names). assert (l ≡ₚ backups_of (files w2) (entries DIR (files w2))) as Hperm by by apply backups_of_perm.
  pose proof (sort_split l) as [Hs1 Hs2]. cbv zeta in Hs1, Hs2.
  assert (forall w', removed (files w2) (files w') (drop KEEP_BACKUPS (sort_newest l)) -> loggable (files w') -> Q tt w') as HQ'.
  { intros w' Hr Hl'. eapply (HQ w' (take KEEP_BACKUPS (sort_newest l))). split; [by rewrite Hs1|].
    split; [rewrite length_take, sort_newest_perm, Hperm; lia|]. do 2 (split; [done|]).
    intros t. by rewrite take_drop, sort_newest_stable, <- En. }
  destruct (_ <? _)%nat eqn:E.
  - apply runs_remove_all; [|done|done]. intros b Hb. apply (backups_of_safe (files w2) names).
    change (b ∈ l). rewrite <- Hs1. apply elem_of_app. by right.
  - apply runs_ret, HQ'; [|done]. apply Nat.ltb_ge in E. rewrite drop_ge by done. by intros q _.
Qed.

(** C31. Cleanup keeps the ten newest.  With no failing call, in a state where the
    backup directory is there and its log can be written, and whatever order the
    directory is read in, [cleanOldBackups] splits the well-named entries of the
    backup directory into the ten kept ones (all of them if there are fewer) and
    the rest, none of which is newer than a kept one; backups of the same time are
    kept in the order the directory was read in.  It removes exactly the rest,
    with all they contain, and leaves every other entry but the log as it is, up
    to the times of directories. *)
Theorem clean_keeps_newest w :
  loggable (files w) ->
  exists kept dropped,
    clean_post (files w) (files (fst (cleanOldBackups dirname outcome time order iso message w))) kept dropped.
Proof.
  intros Hl. destruct (runs_clean w (fun _ w' => exists kept dropped, clean_post (files w) (files w') kept dropped) Hl)
    as (_ & _ & H); eauto.
Qed.

(** ** Copies and restores *)

Definition placed (dst : path) (c : bytes) f f' : Prop :=
  look f' dst = Some (Some c) /\ (forall p, p <> dst -> look f' p = look f p) /\
  (forall p, p <> dst -> p <> parent dst -> f' !! p = f !! p).

Lemma placed_put dst c now f : dst <> [] -> placed dst c f (put_file dst c now f).
Proof.
  intros H. split; [by apply look_put|]. split; [intros p Hp; by apply look_put_ne|]. intros p H1 H2. by apply put_other.
Qed.

Lemma look_file f p c : look f p = Some (Some c) -> exists t, f !! p = Some (File c t).
Proof. unfold look. destruct (f !! p) as [[c' t|]|]; try done. intros [= ->]. by exists t. Qed.

Lemma runs_copy src dst c w Q :
  look (files w) src = Some (Some c) -> dst <> [] -> is_dir (files w) (parent dst) = true -> is_dir (files w) dst = false ->
  (forall w', placed dst c (files w) (files w') -> Q tt w') ->
  runs (copyFileSync outcome time src dst) w Q.
Proof.
  intros [t Hs]%look_file Hd Hp Hn HQ. eapply runs_call.
  - cbn beta. unfold writable_at. by rewrite Hs, Hp, Hn.
  - apply HQ. by apply placed_put.
Qed.

Lemma runs_ensure w Q : loggable (files w) -> Q tt w -> runs (ensureBackupDir dirname outcome time iso) w Q.
Proof.
  intros [Hd _] HQ. unfold ensureBackupDir. apply (runs_bind _ _ _ _ (fun e w' => e = true /\ w' = w)).
  - apply runs_exists. split; [|done]. by apply is_dir_exists.
  - intros e w' [-> ->]. by apply runs_ret.
Qed.

Lemma loggable_placed dst c f f' : dst <> LOG -> dst <> DIR -> placed dst c f f' -> loggable f -> loggable f'.
Proof.
  intros H1 H2 (_ & H & _) [H3 H4]. unfold loggable. rewrite !is_dir_look in * by apply LOG_nonempty || apply DIR_nonempty.
  by rewrite !H.
Qed.

Lemma file_not_DIR x n : x ∈ filesToBackup -> dirname ++ [x ++ n] <> DIR.
Proof.
  rewrite BACKUP_DIR_eq. intros Hf E%app_inv_head. injection E as E.
  unfold filesToBackup in Hf. rewrite list_elem_of_In in Hf. destruct Hf as [<-|[<-|[<-|[<-|[]]]]]; discriminate E.
Qed.

Lemma short_neq x r : dirname ++ [x] <> DIR ++ r \/ r = [].
Proof.
  destruct r as [|y r]; [by right|]. left. rewrite BACKUP_DIR_eq. intros E%(f_equal length).
  rewrite !length_app in E. cbn in E. lia.
Qed.

Lemma short_not_LOG x : dirname ++ [x] <> LOG.
Proof. rewrite log_file_eq. by destruct (short_neq x [js "backup.log"]). Qed.

Lemma short_not_deep x y z : dirname ++ [x] <> DIR ++ [y; z].
Proof. by destruct (short_neq x [y; z]). Qed.

(** The script and its two copies. *)
Abbreviation current x := (dirname ++ [x]).
Abbreviation previous x := (dirname ++ [x ++ js ".restore_backup"]).

Definition restored x c f f' : Prop :=
  look f' (current x) = Some (Some c) /\
  forall c0, look f (current x) = Some (Some c0) -> look f' (previous x) = Some (Some c0).

Lemma current_not_previous x : current x <> previous x.
Proof. intros E%app_inv_head. injection E as E. rewrite <- (app_nil_r x) in E at 1. by apply app_inv_head in E. Qed.

Lemma runs_save_current x w (Q : unit -> world -> Prop) :
  is_dir (files w) dirname = true -> is_dir (files w) (current x) = false -> is_dir (files w) (previous x) = false ->
  (forall w', (forall p, p <> previous x -> look (files w') p = look (files w) p) ->
              (forall c0, look (files w) (current x) = Some (Some c0) -> look (files w') (previous x) = Some (Some c0)) ->
              Q tt w') ->
  runs (if exists_path (files w) (current x) then copyFileSync outcome time (current x) (previous x)
        else mret (MRet := W_ret) tt) w Q.
Proof.
  intros Hd H1 H2 HQ. rewrite exists_look, is_dir_look in * by apply snoc_neq.
  destruct (look (files w) (current x)) as [[c0|]|] eqn:E; [|done|].
  - apply (runs_copy _ _ c0); [done|apply snoc_neq|by rewrite parent_snoc| |].
    { by rewrite is_dir_look by apply snoc_neq. }
    intros w' (P1 & P2 & _). apply HQ; [done|]. by intros ? [= <-].
  - by apply runs_ret, HQ.
Qed.

Lemma runs_replace b x c w Q :
  x ∈ filesToBackup -> is_dir (files w) dirname = true -> loggable (files w) -> dirname <> [] ->
  look (files w) (DIR ++ [b; x]) = Some (Some c) -> is_dir (files w) (current x) = false ->
  (forall w', look (files w') (current x) = Some (Some c) ->
              (forall p, p <> current x -> p <> LOG -> look (files w') p = look (files w) p) -> Q Restored w') ->
  runs (mbind (MBind := W_bind) (fun _ => mbind (MBind := W_bind) (fun _ => mret (MRet := W_ret) Restored)
          (log dirname outcome time iso (js "Restored " ++ x ++ js " from " ++ b)))
        (copyFileSync outcome time (DIR ++ [b; x]) (current x))) w Q.
Proof.
  intros Hx Hd Hl Hne Hs Hc HQ. apply (runs_bind _ _ _ _ (fun _ w' => placed (current x) c (files w) (files w'))).
  { apply (runs_copy _ _ c); try done; [apply snoc_neq|by rewrite parent_snoc]. }
  intros _ w1 P. pose proof P as (P1 & P2 & _). apply (runs_bind _ _ _ _ (fun _ w' => logged (files w1) (files w'))).
  { apply runs_log; [|done]. apply (loggable_placed _ _ _ _ (short_not_LOG x)) with (2 := P); [|done].
    rewrite <- (app_nil_r x). by apply file_not_DIR. }
  intros _ w2 (_ & L & _). apply runs_ret, HQ; [rewrite L by apply short_not_LOG; done|].
  intros p H1 H2. by rewrite L, P2.
Qed.

Lemma is_dir_same f f' p : p <> [] -> look f' p = look f p -> is_dir f' p = is_dir f p.
Proof. intros Hp H. by rewrite !is_dir_look, H. Qed.

(** What a restore of [x] from [b] needs. *)
Record restorable b x c f : Prop := {
  rs_dir : is_dir f dirname = true;
  rs_log : loggable f;
  rs_backup : is_dir f (DIR ++ [b]) = true;
  rs_saved : look f (DIR ++ [b; x]) = Some (Some c);
  rs_current : is_dir f (current x) = false;
  rs_previous : is_dir f (previous x) = false
}.

Lemma runs_restore b x c w :
  dirname <> [] -> isSafeBackupName b = true -> isAllowedFileName x = true -> restorable b x c (files w) ->
  runs (restoreFile dirname outcome time iso b x) w
    (fun r w' => r = Restored /\ restored x c (files w) (files w')).
Proof.
  intros Hne Hb Hx []. unfold restoreFile.
  apply (runs_bind _ _ _ _ (fun _ w' => w' = w)); [by apply runs_ensure|]. intros _ ? ->.
  pose proof (safe_name_plain _ Hb) as Pb. pose proof (allowed_plain _ Hx) as Px.
  rewrite Hb, Hx, !(path_resolve_plain _ x), (path_resolve_plain _ b) by done.
  rewrite !inside_snoc by (done || apply DIR_nonempty || apply snoc_neq). cbn [negb].
  apply (runs_bind _ _ _ _ (fun e w' => e = true /\ w' = w)).
  { apply runs_exists. split; [|done]. by apply is_dir_exists. }
  intros ? ? [-> ->]. cbn [negb]. rewrite <- !(app_assoc DIR [b] [x]). cbn [app].
  apply (runs_bind _ _ _ _ (fun e w' => e = true /\ w' = w)).
  { apply runs_exists. split; [|done]. rewrite exists_look, rs_saved0; [done|]. by destruct DIR. }
  intros ? ? [-> ->]. cbn [negb]. apply runs_try. apply allowed_in in Hx.
  apply (runs_bind _ _ _ _ (fun e w' => e = exists_path (files w) (current x) /\ w' = w)); [by apply runs_exists|].
  intros ? ? [-> ->]. rewrite parent_snoc, last_snoc. cbn [default].
  apply (runs_bind _ _ _ _ (fun _ w' =>
    (forall p, p <> previous x -> look (files w') p = look (files w) p) /\
    (forall c0, look (files w) (current x) = Some (Some c0) -> look (files w') (previous x) = Some (Some c0)))).
  { by apply runs_save_current. }
  intros _ w1 [K1 K2]. assert (forall y, dirname <> dirname ++ [y]) as Hd.
  { intros y E%(f_equal length). rewrite length_app in E. cbn in E. lia. }
  apply (runs_replace b x c).
  - done.
  - by rewrite (is_dir_same _ _ _ Hne (K1 _ (Hd _))).
  - destruct rs_log0 as [L1 L2]. pose proof (file_not_DIR x (js ".restore_backup") Hx). split.
    + rewrite (is_dir_same (files w)); [done|apply DIR_nonempty|]. by apply K1, not_eq_sym.
    + rewrite (is_dir_same (files w)); [done|apply LOG_nonempty|]. apply K1, not_eq_sym, short_not_LOG.
  - done.
  - rewrite K1; [done|]. apply not_eq_sym, short_not_deep.
  - rewrite (is_dir_same (files w)); [done|apply snoc_neq|]. apply K1, current_not_previous.
  - intros w2 R1 R2. split; [done|]. split; [done|]. intros c0 Hc.
    rewrite R2; [by apply K2|apply not_eq_sym, current_not_previous|apply short_not_LOG].
Qed.

(** Restore recovers.  With no failing call, restoring a script that a
    backup holds ends in success: the script has the saved bytes again, and the
    bytes it had before are in its [.restore_backup] copy. *)
Theorem restore_recovers b x c w :
  dirname <> [] -> isSafeBackupName b = true -> isAllowedFileName x = true -> restorable b x c (files w) ->
  let r := restoreFile dirname outcome time iso b x w in
  snd r = Ok Restored /\
  look (files (fst r)) (current x) = Some (Some c) /\
  forall c0, look (files w) (current x) = Some (Some c0) -> look (files (fst r)) (previous x) = Some (Some c0).
Proof.
  intros H1 H2 H3 H4. destruct (runs_restore b x c w H1 H2 H3 H4) as (r & E & -> & R1 & R2). done.
Qed.

(** ** The listing *)

(** What the manifest of a backup states, if it can be read. *)
Definition counts_of f (n : jstr) : option (jstr * jstr) :=
  match look f (DIR ++ [n; js "manifest.json"]) with Some (Some c) => shown_counts c | _ => None end.

Lemma runs_list_entry b w (Q : listed -> world -> Prop) :
  plain_name (fst b) ->
  (forall x w', l_name x = fst b -> l_time x = snd b -> l_counts x = counts_of (files w) (fst b) -> files w' = files w -> Q x w') ->
  runs (list_entry dirname outcome time b) w Q.
Proof.
  intros Hb HQ. unfold list_entry. rewrite (path_join_plain DIR), path_join_plain, <- app_assoc by (done || apply manifest_plain). cbn [app].
  apply (runs_bind _ _ _ _ (fun e w' => e = exists_path (files w) (DIR ++ [fst b; js "manifest.json"]) /\ w' = w)); [by apply runs_exists|].
  intros e ? [-> ->]. apply (runs_bind _ _ _ _ (fun i w' => i = counts_of (files w) (fst b) /\ files w' = files w)).
  - rewrite exists_look by by destruct DIR. unfold counts_of, look.
    destruct (files w !! _) as [[c t|t]|] eqn:Eq;
      [rewrite bool_decide_eq_true_2 by by eexists..|rewrite bool_decide_eq_false_2 by (by intros []); by apply runs_ret].
    all: unfold try_catch, mbind at 1, W_bind at 1, readFileSync, fs_call, runs; rewrite no_fault, Eq.
    2: by eexists.
    unfold shown_counts. cbn [fmap option_fmap option_map]. destruct (JSON_parse _ ≫= _) as [i|]; by eexists.
  - intros i w' [-> E]. by apply runs_ret, HQ.
Qed.

Abbreviation summary := (map (fun x => (l_name x, l_time x))).
Abbreviation states_counts f xs := (Forall (fun x => l_counts x = counts_of f (l_name x)) xs).

Lemma runs_list_entries l w (Q : list listed -> world -> Prop) :
  Forall (fun b => plain_name (fst b)) l ->
  (forall xs w', summary xs = l -> states_counts (files w) xs -> files w' = files w -> Q xs w') ->
  runs (list_entries dirname outcome time l) w Q.
Proof.
  intros Hl. revert w Q. induction Hl as [|[n t] l Hn _ IH]; intros w Q HQ; cbn [list_entries]; [by apply runs_ret, HQ|].
  apply (runs_bind _ _ _ _ (fun x w' => (l_name x, l_time x) = (n, t) /\ l_counts x = counts_of (files w) (l_name x) /\ files w' = files w)).
  { apply runs_list_entry; [done|]. intros x w' -> ->. done. }
  intros x w1 (Ex & Ec & E1). apply (runs_bind _ _ _ _ (fun xs w' => summary xs = l /\ states_counts (files w) xs /\ files w' = files w)).
  { apply IH. rewrite E1. done. }
  intros xs w2 (Exs & Hc & E2). apply runs_ret, HQ; [|by constructor|done]. cbn [map]. by rewrite Ex, Exs.
Qed.

(** The entries a listing shows: every name that starts like a backup's. *)
Definition listable f : list (jstr * Z) :=
  map (fun n => (n, mtime_at f (DIR ++ [n]))) (List.filter (starts_with (js "backup_")) (entries DIR f)).

Lemma runs_list w :
  loggable (files w) -> (forall n, n ∈ entries DIR (files w) -> plain_name n) ->
  runs (listBackups dirname outcome time order iso) w (fun r w' => exists shown l,
    r = Some shown /\ summary shown = sort_newest l /\ states_counts (files w) shown /\
    l ≡ₚ listable (files w) /\ files w' = files w).
Proof.
  intros Hl Hp. apply (runs_bind _ _ _ _ (fun _ w' => w' = w)); [by apply runs_ensure|]. intros _ ? ->.
  apply runs_try. destruct Hl as [Hd _].
  apply (runs_bind _ _ _ _ (fun names w' => names ≡ₚ entries DIR (files w) /\ files w' = files w)).
  { eapply runs_call; [by rewrite Hd|]. split; [apply order_perm|done]. }
  intros names w1 [Hn E1].
  assert (forall n, n ∈ List.filter (starts_with (js "backup_")) names -> plain_name n /\ is_Some (files w !! (DIR ++ [n]))) as Hnames.
  { intros n [Hin _]%list_elem_of_In%filter_In. apply list_elem_of_In in Hin. rewrite Hn in Hin.
    split; [by apply Hp|by apply elem_of_entries]. }
  apply (runs_bind _ _ _ _ (fun l w' => l ≡ₚ listable (files w) /\ Forall (fun b => plain_name (fst b)) l /\ files w' = files w)).
  { apply runs_stat_all; rewrite E1; [done|]. intros w' E. split_and!; [by apply Permutation_map, filter_perm| |done].
    apply Forall_map, list.Forall_forall. intros n Hin. by apply Hnames. }
  intros l w2 (Hp2 & Hpl & E2). apply (runs_bind _ _ _ _ (fun xs w' =>
    summary xs = sort_newest l /\ states_counts (files w) xs /\ files w' = files w)).
  { apply runs_list_entries; [by rewrite sort_newest_perm|]. by rewrite E2. }
  intros xs w3 (Hx & Hc & E3). apply runs_ret. by exists xs, l.
Qed.

(** The listing is complete, ordered and true.  With no failing call, whatever
    order the directory is read in and whatever the manifests contain (missing,
    unreadable or malformed ones included), [listBackups] shows every entry of
    the backup directory whose name starts with [backup_] exactly once, the
    newest first, each with the counts its manifest states if it can be read,
    and changes no file. *)
Theorem listing_newest_first w :
  loggable (files w) -> (forall n, n ∈ entries DIR (files w) -> plain_name n) ->
  exists shown w', listBackups dirname outcome time order iso w = (w', Ok (Some shown)) /\ files w' = files w /\
    summary shown ≡ₚ listable (files w) /\ states_counts (files w) shown /\
    StronglySorted (fun x y => l_time y <= l_time x) shown.
Proof.
  intros Hl Hp. destruct (runs_list w Hl Hp) as (r & E & shown & l & -> & Em & Hc & Hperm & Ef).
  exists shown, (fst (listBackups dirname outcome time order iso w)). rewrite <- E.
  split_and!; [by destruct (listBackups _ _ _ _ _ w)|done|by rewrite Em, sort_newest_perm|done|].
  pose proof (sort_newest_sorted l) as Hs. rewrite <- Em in Hs. exact (StronglySorted_map _ _ _ Hs).
Qed.

(** ** A backup *)

Lemma below_snoc_cases q d n : below q (d ++ [n]) = true -> q = d ++ [n] \/ below q d = true.
Proof.
  rewrite !below_spec. intros [r E]. destruct r as [|m r _] using rev_ind; [left; by rewrite app_nil_r in E|].
  right. rewrite app_assoc in E. apply app_inj_tail in E as [-> ->]. by exists r.
Qed.

Definition new_dir (d : path) (n : jstr) (now : Z) f : fs := <[d ++ [n] := Dir now]> (touch d now f).

Lemma look_new_dir d n now f q : q <> d ++ [n] -> look (new_dir d n now f) q = look f q.
Proof. intros H. unfold new_dir. by rewrite look_insert_ne, look_touch. Qed.

Lemma new_dir_other d n now f q : q <> d ++ [n] -> q <> d -> new_dir d n now f !! q = f !! q.
Proof. intros H1 H2. unfold new_dir, touch. rewrite lookup_insert_ne by done. by repeat case_match; rewrite ?lookup_insert_ne. Qed.

Lemma is_dir_new_dir d n now f q : is_dir f q = true \/ q = d ++ [n] -> is_dir (new_dir d n now f) q = true.
Proof.
  intros H. destruct (decide (q = [])) as [->|Hq]; [done|]. destruct (decide (q = d ++ [n])) as [->|Hn].
  - unfold is_dir, new_dir. rewrite lookup_insert_eq. by destruct (d ++ [n]).
  - destruct H as [H|]; [|done]. rewrite (is_dir_same f); [done..|]. by apply look_new_dir.
Qed.

Definition no_file_above f p : Prop := forall q c, q <> [] -> below q p = true -> look f q <> Some (Some c).

Lemma make_dirs_ok now d rest f :
  no_file_above f (d ++ rest) -> (forall q, below q d = true -> is_dir f q = true) ->
  exists f', make_dirs d rest now f = Some f' /\
    (forall q, below q (d ++ rest) = true -> is_dir f' q = true) /\
    (forall q, below q (d ++ rest) = false -> f' !! q = f !! q) /\
    (rest <> [] -> f !! (d ++ rest) = None -> f' !! (d ++ rest) = Some (Dir now)).
Proof.
  revert d f; induction rest as [|n rest IH]; intros d f Hc Hd; cbn [make_dirs].
  { exists f. rewrite app_nil_r. split_and!; [done..|by intros []]. }
  change (d ++ n :: rest) with (d ++ [n] ++ rest) in *. rewrite app_assoc in *.
  destruct (f !! (d ++ [n])) as [[c t|t]|] eqn:E.
  - destruct (Hc (d ++ [n]) c (snoc_neq _ _) (below_app _ _)). unfold look. by rewrite E.
  - destruct (IH (d ++ [n]) f Hc) as (f' & H1 & H2 & H3 & H4).
    { intros q [->|Hq]%below_snoc_cases; [|by apply Hd]. unfold is_dir. rewrite E. by destruct (d ++ [n]). }
    exists f'. split; [done|]. split; [done|]. split; [done|]. intros _ Hn. apply H4; [|done].
    intros ->. by rewrite app_nil_r, E in Hn.
  - change (<[d ++ [n] := Dir now]> (touch d now f)) with (new_dir d n now f).
    assert (no_file_above (new_dir d n now f) ((d ++ [n]) ++ rest)) as Hc'.
    { intros q c Hne Hq. destruct (decide (q = d ++ [n])) as [->|]; [|rewrite look_new_dir by done; by apply Hc].
      unfold look, new_dir. by rewrite lookup_insert_eq. }
    destruct (IH (d ++ [n]) _ Hc') as (f' & H1 & H2 & H3 & H4).
    { intros q [->|Hq]%below_snoc_cases; apply is_dir_new_dir; auto. }
    assert (forall q, below q ((d ++ [n]) ++ rest) = false -> new_dir d n now f !! q = f !! q) as Ho.
    { intros q Hq. apply new_dir_other; intros ->; [by rewrite below_app in Hq|].
      by rewrite <- app_assoc, below_app in Hq. }
    exists f'. split; [done|]. split; [done|]. split; [intros q Hq; rewrite H3; auto|].
    intros _ Hn. destruct rest as [|m rest]; [|apply H4; [done|]].
    + injection H1 as <-. rewrite app_nil_r. unfold new_dir. by rewrite lookup_insert_eq.
    + rewrite new_dir_other; [done|..]; intros X%(f_equal length); rewrite !length_app in X; cbn in X; lia.
Qed.

Section Backup_run.
Variable now : date.
Hypothesis now_valid : valid_date now.
Variable f0 : fs.

Abbreviation NAME := (js "backup_" ++ getTimestamp now).
Abbreviation NEW := (DIR ++ [NAME]).

(** Before the backup: the way to the backup directory is free, no backup has its
    name, and every other backup is older than the clock. *)
Record ready f : Prop := {
  rd_free : no_file_above f DIR;
  rd_log : is_dir f LOG = false;
  rd_fresh : forall p, below NEW p = true -> f !! p = None;
  rd_older : forall n k, n <> NAME -> isSafeBackupName n = true -> is_Some (f !! (DIR ++ [n])) ->
             mtime_at f (DIR ++ [n]) < time k
}.

(** While it runs, with the scripts of [names] saved. *)
Record saving (names : list jstr) f : Prop := {
  sv_log : loggable f;
  sv_new : exists k, f !! NEW = Some (Dir (time k));
  sv_outside : forall p, outside dirname p -> look f p = look f0 p;
  sv_others : forall n, n <> NAME -> isSafeBackupName n = true -> f !! (DIR ++ [n]) = f0 !! (DIR ++ [n]);
  sv_flat : forall n, is_dir f (NEW ++ [n]) = false;
  sv_saved : forall x c, x ∈ names -> look f0 (current x) = Some (Some c) -> look f (NEW ++ [x]) = Some (Some c)
}.

Lemma NAME_safe : isSafeBackupName NAME = true.
Proof. by apply timestamp_safe. Qed.

Lemma safe_not_log n : isSafeBackupName n = true -> DIR ++ [n] <> LOG.
Proof. intros Hn E. pose proof (log_not_below n Hn) as H. by rewrite <- E, below_refl in H. Qed.

Lemma deep_neq (n m : jstr) (r : list jstr) : r <> [] -> DIR ++ [n] <> DIR ++ [m] ++ r.
Proof. intros Hr E%app_inv_head. by destruct r. Qed.

Lemma NEW_file_not_log n : NEW ++ [n] <> LOG.
Proof. rewrite log_file_eq, <- app_assoc. apply not_eq_sym, deep_neq. done. Qed.

Lemma DIR_not_under (r : list jstr) : r <> [] -> DIR ++ r <> DIR.
Proof. intros Hr E%(f_equal length). rewrite length_app in E. destruct r; [done|cbn in E; lia]. Qed.

Lemma saving_logged names f f' : saving names f -> logged f f' -> saving names f'.
Proof.
  intros [] (L1 & L2 & L3). pose proof NAME_safe as Hn. split.
  - done.
  - rewrite L3; [done|by apply safe_not_log|by apply DIR_not_under].
  - intros p Hp. rewrite L2; [by apply sv_outside0|]. intros ->. by apply not_outside_log in Hp.
  - intros n H1 H2. rewrite L3; [by apply sv_others0|by apply safe_not_log|by apply DIR_not_under].
  - intros n. rewrite (is_dir_same f); [done|apply snoc_neq|]. apply L2, NEW_file_not_log.
  - intros x c Hx Hc. rewrite L2 by apply NEW_file_not_log. by apply sv_saved0.
Qed.

Lemma put_parent p n c k f : (exists k, f !! p = Some (Dir (time k))) ->
  exists k', put_file (p ++ [n]) c (time k) f !! p = Some (Dir (time k')).
Proof.
  intros [k0 Hk]. unfold put_file, touch. rewrite parent_snoc.
  assert (p ++ [n] <> p) as Hne by (intros E%(f_equal length); rewrite length_app in E; cbn in E; lia).
  rewrite lookup_insert_ne, Hk by done.
  case_match; [exists k0; by rewrite lookup_insert_ne|exists k; by rewrite lookup_insert_eq].
Qed.

Lemma saving_put names x c k f :
  (forall c', look f0 (current x) = Some (Some c') -> x ∈ names -> c' = c) ->
  saving names f -> saving names (put_file (NEW ++ [x]) c (time k) f).
Proof.
  intros Hc S. pose proof S as []. pose proof NAME_safe as Hn.
  pose proof (placed_put (NEW ++ [x]) c (time k) f (snoc_neq _ _)) as P. pose proof P as (P1 & P2 & P3).
  rewrite parent_snoc in P3. assert (forall n, DIR ++ [n] <> NEW ++ [x]) as Hd.
  { intros n. rewrite <- app_assoc. by apply deep_neq. }
  split.
  - refine (loggable_placed _ _ _ _ (NEW_file_not_log x) _ P sv_log0). rewrite <- app_assoc. by apply DIR_not_under.
  - by apply put_parent.
  - intros p Hp. rewrite P2; [by apply sv_outside0|]. intros ->. revert Hp. apply not_outside.
    rewrite <- app_assoc. apply below_app.
  - intros n H1 H2. rewrite P3; [by apply sv_others0|done|]. intros E%app_inv_head. by injection E.
  - intros n. destruct (decide (n = x)) as [->|Hx]; [by rewrite is_dir_look, P1 by apply snoc_neq|].
    rewrite (is_dir_same f); [done|apply snoc_neq|]. apply P2. intros E%app_inv_head. by injection E.
  - intros y c' Hy Hc'. destruct (decide (y = x)) as [->|Hx]; [by rewrite P1, (Hc c')|].
    rewrite P2; [by apply sv_saved0|]. intros E%app_inv_head. by injection E.
Qed.

Lemma runs_catch {A} (m : W A) h w e w1 Q : m w = (w1, Throw e) -> runs (h e) w1 Q -> runs (try_catch m h) w Q.
Proof. intros E (a & H1 & H2). exists a. unfold try_catch. by rewrite E. Qed.

Lemma runs_log_saving names msg w Q :
  saving names (files w) -> (forall w', saving names (files w') -> Q tt w') ->
  runs (log dirname outcome time iso msg) w Q.
Proof. intros S HQ. apply runs_log; [apply S|]. intros w' L. apply HQ. by eapply saving_logged. Qed.

Lemma saving_more x names f :
  (forall c, look f0 (current x) = Some (Some c) -> look f (NEW ++ [x]) = Some (Some c)) ->
  saving names f -> saving (x :: names) f.
Proof. intros H []. split; try done. intros y c [->|Hy]%elem_of_cons; [apply H|by apply sv_saved0]. Qed.

Lemma file_outside x : x ∈ filesToBackup -> outside dirname (current x).
Proof.
  intros Hx. assert (js "backups" <> x) as Hne.
  { intros <-. unfold filesToBackup in Hx. rewrite list_elem_of_In in Hx. by destruct Hx as [E|[E|[E|[E|[]]]]]. }
  split; apply not_true_is_false; rewrite BACKUP_DIR_eq; intros E%below_snoc; done.
Qed.

Lemma saving_copied names x c k f :
  look f0 (current x) = Some (Some c) -> saving names f ->
  saving (x :: names) (put_file (NEW ++ [x]) c (time k) f).
Proof.
  intros H S. apply saving_more; [|apply saving_put; [|done]; intros c' H' _; congruence].
  intros c' H'. rewrite look_put by apply snoc_neq. congruence.
Qed.

(** What the two counters gain on a script: a file is saved, anything else that
    exists fails. *)
Definition gain x (counts : Z * Z) : Z * Z :=
  match look f0 (current x) with
  | Some (Some _) => (fst counts + 1, snd counts)
  | Some None => (fst counts, snd counts + 1)
  | None => counts
  end.

(** One turn of the loop. *)
Lemma runs_copy_one names x ok bad w :
  x ∈ filesToBackup -> saving names (files w) -> is_Some (look f0 (current x)) ->
  runs (try_catch
          (mbind (MBind := W_bind) (fun _ => mbind (MBind := W_bind) (fun st => mbind (MBind := W_bind)
             (fun _ => mret (MRet := W_ret) (ok + 1, bad))
             (log dirname outcome time iso (js "Backed up: " ++ x ++ js " (" ++ dec_string (snd st) ++ js " bytes)")))
             (statSync outcome time (current x)))
             (copyFileSync outcome time (current x) (NEW ++ [x])))
          (fun e => mbind (MBind := W_bind) (fun _ => mret (MRet := W_ret) (ok, bad + 1))
             (log dirname outcome time iso (js "Failed to backup " ++ x ++ js ": " ++ message e)))) w
    (fun r w' => saving (x :: names) (files w') /\ r = gain x (ok, bad)).
Proof.
  intros Hx S Hsome. unfold gain. pose proof (sv_outside _ _ S _ (file_outside x Hx)) as Es.
  destruct (look f0 (current x)) as [[c|]|] eqn:E0.
  3: by destruct Hsome.
  2: { eapply runs_catch.
    - unfold mbind, W_bind, copyFileSync, fs_call. rewrite no_fault. unfold look in Es.
      by destruct (files w !! current x) as [[]|].
    - apply (runs_bind _ _ _ _ (fun _ w' => saving (x :: names) (files w'))); [|intros; by apply runs_ret].
      apply (runs_log_saving (x :: names)); [|done]. apply saving_more; [by rewrite E0|done]. }
  apply runs_try. apply (runs_bind _ _ _ _ (fun _ w' => saving (x :: names) (files w') /\ look (files w') (current x) = Some (Some c))).
  { pose proof Es as [t Ht]%look_file. destruct (sv_new _ _ S) as [k Hk]. eapply runs_call.
    - cbn beta. unfold writable_at. rewrite Ht, parent_snoc, (sv_flat _ _ S).
      replace (is_dir _ NEW) with true; [done|]. rewrite is_dir_look by apply snoc_neq. unfold look. by rewrite Hk.
    - cbn [files]. assert (saving (x :: names) (put_file (NEW ++ [x]) c (time (ops w)) (files w))) as S'
        by by apply saving_copied.
      split; [done|]. rewrite <- E0. by apply (sv_outside _ _ S'), file_outside. }
  intros _ w1 [S1 [t Ht]%look_file].
  apply (runs_bind _ _ _ _ (fun _ w' => files w' = files w1)); [eapply runs_call; [by rewrite Ht|done]|].
  intros st w2 E2. apply (runs_bind _ _ _ _ (fun _ w' => saving (x :: names) (files w'))).
  { apply (runs_log_saving (x :: names)); [by rewrite E2|done]. }
  intros _ w3 S3. by apply runs_ret.
Qed.

Lemma runs_copy_all todo names ok bad w :
  (forall x, x ∈ todo -> x ∈ filesToBackup) -> saving names (files w) ->
  runs (copy_all dirname outcome time iso message NEW todo ok bad) w
    (fun r w' => r = foldl (fun counts x => gain x counts) (ok, bad) todo /\
       exists names', (forall x, x ∈ names' <-> x ∈ todo \/ x ∈ names) /\ saving names' (files w')).
Proof.
  revert names ok bad w. induction todo as [|x todo IH]; intros names ok bad w Ht S; cbn [copy_all].
  { apply runs_ret. split; [done|]. exists names. split; [|done]. intros x. rewrite elem_of_nil. tauto. }
  assert (x ∈ filesToBackup) as Hx by (apply Ht; by left).
  assert (plain_name x) as Hp by (pose proof files_plain as Hf; rewrite list.Forall_forall in Hf; by apply Hf).
  rewrite !(path_join_plain _ x) by done.
  apply (runs_bind _ _ _ _ (fun e w' => e = exists_path (files w) (current x) /\ w' = w)); [by apply runs_exists|].
  pose proof (sv_outside _ _ S _ (file_outside x Hx)) as Ex.
  intros ? ? [-> ->]. apply (runs_bind _ _ _ _ (fun r w' => saving (x :: names) (files w') /\ r = gain x (ok, bad))).
  - rewrite exists_look by apply snoc_neq. rewrite Ex. case_bool_decide as He; [by apply runs_copy_one|].
    apply eq_None_not_Some in He. unfold gain. rewrite He.
    apply (runs_bind _ _ _ _ (fun _ w' => saving (x :: names) (files w'))); [|intros; by apply runs_ret].
    apply (runs_log_saving (x :: names)); [|done]. apply saving_more; [by rewrite He|done].
  - intros r w1 [S1 ->]. destruct (IH _ (fst (gain x (ok, bad))) (snd (gain x (ok, bad))) w1
      (fun y Hy => Ht y (list_elem_of_further _ _ _ Hy)) S1) as (a & Ha & Ea & names' & Hn & S').
    exists a. split; [done|]. rewrite <- surjective_pairing in Ea. split; [done|]. exists names'. split; [|done].
    intros y. rewrite Hn, !elem_of_cons. tauto.
Qed.

Lemma under_not_above (r : list jstr) : r <> [] -> below (DIR ++ r) DIR = false.
Proof.
  intros Hr. apply not_true_is_false. intros [r' H]%below_spec. rewrite <- app_assoc in H. symmetry in H.
  apply DIR_not_under in H; [done|]. by destruct r.
Qed.

Lemma log_not_above : below LOG DIR = false.
Proof. rewrite log_file_eq. by apply under_not_above. Qed.

(** The backup directory is there. *)
Definition started f : Prop :=
  loggable f /\ no_file_above f DIR /\ forall q, below q DIR = false -> q <> LOG -> f !! q = f0 !! q.

Lemma runs_start w :
  files w = f0 -> ready f0 ->
  runs (ensureBackupDir dirname outcome time iso) w
    (fun _ w' => started (files w')).
Proof.
  intros E0 []. unfold ensureBackupDir.
  apply (runs_bind _ _ _ _ (fun e w' => e = exists_path f0 DIR /\ w' = w)); [by apply runs_exists; rewrite E0|].
  intros ? ? [-> ->]. destruct (exists_path f0 DIR) eqn:E.
  - apply runs_ret. rewrite E0. split; [split; [|done]|done]. rewrite exists_look, is_dir_look in * by apply DIR_nonempty.
    pose proof (rd_free0 DIR) as Hf. destruct (look f0 DIR) as [[c|]|]; [|done..]. by destruct (Hf c DIR_nonempty (below_refl _)).
  - destruct (make_dirs_ok (time (ops w)) [] DIR f0) as (f1 & M1 & M2 & M3 & _); [done| |].
    { intros q Hq. apply below_spec in Hq as [r Hr]. by destruct q. }
    assert (forall q, below q DIR = false -> f1 !! q = f0 !! q) as M4 by done.
    apply (runs_bind _ _ _ _ (fun _ w' => files w' = f1)); [eapply runs_call; [by rewrite E0, M1|done]|].
    intros _ w1 E1. apply runs_log.
    + rewrite E1. split; [apply M2, below_refl|]. rewrite (is_dir_same f0); [done|apply LOG_nonempty|].
      unfold look. by rewrite M4 by apply log_not_above.
    + intros w2 (L1 & L2 & L3). split; [done|]. split.
      * intros q c Hne Hq Hl. rewrite L2, E1 in Hl.
        { pose proof (M2 q Hq) as Hd. rewrite is_dir_look, Hl in Hd by done. done. }
        intros ->. rewrite log_not_above in Hq. done.
      * intros q Hq Hl. rewrite L3, E1; [by apply M4|done|]. intros ->. by rewrite below_refl in Hq.
Qed.

Lemma runs_new w :
  ready f0 -> started (files w) ->
  runs (mkdirSync outcome time NEW) w (fun _ w' => saving [] (files w')).
Proof.
  intros [] (S1 & S2 & S3). pose proof (safe_not_log _ NAME_safe) as Hl.
  assert (forall p, below NEW p = true -> files w !! p = None) as Hnone.
  { intros p Hp. pose proof Hp as [r ->]%below_spec. rewrite S3; [by apply rd_fresh0|..].
    - rewrite <- app_assoc. by apply under_not_above.
    - intros E. rewrite E in Hp. rewrite log_not_below in Hp; [done|]. apply NAME_safe. }
  destruct (make_dirs_ok (time (ops w)) [] NEW (files w)) as (f1 & M1 & M2 & M3 & M4).
  { intros q c Hne [->|Hq]%below_snoc_cases; [|by apply S2]. unfold look. by rewrite Hnone by apply below_refl. }
  { intros q Hq. apply below_spec in Hq as [r Hr]. by destruct q. }
  cbn [app] in M2, M3, M4. eapply runs_call; [by rewrite M1|]. cbn [files].
  assert (forall q, below q DIR = false -> q <> NEW -> below q NEW = false) as Hb.
  { intros q H1 H2. apply not_true_is_false. intros [|]%below_snoc_cases; congruence. }
  split.
  - split; [apply M2, below_app|]. rewrite (is_dir_same (files w)); [apply S1|apply LOG_nonempty|].
    unfold look. by rewrite M3 by (apply Hb; [apply log_not_above|by apply not_eq_sym]).
  - exists (ops w). apply M4; [apply snoc_neq|]. apply Hnone, below_refl.
  - intros p [H1 H2]. assert (p <> NEW) by (intros ->; by rewrite below_app in H2). unfold look.
    rewrite M3 by (by apply Hb). rewrite S3; [done..|]. intros ->. by apply not_outside_log with (dirname := dirname).
  - intros n H1 H2. assert (DIR ++ [n] <> NEW) by (intros E%app_inv_head; by injection E).
    rewrite M3 by (apply Hb; [by apply under_not_above|done]). apply S3; [by apply under_not_above|by apply safe_not_log].
  - intros n. rewrite is_dir_look by apply snoc_neq. unfold look. rewrite M3; [by rewrite Hnone by apply below_app|].
    rewrite <- app_assoc. apply Hb; [by apply under_not_above|]. apply not_eq_sym. by apply deep_neq.
  - by intros x c []%elem_of_nil.
Qed.

Lemma older_dropped names f f' kept dropped :
  ready f0 -> saving names f -> clean_post f f' kept dropped -> forall b, b ∈ dropped -> fst b <> NAME.
Proof.
  intros [] [] (C1 & C2 & C3 & _) [n t] Hb E. cbn [fst] in E. subst n. destruct sv_new0 as [k Hk].
  assert (forall a, a ∈ kept ++ dropped -> isSafeBackupName (fst a) = true /\ is_Some (f !! (DIR ++ [fst a])) /\
            snd a = mtime_at f (DIR ++ [fst a])) as Hall.
  { intros a Ha. rewrite C1 in Ha. pose proof (backups_of_safe _ _ _ Ha) as [H1 H2%elem_of_entries]. split_and!; [done..|].
    unfold backups_of in Ha. rewrite list_elem_of_In, in_map_iff in Ha. by destruct Ha as (m & <- & _). }
  assert (NoDup (map fst (kept ++ dropped))) as Hnd.
  { rewrite C1. unfold backups_of. rewrite map_map, map_id. apply NoDup_ListNoDup, List.NoDup_filter, NoDup_ListNoDup, NoDup_entries. }
  rewrite <- C1, length_app in C2. assert (0 < length dropped)%nat by (destruct dropped; [by apply elem_of_nil in Hb|cbn; lia]).
  destruct kept as [|[m s] kept]; [unfold KEEP_BACKUPS in C2; cbn [length] in C2; lia|].
  pose proof (C3 (m, s) (NAME, t) ltac:(by left) Hb) as Hle. cbn [snd] in Hle.
  destruct (Hall (m, s)) as (A1 & A2 & A3); [by left|]. destruct (Hall (NAME, t)) as (_ & _ & B3); [apply elem_of_app; by right|].
  cbn [fst snd] in *. assert (m <> NAME) as Hm.
  { intros ->. rewrite map_app in Hnd. apply NoDup_cons in Hnd as [Hnd _]. apply Hnd, elem_of_app. right.
    by apply (list_elem_of_fmap_2 fst _ (NAME, t)). }
  unfold mtime_at at 1 in B3. rewrite Hk in B3. rewrite sv_others0 in A2 by done. pose proof (rd_older0 m k Hm A1 A2) as Hold.
  unfold mtime_at in A3, Hold. rewrite sv_others0 in A3 by done. lia.
Qed.

(** The counters of a whole backup. *)
Definition tally : Z * Z := foldl (fun counts x => gain x counts) (0, 0) filesToBackup.

(** The manifest's bytes, with [f] the files when it is made. *)
Definition manifest_bytes f : bytes :=
  utf8_encode (default [] (stringify2 0 (manifest dirname (getTimestamp now) NEW (fst tally) (snd tally) f))).

(** After it: the scripts that were there are in the new backup, and the manifest. *)
Definition saved_all f : Prop :=
  loggable f /\ is_dir f NEW = true /\
  (forall x c, x ∈ filesToBackup -> look f0 (current x) = Some (Some c) -> look f (NEW ++ [x]) = Some (Some c)) /\
  exists f1, look f (NEW ++ [js "manifest.json"]) = Some (Some (manifest_bytes f1)).

(** Nothing in the new backup is cleaned up. *)
Lemma new_survives names f f' kept dropped r :
  ready f0 -> saving names f -> clean_post f f' kept dropped -> NEW ++ r <> LOG -> look f' (NEW ++ r) = look f (NEW ++ r).
Proof.
  intros Hr S C Hl. pose proof (older_dropped _ _ _ _ _ Hr S C) as Hd. destruct C as (_ & _ & _ & (C4 & _) & _).
  rewrite C4 by done. destruct (existsb _ dropped) eqn:E; [|done].
  apply existsb_exists in E as ([m t] & Hin%list_elem_of_In & [r' E]%below_spec). destruct (Hd _ Hin). cbn [fst] in *.
  rewrite <- !app_assoc in E. apply app_inv_head in E. by injection E.
Qed.

Lemma saved_survive names f f1 f' kept dropped :
  (forall x, x ∈ filesToBackup -> x ∈ names) -> ready f0 -> saving names f ->
  look f (NEW ++ [js "manifest.json"]) = Some (Some (manifest_bytes f1)) -> clean_post f f' kept dropped -> saved_all f'.
Proof.
  intros Hn Hr S Hm C. pose proof (fun r => new_survives _ _ _ _ _ r Hr S C) as Hsame. destruct C as (_ & _ & _ & (_ & C5) & _).
  destruct S. split; [done|]. split; [|split].
  - rewrite (is_dir_same f); [|apply snoc_neq|].
    + destruct sv_new0 as [k Hk]. rewrite is_dir_look by apply snoc_neq. unfold look. by rewrite Hk.
    + specialize (Hsame []). rewrite app_nil_r in Hsame. apply Hsame. apply safe_not_log, NAME_safe.
  - intros x c Hx Hc. rewrite Hsame by apply NEW_file_not_log. apply sv_saved0; auto.
  - exists f1. by rewrite Hsame by apply NEW_file_not_log.
Qed.

Lemma runs_manifest names data w :
  (forall x, x ∈ names -> x ∈ filesToBackup) -> saving names (files w) ->
  runs (writeFileSync outcome time (NEW ++ [js "manifest.json"]) data) w
    (fun _ w' => saving names (files w') /\ look (files w') (NEW ++ [js "manifest.json"]) = Some (Some data)).
Proof.
  intros Hn S. destruct (sv_new _ _ S) as [k Hk]. eapply runs_call.
  - cbn beta. unfold writable_at. rewrite parent_snoc, (sv_flat _ _ S).
    replace (is_dir _ NEW) with true; [done|]. rewrite is_dir_look by apply snoc_neq. unfold look. by rewrite Hk.
  - split; [|apply look_put, snoc_neq].
    apply saving_put; [|done]. intros c' _ Hm%Hn. unfold filesToBackup in Hm. rewrite list_elem_of_In in Hm.
    by destruct Hm as [E|[E|[E|[E|[]]]]].
Qed.

Lemma runs_backup w :
  files w = f0 -> ready f0 ->
  runs (performBackup dirname outcome time order iso message now) w
    (fun r w' => r = Some NEW /\ saved_all (files w')).
Proof.
  intros E0 Hr. unfold performBackup. rewrite (path_join_plain DIR) by apply safe_name_plain, NAME_safe.
  rewrite (path_join_plain _ (js "manifest.json")) by apply manifest_plain.
  eapply runs_bind; [by apply runs_start|]. intros ? w1 S1. apply runs_try.
  eapply runs_bind; [by apply runs_new|]. intros ? w2 S2.
  apply (runs_bind _ _ _ _ (fun _ w' => saving [] (files w'))); [by apply (runs_log_saving [])|]. intros ? w3 S3.
  eapply runs_bind; [by apply (runs_copy_all filesToBackup [])|]. intros counts w4 (-> & names & Hn & S4).
  assert (forall x, x ∈ names <-> x ∈ filesToBackup) as Hn' by (intros x; rewrite Hn, elem_of_nil; tauto).
  apply (runs_bind _ _ _ _ (fun f w' => w' = w4)); [by exists (files w4)|]. intros f1 ? ->. fold tally.
  eapply runs_bind; [apply (runs_manifest names); [by apply Hn'|done]|]. intros ? w5 [S5 M5]. fold (manifest_bytes f1) in M5.
  apply (runs_bind _ _ _ _ (fun _ w' => saving names (files w') /\
    look (files w') (NEW ++ [js "manifest.json"]) = Some (Some (manifest_bytes f1)))).
  { apply runs_log; [apply S5|]. intros w6 L. split; [by eapply saving_logged|]. by rewrite (proj1 (proj2 L)) by apply NEW_file_not_log. }
  intros ? w6 [S6 M6].
  apply (runs_bind _ _ _ _ (fun _ w' => saved_all (files w'))); [|intros ? w7 S7; by apply runs_ret].
  apply runs_clean; [apply S6|]. intros w7 kept dropped C. eapply saved_survive; [|done..]. by apply Hn'.
Qed.

(** It stays so as long as the backup directory is left alone. *)
Lemma saved_later f f' : saved_all f -> (forall q, below DIR q = true -> look f' q = look f q) -> saved_all f'.
Proof.
  intros ((L1 & L2) & N & S & f1 & M) Hsame. unfold saved_all, loggable.
  rewrite !is_dir_look in * by (apply DIR_nonempty || apply LOG_nonempty || apply snoc_neq).
  rewrite !Hsame by (apply below_refl || apply below_app || (rewrite log_file_eq; apply below_app)).
  split; [done|]. split; [done|]. split; [intros x c Hx Hc|exists f1]; rewrite Hsame by (rewrite <- app_assoc; apply below_app); auto.
Qed.

(** The scripts that are files. *)
Definition is_script x : bool := match look f0 (current x) with Some (Some _) => true | _ => false end.

Definition saved_count : Z :=
  Z.of_nat (length (List.filter is_script filesToBackup)).

Lemma tally_spec : fst tally = saved_count /\ 0 <= snd tally <= 4.
Proof.
  unfold tally, saved_count.
  assert (forall l counts, let r := foldl (fun counts x => gain x counts) counts l in
    fst r = fst counts + Z.of_nat (length (List.filter is_script l)) /\
    snd counts <= snd r <= snd counts + Z.of_nat (length l)) as H.
  { induction l as [|x l IH]; intros counts; cbn [foldl List.filter length]; [lia|].
    specialize (IH (gain x counts)). cbv zeta in *. destruct IH as [I1 I2]. unfold gain, is_script in I1, I2 |- *.
    destruct (look f0 (current x)) as [[c|]|]; cbn [fst snd length] in *; lia. }
  destruct (H filesToBackup (0, 0)) as [H1 H2]. cbn [fst snd] in H1, H2. split; [lia|]. exact H2.
Qed.

Lemma saved_count_range : 0 <= saved_count <= 4.
Proof.
  unfold saved_count. pose proof (List.filter_length_le is_script filesToBackup).
  change (length filesToBackup) with 4%nat in *. lia.
Qed.

Lemma timestamp_utf16 : utf16_str (getTimestamp now).
Proof.
  assert (forall n, 0 <= n -> utf16_str (pad2 n)) as Hp.
  { intros n Hn. apply Forall_app; split; [apply Forall_replicate; lia|by apply dec_utf16]. }
  destruct now_valid as (H1 & H2 & H3 & H4 & H5 & H6).
  unfold getTimestamp. rewrite !Forall_app.
  split_and!; [apply dec_utf16; lia|apply Hp; lia|apply Hp; lia|repeat constructor; lia|apply Hp; lia..].
Qed.

Lemma manifest_bytes_shown f : shown_counts (manifest_bytes f) = Some (dec_string saved_count, js "4").
Proof.
  destruct tally_spec as [<- H2]. pose proof saved_count_range as H1. unfold manifest_bytes.
  rewrite <- (proj1 tally_spec) in H1. apply manifest_shown; [apply timestamp_utf16|lia|lia].
Qed.

End Backup_run.

(** C11. Backup and restore round trip.  Assume that no file-system call fails,
    that the script is not in the root directory and the year has four digits,
    and that at the start ([ready]) no file stands in the way of the backup
    directory and no directory in the place of its log, nothing has the new
    backup's name, and every other well-named backup is older than every reading
    of the clock.  Then the backup succeeds and survives its own
    cleanup.  Whatever happens afterwards, as long as the backup directory is
    left alone and the script's directory is still there with no directory in
    place of the script or its [.restore_backup] copy, restoring any of the four
    scripts from that backup succeeds and brings back the bytes it had when the
    backup was made. *)
Theorem backup_restore_roundtrip now w w2 x c :
  dirname <> [] -> valid_date now -> ready now (files w) ->
  isAllowedFileName x = true -> look (files w) (current x) = Some (Some c) ->
  let b := performBackup dirname outcome time order iso message now w in
  (forall q, below DIR q = true -> look (files w2) q = look (files (fst b)) q) ->
  is_dir (files w2) dirname = true -> is_dir (files w2) (current x) = false -> is_dir (files w2) (previous x) = false ->
  let r := restoreFile dirname outcome time iso (js "backup_" ++ getTimestamp now) x w2 in
  snd b = Ok (Some (DIR ++ [js "backup_" ++ getTimestamp now])) /\
  snd r = Ok Restored /\ look (files (fst r)) (current x) = Some (Some c).
Proof.
  intros Hd Hnow Hr Hx Hc b Hsame H1 H2 H3 r.
  destruct (runs_backup now Hnow (files w) w eq_refl Hr) as (res & Eb & -> & Hall). split; [exact Eb|].
  apply saved_later with (f' := files w2) in Hall; [|done]. destruct Hall as (L & N & S & _).
  destruct (runs_restore (js "backup_" ++ getTimestamp now) x c w2) as (res & Er & -> & R & _);
    [done|by apply timestamp_safe|done| |by split].
  split; try done. specialize (S x c (allowed_in _ Hx) Hc). by rewrite <- app_assoc in S.
Qed.

(** C30. A backup is listed.  Assume that no file-system call fails, that the year
    has four digits and entries have ordinary names (one path segment), and that
    the state at the start is [ready] (no file stands in the way of the backup
    directory and no directory in the place of its log, nothing has the new
    backup's name, and every other well-named backup is older than every reading
    of the clock).  Then after a backup,
    and whatever happens elsewhere as long as the backup directory is left alone,
    the listing shows the new backup with the number of scripts it saved: the
    manifest that [performBackup] writes as indented JSON in UTF-8 is read back
    by [listBackups] as it was meant. *)
Theorem backup_is_listed now w w2 :
  valid_date now -> ready now (files w) ->
  let b := performBackup dirname outcome time order iso message now w in
  (forall q, below DIR q = true -> look (files w2) q = look (files (fst b)) q) ->
  (forall n, n ∈ entries DIR (files w2) -> plain_name n) ->
  exists shown w' x, listBackups dirname outcome time order iso w2 = (w', Ok (Some shown)) /\ x ∈ shown /\
    l_name x = js "backup_" ++ getTimestamp now /\ l_counts x = Some (dec_string (saved_count (files w)), js "4").
Proof.
  intros Hnow Hr b Hsame Hp. destruct (runs_backup now Hnow (files w) w eq_refl Hr) as (res & Eb & -> & Hall).
  apply saved_later with (f' := files w2) in Hall; [|done]. destruct Hall as (L & N & _ & f1 & M).
  destruct (runs_list w2 L Hp) as (r & E & shown & l & -> & Em & Hc & Hperm & Ef).
  set (name := js "backup_" ++ getTimestamp now) in *.
  assert ((name, mtime_at (files w2) (DIR ++ [name])) ∈ summary shown) as Hin.
  { rewrite Em, sort_newest_perm, Hperm. apply list_elem_of_In, in_map_iff. exists name. split; [done|].
    apply filter_In. split; [|done]. apply list_elem_of_In, elem_of_entries.
    rewrite is_dir_look in N by apply snoc_neq. apply bool_decide_eq_true in N. unfold look in N.
    by destruct (files w2 !! _). }
  apply list_elem_of_In, in_map_iff in Hin as (x & Ex & Hin%list_elem_of_In). injection Ex as Ex _.
  exists shown, (fst (listBackups dirname outcome time order iso w2)), x. rewrite <- E.
  split; [by destruct (listBackups _ _ _ _ _ w2)|]. split; [done|]. split; [done|].
  rewrite list.Forall_forall in Hc. rewrite (Hc x Hin), Ex. unfold counts_of. rewrite <- app_assoc in M. cbn [app] in M. rewrite M.
  by apply manifest_bytes_shown.
Qed.

End Recovery.

(** ** Witnesses *)

(** Twelve backups of different ages beside the one of [ex_fs]. *)
Definition ex_day (i : Z) : jstr := js "backup_20260701_1200" ++ pad2 i.

Definition ex_many : fs :=
  foldr (fun i f => <[ex_dir ++ [js "backups"; ex_day i] := Dir i]> f) ex_fs [1; 2; 3; 4; 5; 6; 7; 8; 9; 10; 11; 12].

Lemma id_perm (l : list jstr) : id l ≡ₚ l.
Proof. done. Qed.

Lemma clean_keeps_newest_witness :
  loggable ex_dir ex_many /\
  exists kept dropped,
    clean_post ex_dir id ex_many
      (files (fst (cleanOldBackups ex_dir fine Z.of_nat id (fun _ => []) (fun _ => []) {| files := ex_many; ops := 0 |})))
      kept dropped.
Proof.
  assert (loggable ex_dir ex_many) as H by (split; vm_compute; reflexivity). split; [exact H|].
  exact (clean_keeps_newest ex_dir fine Z.of_nat id (fun _ => []) (fun _ => []) (fun _ => eq_refl) id_perm
           {| files := ex_many; ops := 0 |} H).
Defined.

Lemma listing_newest_first_witness :
  exists shown w', listBackups ex_dir fine Z.of_nat id (fun _ => []) ex_world = (w', Ok (Some shown)) /\
    map (fun x => (l_name x, l_time x)) shown ≡ₚ [(ex_backup, 0)].
Proof.
  destruct (listing_newest_first ex_dir fine Z.of_nat id (fun _ => []) (fun _ => eq_refl) id_perm ex_world)
    as (shown & w' & E & _ & H & _).
  - split; vm_compute; reflexivity.
  - assert (entries (BACKUP_DIR ex_dir) (files ex_world) = [ex_backup]) as -> by (vm_compute; reflexivity).
    intros n ->%list_elem_of_singleton. by apply safe_name_plain.
  - exists shown, w'. split; [exact E|]. rewrite H. vm_compute. reflexivity.
Defined.

Lemma restore_recovers_witness :
  let r := restoreFile ex_dir fine Z.of_nat (fun _ => []) ex_backup ex_script ex_world in
  snd r = Ok Restored /\ look (files (fst r)) (ex_dir ++ [ex_script]) = Some (Some [7]).
Proof.
  assert (restorable ex_dir ex_backup ex_script [7] (files ex_world)) as H by (repeat split; vm_compute; reflexivity).
  destruct (restore_recovers ex_dir fine Z.of_nat (fun _ => []) (fun _ => eq_refl) ex_backup ex_script [7] ex_world)
    as (H1 & H2 & _); [discriminate|vm_compute; reflexivity|vm_compute; reflexivity|exact H|].
  split; [exact H1|exact H2].
Defined.

Definition ex_times (k : nat) : Z := Z.of_nat k + 1.

Lemma ex_ready : ready ex_dir ex_times ex_date ex_fs.
Proof.
  split.
  - assert (map_Forall (fun p nd => match nd with File _ _ => below p (BACKUP_DIR ex_dir) = false | Dir _ => True end) ex_fs) as H
      by (unfold ex_fs; repeat (apply map_Forall_insert_2; [vm_compute; done|]); apply map_Forall_empty).
    intros q c _ Hq [t Ht]%look_file. specialize (H _ _ Ht). cbv beta match in H. congruence.
  - vm_compute. reflexivity.
  - assert (map_Forall (fun p (_ : node) => below (BACKUP_DIR ex_dir ++ [js "backup_" ++ getTimestamp ex_date]) p = false) ex_fs) as H
      by (unfold ex_fs; repeat (apply map_Forall_insert_2; [vm_compute; done|]); apply map_Forall_empty).
    intros p Hp. destruct (ex_fs !! p) eqn:E; [|done]. specialize (H _ _ E). cbn beta in H. congruence.
  - assert (map_Forall (fun (_ : path) nd => nd = Dir 0 \/ exists c, nd = File c 0) ex_fs) as H
      by (unfold ex_fs; repeat (apply map_Forall_insert_2; [by eauto|]); apply map_Forall_empty).
    intros n k _ _ [nd Hn]. unfold mtime_at. rewrite Hn. specialize (H _ _ Hn). unfold ex_times.
    destruct H as [->|[c ->]]; lia.
Qed.

Lemma backup_restore_roundtrip_witness :
  let b := performBackup ex_dir fine ex_times id (fun _ => []) (fun _ => []) ex_date ex_world in
  let damaged := {| files := delete (ex_dir ++ [ex_script]) (files (fst b)); ops := ops (fst b) |} in
  look (files (fst (restoreFile ex_dir fine ex_times (fun _ => []) (js "backup_20260726_150001") ex_script damaged)))
    (ex_dir ++ [ex_script]) = Some (Some [1; 2; 3]).
Proof.
  intros b damaged.
  refine (proj2 (proj2 (backup_restore_roundtrip ex_dir fine ex_times id (fun _ => []) (fun _ => []) (fun _ => eq_refl)
    id_perm ex_date ex_world damaged ex_script [1; 2; 3] _ ex_date_valid ex_ready _ _ _ _ _ _))).
  - discriminate.
  - vm_compute. reflexivity.
  - vm_compute. reflexivity.
  - intros q Hq. apply look_delete_ne. intros <-. vm_compute in Hq. discriminate.
  - vm_compute. reflexivity.
  - vm_compute. reflexivity.
  - vm_compute. reflexivity.
Defined.

Lemma log_plain : plain_name (js "backup.log").
Proof. split; [repeat constructor; discriminate|done]. Qed.

Lemma backup_is_listed_witness :
  let b := performBackup ex_dir fine ex_times id (fun _ => []) (fun _ => []) ex_date ex_world in
  exists shown w' x, listBackups ex_dir fine ex_times id (fun _ => []) (fst b) = (w', Ok (Some shown)) /\ x ∈ shown /\
    l_name x = js "backup_20260726_150001" /\ l_counts x = Some (js "1", js "4").
Proof.
  refine (backup_is_listed ex_dir fine ex_times id (fun _ => []) (fun _ => []) (fun _ => eq_refl) id_perm ex_date ex_world
    (fst (performBackup ex_dir fine ex_times id (fun _ => []) (fun _ => []) ex_date ex_world)) ex_date_valid ex_ready _ _).
  - exact (fun _ _ => eq_refl).
  - assert (forallb (fun n => isSafeBackupName n || str_eqb n (js "backup.log")) (entries (BACKUP_DIR ex_dir)
      (files (fst (performBackup ex_dir fine ex_times id (fun _ => []) (fun _ => []) ex_date ex_world)))) = true) as H
      by (vm_compute; reflexivity).
    intros n Hn%list_elem_of_In. rewrite forallb_forall in H. specialize (H n Hn).
    apply orb_true_iff in H as [H| ->%str_eqb_spec]; [exact (safe_name_plain n H)|exact log_plain].
Defined.
