(* ===== verification/HashDomainCheck.v ===== *)
(** * The hash-domain check script

    [scripts/check_proxy_hashdomain.js] keeps copies of the proxy's job and
    header functions and asserts, on one template, that they produce the node's
    canonical RandomX input.  [checks] is the script's body as a function of its
    constants, so that what it tests once can be proved for every template. *)

From Stdlib Require Import ZArith Lia Bool String.
From stdpp Require Import base list numbers option.
From S2P Require Import Prelude JsNum JsNumFacts Bytes JsStr JsValue Libs ProxyCodec Consensus ProxyCodecFacts.

Open Scope Z_scope.


Definition VERSION_SER : jstr := js "00000020".
Definition PREV_SER : jstr := repeat_str (js "aabb") 16.
Definition MERKLE_SER : jstr := repeat_str (js "1122") 16.
Definition NBITS_SER : jstr := js "40341717".
Definition NONCE_SER : jstr := js "0000beef".
Definition NTIME_VALUE : Z := 0x5f3759d1.

(** [hex.match(/.{2}/g).reverse().join('')]. *)
Definition reverseHex (hex : val) : res jstr :=
  match hex with
  | VStr s => match match_dot2 s with
              | Some ps => Ok (mjoin (rev ps))
              | None => Throw TypeError
              end
  | _ => Throw TypeError
  end.

Definition u32ToLEHex (value : val) : res jstr :=
  x ← to_number value;
  b ← writeUInt32BE (replicate 4 0) (to_uint32 x) 0;
  reverseHex (VStr (to_hex b)).

Definition template (prev_ser merkle_ser bits : jstr) (ntime : Z) : res val :=
  prev ← reverseHex (VStr prev_ser);
  merkle ← reverseHex (VStr merkle_ser);
  Ok (VObj [(js "previousblockhash", VStr prev); (js "merkleroot", VStr merkle);
            (js "bits", VStr bits); (js "curtime", VNum (num_of_Z ntime))]).

Definition createJobBlob (tpl : val) : res jstr :=
  let version := js "00000020" in
  ph ← get tpl (js "previousblockhash");
  prevhash ← reverseHex ph;
  m ← get tpl (js "merkleroot");
  merkleLE ← reverseHex m;
  ct ← get tpl (js "curtime");
  ntimeLE ← u32ToLEHex (or_else ct (VNum zero));
  bits ← get tpl (js "bits");
  nbits ← reverseHex bits;
  Ok (version ++ prevhash ++ merkleLE ++ ntimeLE ++ nbits ++ js "00000000" ++ repeat_str (js "00") 32).

Definition buildHeader112 (jb nonceHex ntimeHex : jstr) : res jstr :=
  ntimeLE ← u32ToLEHex (VNum (match parseInt16 ntimeHex with Some n => num_of_Z n | None => NaN end));
  let prefix := substring jb 0 136 in
  let nbits := substring jb 144 152 in
  Ok (prefix ++ ntimeLE ++ nbits ++ toLowerCase nonceHex ++ repeat_str (js "00") 32).

(** [assert.strictEqual] on strings and on lengths. *)
Definition strictEqual (a b : jstr) : res unit := if str_eqb a b then Ok tt else Throw RuntimeError.
Definition strictLength (a : jstr) (n : nat) : res unit := if (length a =? n)%nat then Ok tt else Throw RuntimeError.

Definition checks (prev_ser merkle_ser bits nbits_ser nonce_ser : jstr) (ntime : Z) : res unit :=
  tpl ← template prev_ser merkle_ser bits ntime;
  jb ← createJobBlob tpl;
  let ntime_hex_be := padStart (toString16 ntime) 8 48 in
  proxy112 ← buildHeader112 jb nonce_ser ntime_hex_be;
  t ← u32ToLEHex (VNum (num_of_Z ntime));
  let ref := VERSION_SER ++ prev_ser ++ merkle_ser ++ t ++ nbits_ser ++ nonce_ser ++ repeat_str (js "00") 32 in
  _ ← strictLength proxy112 224;
  _ ← strictLength ref 224;
  _ ← strictEqual proxy112 ref;
  t ← u32ToLEHex (VNum (num_of_Z ntime));
  _ ← strictEqual (substring proxy112 136 144) t;
  _ ← strictEqual (substring proxy112 152 160) nonce_ser;
  let header80 := substring proxy112 0 160 in
  _ ← strictLength header80 160;
  strictEqual (substring header80 0 8) (js "00000020").

Definition main : res unit := checks PREV_SER MERKLE_SER (js "17173440") NBITS_SER NONCE_SER NTIME_VALUE.

(** ** The copies agree with the proxy *)

Lemma createJobBlob_proxy tpl m :
  get tpl (js "merkleroot") = Ok m -> truthy m = true -> createJobBlob tpl = job_blob tpl.
Proof.
  intros Hm Ht. unfold createJobBlob, job_blob. rewrite Hm. cbn [mbind res_bind]. rewrite Ht. reflexivity.
Qed.

Lemma buildHeader112_proxy jb ns ts :
  re_hex 8 ns = true -> re_hex 8 ts = true ->
  ProxyCodec.buildHeader112 jb (VStr ns) (VStr ts) = (h ← buildHeader112 jb ns ts; Ok (Some h)).
Proof.
  intros Hn Ht. unfold ProxyCodec.buildHeader112, buildHeader112. cbn [to_string mbind res_bind]. rewrite Hn, Ht. cbn [negb].
  change u32ToLEHex with ProxyCodec.u32ToLEHex. by destruct (ProxyCodec.u32ToLEHex _).
Qed.
(** The assertions hold of a string that splits as the header does. *)
Lemma strictEqual_refl a : strictEqual a a = Ok tt.
Proof. unfold strictEqual. by rewrite str_eqb_refl. Qed.

Lemma strictLength_ok a n : length a = n -> strictLength a n = Ok tt.
Proof. intros <-. unfold strictLength. by rewrite Nat.eqb_refl. Qed.

Definition header_text (prev merkle : bytes) (time bits : Z) (nonce : bytes) : jstr :=
  to_hex (SerializeRandomXHeader (proxy_header prev merkle time bits (le_value nonce))).

Lemma header_text_split prev merkle time bits nonce :
  length nonce = 4%nat -> Forall is_byte nonce ->
  header_text prev merkle time bits nonce =
  (VERSION_SER ++ to_hex prev ++ to_hex merkle) ++ to_hex (le_bytes 4 time) ++ to_hex (le_bytes 4 bits) ++ to_hex nonce ++ zero32.
Proof.
  intros Hl Hb. unfold header_text. rewrite Serialize_split, !to_hex_app, zero32_null. unfold prefix68, ser32.
  rewrite !to_hex_app. rewrite <- Hl at 4. rewrite le_bytes_value by done. done.
Qed.

Lemma template_ok prev merkle time bits :
  is_u256 prev -> is_u256 merkle -> is_u32 time -> is_u32 bits ->
  exists tpl, template (to_hex prev) (to_hex merkle) (hex_fixed 8 bits) time = Ok tpl /\
    template_of tpl prev merkle time bits /\ get tpl (js "merkleroot") = Ok (VStr (GetHex merkle)).
Proof.
  intros [Lp Hp] [Lm Hm] Ht Hb. unfold template. change reverseHex with ProxyCodec.reverseHex.
  rewrite !reverseHex_to_hex by (done || (intros ->; done)). cbn [mbind res_bind].
  eexists. split; [reflexivity|]. split; [|reflexivity]. by split; try reflexivity; try (left; reflexivity).
Qed.

Lemma check_header_ok prev merkle time bits nonce :
  is_u256 prev -> is_u256 merkle -> is_u32 time -> length nonce = 4%nat -> Forall is_byte nonce ->
  buildHeader112 (to_hex (SerializeRandomXHeader (proxy_header prev merkle time bits 0))) (to_hex nonce) (hex_fixed 8 time) =
  Ok (header_text prev merkle time bits nonce).
Proof.
  intros Op Om Ht Hl Hb. assert (re_hex 8 (to_hex nonce) = true) as Hn.
  { apply re_hex_spec. rewrite length_to_hex, Hl. split; [done|]. by apply to_hex_is_hex. }
  assert (re_hex 8 (hex_fixed 8 time) = true) as Ht8 by (apply re_hex_spec; split; [apply length_hex_fixed|apply hex_fixed_hex]).
  pose proof (buildHeader112_serializes prev merkle time bits _ _ Op Om Hn Ht8) as E.
  rewrite buildHeader112_proxy in E by done. rewrite from_to_hex in E by done.
  rewrite (hex_fixed_be_bytes 4), hex_value_to_hex, be_value_bytes in E by (done || auto with js).
  rewrite (hex_fixed_be_bytes 4). destruct (buildHeader112 _ _ _) as [h|]; [|done].
  cbn [mbind res_bind] in E. by injection E as ->.
Qed.

Lemma lookup_fields (P T B N Z32 : jstr) :
  length P = 136%nat -> length T = 8%nat -> length B = 8%nat -> length N = 8%nat -> length Z32 = 64%nat ->
  let h := P ++ T ++ B ++ N ++ Z32 in
  length h = 224%nat /\ substring h 136 144 = T /\ substring h 152 160 = N /\ length (substring h 0 160) = 160%nat /\
  substring (substring h 0 160) 0 8 = take 8 P.
Proof.
  intros LP LT LB LN LZ h. subst h. split_and!.
  - rewrite !length_app, LP, LT, LB, LN, LZ. done.
  - rewrite substring_app_r by lia. rewrite LP, substring_app_l, substring_all by (rewrite ?LT; lia). done.
  - rewrite substring_app_r by lia. rewrite LP, substring_app_r by lia. rewrite LT, substring_app_r by lia.
    rewrite LB, substring_app_l, substring_all by (rewrite ?LN; lia). done.
  - unfold substring. rewrite length_take, drop_0, !length_app, LP, LT, LB, LN, LZ. done.
  - unfold substring. cbn [Nat.min Nat.max Nat.sub]. rewrite !drop_0, take_take. change (8 `min` 160)%nat with 8%nat.
    by rewrite take_app_le by lia.
Qed.

(** What the script asserts on its one template holds on all: for every
    previous hash, merkle root, time, compact target and nonce, every assertion
    of the script succeeds. *)
Theorem checks_hold_for_every_template prev merkle time bits nonce :
  is_u256 prev -> is_u256 merkle -> is_u32 time -> is_u32 bits -> length nonce = 4%nat -> Forall is_byte nonce ->
  checks (to_hex prev) (to_hex merkle) (hex_fixed 8 bits) (to_hex (le_bytes 4 bits)) (to_hex nonce) time = Ok tt.
Proof.
  intros Op Om Ot Ob Ln Hn. destruct (template_ok prev merkle time bits Op Om Ot Ob) as (tpl & E1 & E2 & E3).
  unfold checks. rewrite E1. cbn [mbind res_bind]. rewrite (createJobBlob_proxy tpl _ E3).
  2: { cbn. pose proof (GetHex_ne merkle Om). by destruct (GetHex merkle). }
  rewrite (job_blob_serializes _ _ _ _ _ E2). cbn [mbind res_bind]. cbv zeta.
  rewrite padStart_toString16 by (unfold is_u32 in *; lia). rewrite check_header_ok by done. cbn [mbind res_bind].
  change u32ToLEHex with ProxyCodec.u32ToLEHex. rewrite u32ToLEHex_num by done. cbn [mbind res_bind].
  destruct Op as [Lp _], Om as [Lm _]. rewrite header_text_split by done.
  destruct (lookup_fields (VERSION_SER ++ to_hex prev ++ to_hex merkle) (to_hex (le_bytes 4 time)) (to_hex (le_bytes 4 bits))
              (to_hex nonce) zero32) as (F1 & F2 & F3 & F4 & F5); rewrite ?length_app, ?length_to_hex, ?length_le_bytes, ?Lp, ?Lm, ?Ln; try done.
  rewrite F2, F3, F5, !(strictLength_ok _ _ F1), (strictLength_ok _ _ F4). cbn [mbind res_bind].
  change (repeat_str (js "00") 32) with zero32. rewrite !app_assoc, !strictEqual_refl. cbn [mbind res_bind].
  rewrite !app_assoc in F1. by rewrite (strictLength_ok _ _ F1).
Qed.

(** Where the copies and the proxy agree and where they do not.  On a template with a
    merkle root the script's job blob is the proxy's, and on eight-digit nonces
    and times its header is the proxy's; on a template without one, such as the
    node sends, the script's copy throws where the proxy's goes on. *)
Theorem copies_vs_proxy tpl m :
  get tpl (js "merkleroot") = Ok m ->
  (truthy m = true -> createJobBlob tpl = job_blob tpl) /\
  (forall jb ns ts, re_hex 8 ns = true -> re_hex 8 ts = true ->
     ProxyCodec.buildHeader112 jb (VStr ns) (VStr ts) = (h ← buildHeader112 jb ns ts; Ok (Some h))) /\
  (forall prev time bits, m = VUndef -> template_of tpl prev null256 time bits ->
     createJobBlob tpl = Throw TypeError /\
     job_blob tpl = Ok (to_hex (SerializeRandomXHeader (proxy_header prev null256 time bits 0)))).
Proof.
  intros Hm. split; [by apply createJobBlob_proxy|]. split; [by apply buildHeader112_proxy|].
  intros prev time bits -> Ht. split; [|by apply job_blob_serializes].
  unfold createJobBlob. rewrite Hm, (t_prev _ _ _ _ _ Ht). cbn [mbind res_bind]. change reverseHex with ProxyCodec.reverseHex.
  rewrite reverseHex_GetHex by apply Ht. done.
Qed.

(** ** Witnesses *)

(** The script's own run. *)
Lemma checks_hold_for_every_template_witness : main = Ok tt.
Proof.
  exact (checks_hold_for_every_template (from_hex PREV_SER) (from_hex MERKLE_SER) NTIME_VALUE 0x17173440 [0; 0; 190; 239]
    ltac:(split; [reflexivity|apply from_hex_byte]) ltac:(split; [reflexivity|apply from_hex_byte])
    ltac:(unfold is_u32, NTIME_VALUE; lia) ltac:(unfold is_u32; lia) eq_refl ltac:(repeat constructor; unfold is_byte; lia)).
Defined.

Definition bare_template : val :=
  VObj [(js "previousblockhash", VStr (GetHex null256)); (js "bits", VStr (hex_fixed 8 0x17173440));
        (js "curtime", VNum (num_of_Z NTIME_VALUE))].

Lemma copies_vs_proxy_witness :
  createJobBlob bare_template = Throw TypeError /\
  job_blob bare_template =
    Ok (to_hex (SerializeRandomXHeader (proxy_header null256 null256 NTIME_VALUE 0x17173440 0))).
Proof.
  apply (proj2 (proj2 (copies_vs_proxy bare_template VUndef eq_refl))); [reflexivity|].
  split; try reflexivity; try apply null256_bytes; try (unfold is_u32, NTIME_VALUE; lia). right. split; reflexivity.
Defined.

